(* ===== verification/_CoqProject ===== *)
-Q . S2P
Prelude.v
Ieee.v
CoreTypes.v
Errors.v
DecisionTypes.v
RuleEngine.v
RuleTree.v
StateStore.v
ExternalStore.v
Threshold.v
Evaluators.v
Plugin.v
ShuffleShard.v
TokenBucket.v
TenantRouter.v
FleetRouter.v
Config.v
Stages.v
InferenceWorkers.v
EmitStage.v
PolicyStage.v
RunEvent.v
Pipeline.v
SyncSubmit.v
StopToken.v
Mixed.v
DuckDb.v
DuckDbStore.v
Archive.v
Handles.v
WriteBack.v
WriteBackFlush.v
Json.v
Serializer.v
Http.v
Harness.v
ServiceLife.v
Service.v
Main.v
Logging.v
Onnx.v
Concepts.v
Scenario.v
MultiDecision.v
Examples.v
Detection.v
AuditLog.v
