(* ===== verification/Prelude.v ===== *)
(** * fre-framework: a verification development

    The framework runs events through a pipeline of stages and hands the
    decision on each event to emission targets.  A client builds a
    [PipelineConfig], starts a [Pipeline] and submits events; the tenant router
    limits the rate per tenant and picks a strand; a coroutine on that strand
    takes the event through the ingest, evaluation, inference and policy stages
    and emits the decision.  Evaluators keep windows of counts in state stores.
    This library models that code as functions on explicit states and as step
    relations, and proves what makes each part correct.  Headers are named
    relative to include/fre/, other sources from the root of the repository.

    ** How code is rendered

    - Integers are [Z] with the wrap-around or the overflow written out; signed
      overflow, null dereferences and loops that do not end make a call answer
      [None].  Floats are the binary64 and binary32 numbers of Ieee.v.
    - [std::expected] is [expected], a call that may throw answers an [outcome],
      code that reads clocks, calls user code or waits is a function in the monad
      [M W] over an abstract world [W]; what it needs of the world is a class
      ([Clock], [Workers], [SyncWorld], [RangeQueryStore], [DynamicLinker],
      [DuckDbEngine], [HttpSocket], [OrtRuntime], [Spdlog]), whose laws are a
      second class ([TimedWorkers], [SyncWorldLaws], [DuckDbLaws], ...).  The
      JSON library is the class [JsonLibrary] with [JsonLaws].
    - [std::sort] and [std::hash] are any functions with the documented
      properties ([StdSort], [StdHash]).
    - Loops without a structural bound take fuel; a theorem states the fuel that
      is enough, and running out is a value of its own.
    - Threads interleave at the steps of a relation; reachability and rule
      induction give the invariants.

    ** Files

    - Prelude.v: monads, classes, machine integers, standard algorithms, shared
      lemmas.  Ieee.v: floating point, [strtod], formatting of doubles.
    - CoreTypes.v (core/verdict.hpp, event.hpp, decision.hpp) and Errors.v
      (core/error.hpp, src/pipeline/error.cpp): data and messages.
    - DecisionTypes.v (core/decision_type.hpp, src/pipeline/decision_type.cpp):
      the registry of decision types, its invariant, registration, and the
      active decisions of a decision.
    - RuleEngine.v (src/policy/rule_engine.cpp): rules are evaluated as they are
      documented ([documented]) on contexts of which the documentation says one
      thing ([unambiguous]), and examples of where code and documentation differ;
      [holds] is what the branches decide on any context.  RuleTree.v: rules
      as objects of a heap that own their children; copies are deep, moves
      hand over, and nothing is leaked or freed twice.
    - StateStore.v (state/window_store.hpp, src/state/window_store.cpp): the
      class [StateStore] with the laws clients rely on, and the sharded
      in-process store, which refines one map and implements the class.
      ExternalStore.v (src/state/external_store.cpp): the store that falls back
      to it.
    - DuckDb.v (src/state/duckdb_window_store.cpp): the persistent store over a
      class of SQL statements and its laws.  DuckDbStore.v: it implements the
      class [StateStore]; batches and compare_and_swap are atomic whatever
      statement fails; old epochs move to the archive; range queries sum rows.
      Archive.v: moving epochs to the archive changes no sum.  Handles.v: the same
      operations with the owners of the library's handles; they do what DuckDb.v
      says, use open handles only and leave none open.
    - WriteBack.v (src/state/write_back_window_store.cpp): the in-process store
      that marks what it must still write to the database.  Once loaded it answers
      like one map however the database fails, and the values of keys that were
      not expired survive a restart if the last flush works.  WriteBackFlush.v: writers and
      flushes interleaved; one flush at a time loses nothing, two can.
    - Threshold.v (evaluator/threshold_evaluator.hpp), proved against the class:
      counts, flags, and no lost update under interleaving.  Evaluators.v: allow
      and deny lists, and history over windows.  Plugin.v (core/plugin_abi.h,
      src/evaluator/plugin_loader.cpp): every resource of a plugin is released.
    - ShuffleShard.v, TokenBucket.v, TenantRouter.v
      (src/sharding/tenant_router.cpp, sharding/hash_seeds.hpp) and FleetRouter.v
      (service/src/fleet_router.cpp): the K-of-N assignment and where it ends or
      diverges, the lock-free bucket at the level of its atomic actions, slots
      per tenant, and the owners of a tenant.
    - Config.v (pipeline/pipeline_config.hpp, src/pipeline/pipeline_config.cpp):
      the builder against the contract of the configuration ([contract_valid]):
      what it accepts, what it overlooks, and the error of each refusal.
    - Stages.v (ingest, evaluation, inference), EmitStage.v and PolicyStage.v
      (src/stage/): each stage on every branch, the ends of its loops, and its
      failure modes.  InferenceWorkers.v: the threads of the inference stage and
      the locals they refer to.
    - RunEvent.v ([run_event] of src/pipeline/pipeline.cpp): an event becomes one
      decision over all stages, or is rejected as invalid in a synchronous run,
      when no evaluator throws.  Pipeline.v (the class [Pipeline]): every
      interleaving of submissions, strands, drains and restarts accounts for
      every event and keeps the order of each tenant; what drains and concurrency
      caps do.  SyncSubmit.v ([submit_sync]): caller and coroutine agree on
      whether a decision was made, and when the caller may be ahead of the
      emission.  StopToken.v: the stop state that sources and
      tokens share.  Mixed.v (both together): any number of calls
      of [submit] and [submit_sync] on one pipeline; every accepted event is
      accounted for, and a caller is told what was emitted.
    - Logging.v (src/pipeline/logging.cpp): loggers with their levels, the audit
      line, and the bounded queue between a post and its writing.  AuditLog.v
      (the call of [log_audit] in [run_event]): with deciding and emitting as
      separate steps, every decision is given to [log_audit] before it is emitted,
      in the same order per strand; its record is posted if the level lets it
      through, and written if the queue never overruns.
    - Json.v: the interface to the JSON library.  Serializer.v
      (src/service/decision_serializer.cpp): a written decision is read back.
    - Http.v, Harness.v, Service.v (service/src/harness.cpp): request and response
      texts; one connection and the few effects it can have; start, stop, and
      connections interleaved with the threads of the pipeline, where every
      accepted request is one event the pipeline accounts for.  ServiceLife.v: main,
      the accepting thread and the connections, and which of them outlive what
      they refer to.  Main.v
      (service/src/main.cpp): what [main] serves is such a service, and how it ends.
    - Onnx.v (src/evaluator/onnx_inference_evaluator.cpp): an evaluator of an
      inference stage.
    - Concepts.v (core/concepts.hpp): the concepts of evaluators and targets as
      classes, the library's types as their instances, the contracts they keep.
    - Scenario.v: lemmas about whole runs, shared by the files below: how a run of
      an event is put together, what rules without clocks say, what a client sees
      that submits and drains.
    - Detection.v: a pipeline with a threshold evaluator over any state store; each
      window is counted and flagged exactly.
    - MultiDecision.v (examples/multi_decision_pipeline/main.cpp) and Examples.v
      (examples/minimal_pipeline/main.cpp, examples/ml_pipeline/main.cpp): the
      example programs from their evaluators to their [main]; what they decide is
      what their comments announce, for the events whose coroutines run before a
      drain gives up.

    ** Fuel

    The assignment loop ends within 9 + N/2 turns for a power of two N and K at
    most N/2 ([assign_fuel]); the inference loop polls every 100 microseconds,
    so 10 * timeout + 1 rounds reach its deadline ([await_fuel]); the emit loop
    runs at most retry_limit + 2 rounds ([emit_fuel]); [submit_sync] polls every
    5 ms of its budget ([poll_fuel]); copies and destructions of a rule go as deep
    as the rule ([rule_depth]).

    ** Not modelled

    Of the logging what only calls the library.  The Redis backend is a stub in
    the source and modelled as that.  The test harness the ML example drives is an
    interface, as the repository lacks it.  In Detection.v and in the examples the
    stages of a task are one step; evaluations that interleave on one window are
    Threshold.v's.
    In Service.v connections are steps that come in any order and their calls of
    the pipeline are whole, so a drain comes when no event is being run; the
    accept loop and [run] are ServiceLife.v's, which leaves out what connections
    answer.  Whether closing the acceptor throws and whether the accept thread
    then ends is up to the class [HttpListener]; [main_end] is what [main] does
    once the connections are over, ServiceLife.v has those that are not.  Handles.v takes the calls of a store one after the other.  Exceptions
    of the file system and failing allocations are not modelled.  Atomic
    read-modify-write operations and critical sections are single steps, and so is
    a call of the tenant router within the pipeline; weak memory orders are not
    modelled. *)

From stdpp Require Export base numbers list strings gmap sorting pretty.
From Stdlib Require Export ZArith Lia.

(** ** Scope and notations of the development *)

Declare Scope fre_scope.
Delimit Scope fre_scope with fre.

(** [std::expected<T, E>]. *)
Inductive expected (T E : Type) : Type :=
| Ok (v : T)
| Unexpected (e : E).

Arguments Ok {T E} v.
Arguments Unexpected {T E} e.

Definition has_value {T E : Type} (r : expected T E) : bool :=
  match r with Ok _ => true | Unexpected _ => false end.

(** A call that may also leave by an exception; [what] is [e.what()]. *)
Inductive outcome (A : Type) : Type :=
| Returned (a : A)
| Threw (what : string).

Arguments Returned {A} a.
Arguments Threw {A} what.

(** Code that reads clocks, calls user callbacks or writes to stores threads a
    world [W] explicitly. *)
Definition M (W A : Type) : Type := W -> A * W.

Definition retM {W A : Type} (a : A) : M W A := fun w => (a, w).

Definition bindM {W A B : Type} (m : M W A) (k : A -> M W B) : M W B :=
  fun w => let '(a, w1) := m w in k a w1.

Notation "'do' x <- m ; k" := (bindM m (fun x => k))
  (at level 200, x pattern, m at level 100, k at level 200, right associativity) : fre_scope.
Open Scope fre_scope.

(** Sequencing of calls that may throw: an exception skips the rest. *)
Definition bindX {W A B : Type} (m : M W (outcome A)) (k : A -> M W (outcome B)) : M W (outcome B) :=
  fun w => match m w with
           | (Returned a, w1) => k a w1
           | (Threw what, w1) => (Threw what, w1)
           end.

Notation "'call' x <- m ; k" := (bindX m (fun x => k))
  (at level 200, x pattern, m at level 100, k at level 200, right associativity) : fre_scope.

(** [std::printf], [std::cout]: text on the standard output. *)
Class Stdout (W : Type) : Type := { print : string -> M W unit }.

(** ** Clocks

    [std::chrono::steady_clock::now()], [std::chrono::system_clock::now()]
    (nanosecond ticks) and [std::this_thread::sleep_for] (nanoseconds). *)
Class Clock (W : Type) : Type := {
  steady_now : M W Z;
  system_now : M W Z;
  sleep_for : Z -> M W unit
}.

(** Durations: the code stores milliseconds and microseconds, the clocks tick
    in nanoseconds. *)
Definition ns_per_us : Z := 1000.
Definition ns_per_ms : Z := 1000000.

(** ** Machine integers *)

Definition u16_mod : Z := 2 ^ 16.
Definition u32_mod : Z := 2 ^ 32.
Definition u64_mod : Z := 2 ^ 64.
Definition wrap_u32 (z : Z) : Z := z mod u32_mod.
Definition wrap_u64 (z : Z) : Z := z mod u64_mod.

(** [duration_cast<microseconds>(end - start).count()] cast to [uint64_t];
    the cast truncates towards zero. *)
Definition elapsed_us_of (start stop : Z) : Z :=
  wrap_u64 (Z.quot (stop - start) ns_per_us).

(** ** Standard algorithms the code uses *)

(** [std::sort] with comparator [lt]: all that the standard promises is a
    permutation in which no element precedes a strictly smaller one, for a
    comparator that is a strict weak ordering. *)
Definition not_after {A : Type} (lt : A -> A -> bool) (x y : A) : Prop := lt y x = false.

Record StrictWeakOrder {A : Type} (lt : A -> A -> bool) : Prop := {
  swo_irrefl : forall x, lt x x = false;
  swo_trans : forall x y z, lt x y = true -> lt y z = true -> lt x z = true;
  swo_incomp : forall x y z, lt x y = false -> lt y z = false -> lt x z = false
}.

Class StdSort : Type := {
  std_sort : forall {A : Type}, (A -> A -> bool) -> list A -> list A;
  std_sort_perm : forall {A : Type} (lt : A -> A -> bool) (l : list A),
    std_sort lt l ≡ₚ l;
  std_sort_sorted : forall {A : Type} (lt : A -> A -> bool) (l : list A),
    StrictWeakOrder lt -> StronglySorted (not_after lt) (std_sort lt l)
}.

(** [std::hash<std::string>] and [std::hash<std::string_view>] (equal on equal
    characters): some function into [size_t]. *)
Class StdHash : Type := {
  std_hash : string -> Z;
  std_hash_range : forall s, (0 <= std_hash s < u64_mod)%Z
}.

(** Stable insertion sort, one admissible [std::sort]. *)
Fixpoint insertion_insert {A : Type} (lt : A -> A -> bool) (x : A) (l : list A) : list A :=
  match l with
  | [] => [x]
  | y :: l' => if lt y x then y :: insertion_insert lt x l' else x :: y :: l'
  end.

Fixpoint insertion_sort {A : Type} (lt : A -> A -> bool) (l : list A) : list A :=
  match l with
  | [] => []
  | x :: l' => insertion_insert lt x (insertion_sort lt l')
  end.

(** [std::lower_bound] on a random-access range, the halving loop of the
    standard library: [first] is the start of the range still searched and
    [len] its length.  [fuel] bounds the number of halvings. *)
Fixpoint lower_bound_loop {A : Type} (before : A -> bool) (l : list A)
    (fuel first len : nat) : nat :=
  match fuel with
  | O => first
  | S fuel' =>
      match len with
      | O => first
      | S _ =>
          let half := Nat.div2 len in
          let middle := (first + half)%nat in
          match l !! middle with
          | Some x =>
              if before x
              then lower_bound_loop before l fuel' (S middle) (len - half - 1)%nat
              else lower_bound_loop before l fuel' first half
          | None => first
          end
      end
  end.

Definition lower_bound {A : Type} (before : A -> bool) (l : list A) : nat :=
  lower_bound_loop before l (S (length l)) 0 (length l).

(** [vector::insert(it, x)]. *)
Definition insert_at {A : Type} (i : nat) (x : A) (l : list A) : list A :=
  take i l ++ x :: drop i l.

(** The first element satisfying a test, the shape of every
    [for (...) if (p(x)) return x;] loop of the code. *)
Fixpoint find_first {A : Type} (p : A -> bool) (l : list A) : option A :=
  match l with
  | [] => None
  | x :: l' => if p x then Some x else find_first p l'
  end.

Definition fnv_basis : Z := 14695981039346656037.

(** FNV-1a on 64 bits, one admissible hash. *)
Fixpoint fnv1a (acc : Z) (s : string) : Z :=
  match s with
  | EmptyString => acc
  | String c s' =>
      fnv1a (wrap_u64 (Z.lxor acc (Z.of_N (Ascii.N_of_ascii c)) * 1099511628211)) s'
  end.

(** [s.c_str()]: up to the first NUL. *)
Fixpoint c_str (s : string) : string :=
  match s with
  | EmptyString => EmptyString
  | String c s' => if Ascii.eqb c Ascii.zero then EmptyString else String c (c_str s')
  end.

(** [std::to_string] / [std::format("{}", n)] on an unsigned integer. *)
Definition to_string_Z (n : Z) : string := pretty (Z.to_N n).

(** A double quote inside a C++ raw string literal. *)
Definition newline : Ascii.ascii := Ascii.ascii_of_N 10.

Definition dquote : string := String (Ascii.ascii_of_N 34) EmptyString.

(** ** Tactics *)

Ltac unfold_M := unfold bindM, retM in *.

(** Split every pair produced by a world-threading call in the goal. *)
Ltac split_calls :=
  repeat match goal with
  | |- context [let '(_, _) := ?m in _] => destruct m eqn:?
  end.

Ltac bool_to_prop :=
  repeat match goal with
  | H : andb _ _ = true |- _ => apply andb_true_iff in H as [? ?]
  | H : orb _ _ = false |- _ => apply orb_false_iff in H as [? ?]
  | H : negb _ = true |- _ => apply negb_true_iff in H
  | H : negb _ = false |- _ => apply negb_false_iff in H
  | H : bool_decide _ = true |- _ => apply bool_decide_eq_true in H
  | H : bool_decide _ = false |- _ => apply bool_decide_eq_false in H
  end.

Create HintDb fre discriminated.
#[export] Hint Constants Opaque : fre.
#[export] Hint Variables Opaque : fre.

(** ** Lemmas: monad, search, sorting, ranges *)

Lemma append_nil_r (s : string) : s +:+ "" = s.
Proof. induction s as [|c s IH]; [done|]. by apply (f_equal (String c)). Qed.

Lemma append_assoc (a b c : string) : (a +:+ b) +:+ c = a +:+ (b +:+ c).
Proof. induction a as [|x a IH]; [done|]. by apply (f_equal (String x)). Qed.

Lemma append_length (a b : string) : String.length (a +:+ b) = (String.length a + String.length b)%nat.
Proof. induction a as [|x a IH]; [done|]. by apply (f_equal S). Qed.

Lemma append_inj_l (a x y : string) : a +:+ x = a +:+ y -> x = y.
Proof. induction a as [|c a IH]; [done|]. intros Heq. apply IH. by injection Heq. Qed.

Lemma append_inj_r (a b t : string) : a +:+ t = b +:+ t -> a = b.
Proof.
  revert b. induction a as [|c a IH]; intros [|c' b] Heq; [done|..].
  - apply (f_equal String.length) in Heq. rewrite !append_length in Heq. simpl in Heq. lia.
  - apply (f_equal String.length) in Heq. rewrite !append_length in Heq. simpl in Heq. lia.
  - injection Heq as -> Heq. f_equal. by apply IH.
Qed.

Lemma bindM_retM {W A B : Type} (a : A) (k : A -> M W B) : bindM (retM a) k = k a.
Proof. reflexivity. Qed.

Lemma find_first_Some {A : Type} (p : A -> bool) (l : list A) (x : A) :
  find_first p l = Some x -> x ∈ l /\ p x = true.
Proof.
  induction l as [|y l IH]; simpl; [done|].
  destruct (p y) eqn:Hp; [intros [= ->]; set_solver|].
  intros Hf; apply IH in Hf; set_solver.
Qed.

Lemma find_first_None {A : Type} (p : A -> bool) (l : list A) :
  find_first p l = None <-> forall x, x ∈ l -> p x = false.
Proof.
  induction l as [|y l IH]; simpl; [set_solver|].
  destruct (p y) eqn:Hp; [split; [done|intros Ha; rewrite Ha in Hp; set_solver]|].
  rewrite IH. split; [intros Ha x [->|]%elem_of_cons; auto | set_solver].
Qed.

Lemma find_first_split {A : Type} (p : A -> bool) (l : list A) (x : A) :
  find_first p l = Some x <->
  exists l1 l2, l = l1 ++ x :: l2 /\ p x = true /\ forall y, y ∈ l1 -> p y = false.
Proof.
  split.
  - induction l as [|y l IH]; simpl; [done|].
    destruct (p y) eqn:Hp.
    + intros [= ->]. exists [], l. set_solver.
    + intros Hf. destruct (IH Hf) as (l1 & l2 & -> & Hx & Hl). exists (y :: l1), l2.
      split_and!; [done|done|]. intros z [->|]%elem_of_cons; auto.
  - intros (l1 & l2 & -> & Hx & Hl).
    induction l1 as [|y l1 IH]; simpl; [by rewrite Hx|].
    rewrite Hl by set_solver. apply IH. set_solver.
Qed.

Lemma find_first_existsb {A : Type} (p : A -> bool) (l : list A) :
  existsb p l = match find_first p l with Some _ => true | None => false end.
Proof. induction l as [|y l IH]; simpl; [done|]. by destruct (p y). Qed.

Lemma existsb_elem_of {A : Type} (p : A -> bool) (l : list A) :
  existsb p l = true <-> exists x, x ∈ l /\ p x = true.
Proof. rewrite existsb_exists. by setoid_rewrite list_elem_of_In. Qed.

Lemma existsb_not_elem_of {A : Type} (p : A -> bool) (l : list A) :
  existsb p l = false <-> forall x, x ∈ l -> p x = false.
Proof.
  rewrite <- find_first_None, find_first_existsb. by destruct (find_first p l).
Qed.

Lemma filter_all {A : Type} (P : A -> Prop) `{forall x, Decision (P x)} (l : list A) :
  Forall P l -> filter P l = l.
Proof.
  induction 1 as [|x l Hx _ IH]; [done|]. by rewrite filter_cons_True, IH by done.
Qed.

(** Filters over a list with one element taken out. *)
Lemma filter_none {A : Type} (P : A -> Prop) `{forall x, Decision (P x)} (l : list A) :
  (forall x, x ∈ l -> ~ P x) -> filter P l = [].
Proof.
  induction l as [|x l IH]; intros Hl; [done|]. rewrite filter_cons_False by (apply Hl; left).
  apply IH. intros y Hy. apply Hl. by right.
Qed.

Lemma filter_delete_other {A : Type} (P : A -> Prop) `{forall x, Decision (P x)} (l : list A) i x :
  l !! i = Some x -> ~ P x -> filter P (delete i l) = filter P l.
Proof.
  intros Hi Hx. rewrite delete_take_drop. rewrite <- (take_drop_middle l i x Hi) at 3.
  by rewrite !filter_app, filter_cons_False.
Qed.

Lemma filter_delete_first {A : Type} (P : A -> Prop) `{forall x, Decision (P x)} (l : list A) i x :
  l !! i = Some x -> P x -> (forall j y, (j < i)%nat -> l !! j = Some y -> ~ P y) ->
  filter P l = x :: filter P (delete i l).
Proof.
  intros Hi Hx Hfirst. rewrite delete_take_drop. rewrite <- (take_drop_middle l i x Hi) at 1.
  rewrite !filter_app, filter_cons_True by done.
  assert (Hnil : filter P (take i l) = []).
  { apply filter_none. intros y Hy.
    apply list_elem_of_lookup in Hy as [j Hj]. apply lookup_take_Some in Hj as [Hj Hlt]. by eapply Hfirst. }
  by rewrite Hnil.
Qed.

Lemma filter_map_comm {A B : Type} (f : A -> B) (P : B -> Prop) `{forall x, Decision (P x)} (l : list A) :
  filter P (map f l) = map f (filter (fun x => P (f x)) l).
Proof.
  induction l as [|x l IH]; [done|]. cbn [map]. rewrite !filter_cons. destruct (decide (P (f x))); simpl; by rewrite IH.
Qed.

Lemma sublist_full {A : Type} (l k : list A) : l `sublist_of` k -> (length k <= length l)%nat -> l = k.
Proof.
  induction 1 as [|x l k Hs IH|x l k Hs IH]; intros Hl; simpl in *; [done|by rewrite IH by lia|].
  apply sublist_length in Hs. lia.
Qed.

Lemma insertion_insert_perm {A : Type} (lt : A -> A -> bool) (x : A) (l : list A) :
  insertion_insert lt x l ≡ₚ x :: l.
Proof.
  induction l as [|y l IH]; simpl; [done|].
  destruct (lt y x); [|done]. rewrite IH. apply Permutation_swap.
Qed.

Lemma insertion_sort_perm {A : Type} (lt : A -> A -> bool) (l : list A) :
  insertion_sort lt l ≡ₚ l.
Proof.
  induction l as [|x l IH]; simpl; [done|]. by rewrite insertion_insert_perm, IH.
Qed.

Lemma insertion_insert_sorted {A : Type} (lt : A -> A -> bool) (x : A) (l : list A) :
  StrictWeakOrder lt -> StronglySorted (not_after lt) l ->
  StronglySorted (not_after lt) (insertion_insert lt x l).
Proof.
  intros Hlt. induction 1 as [|y l Hl IH Hy]; simpl; [repeat constructor|].
  destruct (lt y x) eqn:Hyx.
  - constructor; [done|]. rewrite insertion_insert_perm. constructor; [|done].
    unfold not_after. destruct (lt x y) eqn:Hxy; [|done].
    pose proof (swo_trans _ Hlt _ _ _ Hxy Hyx) as Hxx. by rewrite swo_irrefl in Hxx.
  - constructor; [by constructor|]. constructor; [done|].
    eapply Forall_impl; [done|]. intros z Hz. unfold not_after in *.
    by eapply swo_incomp.
Qed.

Lemma insertion_sort_sorted {A : Type} (lt : A -> A -> bool) (l : list A) :
  StrictWeakOrder lt -> StronglySorted (not_after lt) (insertion_sort lt l).
Proof.
  intros Hlt. induction l; simpl; [constructor|]. by apply insertion_insert_sorted.
Qed.

#[export] Instance insertion_std_sort : StdSort := {
  std_sort := @insertion_sort;
  std_sort_perm := @insertion_sort_perm;
  std_sort_sorted := @insertion_sort_sorted
}.

Lemma StronglySorted_weaken {A : Type} (R S : A -> A -> Prop) (l : list A) :
  (forall x y, R x y -> S x y) -> StronglySorted R l -> StronglySorted S l.
Proof.
  intros HRS. induction 1 as [|x l Hl IH Hx]; constructor; [done|].
  eapply Forall_impl; eauto.
Qed.

Lemma wrap_u64_range (z : Z) : (0 <= wrap_u64 z < u64_mod)%Z.
Proof. apply Z.mod_pos_bound. done. Qed.

Lemma wrap_u32_range (z : Z) : (0 <= wrap_u32 z < u32_mod)%Z.
Proof. apply Z.mod_pos_bound. done. Qed.

Lemma fnv1a_range (s : string) (acc : Z) :
  (0 <= acc < u64_mod)%Z -> (0 <= fnv1a acc s < u64_mod)%Z.
Proof.
  revert acc. induction s as [|c s IH]; intros acc Hacc; [done|].
  apply IH, wrap_u64_range.
Qed.

Lemma fnv1a_basis_range (s : string) : (0 <= fnv1a fnv_basis s < u64_mod)%Z.
Proof. apply fnv1a_range. unfold fnv_basis, u64_mod. lia. Qed.

#[export] Instance fnv1a_hash : StdHash := {
  std_hash := fnv1a fnv_basis;
  std_hash_range := fnv1a_basis_range
}.

(** Ordering by a [Z] key, the only comparators the code sorts with. *)
Lemma key_swo {A : Type} (key : A -> Z) :
  StrictWeakOrder (fun x y => Z.ltb (key x) (key y)).
Proof.
  split; intros *; rewrite ?Z.ltb_lt, ?Z.ltb_ge; lia.
Qed.

(** What [lower_bound] guarantees on a range partitioned by [before]. *)
Definition partitioned_at {A : Type} (before : A -> bool) (l : list A) (n : nat) : Prop :=
  (n <= length l)%nat /\
  (forall i x, l !! i = Some x -> before x = true <-> (i < n)%nat).

Lemma lower_bound_loop_spec {A : Type} (before : A -> bool) (l : list A) n fuel first len :
  partitioned_at before l n -> (len < fuel)%nat ->
  (first <= n)%nat -> (n <= first + len)%nat -> (first + len <= length l)%nat ->
  lower_bound_loop before l fuel first len = n.
Proof.
  intros [Hn Hp]. revert first len.
  induction fuel as [|fuel IH]; intros first len Hf Hlo Hhi Hlen; [lia|].
  cbn [lower_bound_loop]. destruct len as [|len']; [lia|].
  pose proof (Nat.lt_div2 (S len') ltac:(lia)) as Hlt.
  remember (Nat.div2 (S len')) as half eqn:Hhalf. clear Hhalf.
  destruct (lookup_lt_is_Some_2 l (first + half)) as [x Hx]; [lia|].
  rewrite Hx. specialize (Hp _ _ Hx).
  destruct (before x) eqn:Hb.
  - destruct Hp as [Hp _]. specialize (Hp eq_refl). apply IH; lia.
  - assert (~ (first + half < n)%nat) by (intros ?; by apply Hp in H). apply IH; lia.
Qed.

Lemma lower_bound_spec {A : Type} (before : A -> bool) (l : list A) n :
  partitioned_at before l n -> lower_bound before l = n.
Proof. intros Hp. apply lower_bound_loop_spec; [done| | | |]; destruct Hp; lia. Qed.

Lemma insert_at_perm {A : Type} (i : nat) (x : A) (l : list A) : insert_at i x l ≡ₚ x :: l.
Proof.
  unfold insert_at. by rewrite <- Permutation_middle, take_drop.
Qed.

Lemma elem_of_insert_at {A : Type} (i : nat) (x y : A) (l : list A) :
  y ∈ insert_at i x l <-> y = x \/ y ∈ l.
Proof. by rewrite insert_at_perm, elem_of_cons. Qed.

#[export] Hint Resolve insertion_sort_perm insert_at_perm key_swo : fre.
