(* ===== verification/Ieee.v ===== *)
(** * Floating point: the [float] and [double] of the code

    Scores and thresholds of the evaluators are [float] (IEEE binary32), window
    aggregates and numeric tag thresholds are [double] (IEEE binary64).  Both
    are modelled bit-exactly, with round-to-nearest-even, by the Standard
    Library's [SpecFloat].  The file also holds [strtod] of the C library in
    the C locale (decimal, hexadecimal, infinity and NaN forms), which
    [parse_double] of rule_engine.cpp calls, and the facts on the exact integer
    range of [double] that the counting theorems need. *)

From S2P Require Import Prelude.
From Stdlib Require Import SpecFloat Ascii.

Open Scope Z_scope.

Definition float64 : Type := spec_float.
Definition float32 : Type := spec_float.

Definition prec64 : Z := 53.
Definition emax64 : Z := 1024.
Definition prec32 : Z := 24.
Definition emax32 : Z := 128.

(** [static_cast<double>(n)], also the meaning of an integral literal. *)
Definition f64_of_Z (n : Z) : float64 := binary_normalize prec64 emax64 n 0 false.
Definition f64_add : float64 -> float64 -> float64 := SFadd prec64 emax64.
Definition f64_zero : float64 := S754_zero false.
Definition f64_one : float64 := f64_of_Z 1.

(** [static_cast<float>(n)] and the [float] operations of the stages. *)
Definition f32_of_Z (n : Z) : float32 := binary_normalize prec32 emax32 n 0 false.
Definition f32_add : float32 -> float32 -> float32 := SFadd prec32 emax32.
Definition f32_div : float32 -> float32 -> float32 := SFdiv prec32 emax32.
Definition f32_zero : float32 := S754_zero false.

(** Comparison operators: all are false when an operand is NaN. *)
Definition f_lt (x y : spec_float) : bool := SFltb x y.
Definition f_le (x y : spec_float) : bool := SFleb x y.
Definition f_gt (x y : spec_float) : bool := SFltb y x.
Definition f_ge (x y : spec_float) : bool := SFleb y x.

Definition is_nan (x : spec_float) : bool :=
  match x with S754_nan => true | _ => false end.

(** [static_cast<int>(x)]: truncation; [None] where the cast is undefined. *)
Definition f64_to_int (x : float64) : option Z :=
  let in_int z := if (Z.leb (- 2 ^ 31) z && Z.ltb z (2 ^ 31))%bool then Some z else None in
  match x with
  | S754_zero _ => Some 0
  | S754_finite s m e =>
      let mag := if Z.leb 0 e then Z.shiftl (Zpos m) e else Z.shiftr (Zpos m) (- e) in
      in_int (if s then - mag else mag)
  | _ => None
  end.

(** ** strtod *)

Module Strtod.

Definition is_space (c : ascii) : bool :=
  let n := Ascii.N_of_ascii c in
  (N.eqb n 32 || (N.leb 9 n && N.leb n 13))%bool.

Definition digit_value (c : ascii) : option Z :=
  let n := Z.of_N (Ascii.N_of_ascii c) in
  if (Z.leb 48 n && Z.leb n 57)%bool then Some (n - 48) else None.

Definition hex_value (c : ascii) : option Z :=
  let n := Z.of_N (Ascii.N_of_ascii c) in
  if (Z.leb 48 n && Z.leb n 57)%bool then Some (n - 48)
  else if (Z.leb 97 n && Z.leb n 102)%bool then Some (n - 87)
  else if (Z.leb 65 n && Z.leb n 70)%bool then Some (n - 55)
  else None.

Definition to_lower (c : ascii) : ascii :=
  let n := Ascii.N_of_ascii c in
  if (N.leb 65 n && N.leb n 90)%bool then Ascii.ascii_of_N (n + 32) else c.

Fixpoint skip_spaces (s : string) : string :=
  match s with
  | String c s' => if is_space c then skip_spaces s' else s
  | EmptyString => EmptyString
  end.

(** A run of digits in [base]: accumulated value, number read, what follows. *)
Fixpoint digit_run (value_of : ascii -> option Z) (base acc : Z) (count : nat) (s : string)
    : Z * nat * string :=
  match s with
  | String c s' =>
      match value_of c with
      | Some d => digit_run value_of base (acc * base + d) (S count) s'
      | None => (acc, count, s)
      end
  | EmptyString => (acc, count, EmptyString)
  end.

(** Case-insensitive match of a lower-case keyword; the rest if it matches. *)
Fixpoint keyword (k s : string) : option string :=
  match k, s with
  | EmptyString, _ => Some s
  | String a k', String c s' => if Ascii.eqb a (to_lower c) then keyword k' s' else None
  | _, EmptyString => None
  end.

Definition sign (s : string) : bool * string :=
  match s with
  | String "-" s' => (true, s')
  | String "+" s' => (false, s')
  | _ => (false, s)
  end.

(** Optional exponent part after the marker [mark] (lower case): present only
    when at least one digit follows. *)
Definition exponent_part (mark : ascii) (s : string) : Z * string :=
  match s with
  | String c s' =>
      if Ascii.eqb mark (to_lower c) then
        let '(neg, s1) := sign s' in
        let '(e, n, s2) := digit_run digit_value 10 0 0 s1 in
        match n with
        | O => (0, s)
        | S _ => ((if neg then - e else e), s2)
        end
      else (0, s)
  | EmptyString => (0, s)
  end.

(** Mantissa digits with an optional point: value, digits read in all, digits
    after the point, rest. *)
Definition mantissa (value_of : ascii -> option Z) (base : Z) (s : string)
    : Z * nat * nat * string :=
  let '(m1, n1, s1) := digit_run value_of base 0 0 s in
  match s1 with
  | String "." s2 =>
      let '(m2, n2, s3) := digit_run value_of base m1 0 s2 in
      match (n1 + n2)%nat with
      | O => (0, 0%nat, 0%nat, s)
      | n => (m2, n, n2, s3)
      end
  | _ => (m1, n1, 0%nat, s1)
  end.

(** [m * 10^e] and [m * 2^e] correctly rounded.  Exponents far outside the
    range of binary64 are answered at once. *)
Definition round_decimal (neg : bool) (m : Z) (digits : nat) (e : Z) : float64 :=
  match m with
  | Zpos p =>
      if Z.leb 310 e then S754_infinity neg
      else if Z.leb (Z.of_nat digits + e) (-330) then S754_zero neg
      else if Z.leb 0 e then
        match m * 10 ^ e with
        | Zpos q => binary_round prec64 emax64 neg q 0
        | _ => S754_nan
        end
      else
        let '(mz, ez, lz) := SFdiv_core_binary prec64 emax64 (Zpos p) 0 (10 ^ (- e)) 0 in
        binary_round_aux prec64 emax64 neg mz ez lz
  | _ => S754_zero neg
  end.

Definition round_hex (neg : bool) (m e : Z) : float64 :=
  match m with
  | Zpos p =>
      let magnitude := Z.log2 m + e in
      if Z.leb 1024 magnitude then S754_infinity neg
      else if Z.leb magnitude (-1080) then S754_zero neg
      else binary_round prec64 emax64 neg p e
  | _ => S754_zero neg
  end.

Definition skip_nan_payload (s : string) : string :=
  match s with
  | String "(" s' =>
      (fix go (r : string) : string :=
         match r with
         | String ")" r' => r'
         | String c r' =>
             if (match hex_value c with Some _ => true | None => false end
                 || Ascii.eqb c "_"
                 || (N.leb 97 (Ascii.N_of_ascii (to_lower c))
                     && N.leb (Ascii.N_of_ascii (to_lower c)) 122))%bool
             then go r' else s
         | EmptyString => s
         end) s'
  | _ => s
  end.

(** [strtod(s, &end)]: the value and the text from [end] on; [None] when no
    conversion is performed, in which case [end] is [s] itself. *)
Definition strtod (s : string) : option (float64 * string) :=
  let '(neg, s1) := sign (skip_spaces s) in
  match keyword "infinity" s1 with
  | Some r => Some (S754_infinity neg, r)
  | None =>
  match keyword "inf" s1 with
  | Some r => Some (S754_infinity neg, r)
  | None =>
  match keyword "nan" s1 with
  | Some r => Some (S754_nan, skip_nan_payload r)
  | None =>
  let decimal :=
    let '(m, n, frac, r) := mantissa digit_value 10 s1 in
    match n with
    | O => None
    | S _ =>
        let '(e, r') := exponent_part "e" r in
        Some (round_decimal neg m n (e - Z.of_nat frac), r')
    end in
  match keyword "0x" s1 with
  | Some h =>
      let '(m, n, frac, r) := mantissa hex_value 16 h in
      match n with
      | O => decimal
      | S _ =>
          let '(e, r') := exponent_part "p" r in
          Some (round_hex neg m (e - 4 * Z.of_nat frac), r')
      end
  | None => decimal
  end
  end
  end
  end.

End Strtod.

(** ** std::format("{}", x) on a double

    The shortest decimal text that reads back as [x], nearest to [x] among
    those, in fixed notation unless scientific notation is strictly shorter. *)

Module FormatDouble.

(** [floor(num / den * 10^k)] and the remainder, with the divisor used. *)
Definition scaled (num den k : Z) : Z * Z * Z :=
  let n := if Z.leb 0 k then num * 10 ^ k else num in
  let d := if Z.leb 0 k then den else den * 10 ^ (- k) in
  (n / d, n mod d, d).

(** The largest [k] with [10^k <= num / den], searched upwards from [k]. *)
Fixpoint decimal_exponent (fuel : nat) (num den k : Z) : Z :=
  match fuel with
  | O => k
  | S fuel' =>
      let '(q, _, _) := scaled num den (- (k + 1)) in
      if Z.leb 1 q then decimal_exponent fuel' num den (k + 1) else k
  end.

Definition digit_count (z : Z) : nat := String.length (to_string_Z z).

(** [c * 10^e10] reads back as [x]. *)
Definition reads_back (neg : bool) (x : float64) (c e10 : Z) : bool :=
  SFeqb (Strtod.round_decimal neg c (digit_count c) e10) x.

(** The shortest significand and its decimal exponent, from [p] digits on;
    17 digits always identify a double. *)
Fixpoint shortest (fuel : nat) (p : Z) (neg : bool) (x : float64) (num den k : Z) : Z * Z :=
  let e10 := k + 1 - p in
  let '(q, r, d) := scaled num den (- e10) in
  let nearest := if (Z.ltb (2 * r) d || (Z.eqb (2 * r) d && Z.even q))%bool then q else q + 1 in
  match fuel with
  | O => (nearest, e10)
  | S fuel' =>
      let lo := reads_back neg x q e10 in
      let hi := reads_back neg x (q + 1) e10 in
      if (lo && hi)%bool then (nearest, e10)
      else if lo then (q, e10)
      else if hi then (q + 1, e10)
      else shortest fuel' (p + 1) neg x num den k
  end.

Fixpoint strip_zeros (fuel : nat) (c e10 : Z) : Z * Z :=
  match fuel with
  | O => (c, e10)
  | S fuel' =>
      if Z.eqb (c mod 10) 0 then strip_zeros fuel' (c / 10) (e10 + 1) else (c, e10)
  end.

Fixpoint zeros (n : nat) : string :=
  match n with O => "" | S n' => "0" +:+ zeros n' end.

Definition scientific (digits : string) (e : Z) : string :=
  let mantissa :=
    match digits with
    | String c EmptyString => String c EmptyString
    | String c rest => String c ("." +:+ rest)
    | EmptyString => ""
    end in
  let mag := to_string_Z (Z.abs e) in
  mantissa +:+ "e" +:+ (if Z.ltb e 0 then "-" else "+")
    +:+ (if Z.ltb (Z.abs e) 10 then "0" +:+ mag else mag).

Definition fixed (digits : string) (num den e10 : Z) : string :=
  let n := Z.of_nat (String.length digits) in
  if Z.leb 0 e10 then to_string_Z (num / den)
  else if Z.ltb 0 (n + e10) then
    let whole := Z.to_nat (n + e10) in
    String.substring 0 whole digits +:+ "." +:+ String.substring whole (String.length digits) digits
  else "0." +:+ zeros (Z.to_nat (- (n + e10))) +:+ digits.

Definition format_double (x : float64) : string :=
  match x with
  | S754_zero s => if s then "-0" else "0"
  | S754_infinity s => if s then "-inf" else "inf"
  | S754_nan => "nan"
  | S754_finite s m e =>
      let num := if Z.leb 0 e then Zpos m * 2 ^ e else Zpos m in
      let den := if Z.leb 0 e then 1 else 2 ^ (- e) in
      let k := decimal_exponent 8 num den ((Z.log2 num - Z.log2 den) * 30103 / 100000 - 2) in
      let '(c, e10) := shortest 17 1 s x num den k in
      let '(c, e10) := strip_zeros 20 c e10 in
      let digits := to_string_Z c in
      let sci := scientific digits (Z.of_nat (String.length digits) - 1 + e10) in
      let fix_ := fixed digits num den e10 in
      (if s then "-" else "")
        +:+ (if Nat.leb (String.length fix_) (String.length sci) then fix_ else sci)
  end.

End FormatDouble.

(** ** Exact integers of binary64 *)

(** The float with value [p] when [p] has at most 53 bits. *)
Definition int_mantissa (p : positive) : positive :=
  match (prec64 - Zpos (digits2_pos p))%Z with
  | Zpos d => Pos.iter xO p d
  | _ => p
  end.

Definition int_float (p : positive) : float64 :=
  S754_finite false (int_mantissa p) (Zpos (digits2_pos p) - prec64).

Lemma digits2_pos_bounds (p : positive) :
  2 ^ (Zpos (digits2_pos p) - 1) <= Zpos p < 2 ^ Zpos (digits2_pos p).
Proof.
  induction p as [p IH|p IH|]; cbn [digits2_pos]; [| |cbn; lia].
  all: rewrite Pos2Z.inj_succ.
  all: replace (Z.succ (Zpos (digits2_pos p)) - 1) with (Zpos (digits2_pos p)) by lia.
  all: rewrite Z.pow_succ_r by lia.
  all: replace (Zpos (digits2_pos p)) with (Z.succ (Zpos (digits2_pos p) - 1)) at 1 by lia.
  all: rewrite Z.pow_succ_r by lia.
  all: lia.
Qed.

Lemma digits2_pos_unique (p : positive) (d : Z) :
  0 < d -> 2 ^ (d - 1) <= Zpos p < 2 ^ d -> Zpos (digits2_pos p) = d.
Proof.
  intros Hd Hp. pose proof (digits2_pos_bounds p) as Hb.
  destruct (Z.lt_trichotomy (Zpos (digits2_pos p)) d) as [Hlt|[?|Hgt]]; [|done|].
  - assert (2 ^ Zpos (digits2_pos p) <= 2 ^ (d - 1)) by (apply Z.pow_le_mono_r; lia). lia.
  - assert (2 ^ d <= 2 ^ (Zpos (digits2_pos p) - 1)) by (apply Z.pow_le_mono_r; lia). lia.
Qed.

Lemma pos_iter_xO (p d : positive) : Zpos (Pos.iter xO p d) = Zpos p * 2 ^ Zpos d.
Proof.
  induction d as [|d IH] using Pos.peano_ind; [simpl; lia|].
  rewrite Pos.iter_succ, Pos2Z.inj_xO, IH, Pos2Z.inj_succ, Z.pow_succ_r; lia.
Qed.

Lemma iter_pos_nat {A : Type} (f : A -> A) (n : positive) (x : A) :
  iter_pos f n x = Nat.iter (Pos.to_nat n) f x.
Proof.
  revert x. induction n as [n IH|n IH|]; intros x; cbn [iter_pos]; [| |done].
  - rewrite !IH, <- Nat.iter_add. rewrite Pos2Nat.inj_xI.
    replace (S (2 * Pos.to_nat n)) with (Pos.to_nat n + Pos.to_nat n + 1)%nat by lia.
    by rewrite (Nat.iter_add _ 1).
  - rewrite !IH, <- Nat.iter_add. f_equal. lia.
Qed.

Lemma shr_1_even (a : Z) :
  shr_1 {| shr_m := 2 * a; shr_r := false; shr_s := false |}
  = {| shr_m := a; shr_r := false; shr_s := false |}.
Proof. by destruct a. Qed.

Lemma shr_exact (a : Z) (k : nat) :
  Nat.iter k shr_1 {| shr_m := a * 2 ^ Z.of_nat k; shr_r := false; shr_s := false |}
  = {| shr_m := a; shr_r := false; shr_s := false |}.
Proof.
  induction k as [|k IH]; [cbn; f_equal; lia|].
  rewrite Nat.iter_succ_r, Nat2Z.inj_succ, Z.pow_succ_r by lia.
  replace (a * (2 * 2 ^ Z.of_nat k)) with (2 * (a * 2 ^ Z.of_nat k)) by lia.
  by rewrite shr_1_even, IH.
Qed.

Lemma int_mantissa_val (p : positive) :
  Zpos (digits2_pos p) <= prec64 ->
  Zpos (int_mantissa p) = Zpos p * 2 ^ (prec64 - Zpos (digits2_pos p)).
Proof.
  intros Hd. unfold int_mantissa.
  destruct (prec64 - Zpos (digits2_pos p)) as [|d|d] eqn:E; [cbn; lia|apply pos_iter_xO|lia].
Qed.

Lemma int_mantissa_digits (p : positive) :
  Zpos (digits2_pos p) <= prec64 -> Zpos (digits2_pos (int_mantissa p)) = prec64.
Proof.
  intros Hd. apply digits2_pos_unique; [done|]. rewrite int_mantissa_val by done.
  pose proof (digits2_pos_bounds p) as [Hlo Hhi].
  assert (E1 : 2 ^ prec64 = 2 ^ Zpos (digits2_pos p) * 2 ^ (prec64 - Zpos (digits2_pos p)))
    by (rewrite <- Z.pow_add_r by lia; f_equal; lia).
  assert (E2 : 2 ^ (prec64 - 1)
               = 2 ^ (Zpos (digits2_pos p) - 1) * 2 ^ (prec64 - Zpos (digits2_pos p)))
    by (rewrite <- Z.pow_add_r by lia; f_equal; lia).
  rewrite E1, E2.
  assert (0 < 2 ^ (prec64 - Zpos (digits2_pos p))) by (apply Z.pow_pos_nonneg; lia).
  split; [apply Z.mul_le_mono_nonneg_r; lia | apply Z.mul_lt_mono_pos_r; lia].
Qed.

(** Rounding whose alignment shift is exact and leaves a full mantissa. *)
Lemma round_aux_exact (mx ex : Z) (m : positive) (e : Z) :
  shr_fexp prec64 emax64 mx ex loc_Exact
    = ({| shr_m := Zpos m; shr_r := false; shr_s := false |}, e) ->
  Zpos (digits2_pos m) = prec64 -> emin prec64 emax64 <= e <= emax64 - prec64 ->
  binary_round_aux prec64 emax64 false mx ex loc_Exact = S754_finite false m e.
Proof.
  intros Hs Hd He. unfold binary_round_aux. rewrite Hs.
  cbn [shr_m loc_of_shr_record round_nearest_even]. unfold shr_fexp.
  replace (fexp prec64 emax64 (Zdigits2 (Zpos m) + e) - e) with 0
    by (cbn [Zdigits2]; rewrite Hd; unfold fexp; lia).
  cbn [shr shr_record_of_loc shr_m].
  destruct (Z.leb_spec e (emax64 - prec64)); [done|lia].
Qed.

Lemma round_aux_full (m : positive) (e : Z) :
  Zpos (digits2_pos m) = prec64 -> emin prec64 emax64 <= e <= emax64 - prec64 ->
  binary_round_aux prec64 emax64 false (Zpos m) e loc_Exact = S754_finite false m e.
Proof.
  intros Hd He. apply round_aux_exact; [|done|done]. unfold shr_fexp.
  replace (fexp prec64 emax64 (Zdigits2 (Zpos m) + e) - e) with 0; [done|].
  cbn [Zdigits2]. rewrite Hd. unfold fexp. lia.
Qed.

Lemma f64_of_pos (p : positive) :
  Zpos (digits2_pos p) <= prec64 -> f64_of_Z (Zpos p) = int_float p.
Proof.
  intros Hd. unfold f64_of_Z, binary_normalize, binary_round.
  assert (Hf : fexp prec64 emax64 (Zpos (digits2_pos p) + 0) = Zpos (digits2_pos p) - prec64)
    by (unfold fexp, emin, prec64, emax64 in *; lia).
  rewrite Hf. unfold shl_align. rewrite Z.sub_0_r.
  assert (Hr : binary_round_aux prec64 emax64 false (Zpos (int_mantissa p))
            (Zpos (digits2_pos p) - prec64) loc_Exact = int_float p).
  { apply round_aux_full; [by apply int_mantissa_digits|].
    unfold emin, prec64, emax64 in *. lia. }
  rewrite <- Hr. unfold int_mantissa.
  replace (Zpos (digits2_pos p) - prec64) with (- (prec64 - Zpos (digits2_pos p))) by lia.
  destruct (prec64 - Zpos (digits2_pos p)) as [|d|d] eqn:E; [done|done|lia].
Qed.

(** An integer held as [p * 2^52 * 2^-52], the form a sum with 1.0 takes. *)
Lemma scaled_shift (p q : positive) :
  Zpos (digits2_pos p) <= prec64 -> Zpos q = Zpos p * 2 ^ 52 ->
  shr (shr_record_of_loc (Zpos q) loc_Exact) (-52) (Zpos (digits2_pos p) - prec64 - -52)
  = ({| shr_m := Zpos (int_mantissa p); shr_r := false; shr_s := false |},
     Zpos (digits2_pos p) - prec64).
Proof.
  intros Hd Hq. cbn [shr_record_of_loc]. unfold shr.
  destruct (Zpos (digits2_pos p) - prec64 - -52) as [|k|k] eqn:E; [| |unfold prec64 in *; lia].
  - rewrite Hq, int_mantissa_val by done.
    replace (prec64 - Zpos (digits2_pos p)) with 52 by (unfold prec64 in *; lia).
    f_equal. lia.
  - rewrite iter_pos_nat, <- (shr_exact (Zpos (int_mantissa p)) (Pos.to_nat k)).
    f_equal; [|lia]. do 2 f_equal. rewrite Hq, int_mantissa_val, positive_nat_Z by done.
    rewrite <- Z.mul_assoc, <- Z.pow_add_r by (unfold prec64 in *; lia).
    do 2 f_equal. unfold prec64 in *. lia.
Qed.

Lemma round_scaled (p : positive) :
  Zpos (digits2_pos p) <= prec64 ->
  binary_normalize prec64 emax64 (Zpos p * 2 ^ 52) (-52) false = int_float p.
Proof.
  intros Hd. set (q := Pos.iter xO p 52).
  assert (Hq : Zpos q = Zpos p * 2 ^ 52) by apply pos_iter_xO.
  assert (Hqd : Zpos (digits2_pos q) = Zpos (digits2_pos p) + 52).
  { apply digits2_pos_unique; [lia|]. rewrite Hq.
    pose proof (digits2_pos_bounds p) as [Hlo Hhi].
    replace (Zpos (digits2_pos p) + 52 - 1) with (Zpos (digits2_pos p) - 1 + 52) by lia.
    rewrite !Z.pow_add_r by lia. lia. }
  assert (Hf : fexp prec64 emax64 (Zpos (digits2_pos p) + 52 + -52)
               = Zpos (digits2_pos p) - prec64)
    by (unfold fexp, emin, prec64, emax64 in *; lia).
  rewrite <- Hq. unfold binary_normalize, binary_round. rewrite Hqd, Hf.
  assert (Hal : shl_align q (-52) (Zpos (digits2_pos p) - prec64) = (q, -52)).
  { unfold shl_align. destruct (Zpos (digits2_pos p) - prec64 - -52) eqn:E; [done|done|].
    unfold prec64 in *. lia. }
  rewrite Hal. apply round_aux_exact.
  - unfold shr_fexp. cbn [Zdigits2]. rewrite Hqd, Hf. by apply scaled_shift.
  - by apply int_mantissa_digits.
  - unfold emin, prec64, emax64 in *. lia.
Qed.

Lemma digits_below_2_53 (p : positive) :
  Zpos p < 2 ^ prec64 -> Zpos (digits2_pos p) <= prec64.
Proof.
  intros Hp. pose proof (digits2_pos_bounds p) as [Hlo _].
  destruct (Z.le_gt_cases (Zpos (digits2_pos p)) prec64) as [?|Hgt]; [done|].
  assert (2 ^ prec64 <= 2 ^ (Zpos (digits2_pos p) - 1)) by (apply Z.pow_le_mono_r; lia).
  lia.
Qed.

Lemma shl_align_val (m : positive) (ex ez : Z) :
  ez <= ex -> Zpos (fst (shl_align m ex ez)) = Zpos m * 2 ^ (ex - ez).
Proof.
  intros He. unfold shl_align.
  destruct (ez - ex) as [|d|d] eqn:E; cbn [fst]; [|lia|].
  - replace (ex - ez) with 0 by lia. lia.
  - rewrite pos_iter_xO. do 2 f_equal. lia.
Qed.

(** Counting by 1.0 is exact below 2^53. *)
Lemma f64_count_succ (n : Z) :
  0 <= n -> n + 1 < 2 ^ prec64 -> f64_add (f64_of_Z n) f64_one = f64_of_Z (n + 1).
Proof.
  intros Hn Hlt. destruct n as [|p|p]; [reflexivity| |lia].
  assert (Hd : Zpos (digits2_pos p) <= prec64) by (apply digits_below_2_53; lia).
  assert (Hd' : Zpos (digits2_pos (p + 1)) <= prec64) by (apply digits_below_2_53; lia).
  rewrite f64_of_pos by done. replace (Zpos p + 1) with (Zpos (p + 1)) by lia.
  rewrite f64_of_pos, <- (round_scaled (p + 1)) by done.
  unfold f64_add, int_float. change f64_one with (S754_finite false 4503599627370496 (-52)).
  cbn [SFadd cond_Zopp].
  replace (Z.min (Zpos (digits2_pos p) - prec64) (-52)) with (-52)
    by (unfold prec64 in *; lia).
  f_equal. rewrite !shl_align_val by (unfold prec64 in *; lia).
  rewrite int_mantissa_val, <- Z.mul_assoc, <- Z.pow_add_r by (unfold prec64 in *; lia).
  replace (prec64 - Zpos (digits2_pos p) + (Zpos (digits2_pos p) - prec64 - -52)) with 52 by lia.
  lia.
Qed.

(** ... and the comparison of two counts is the comparison of the integers. *)
Lemma f64_lt_of_Z (n m : Z) :
  0 <= n < 2 ^ prec64 -> 0 <= m < 2 ^ prec64 ->
  f_lt (f64_of_Z n) (f64_of_Z m) = Z.ltb n m.
Proof.
  intros Hn Hm. destruct n as [|p|p], m as [|q|q]; try lia; try reflexivity.
  1,2: rewrite f64_of_pos by (apply digits_below_2_53; lia); reflexivity.
  assert (Hp : Zpos (digits2_pos p) <= prec64) by (apply digits_below_2_53; lia).
  assert (Hq : Zpos (digits2_pos q) <= prec64) by (apply digits_below_2_53; lia).
  rewrite !f64_of_pos by done.
  unfold f_lt, SFltb, int_float. cbn [SFcompare].
  pose proof (digits2_pos_bounds p) as [Hp1 Hp2].
  pose proof (digits2_pos_bounds q) as [Hq1 Hq2].
  destruct (Z.compare_spec (Zpos (digits2_pos p) - prec64) (Zpos (digits2_pos q) - prec64))
    as [Heq|Hlt|Hgt].
  - assert (Hdd : Zpos (digits2_pos p) = Zpos (digits2_pos q)) by lia.
    change (Pos.compare_cont Eq (int_mantissa p) (int_mantissa q))
      with (Z.compare (Zpos (int_mantissa p)) (Zpos (int_mantissa q))).
    rewrite !int_mantissa_val, Hdd by done.
    rewrite <- Zmult_compare_compat_r; [|apply Z.lt_gt, Z.pow_pos_nonneg; lia].
    unfold Z.ltb. by destruct (Zpos p ?= Zpos q).
  - assert (2 ^ Zpos (digits2_pos p) <= 2 ^ (Zpos (digits2_pos q) - 1))
      by (apply Z.pow_le_mono_r; lia).
    symmetry. apply Z.ltb_lt. lia.
  - assert (2 ^ Zpos (digits2_pos q) <= 2 ^ (Zpos (digits2_pos p) - 1))
      by (apply Z.pow_le_mono_r; lia).
    symmetry. apply Z.ltb_ge. lia.
Qed.

(** Adding 1.0 to 2^53 changes nothing: a window count saturates there. *)
Lemma f64_count_saturates :
  f64_add (f64_of_Z (2 ^ prec64)) f64_one = f64_of_Z (2 ^ prec64).
Proof. vm_compute. reflexivity. Qed.

(** Comparisons with NaN are false. *)
Lemma f_le_nan_l (x : spec_float) : f_le S754_nan x = false.
Proof. reflexivity. Qed.

Lemma f_lt_nan_l (x : spec_float) : f_lt S754_nan x = false.
Proof. reflexivity. Qed.

Lemma f_lt_nan_r (x : spec_float) : f_lt x S754_nan = false.
Proof. by destruct x as [[]|[]| |[]]. Qed.

#[export] Hint Rewrite f_le_nan_l f_lt_nan_l f_lt_nan_r : fre.

(** ** strtod on the decimal text of an integer *)

Definition is_digit (c : ascii) : bool :=
  match Strtod.digit_value c with Some _ => true | None => false end.

Fixpoint all_digits (s : string) : bool :=
  match s with
  | EmptyString => true
  | String c s' => is_digit c && all_digits s'
  end.

Lemma digit_char_facts (c : ascii) :
  is_digit c = true ->
  Strtod.is_space c = false /\ Ascii.eqb "i" (Strtod.to_lower c) = false /\
  Ascii.eqb "n" (Strtod.to_lower c) = false /\ Ascii.eqb "x" (Strtod.to_lower c) = false /\
  forall s, Strtod.sign (String c s) = (false, String c s).
Proof.
  destruct c as [[] [] [] [] [] [] [] []]; vm_compute; try discriminate; repeat split.
Qed.

Lemma pretty_N_char_value (d : N) :
  (d < 10)%N -> Strtod.digit_value (pretty_N_char d) = Some (Z.of_N d).
Proof.
  intros Hd.
  assert (d = 0 \/ d = 1 \/ d = 2 \/ d = 3 \/ d = 4 \/ d = 5 \/ d = 6 \/ d = 7 \/ d = 8 \/ d = 9)%N
    as Hc by lia.
  repeat destruct Hc as [->|Hc]; try reflexivity. by subst.
Qed.

(** The digits [pretty] prints for [n], in front of [s]: reading them back
    accumulates [n], and there are at most [m] of them when [n < 10^m]. *)
Lemma pretty_N_go_digits (n : N) (m : nat) (s : string) :
  (n < 10 ^ N.of_nat m)%N ->
  (String.length (pretty_N_go n s) <= m + String.length s)%nat /\
  (all_digits s = true -> all_digits (pretty_N_go n s) = true) /\
  exists k, ((0 < n)%N -> (0 < k)%nat) /\ forall acc c,
    Strtod.digit_run Strtod.digit_value 10 acc c (pretty_N_go n s)
    = Strtod.digit_run Strtod.digit_value 10 (acc * 10 ^ Z.of_nat k + Z.of_N n) (c + k) s.
Proof.
  revert m s. induction (N.lt_wf_0 n) as [n _ IH]; intros m s Hm.
  destruct (decide (n = 0)%N) as [->|Hn0].
  - rewrite pretty_N_go_0. split_and!; [lia|done|]. exists 0%nat. split; [lia|].
    intros acc c. f_equal; lia.
  - destruct m as [|m]; [simpl in Hm; lia|].
    assert (Hdiv : (n / 10 < 10 ^ N.of_nat m)%N).
    { apply N.Div0.div_lt_upper_bound. rewrite Nat2N.inj_succ, N.pow_succ_r' in Hm. lia. }
    rewrite pretty_N_go_step by lia.
    assert (Hmod : (n mod 10 < 10)%N) by (apply N.mod_lt; lia).
    destruct (IH (n / 10)%N ltac:(apply N.div_lt; lia) m
                (String (pretty_N_char (n mod 10)) s) Hdiv) as (Hlen & Hall & k & _ & Hk).
    split_and!.
    + simpl in Hlen. lia.
    + intros Hs. apply Hall. simpl. unfold is_digit.
      by rewrite pretty_N_char_value.
    + exists (k + 1)%nat. split; [lia|]. intros acc c.
      rewrite Hk. cbn [Strtod.digit_run]. rewrite pretty_N_char_value by done. f_equal; [|lia].
      rewrite Nat2Z.inj_add, Z.pow_add_r by lia.
      pose proof (N.div_mod n 10 ltac:(lia)). lia.
Qed.

Lemma to_string_digits (n : Z) (m : nat) :
  0 <= n < 10 ^ Z.of_nat m -> (0 < m)%nat ->
  (String.length (to_string_Z n) <= m)%nat /\ all_digits (to_string_Z n) = true /\
  exists k, (0 < k)%nat /\
    Strtod.digit_run Strtod.digit_value 10 0 0 (to_string_Z n) = (n, k, "").
Proof.
  intros [Hn Hm] Hpos. unfold to_string_Z, pretty, pretty_N.
  destruct (decide (Z.to_N n = 0%N)) as [H0|H0].
  - split_and!; [simpl; lia|done|]. exists 1%nat. split; [lia|].
    replace n with 0 by lia. reflexivity.
  - destruct (pretty_N_go_digits (Z.to_N n) m "") as (Hl & Ha & k & Hk & Hr).
    { apply N2Z.inj_lt. rewrite N2Z.inj_pow, nat_N_Z, Z2N.id by lia. done. }
    simpl in Hl. split_and!; [lia|by apply Ha|]. exists k. split; [lia|].
    rewrite Hr. cbn [Strtod.digit_run]. rewrite Z2N.id by lia. do 2 f_equal.
Qed.

(** A non-empty string of digits takes the decimal branch of [strtod]. *)
Lemma strtod_all_digits (s : string) (n : Z) (k : nat) :
  all_digits s = true -> Strtod.digit_run Strtod.digit_value 10 0 0 s = (n, S k, "") ->
  Strtod.strtod s = Some (Strtod.round_decimal false n (S k) 0, "").
Proof.
  intros Ha Hr. destruct s as [|c s]; [discriminate|].
  cbn [all_digits] in Ha. apply andb_true_iff in Ha as [Hc Hs].
  destruct (digit_char_facts c Hc) as (Hsp & Hi & Hn & _ & Hsign).
  unfold Strtod.strtod. cbn [Strtod.skip_spaces]. rewrite Hsp, Hsign.
  cbn [Strtod.keyword]. rewrite Hi, Hn.
  assert (Hdec : Strtod.mantissa Strtod.digit_value 10 (String c s) = (n, S k, 0%nat, ""))
    by (unfold Strtod.mantissa; by rewrite Hr).
  rewrite Hdec. cbn [Strtod.exponent_part].
  destruct (Ascii.eqb "0" (Strtod.to_lower c)); [|done].
  destruct s as [|c' s]; [done|]. cbn [all_digits] in Hs. apply andb_true_iff in Hs as [Hc' _].
  destruct (digit_char_facts c' Hc') as (_ & _ & _ & Hx & _). by rewrite Hx.
Qed.

Lemma strtod_to_string (n : Z) :
  0 <= n < 10 ^ 60 -> Strtod.strtod (to_string_Z n) = Some (f64_of_Z n, "").
Proof.
  intros Hn. destruct (to_string_digits n 60) as (_ & Ha & [|k] & Hk & Hr); [done|lia|lia|].
  rewrite (strtod_all_digits _ n k Ha Hr). f_equal. f_equal.
  unfold Strtod.round_decimal. destruct n as [|p|p]; [done| |lia].
  destruct (Z.leb_spec 310 0); [lia|]. destruct (Z.leb_spec (Z.of_nat (S k) + 0) (-330)); [lia|].
  destruct (Z.leb_spec 0 0); [|lia]. change (10 ^ 0) with 1. by rewrite Z.mul_1_r.
Qed.

Example format_double_integral : FormatDouble.format_double (f64_of_Z 100) = "100".
Proof. vm_compute. reflexivity. Qed.

Example format_double_scientific : FormatDouble.format_double (f64_of_Z 100000) = "1e+05".
Proof. vm_compute. reflexivity. Qed.

Example format_double_fraction :
  option_map (fun r => FormatDouble.format_double r.1) (Strtod.strtod "-123.4560") = Some "-123.456".
Proof. vm_compute. reflexivity. Qed.

Example format_double_small :
  option_map (fun r => FormatDouble.format_double r.1) (Strtod.strtod "0.000125") = Some "0.000125".
Proof. vm_compute. reflexivity. Qed.
