(* ===== verification/CoreTypes.v ===== *)
(** * Core data: verdicts, degradation flags, events, stage outputs, decisions

    The plain data of include/fre/core/ (verdict.hpp, event.hpp, decision.hpp,
    the record [ActiveDecision] of decision_type.hpp) with the operations those
    headers define on it, and the algebra of [max_verdict] and of the
    degradation bit set that every stage relies on. *)

From S2P Require Import Prelude Ieee.
From Stdlib Require Import SpecFloat.

Open Scope Z_scope.

(** ** std::string_view

    A view has a data pointer, which is null for a default-constructed view;
    comparisons only look at the characters. *)
Inductive string_view : Type :=
| sv_null
| sv (s : string).

Definition sv_str (v : string_view) : string :=
  match v with sv_null => "" | sv s => s end.

Definition sv_data_is_null (v : string_view) : bool :=
  match v with sv_null => true | sv _ => false end.

Definition str_eqb (a b : string) : bool := String.eqb a b.
Definition str_empty (a : string) : bool := String.eqb a "".

(** ** Verdict *)

Inductive Verdict : Type := Pass | Flag | Block.

#[export] Instance Verdict_eq_dec : EqDecision Verdict.
Proof. solve_decision. Defined.

Definition verdict_ord (v : Verdict) : Z :=
  match v with Pass => 0 | Flag => 1 | Block => 2 end.

(** [static_cast<Verdict>] on the ordinals of the enumerators. *)
Definition verdict_of_ord (n : Z) : Verdict :=
  match n with 0 => Pass | 1 => Flag | _ => Block end.

Definition verdict_eqb (a b : Verdict) : bool := Z.eqb (verdict_ord a) (verdict_ord b).

Definition max_verdict (a b : Verdict) : Verdict :=
  verdict_of_ord (Z.max (verdict_ord a) (verdict_ord b)).

(** ** DegradedReason: a [uint16_t] bit set *)

Definition DegradedReason : Type := Z.

Module Degraded.
Definition None : DegradedReason := 0.
Definition EvaluatorTimeout : DegradedReason := Z.shiftl 1 0.
Definition EvaluatorError : DegradedReason := Z.shiftl 1 1.
Definition StateStoreUnavailable : DegradedReason := Z.shiftl 1 2.
Definition EmissionRetryExhausted : DegradedReason := Z.shiftl 1 3.
Definition RateLimitExhausted : DegradedReason := Z.shiftl 1 4.
Definition IngestValidationFailed : DegradedReason := Z.shiftl 1 5.
End Degraded.

Definition degraded_or (a b : DegradedReason) : DegradedReason := Z.lor a b.
Definition degraded_and (a b : DegradedReason) : DegradedReason := Z.land a b.
Definition is_degraded (r : DegradedReason) : bool := negb (Z.eqb r Degraded.None).

(** ** EvaluatorResult, CompositionRule, StageOutput *)

Record EvaluatorResult : Type := mkEvaluatorResult {
  er_evaluator_id : string;
  er_verdict : Verdict;
  er_reason_code : option string;
  er_score : option float32;
  er_skipped : bool;
  er_metadata : option string;
  er_decision_type_id : option string
}.

(** The value-initialised result. *)
Definition EvaluatorResult_default : EvaluatorResult :=
  mkEvaluatorResult "" Pass None None false None None.

Inductive CompositionRule : Type :=
| AnyBlock | AnyFlag | Unanimous | Majority | WeightedScore.

#[export] Instance CompositionRule_eq_dec : EqDecision CompositionRule.
Proof. solve_decision. Defined.

Record StageOutput : Type := mkStageOutput {
  so_stage_id : string;
  so_verdict : Verdict;
  so_evaluator_results : list EvaluatorResult;
  so_degraded_reason : DegradedReason;
  so_elapsed_us : Z
}.

(** ** Event *)

Record Tag : Type := mkTag { tag_key : string_view; tag_value : string_view }.

Record Event : Type := mkEvent {
  ev_id : Z;
  ev_tenant_id : string;
  ev_entity_id : string;
  ev_event_type : string;
  ev_timestamp : Z;  (** nanoseconds since the Unix epoch *)
  ev_payload : list Byte.byte;
  ev_tags : list Tag
}.

Definition event_is_valid (e : Event) : bool :=
  negb (str_empty (ev_tenant_id e)) && negb (str_empty (ev_entity_id e)).

Definition event_tag (e : Event) (key : string) : string_view :=
  match find_first (fun t => str_eqb (sv_str (tag_key t)) key) (ev_tags e) with
  | Some t => tag_value t
  | None => sv_null
  end.

Definition event_set_id (e : Event) (id : Z) : Event :=
  mkEvent id (ev_tenant_id e) (ev_entity_id e) (ev_event_type e) (ev_timestamp e)
    (ev_payload e) (ev_tags e).

(** ** Decision *)

Record ActiveDecision : Type := mkActiveDecision {
  ad_decision_type_id : string;
  ad_rule_id : string;
  ad_priority : Z
}.

Record Decision : Type := mkDecision {
  d_pipeline_id : string;
  d_pipeline_version : string;
  d_event_id : Z;
  d_tenant_id : string;
  d_entity_id : string;
  d_decided_at : Z;
  d_stage_outputs : list StageOutput;
  d_final_verdict : Verdict;
  d_degraded_reason : DegradedReason;
  d_elapsed_us : Z;
  d_active_decisions : list ActiveDecision
}.

Definition set_stage_outputs (d : Decision) (l : list StageOutput) : Decision :=
  mkDecision (d_pipeline_id d) (d_pipeline_version d) (d_event_id d) (d_tenant_id d)
    (d_entity_id d) (d_decided_at d) l (d_final_verdict d) (d_degraded_reason d)
    (d_elapsed_us d) (d_active_decisions d).

Definition set_final_verdict (d : Decision) (v : Verdict) : Decision :=
  mkDecision (d_pipeline_id d) (d_pipeline_version d) (d_event_id d) (d_tenant_id d)
    (d_entity_id d) (d_decided_at d) (d_stage_outputs d) v (d_degraded_reason d)
    (d_elapsed_us d) (d_active_decisions d).

Definition set_degraded_reason (d : Decision) (r : DegradedReason) : Decision :=
  mkDecision (d_pipeline_id d) (d_pipeline_version d) (d_event_id d) (d_tenant_id d)
    (d_entity_id d) (d_decided_at d) (d_stage_outputs d) (d_final_verdict d) r
    (d_elapsed_us d) (d_active_decisions d).

Definition set_elapsed_us (d : Decision) (us : Z) : Decision :=
  mkDecision (d_pipeline_id d) (d_pipeline_version d) (d_event_id d) (d_tenant_id d)
    (d_entity_id d) (d_decided_at d) (d_stage_outputs d) (d_final_verdict d)
    (d_degraded_reason d) us (d_active_decisions d).

Definition set_active_decisions (d : Decision) (l : list ActiveDecision) : Decision :=
  mkDecision (d_pipeline_id d) (d_pipeline_version d) (d_event_id d) (d_tenant_id d)
    (d_entity_id d) (d_decided_at d) (d_stage_outputs d) (d_final_verdict d)
    (d_degraded_reason d) (d_elapsed_us d) l.

Definition decision_is_degraded (d : Decision) : bool := is_degraded (d_degraded_reason d).

Definition compute_final_verdict (d : Decision) : Decision :=
  set_final_verdict d
    (fold_left (fun v s => max_verdict v (so_verdict s)) (d_stage_outputs d) Pass).

Definition merge_degraded_reasons (d : Decision) : Decision :=
  set_degraded_reason d
    (fold_left (fun r s => degraded_or r (so_degraded_reason s)) (d_stage_outputs d)
       Degraded.None).

(** [decision.stage_outputs.push_back(out)]. *)
Definition push_stage_output (d : Decision) (o : StageOutput) : Decision :=
  set_stage_outputs d (d_stage_outputs d ++ [o]).

Definition stage_output (d : Decision) (stage_id : string) : option StageOutput :=
  find_first (fun s => str_eqb (so_stage_id s) stage_id) (d_stage_outputs d).

(** ** Specification vocabulary *)

(** Strictness order: [Pass] below [Flag] below [Block]. *)
Definition verdict_le (a b : Verdict) : Prop := verdict_ord a <= verdict_ord b.

(** The fold every stage composes verdicts with. *)
Definition max_over {A : Type} (verdict_of : A -> Verdict) (v : Verdict) (l : list A) : Verdict :=
  fold_left (fun acc x => max_verdict acc (verdict_of x)) l v.

(** The union of degradation sets over a list. *)
Definition or_over {A : Type} (f : A -> DegradedReason) (r : DegradedReason) (l : list A)
    : DegradedReason :=
  fold_left (fun acc x => degraded_or acc (f x)) l r.

(** ** Lemmas *)

Lemma str_eqb_eq (a b : string) : str_eqb a b = true <-> a = b.
Proof. apply String.eqb_eq. Qed.

Lemma str_eqb_neq (a b : string) : str_eqb a b = false <-> a <> b.
Proof. apply String.eqb_neq. Qed.

Lemma str_eqb_refl (a : string) : str_eqb a a = true.
Proof. apply String.eqb_refl. Qed.

Lemma str_empty_eq (a : string) : str_empty a = true <-> a = "".
Proof. apply String.eqb_eq. Qed.

Lemma verdict_eqb_eq (a b : Verdict) : verdict_eqb a b = true <-> a = b.
Proof. by destruct a, b. Qed.

#[export] Instance verdict_le_po : PartialOrder verdict_le.
Proof.
  unfold verdict_le. repeat split.
  - intros a; reflexivity.
  - intros a b c; lia.
  - intros [] []; simpl; (reflexivity || lia).
Qed.

Lemma max_verdict_comm (a b : Verdict) : max_verdict a b = max_verdict b a.
Proof. by destruct a, b. Qed.

Lemma max_verdict_assoc (a b c : Verdict) :
  max_verdict a (max_verdict b c) = max_verdict (max_verdict a b) c.
Proof. by destruct a, b, c. Qed.

Lemma max_verdict_pass_l (a : Verdict) : max_verdict Pass a = a.
Proof. by destruct a. Qed.

Lemma max_verdict_pass_r (a : Verdict) : max_verdict a Pass = a.
Proof. by destruct a. Qed.

Lemma max_verdict_lub (a b c : Verdict) :
  verdict_le (max_verdict a b) c <-> verdict_le a c /\ verdict_le b c.
Proof. unfold verdict_le. destruct a, b, c; simpl; lia. Qed.

Lemma max_over_lub {A : Type} (f : A -> Verdict) (v c : Verdict) (l : list A) :
  verdict_le (max_over f v l) c <-> verdict_le v c /\ forall x, x ∈ l -> verdict_le (f x) c.
Proof.
  revert v. induction l as [|y l IH]; intros v; cbn [max_over fold_left].
  - set_solver.
  - fold (max_over f (max_verdict v (f y)) l). rewrite IH, max_verdict_lub. set_solver.
Qed.

Lemma max_over_upper {A : Type} (f : A -> Verdict) (v : Verdict) (l : list A) (x : A) :
  x ∈ l -> verdict_le (f x) (max_over f v l).
Proof.
  intros Hx. destruct (proj1 (max_over_lub f v (max_over f v l) l)) as [_ Hu]; [reflexivity|].
  auto.
Qed.

Lemma max_over_attained {A : Type} (f : A -> Verdict) (v : Verdict) (l : list A) :
  max_over f v l = v \/ exists x, x ∈ l /\ f x = max_over f v l.
Proof.
  revert v. induction l as [|y l IH]; intros v; [by left|].
  cbn [max_over fold_left]. fold (max_over f (max_verdict v (f y)) l).
  destruct (IH (max_verdict v (f y))) as [->|(x & Hx & <-)];
    [|right; exists x; split; [by apply list_elem_of_further|done]].
  assert (Hm : max_verdict v (f y) = v \/ max_verdict v (f y) = f y)
    by (destruct v, (f y); auto).
  destruct Hm as [->| ->]; [by left|right; exists y; split; [by apply list_elem_of_here|done]].
Qed.

Lemma or_over_testbit {A : Type} (f : A -> DegradedReason) (r : DegradedReason) (l : list A) i :
  Z.testbit (or_over f r l) i = (Z.testbit r i || existsb (fun x => Z.testbit (f x) i) l)%bool.
Proof.
  revert r. induction l as [|y l IH]; intros r; cbn [or_over fold_left existsb].
  - by rewrite orb_false_r.
  - fold (or_over f (degraded_or r (f y)) l). rewrite IH. unfold degraded_or.
    by rewrite Z.lor_spec, orb_assoc.
Qed.

Lemma or_over_zero {A : Type} (f : A -> DegradedReason) (r : DegradedReason) (l : list A) :
  or_over f r l = 0 <-> r = 0 /\ forall x, x ∈ l -> f x = 0.
Proof.
  revert r. induction l as [|y l IH]; intros r; cbn [or_over fold_left]; [set_solver|].
  fold (or_over f (degraded_or r (f y)) l). rewrite IH. unfold degraded_or.
  rewrite Z.lor_eq_0_iff. set_solver.
Qed.

#[export] Hint Resolve max_over_upper : fre.
#[export] Hint Rewrite max_verdict_pass_l max_verdict_pass_r str_eqb_refl : fre.
