(* ===== verification/Errors.v ===== *)
(** * Error types and their messages

    include/fre/core/error.hpp and src/pipeline/error.cpp: the error records of
    every layer, the [Error] variant that unites them, and [message()]. *)

From S2P Require Import Prelude CoreTypes.

Open Scope string_scope.

Inductive ConfigErrorCode : Type :=
| RequiredStageMissing | LatencyBudgetExceeded | UndefinedStageDependency
| InvalidShardingConfig | EvaluatorLoadFailed | InvalidWindowConfig | InvalidPolicyRule
| ConfigUnknown.

Record ConfigError : Type := mkConfigError { ce_code : ConfigErrorCode; ce_detail : string }.

Inductive EvaluatorErrorCode : Type :=
| EvalTimeout | EvalInternalError | EvalInvalidInput | EvalNotInitialized.

Record EvaluatorError : Type := mkEvaluatorError {
  ee_code : EvaluatorErrorCode; ee_evaluator_id : string; ee_detail : string }.

Inductive StoreErrorCode : Type :=
| StoreUnavailable | StoreTimeout | StoreCasFailed | StoreSerializationError | QueryRangeError.

Record StoreError : Type := mkStoreError { se_code : StoreErrorCode; se_detail : string }.

Inductive EmissionErrorCode : Type :=
| TargetUnavailable | EmissionTimeout | BufferFull | EmissionSerializationError.

Record EmissionError : Type := mkEmissionError {
  eme_code : EmissionErrorCode; eme_target_id : string; eme_detail : string }.

Inductive RateLimitErrorCode : Type := Exhausted | ConcurrencyCapReached.

Record RateLimitError : Type := mkRateLimitError {
  rle_code : RateLimitErrorCode; rle_tenant_id : string }.

Inductive PipelineErrorCode : Type := NotRunning | AlreadyRunning | DrainTimeout | SubmitRejected.

Record PipelineError : Type := mkPipelineError { pe_code : PipelineErrorCode; pe_detail : string }.

Inductive FleetRoutingErrorCode : Type := NotOwner | TopologyUnavailable.

Record FleetRoutingError : Type := mkFleetRoutingError {
  fre_code : FleetRoutingErrorCode; fre_tenant_id : string; fre_redirect_hint : string }.

Inductive Error : Type :=
| ErrConfig (e : ConfigError)
| ErrEvaluator (e : EvaluatorError)
| ErrStore (e : StoreError)
| ErrEmission (e : EmissionError)
| ErrRateLimit (e : RateLimitError)
| ErrPipeline (e : PipelineError)
| ErrFleetRouting (e : FleetRoutingError).

(** [detail.empty() ? code : format("{}: {}", code, detail)]. *)
Definition with_detail (code detail : string) : string :=
  if str_empty detail then code else code ++ ": " ++ detail.

Definition ConfigError_message (e : ConfigError) : string :=
  let code := match ce_code e with
    | RequiredStageMissing => "RequiredStageMissing"
    | LatencyBudgetExceeded => "LatencyBudgetExceeded"
    | UndefinedStageDependency => "UndefinedStageDependency"
    | InvalidShardingConfig => "InvalidShardingConfig"
    | EvaluatorLoadFailed => "EvaluatorLoadFailed"
    | InvalidWindowConfig => "InvalidWindowConfig"
    | InvalidPolicyRule => "InvalidPolicyRule"
    | ConfigUnknown => "Unknown"
    end in
  with_detail code (ce_detail e).

Definition EvaluatorError_message (e : EvaluatorError) : string :=
  let code := match ee_code e with
    | EvalTimeout => "Timeout"
    | EvalInternalError => "InternalError"
    | EvalInvalidInput => "InvalidInput"
    | EvalNotInitialized => "NotInitialized"
    end in
  if str_empty (ee_evaluator_id e) then with_detail code (ee_detail e)
  else if str_empty (ee_detail e) then code ++ "[" ++ ee_evaluator_id e ++ "]"
  else code ++ "[" ++ ee_evaluator_id e ++ "]: " ++ ee_detail e.

Definition StoreError_message (e : StoreError) : string :=
  let code := match se_code e with
    | StoreUnavailable => "Unavailable"
    | StoreTimeout => "Timeout"
    | StoreCasFailed => "CasFailed"
    | StoreSerializationError => "SerializationError"
    | QueryRangeError => "QueryRangeError"
    end in
  with_detail code (se_detail e).

Definition EmissionError_message (e : EmissionError) : string :=
  let code := match eme_code e with
    | TargetUnavailable => "TargetUnavailable"
    | EmissionTimeout => "Timeout"
    | BufferFull => "BufferFull"
    | EmissionSerializationError => "SerializationError"
    end in
  if str_empty (eme_target_id e) then code ++ ": " ++ eme_detail e
  else code ++ "[" ++ eme_target_id e ++ "]: " ++ eme_detail e.

Definition RateLimitError_message (e : RateLimitError) : string :=
  let code := match rle_code e with
    | Exhausted => "RateLimitExhausted"
    | ConcurrencyCapReached => "ConcurrencyCapReached"
    end in
  if str_empty (rle_tenant_id e) then code else code ++ "[" ++ rle_tenant_id e ++ "]".

Definition PipelineError_message (e : PipelineError) : string :=
  let code := match pe_code e with
    | NotRunning => "NotRunning"
    | AlreadyRunning => "AlreadyRunning"
    | DrainTimeout => "DrainTimeout"
    | SubmitRejected => "SubmitRejected"
    end in
  with_detail code (pe_detail e).

Definition FleetRoutingError_message (e : FleetRoutingError) : string :=
  let code := match fre_code e with
    | NotOwner => "FleetNotOwner"
    | TopologyUnavailable => "TopologyUnavailable"
    end in
  if str_empty (fre_redirect_hint e) then
    if str_empty (fre_tenant_id e) then code else code ++ "[" ++ fre_tenant_id e ++ "]"
  else code ++ "[" ++ fre_tenant_id e ++ "] hint=" ++ fre_redirect_hint e.

Definition error_message (e : Error) : string :=
  match e with
  | ErrConfig e => ConfigError_message e
  | ErrEvaluator e => EvaluatorError_message e
  | ErrStore e => StoreError_message e
  | ErrEmission e => EmissionError_message e
  | ErrRateLimit e => RateLimitError_message e
  | ErrPipeline e => PipelineError_message e
  | ErrFleetRouting e => FleetRoutingError_message e
  end.
