(* ===== verification/DecisionTypes.v ===== *)
(** * DecisionTypeRegistry and the active decisions of a Decision

    include/fre/core/decision_type.hpp and src/pipeline/decision_type.cpp: the
    registry of named decision types kept sorted by priority, its pairs of
    incompatible types, and [Decision::compute_active_decisions]. *)

From S2P Require Import Prelude CoreTypes Errors.

Open Scope Z_scope.

Record DecisionTypeDescriptor : Type := mkDescriptor {
  dt_id : string;
  dt_display_name : string;
  dt_priority : Z
}.

Record IncompatiblePair : Type := mkPair { type_id_a : string; type_id_b : string }.

Record DecisionTypeRegistry : Type := mkRegistry {
  reg_types : list DecisionTypeDescriptor;
  reg_incompatible : list IncompatiblePair
}.

Definition registry_empty : DecisionTypeRegistry := mkRegistry [] [].

Definition registry_find (r : DecisionTypeRegistry) (type_id : string)
    : option DecisionTypeDescriptor :=
  find_first (fun d => str_eqb (dt_id d) type_id) (reg_types r).

Definition invalid_rule (detail : string) : ConfigError := mkConfigError InvalidPolicyRule detail.

Definition add_type (r : DecisionTypeRegistry) (desc : DecisionTypeDescriptor)
    : expected DecisionTypeRegistry ConfigError :=
  if str_empty (dt_id desc) then
    Unexpected (invalid_rule "decision type id must not be empty")
  else
    match registry_find r (dt_id desc) with
    | Some _ =>
        Unexpected (invalid_rule
          (String.append "decision type '" (String.append (dt_id desc) "' is already registered")))
    | None =>
        let it := lower_bound (fun existing => Z.ltb (dt_priority existing) (dt_priority desc))
                    (reg_types r) in
        Ok (mkRegistry (insert_at it desc (reg_types r)) (reg_incompatible r))
    end.

Definition add_incompatible (r : DecisionTypeRegistry) (a b : string)
    : expected DecisionTypeRegistry ConfigError :=
  match registry_find r a with
  | None =>
      Unexpected (invalid_rule
        (String.append "unknown decision type '" (String.append a "' in incompatible pair")))
  | Some _ =>
      match registry_find r b with
      | None =>
          Unexpected (invalid_rule
            (String.append "unknown decision type '" (String.append b "' in incompatible pair")))
      | Some _ => Ok (mkRegistry (reg_types r) (reg_incompatible r ++ [mkPair a b]))
      end
  end.

Definition are_incompatible (r : DecisionTypeRegistry) (lhs rhs : string) : bool :=
  existsb (fun p =>
    (str_eqb (type_id_a p) lhs && str_eqb (type_id_b p) rhs)
    || (str_eqb (type_id_a p) rhs && str_eqb (type_id_b p) lhs))%bool
    (reg_incompatible r).

(** One entry per policy result that carries a registered decision type. *)
Fixpoint collect_active (r : DecisionTypeRegistry) (results : list EvaluatorResult)
    : list ActiveDecision :=
  match results with
  | [] => []
  | er :: rest =>
      match er_decision_type_id er with
      | None => collect_active r rest
      | Some type_id =>
          match registry_find r type_id with
          | None => collect_active r rest
          | Some desc =>
              mkActiveDecision type_id (er_evaluator_id er) (dt_priority desc)
              :: collect_active r rest
          end
      end
  end.

Definition active_lt (lhs rhs : ActiveDecision) : bool :=
  Z.ltb (ad_priority lhs) (ad_priority rhs).

Definition compute_active_decisions `{StdSort} (registry : option DecisionTypeRegistry)
    (d : Decision) : Decision :=
  match registry with
  | None => d
  | Some r =>
      match stage_output d "policy" with
      | None => d
      | Some policy_out =>
          set_active_decisions d
            (std_sort active_lt (collect_active r (so_evaluator_results policy_out)))
      end
  end.

(** Registries the API can build. *)
Inductive registry_reachable : DecisionTypeRegistry -> Prop :=
| reach_empty : registry_reachable registry_empty
| reach_add_type r desc r' :
    registry_reachable r -> add_type r desc = Ok r' -> registry_reachable r'
| reach_add_incompatible r a b r' :
    registry_reachable r -> add_incompatible r a b = Ok r' -> registry_reachable r'.

Definition priority_le (x y : DecisionTypeDescriptor) : Prop := dt_priority x <= dt_priority y.

Record registry_ok (r : DecisionTypeRegistry) : Prop := {
  ok_sorted : StronglySorted priority_le (reg_types r);
  ok_unique : NoDup (dt_id <$> reg_types r);
  ok_nonempty : forall d, d ∈ reg_types r -> dt_id d <> "";
  ok_pairs : forall p, p ∈ reg_incompatible r ->
    is_Some (registry_find r (type_id_a p)) /\ is_Some (registry_find r (type_id_b p))
}.

(** Sample data for the witnesses. *)
Definition example_block : DecisionTypeDescriptor := mkDescriptor "block" "Block" 0.
Definition example_notify : DecisionTypeDescriptor := mkDescriptor "notify" "Notify" 10.

Definition example_registry : DecisionTypeRegistry :=
  mkRegistry [example_block; example_notify] [mkPair "block" "notify"].

Definition example_policy_output : StageOutput :=
  mkStageOutput "policy" Block
    [mkEvaluatorResult "r1" Flag None None false None (Some "notify");
     mkEvaluatorResult "r2" Block None None false None (Some "block")] 0 0.

Definition example_decision : Decision :=
  mkDecision "p" "1" 1 "t" "e" 0 [example_policy_output] Block 0 0 [].

(** ** Lemmas *)

Lemma registry_find_Some (r : DecisionTypeRegistry) (i : string) (d : DecisionTypeDescriptor) :
  registry_find r i = Some d -> d ∈ reg_types r /\ dt_id d = i.
Proof. intros Hf. apply find_first_Some in Hf as [? ?%str_eqb_eq]. done. Qed.

Lemma registry_find_None (r : DecisionTypeRegistry) (i : string) :
  registry_find r i = None <-> i ∉ dt_id <$> reg_types r.
Proof.
  unfold registry_find. rewrite find_first_None, list_elem_of_fmap. split.
  - intros Ha (d & -> & Hd). specialize (Ha d Hd). by rewrite str_eqb_refl in Ha.
  - intros Hn d Hd. apply str_eqb_neq. intros <-. apply Hn. by exists d.
Qed.

Lemma registry_find_is_Some (r : DecisionTypeRegistry) (i : string) :
  is_Some (registry_find r i) <-> i ∈ dt_id <$> reg_types r.
Proof.
  rewrite <- not_eq_None_Some, registry_find_None.
  destruct (decide (i ∈ dt_id <$> reg_types r)); tauto.
Qed.

(** With distinct ids the lookup finds exactly the descriptor stored. *)
Lemma registry_find_unique (r : DecisionTypeRegistry) (d : DecisionTypeDescriptor) :
  NoDup (dt_id <$> reg_types r) -> d ∈ reg_types r -> registry_find r (dt_id d) = Some d.
Proof.
  intros Hnd (l1 & l2 & Hl)%list_elem_of_split. apply find_first_split.
  exists l1, l2. split_and!; [done|by apply str_eqb_eq|].
  intros y Hy. apply str_eqb_neq. intros Heq.
  rewrite Hl, fmap_app, fmap_cons in Hnd. apply NoDup_app in Hnd as (_ & Hd & _).
  apply (Hd (dt_id y)); [by apply list_elem_of_fmap_2|]. rewrite Heq. set_solver.
Qed.

(** In a range sorted by priority [lower_bound] splits it at the new priority. *)
Lemma sorted_partition (l : list DecisionTypeDescriptor) (p : Z) :
  StronglySorted priority_le l ->
  exists n, partitioned_at (fun e => Z.ltb (dt_priority e) p) l n.
Proof.
  induction 1 as [|x l Hl [n [Hn Hp]] Hx].
  - exists 0%nat. split; [done|]. intros i y Hy. by rewrite lookup_nil in Hy.
  - destruct (Z.ltb_spec (dt_priority x) p) as [Hlt|Hge].
    + exists (S n). split; [simpl; lia|]. intros [|i] y Hy; simpl in Hy.
      * injection Hy as ->. rewrite Z.ltb_lt. split; lia.
      * rewrite (Hp i y Hy). lia.
    + exists 0%nat. split; [lia|]. intros i y Hy. split; [|lia]. intros Hlt%Z.ltb_lt.
      assert (Hxy : dt_priority x <= dt_priority y).
      { destruct i as [|i]; simpl in Hy; [injection Hy as ->; lia|].
        apply (proj1 (Forall_lookup _ _) Hx i y Hy). }
      lia.
Qed.

Lemma insert_sorted (l : list DecisionTypeDescriptor) (d : DecisionTypeDescriptor) :
  StronglySorted priority_le l ->
  StronglySorted priority_le
    (insert_at (lower_bound (fun e => Z.ltb (dt_priority e) (dt_priority d)) l) d l).
Proof.
  intros Hl. destruct (sorted_partition l (dt_priority d) Hl) as [n Hn].
  rewrite (lower_bound_spec _ _ _ Hn). destruct Hn as [Hlen Hp]. unfold insert_at.
  rewrite <- (take_drop n l) in Hl. apply StronglySorted_app in Hl as (Hcross & Ht & Hd).
  assert (Hbefore : forall x, x ∈ take n l -> dt_priority x < dt_priority d).
  { intros x (i & Hi)%list_elem_of_lookup. apply lookup_take_Some in Hi as [Hi Hin].
    by apply Z.ltb_lt, (Hp i x Hi). }
  assert (Hafter : forall x, x ∈ drop n l -> dt_priority d <= dt_priority x).
  { intros x (i & Hi)%list_elem_of_lookup. rewrite lookup_drop in Hi.
    apply Z.ltb_ge. destruct (Z.ltb _ _) eqn:E; [|done]. apply (Hp _ x Hi) in E. lia. }
  apply StronglySorted_app. split_and!; [|done|].
  - intros x y Hx [->|Hy]%elem_of_cons; [|by apply Hcross].
    specialize (Hbefore x Hx). unfold priority_le. lia.
  - constructor; [done|]. apply Forall_forall. intros x Hx. by apply Hafter.
Qed.

Lemma add_type_Ok (r r' : DecisionTypeRegistry) (desc : DecisionTypeDescriptor) :
  add_type r desc = Ok r' ->
  dt_id desc <> "" /\ registry_find r (dt_id desc) = None /\
  r' = mkRegistry
         (insert_at (lower_bound (fun e => Z.ltb (dt_priority e) (dt_priority desc)) (reg_types r))
            desc (reg_types r)) (reg_incompatible r).
Proof.
  unfold add_type. destruct (str_empty (dt_id desc)) eqn:He; [done|].
  destruct (registry_find r (dt_id desc)); [done|]. intros [= <-].
  split; [|done]. intros ?%str_empty_eq. congruence.
Qed.

Lemma add_incompatible_Ok (r r' : DecisionTypeRegistry) (a b : string) :
  add_incompatible r a b = Ok r' ->
  is_Some (registry_find r a) /\ is_Some (registry_find r b) /\
  r' = mkRegistry (reg_types r) (reg_incompatible r ++ [mkPair a b]).
Proof.
  unfold add_incompatible. destruct (registry_find r a); [|done].
  destruct (registry_find r b); [|done]. intros [= <-]. eauto.
Qed.

Lemma insert_at_ids (i : nat) (d : DecisionTypeDescriptor) (l : list DecisionTypeDescriptor) :
  dt_id <$> insert_at i d l ≡ₚ dt_id d :: (dt_id <$> l).
Proof. by rewrite insert_at_perm. Qed.

Lemma registry_find_mono (r r' : DecisionTypeRegistry) (i : string) :
  (forall j, j ∈ dt_id <$> reg_types r -> j ∈ dt_id <$> reg_types r') ->
  is_Some (registry_find r i) -> is_Some (registry_find r' i).
Proof. rewrite !registry_find_is_Some. auto. Qed.

Lemma add_type_ok (r r' : DecisionTypeRegistry) (desc : DecisionTypeDescriptor) :
  registry_ok r -> add_type r desc = Ok r' -> registry_ok r'.
Proof.
  intros [Hs Hu Hn Hp] (Hne & Hnone & ->)%add_type_Ok.
  assert (Hids : forall j, j ∈ dt_id <$> reg_types r ->
    j ∈ dt_id <$> insert_at (lower_bound (fun e => Z.ltb (dt_priority e) (dt_priority desc))
                               (reg_types r)) desc (reg_types r)).
  { intros j Hj. rewrite insert_at_ids. set_solver. }
  split; simpl.
  - by apply insert_sorted.
  - rewrite insert_at_ids. constructor; [|done]. by apply registry_find_None.
  - intros d [->|Hd]%elem_of_insert_at; auto.
  - intros p Hin. destruct (Hp p Hin). by split; eapply registry_find_mono.
Qed.

Lemma add_incompatible_ok (r r' : DecisionTypeRegistry) (a b : string) :
  registry_ok r -> add_incompatible r a b = Ok r' -> registry_ok r'.
Proof.
  intros [Hs Hu Hn Hp] (Ha & Hb & ->)%add_incompatible_Ok. split; simpl; [done..|].
  intros p [Hin| ->%list_elem_of_singleton]%elem_of_app; [|done]. by apply Hp.
Qed.

Lemma registry_reachable_ok (r : DecisionTypeRegistry) : registry_reachable r -> registry_ok r.
Proof.
  induction 1; [split; simpl; [constructor|constructor|set_solver|set_solver]| |];
    eauto using add_type_ok, add_incompatible_ok.
Qed.

Lemma elem_of_collect_active (r : DecisionTypeRegistry) (l : list EvaluatorResult) a :
  a ∈ collect_active r l <->
  exists er desc, er ∈ l /\ er_decision_type_id er = Some (ad_decision_type_id a) /\
    registry_find r (ad_decision_type_id a) = Some desc /\
    ad_rule_id a = er_evaluator_id er /\ ad_priority a = dt_priority desc.
Proof.
  induction l as [|er l IH]; simpl; [set_solver|]. split.
  - intros Ha.
    assert (Hor : (exists t desc, er_decision_type_id er = Some t /\
              registry_find r t = Some desc /\
              a = mkActiveDecision t (er_evaluator_id er) (dt_priority desc))
            \/ a ∈ collect_active r l).
    { destruct (er_decision_type_id er) as [t|]; [|by right].
      destruct (registry_find r t) as [desc|] eqn:Hf; [|by right].
      apply elem_of_cons in Ha as [->|Ha]; [|by right]. left. eauto 6. }
    destruct Hor as [(t & desc & Ht & Hf & ->)|Hin].
    + exists er, desc. simpl. split_and!; eauto using list_elem_of_here.
    + apply IH in Hin as (er' & desc & ? & ? & ?). exists er', desc.
      split; [by apply list_elem_of_further|done].
  - intros (er' & desc & [->|Hin]%elem_of_cons & Ht & Hf & Hr & Hp).
    + rewrite Ht, Hf. destruct a as [t i p]; simpl in *; subst. apply list_elem_of_here.
    + assert (a ∈ collect_active r l) by (apply IH; eauto 8).
      destruct (er_decision_type_id er) as [t|]; [|done].
      destruct (registry_find r t); [by apply list_elem_of_further|done].
Qed.

#[export] Hint Resolve registry_reachable_ok : fre.

(** ** Properties *)

(** C40: every registry the API can build keeps its types sorted by ascending
    priority, gives each type a distinct non-empty id, and only declares pairs
    of registered types incompatible. *)
Theorem registry_invariant (r : DecisionTypeRegistry) (H : registry_reachable r) : registry_ok r.
Proof. auto with fre. Qed.

Lemma registry_invariant_witness :
  registry_reachable example_registry /\ registry_ok example_registry.
Proof.
  assert (Hr : registry_reachable example_registry).
  { apply (reach_add_incompatible (mkRegistry [example_block; example_notify] []) "block" "notify");
      [|reflexivity].
    apply (reach_add_type (mkRegistry [example_notify] []) example_block); [|reflexivity].
    apply (reach_add_type registry_empty example_notify); [apply reach_empty|reflexivity]. }
  split; [exact Hr|apply (registry_invariant _ Hr)].
Defined.

(** Registering a type on a well-formed registry: it fails exactly on an
    empty or already registered id and otherwise makes that id, and no other,
    resolve to the new descriptor. *)
Theorem add_type_lookup (r : DecisionTypeRegistry) (desc : DecisionTypeDescriptor)
    (H : registry_ok r) :
  match add_type r desc with
  | Ok r' =>
      dt_id desc <> "" /\ registry_find r (dt_id desc) = None /\
      forall i, registry_find r' i = if str_eqb i (dt_id desc) then Some desc
                                     else registry_find r i
  | Unexpected _ => dt_id desc = "" \/ is_Some (registry_find r (dt_id desc))
  end.
Proof.
  destruct (add_type r desc) as [r'|e] eqn:Hadd.
  - pose proof (add_type_ok _ _ _ H Hadd) as Hok'.
    destruct (add_type_Ok _ _ _ Hadd) as (Hne & Hnone & ->). split_and!; [done|done|].
    intros i. destruct (str_eqb i (dt_id desc)) eqn:Hi.
    + apply str_eqb_eq in Hi as ->. apply registry_find_unique; [apply Hok'|].
      simpl. apply elem_of_insert_at. by left.
    + apply str_eqb_neq in Hi. destruct (registry_find r i) as [d|] eqn:Hf.
      * apply registry_find_Some in Hf as [Hd <-]. apply registry_find_unique; [apply Hok'|].
        simpl. apply elem_of_insert_at. by right.
      * apply registry_find_None. simpl. rewrite insert_at_ids.
        apply registry_find_None in Hf. set_solver.
  - revert Hadd. unfold add_type. destruct (str_empty (dt_id desc)) eqn:He.
    + apply str_empty_eq in He. auto.
    + destruct (registry_find r (dt_id desc)); [eauto|done].
Qed.

Lemma add_type_lookup_witness :
  registry_ok registry_empty /\
  registry_find
    (match add_type registry_empty (mkDescriptor "block" "Block" 0) with
     | Ok r => r | Unexpected _ => registry_empty end) "block"
  = Some (mkDescriptor "block" "Block" 0).
Proof.
  assert (Hok : registry_ok registry_empty) by (apply registry_reachable_ok, reach_empty).
  split; [exact Hok|].
  pose proof (add_type_lookup registry_empty (mkDescriptor "block" "Block" 0) Hok) as Hl.
  cbn in Hl |- *. destruct Hl as (_ & _ & Hf). exact (Hf "block").
Defined.

(** [compute_active_decisions] lists exactly the policy results whose
    decision type is registered, with the registered priority, in ascending
    order of priority, whatever sorting algorithm [std::sort] is. *)
Theorem active_decisions_spec {Hsort : StdSort} (r : DecisionTypeRegistry) (d : Decision)
    (o : StageOutput) (H : stage_output d "policy" = Some o) :
  let active := d_active_decisions (compute_active_decisions (Some r) d) in
  StronglySorted (fun x y => ad_priority x <= ad_priority y) active /\
  length active = length (collect_active r (so_evaluator_results o)) /\
  forall a, a ∈ active <->
    exists er desc, er ∈ so_evaluator_results o /\
      er_decision_type_id er = Some (ad_decision_type_id a) /\
      registry_find r (ad_decision_type_id a) = Some desc /\
      ad_rule_id a = er_evaluator_id er /\ ad_priority a = dt_priority desc.
Proof.
  cbn. rewrite H. cbn. split_and!.
  - eapply StronglySorted_weaken; [|apply (std_sort_sorted active_lt), key_swo].
    intros x y Hxy. by apply Z.ltb_ge.
  - by rewrite std_sort_perm.
  - intros a. rewrite std_sort_perm. apply elem_of_collect_active.
Qed.

Lemma active_decisions_spec_witness :
  stage_output example_decision "policy" = Some example_policy_output /\
  d_active_decisions (compute_active_decisions (Some example_registry) example_decision)
  = [mkActiveDecision "block" "r2" 0; mkActiveDecision "notify" "r1" 10] /\
  mkActiveDecision "block" "r2" 0
    ∈ d_active_decisions (compute_active_decisions (Some example_registry) example_decision).
Proof.
  split; [reflexivity|]. split; [reflexivity|].
  apply (active_decisions_spec example_registry example_decision example_policy_output eq_refl).
  exists (mkEvaluatorResult "r2" Block None None false None (Some "block")),
         (mkDescriptor "block" "Block" 0).
  split; [cbn; right; left|]. repeat split; reflexivity.
Defined.
