(* ===== verification/RuleEngine.v ===== *)
(** * The policy rule language and its evaluator

    include/fre/policy/rule_engine.hpp and src/policy/rule_engine.cpp: the AST
    of policy rules, the deep copy of its owning pointers, [parse_double], and
    [RuleEngine::evaluate], one definition per branch of the visitor.

    A child of a composite node is a [unique_ptr] and may be null (for instance
    after a move), so it is an [option].  The two age nodes read the system
    clock each time they are reached, so evaluation threads a world.  The
    specification [documented] is taken from the comments of the header and the
    contract of specs/005-policy-rule-extensions. *)

From S2P Require Import Prelude Ieee CoreTypes.
From Stdlib Require Import SpecFloat Ascii.

Open Scope Z_scope.

(** ** Context and rules *)

Record PolicyContext : Type := mkPolicyContext {
  pc_event : Event;
  pc_stage_outputs : list StageOutput
}.

Inductive PolicyRule : Type :=
| StageVerdictIs (stage_id : string) (verdict : Verdict)
| EvaluatorScoreAbove (evaluator_id : string) (threshold : float32)
| TagEquals (key value : string)
| And (lchild rchild : option PolicyRule)
| Or (lchild rchild : option PolicyRule)
| Not (expr : option PolicyRule)
| TagContains (key substring : string)
| TagStartsWith (key prefix : string)
| TagIn (key : string) (values : list string)
| TagExists (key : string)
| TagValueLessThan (key : string) (threshold : float64)
| TagValueGreaterThan (key : string) (threshold : float64)
| TagValueBetween (key : string) (lo hi : float64)
| EventTypeIs (event_type : string)
| EventTypeIn (event_types : list string)
| TenantIs (tenant_id : string)
| EventOlderThan (duration_ms : Z)
| EventNewerThan (duration_ms : Z)
| EvaluatorScoreBetween (evaluator_id : string) (lo hi : float32)
| StageIsDegraded (stage_id : string)
| EvaluatorWasSkipped (evaluator_id : string)
| EvaluatorReasonIs (evaluator_id reason_code : string).

(** The copy constructors: a fresh node over copies of the children. *)
Fixpoint copy_rule (r : PolicyRule) : PolicyRule :=
  let copy_child c := match c with Some r' => Some (copy_rule r') | None => None end in
  match r with
  | And lchild rchild => And (copy_child lchild) (copy_child rchild)
  | Or lchild rchild => Or (copy_child lchild) (copy_child rchild)
  | Not expr => Not (copy_child expr)
  | leaf => leaf
  end.

(** ** Helpers of the anonymous namespace *)

Definition find_tag (e : Event) (key : string) : string_view :=
  match find_first (fun t => str_eqb (sv_str (tag_key t)) key) (ev_tags e) with
  | Some t => tag_value t
  | None => sv_null
  end.

Definition parse_buffer_size : nat := 64.

Definition parse_double (v : string_view) : float64 * bool :=
  let s := sv_str v in
  if str_empty s then (f64_zero, false)
  else if Nat.leb parse_buffer_size (String.length s) then (f64_zero, false)
  else
    match Strtod.strtod s with
    | Some (val, rest) => if str_empty rest then (val, true) else (f64_zero, false)
    | None => (f64_zero, false)
    end.

(** [string_view::find(sub) != npos]. *)
Fixpoint str_contains (sub s : string) : bool :=
  String.prefix sub s || match s with
                         | EmptyString => false
                         | String _ s' => str_contains sub s'
                         end.

(** ** The branches of the visitor *)

Definition stage_of (ctx : PolicyContext) (stage_id : string) : option StageOutput :=
  find_first (fun so => str_eqb (so_stage_id so) stage_id) (pc_stage_outputs ctx).

(** Results of all stages in the order of the two nested loops. *)
Definition all_results (ctx : PolicyContext) : list EvaluatorResult :=
  concat (so_evaluator_results <$> pc_stage_outputs ctx).

Definition tag_of (ctx : PolicyContext) (key : string) : option Tag :=
  find_first (fun t => str_eqb (sv_str (tag_key t)) key) (ev_tags (pc_event ctx)).

Definition eval_stage_verdict_is (ctx : PolicyContext) (stage_id : string) (v : Verdict) : bool :=
  match stage_of ctx stage_id with
  | Some so => verdict_eqb (so_verdict so) v
  | None => false
  end.

Definition eval_score_above (ctx : PolicyContext) (id : string) (threshold : float32) : bool :=
  existsb (fun er =>
    str_eqb (er_evaluator_id er) id &&
    match er_score er with Some score => f_ge score threshold | None => false end)%bool
    (all_results ctx).

Definition eval_tag_equals (ctx : PolicyContext) (key value : string) : bool :=
  existsb (fun t => str_eqb (sv_str (tag_key t)) key && str_eqb (sv_str (tag_value t)) value)%bool
    (ev_tags (pc_event ctx)).

Definition eval_tag_contains (ctx : PolicyContext) (key substring : string) : bool :=
  let val := find_tag (pc_event ctx) key in
  if (sv_data_is_null val && str_empty key)%bool then false
  else
    match tag_of ctx key with
    | Some t => str_contains substring (sv_str (tag_value t))
    | None => false
    end.

Definition eval_tag_starts_with (ctx : PolicyContext) (key prefix : string) : bool :=
  match tag_of ctx key with
  | Some t => String.prefix prefix (sv_str (tag_value t))
  | None => false
  end.

Definition eval_tag_in (ctx : PolicyContext) (key : string) (values : list string) : bool :=
  match tag_of ctx key with
  | Some t => existsb (fun v => str_eqb (sv_str (tag_value t)) v) values
  | None => false
  end.

Definition eval_tag_exists (ctx : PolicyContext) (key : string) : bool :=
  match tag_of ctx key with Some _ => true | None => false end.

(** The shared shape of the numeric branches. *)
Definition eval_tag_number (ctx : PolicyContext) (key : string) (test : float64 -> bool) : bool :=
  match tag_of ctx key with
  | Some t => let '(val, ok) := parse_double (tag_value t) in (ok && test val)%bool
  | None => false
  end.

Definition eval_tag_less (ctx : PolicyContext) (key : string) (threshold : float64) : bool :=
  eval_tag_number ctx key (fun val => f_lt val threshold).

Definition eval_tag_greater (ctx : PolicyContext) (key : string) (threshold : float64) : bool :=
  eval_tag_number ctx key (fun val => f_gt val threshold).

Definition eval_tag_between (ctx : PolicyContext) (key : string) (lo hi : float64) : bool :=
  if f_ge lo hi then false
  else eval_tag_number ctx key (fun val => f_ge val lo && f_lt val hi)%bool.

Definition eval_event_type_in (ctx : PolicyContext) (types : list string) : bool :=
  existsb (fun t => str_eqb (ev_event_type (pc_event ctx)) t) types.

Definition eval_older (ctx : PolicyContext) (duration_ms now : Z) : bool :=
  let age := now - ev_timestamp (pc_event ctx) in
  if Z.leb age 0 then false else Z.ltb (duration_ms * ns_per_ms) age.

Definition eval_newer (ctx : PolicyContext) (duration_ms now : Z) : bool :=
  let age := now - ev_timestamp (pc_event ctx) in
  if Z.ltb age 0 then false else Z.ltb age (duration_ms * ns_per_ms).

Definition eval_score_between (ctx : PolicyContext) (id : string) (lo hi : float32) : bool :=
  if f_ge lo hi then false
  else
    match find_first (fun er =>
            str_eqb (er_evaluator_id er) id &&
            match er_score er with Some _ => true | None => false end)%bool (all_results ctx) with
    | Some er =>
        match er_score er with
        | Some score => (f_ge score lo && f_lt score hi)%bool
        | None => false
        end
    | None => false
    end.

Definition eval_stage_is_degraded (ctx : PolicyContext) (stage_id : string) : bool :=
  match stage_of ctx stage_id with
  | Some so => is_degraded (so_degraded_reason so)
  | None => false
  end.

Definition result_of (ctx : PolicyContext) (id : string) : option EvaluatorResult :=
  find_first (fun er => str_eqb (er_evaluator_id er) id) (all_results ctx).

Definition eval_was_skipped (ctx : PolicyContext) (id : string) : bool :=
  match result_of ctx id with Some er => er_skipped er | None => false end.

Definition eval_reason_is (ctx : PolicyContext) (id reason : string) : bool :=
  match result_of ctx id with
  | Some er => match er_reason_code er with Some rc => str_eqb rc reason | None => false end
  | None => false
  end.

(** ** RuleEngine::evaluate *)

Section Evaluate.

Context {W : Type} {HC : Clock W}.

Fixpoint evaluate (ctx : PolicyContext) (rule : PolicyRule) : M W bool :=
  match rule with
  | StageVerdictIs stage_id verdict => retM (eval_stage_verdict_is ctx stage_id verdict)
  | EvaluatorScoreAbove id threshold => retM (eval_score_above ctx id threshold)
  | TagEquals key value => retM (eval_tag_equals ctx key value)
  | And lchild rchild =>
      match lchild, rchild with
      | Some l, Some r => do a <- evaluate ctx l; if a then evaluate ctx r else retM false
      | _, _ => retM false
      end
  | Or lchild rchild =>
      match lchild, rchild with
      | Some l, Some r => do a <- evaluate ctx l; if a then retM true else evaluate ctx r
      | _, _ => retM false
      end
  | Not expr =>
      match expr with
      | Some e => do a <- evaluate ctx e; retM (negb a)
      | None => retM true
      end
  | TagContains key substring => retM (eval_tag_contains ctx key substring)
  | TagStartsWith key prefix => retM (eval_tag_starts_with ctx key prefix)
  | TagIn key values => retM (eval_tag_in ctx key values)
  | TagExists key => retM (eval_tag_exists ctx key)
  | TagValueLessThan key threshold => retM (eval_tag_less ctx key threshold)
  | TagValueGreaterThan key threshold => retM (eval_tag_greater ctx key threshold)
  | TagValueBetween key lo hi => retM (eval_tag_between ctx key lo hi)
  | EventTypeIs event_type => retM (str_eqb (ev_event_type (pc_event ctx)) event_type)
  | EventTypeIn event_types => retM (eval_event_type_in ctx event_types)
  | TenantIs tenant_id => retM (str_eqb (ev_tenant_id (pc_event ctx)) tenant_id)
  | EventOlderThan duration => do now <- system_now; retM (eval_older ctx duration now)
  | EventNewerThan duration => do now <- system_now; retM (eval_newer ctx duration now)
  | EvaluatorScoreBetween id lo hi => retM (eval_score_between ctx id lo hi)
  | StageIsDegraded stage_id => retM (eval_stage_is_degraded ctx stage_id)
  | EvaluatorWasSkipped id => retM (eval_was_skipped ctx id)
  | EvaluatorReasonIs id reason => retM (eval_reason_is ctx id reason)
  end.

End Evaluate.

(** ** What the branches decide, at a fixed instant *)

(** The first element of a list with a property. *)
Definition first_such {A : Type} (P : A -> Prop) (l : list A) (x : A) : Prop :=
  exists l1 l2, l = l1 ++ x :: l2 /\ P x /\ forall y, y ∈ l1 -> ~ P y.

Definition has_key (key : string) (t : Tag) : Prop := sv_str (tag_key t) = key.
Definition stage_named (id : string) (so : StageOutput) : Prop := so_stage_id so = id.
Definition by_evaluator (id : string) (er : EvaluatorResult) : Prop := er_evaluator_id er = id.

Definition numeric_tag (ctx : PolicyContext) (key : string) (test : float64 -> Prop) : Prop :=
  exists t x, first_such (has_key key) (ev_tags (pc_event ctx)) t /\
    parse_double (tag_value t) = (x, true) /\ test x.

Fixpoint holds (now : Z) (ctx : PolicyContext) (rule : PolicyRule) : Prop :=
  match rule with
  | StageVerdictIs stage_id verdict =>
      exists so, first_such (stage_named stage_id) (pc_stage_outputs ctx) so /\
        so_verdict so = verdict
  | EvaluatorScoreAbove id threshold =>
      exists er score, er ∈ all_results ctx /\ by_evaluator id er /\
        er_score er = Some score /\ f_ge score threshold = true
  | TagEquals key value =>
      exists t, t ∈ ev_tags (pc_event ctx) /\ has_key key t /\ sv_str (tag_value t) = value
  | And (Some l) (Some r) => holds now ctx l /\ holds now ctx r
  | And _ _ => False
  | Or (Some l) (Some r) => holds now ctx l \/ holds now ctx r
  | Or _ _ => False
  | Not (Some e) => ~ holds now ctx e
  | Not None => True
  | TagContains key substring =>
      exists t before after, first_such (has_key key) (ev_tags (pc_event ctx)) t /\
        sv_str (tag_value t) = before +:+ substring +:+ after /\
        ~ (key = "" /\ tag_value t = sv_null)
  | TagStartsWith key prefix =>
      exists t after, first_such (has_key key) (ev_tags (pc_event ctx)) t /\
        sv_str (tag_value t) = prefix +:+ after
  | TagIn key values =>
      exists t, first_such (has_key key) (ev_tags (pc_event ctx)) t /\
        sv_str (tag_value t) ∈ values
  | TagExists key => exists t, t ∈ ev_tags (pc_event ctx) /\ has_key key t
  | TagValueLessThan key threshold =>
      numeric_tag ctx key (fun x => f_lt x threshold = true)
  | TagValueGreaterThan key threshold =>
      numeric_tag ctx key (fun x => f_lt threshold x = true)
  | TagValueBetween key lo hi =>
      f_ge lo hi = false /\
      numeric_tag ctx key (fun x => f_le lo x = true /\ f_lt x hi = true)
  | EventTypeIs event_type => ev_event_type (pc_event ctx) = event_type
  | EventTypeIn event_types => ev_event_type (pc_event ctx) ∈ event_types
  | TenantIs tenant_id => ev_tenant_id (pc_event ctx) = tenant_id
  | EventOlderThan duration =>
      0 < now - ev_timestamp (pc_event ctx) /\
      duration * ns_per_ms < now - ev_timestamp (pc_event ctx)
  | EventNewerThan duration =>
      0 <= now - ev_timestamp (pc_event ctx) < duration * ns_per_ms
  | EvaluatorScoreBetween id lo hi =>
      f_ge lo hi = false /\
      exists er score,
        first_such (fun er => by_evaluator id er /\ is_Some (er_score er)) (all_results ctx) er /\
        er_score er = Some score /\ f_le lo score = true /\ f_lt score hi = true
  | StageIsDegraded stage_id =>
      exists so, first_such (stage_named stage_id) (pc_stage_outputs ctx) so /\
        so_degraded_reason so <> Degraded.None
  | EvaluatorWasSkipped id =>
      exists er, first_such (by_evaluator id) (all_results ctx) er /\ er_skipped er = true
  | EvaluatorReasonIs id reason =>
      exists er, first_such (by_evaluator id) (all_results ctx) er /\
        er_reason_code er = Some reason
  end.

(** ** What is documented

    The comments of rule_engine.hpp on the node types and the contract of
    specs/005-policy-rule-extensions: any tag, result or stage of the name may
    make a leaf match, and numbers are read as [std::from_chars] reads them. *)

Definition undash (s : string) : bool * string :=
  match s with String "-"%char s' => (true, s') | _ => (false, s) end.

(** A text that is wholly a decimal numeral, with a minus sign or none: its
    digits as an integer, and its value correctly rounded. *)
Definition decimal_text (s : string) : option (Z * float64) :=
  let '(neg, s1) := undash s in
  let '(m, n, frac, r) := Strtod.mantissa Strtod.digit_value 10 s1 in
  match n with
  | O => None
  | S _ =>
      let '(e, r') := Strtod.exponent_part "e"%char r in
      if str_empty r' then Some (m, Strtod.round_decimal neg m n (e - Z.of_nat frac)) else None
  end.

(** [std::errc::result_out_of_range]: it rounds to an infinity, or to zero and is not. *)
Definition out_of_range (m : Z) (x : float64) : bool :=
  match x with
  | S754_finite _ _ _ => false
  | S754_zero _ => negb (Z.eqb m 0)
  | _ => true
  end.

(** The finite number [std::from_chars] reads when it takes the whole text; the
    contract has infinities and NaN match nothing. *)
Definition documented_number (s : string) : option float64 :=
  match decimal_text s with
  | Some (m, x) => if out_of_range m x then None else Some x
  | None => None
  end.

Definition documented_tag (ctx : PolicyContext) (key : string) (test : float64 -> Prop) : Prop :=
  exists t x, t ∈ ev_tags (pc_event ctx) /\ has_key key t /\ documented_number (sv_str (tag_value t)) = Some x /\ test x.

Fixpoint documented (now : Z) (ctx : PolicyContext) (rule : PolicyRule) : Prop :=
  let tag_with key (test : string -> Prop) :=
    exists t, t ∈ ev_tags (pc_event ctx) /\ has_key key t /\ test (sv_str (tag_value t)) in
  let stage_with id (test : StageOutput -> Prop) :=
    exists so, so ∈ pc_stage_outputs ctx /\ stage_named id so /\ test so in
  let result_with id (test : EvaluatorResult -> Prop) :=
    exists so er, so ∈ pc_stage_outputs ctx /\ er ∈ so_evaluator_results so /\ by_evaluator id er /\ test er in
  let age := now - ev_timestamp (pc_event ctx) in
  match rule with
  | StageVerdictIs stage_id verdict => stage_with stage_id (fun so => so_verdict so = verdict)
  | EvaluatorScoreAbove id threshold =>
      result_with id (fun er => exists score, er_score er = Some score /\ f_ge score threshold = true)
  | TagEquals key value => tag_with key (fun v => v = value)
  | And lchild rchild =>
      match lchild, rchild with Some l, Some r => documented now ctx l /\ documented now ctx r | _, _ => False end
  | Or lchild rchild =>
      match lchild, rchild with Some l, Some r => documented now ctx l \/ documented now ctx r | _, _ => False end
  | Not expr => match expr with Some e => ~ documented now ctx e | None => False end
  | TagContains key substring => tag_with key (fun v => exists before after, v = before +:+ substring +:+ after)
  | TagStartsWith key prefix => tag_with key (fun v => exists after, v = prefix +:+ after)
  | TagIn key values => tag_with key (fun v => v ∈ values)
  | TagExists key => tag_with key (fun _ => True)
  | TagValueLessThan key threshold => documented_tag ctx key (fun x => f_lt x threshold = true)
  | TagValueGreaterThan key threshold => documented_tag ctx key (fun x => f_lt threshold x = true)
  | TagValueBetween key lo hi =>
      f_ge lo hi = false /\ documented_tag ctx key (fun x => f_le lo x = true /\ f_lt x hi = true)
  | EventTypeIs event_type => ev_event_type (pc_event ctx) = event_type
  | EventTypeIn event_types => ev_event_type (pc_event ctx) ∈ event_types
  | TenantIs tenant_id => ev_tenant_id (pc_event ctx) = tenant_id
  | EventOlderThan duration => duration <> 0 /\ 0 <= age /\ duration * ns_per_ms < age
  | EventNewerThan duration => 0 <= age /\ age < duration * ns_per_ms
  | EvaluatorScoreBetween id lo hi =>
      f_ge lo hi = false /\
      result_with id (fun er => exists score, er_score er = Some score /\ f_le lo score = true /\ f_lt score hi = true)
  | StageIsDegraded stage_id => stage_with stage_id (fun so => so_degraded_reason so <> Degraded.None)
  | EvaluatorWasSkipped id => result_with id (fun er => er_skipped er = true)
  | EvaluatorReasonIs id reason => result_with id (fun er => er_reason_code er = Some reason)
  end.

(** Where the code can be expected to follow the documentation. *)

Definition at_most_one {A : Type} (P : A -> Prop) (l : list A) : Prop :=
  forall l1 x l2, l = l1 ++ x :: l2 -> P x -> forall y, y ∈ l1 ++ l2 -> ~ P y.

(** Texts that [strtod] and [std::from_chars] read alike: fewer than 64
    characters, no space or plus sign in front, no hexadecimal, infinity or NaN,
    and no numeral out of range. *)
Definition plain_text (s : string) : bool :=
  let starts_with k := match Strtod.keyword k (undash s).2 with Some _ => true | None => false end in
  (Nat.ltb (String.length s) 64 &&
   match s with String c _ => negb (Strtod.is_space c) && negb (Ascii.eqb c "+"%char) | EmptyString => true end &&
   negb (starts_with "0x") && negb (starts_with "inf") && negb (starts_with "nan") &&
   match decimal_text s with Some (m, x) => negb (out_of_range m x) | None => true end)%bool.

Definition one_tag (ctx : PolicyContext) (key : string) : Prop := at_most_one (has_key key) (ev_tags (pc_event ctx)).

Definition plain_tag (ctx : PolicyContext) (key : string) : Prop :=
  one_tag ctx key /\
  forall t, t ∈ ev_tags (pc_event ctx) -> has_key key t -> plain_text (sv_str (tag_value t)) = true.

(** What each leaf of a rule asks of a context for its documentation to say one
    thing: the names it looks up are unique, its number is in a plain text, its
    key or duration is not empty; and no child of a composite node is null. *)
Fixpoint unambiguous (ctx : PolicyContext) (rule : PolicyRule) : Prop :=
  match rule with
  | And lchild rchild | Or lchild rchild =>
      match lchild, rchild with Some l, Some r => unambiguous ctx l /\ unambiguous ctx r | _, _ => False end
  | Not expr => match expr with Some e => unambiguous ctx e | None => False end
  | StageVerdictIs stage_id _ | StageIsDegraded stage_id => at_most_one (stage_named stage_id) (pc_stage_outputs ctx)
  | TagContains key _ => key <> "" /\ one_tag ctx key
  | TagStartsWith key _ | TagIn key _ => one_tag ctx key
  | TagValueLessThan key _ | TagValueGreaterThan key _ | TagValueBetween key _ _ => plain_tag ctx key
  | EventOlderThan duration => 0 < duration
  | EvaluatorScoreBetween id _ _ | EvaluatorWasSkipped id | EvaluatorReasonIs id _ =>
      at_most_one (by_evaluator id) (all_results ctx)
  | EvaluatorScoreAbove _ _ | TagEquals _ _ | TagExists _ | EventTypeIs _ | EventTypeIn _ | TenantIs _
  | EventNewerThan _ => True
  end.

Definition is_leaf (r : PolicyRule) : Prop :=
  match r with And _ _ | Or _ _ | Not _ => False | _ => True end.

Definition child_all (P : PolicyRule -> Prop) (c : option PolicyRule) : Prop :=
  match c with Some r => P r | None => True end.

(** Sample data for the witnesses. *)
Definition fixed_clock : Clock Z :=
  {| steady_now := fun w => (w, w); system_now := fun w => (w, w);
     sleep_for := fun d w => (tt, w + d) |}.

Definition example_context : PolicyContext :=
  mkPolicyContext
    (mkEvent 1 "tenant" "user" "login" 400 [] [mkTag (sv "amount") (sv "250.5")])
    [mkStageOutput "ingest" Pass [] 0 0;
     mkStageOutput "eval" Flag [mkEvaluatorResult "ev" Flag None None false None None] 0 0].

Definition example_rule : PolicyRule :=
  And (Some (StageVerdictIs "eval" Flag))
      (Some (Or (Some (TagValueBetween "amount" (f64_of_Z 100) (f64_of_Z 251)))
                (Some (Not (Some (EventOlderThan 1)))))).

Definition ran_result : EvaluatorResult := mkEvaluatorResult "ev" Pass None None false None None.
Definition skipped_result : EvaluatorResult := mkEvaluatorResult "ev" Pass None None true None None.

Definition skipped_context : PolicyContext :=
  mkPolicyContext (mkEvent 1 "tenant" "user" "login" 0 [] [])
    [mkStageOutput "eval" Pass [ran_result; skipped_result] 0 0].

(** ** Lemmas *)

(** Induction through the optional children. *)
Lemma PolicyRule_nested_ind (P : PolicyRule -> Prop) :
  (forall r, is_leaf r -> P r) ->
  (forall l r, child_all P l -> child_all P r -> P (And l r)) ->
  (forall l r, child_all P l -> child_all P r -> P (Or l r)) ->
  (forall e, child_all P e -> P (Not e)) ->
  forall r, P r.
Proof.
  intros Hleaf Hand Hor Hnot. fix IH 1.
  intros r. destruct r as [ | | |l r|l r|e| | | | | | | | | | | | | | | | ];
    try (apply Hleaf; exact I).
  - apply Hand; [destruct l; [apply IH|exact I]|destruct r; [apply IH|exact I]].
  - apply Hor; [destruct l; [apply IH|exact I]|destruct r; [apply IH|exact I]].
  - apply Hnot. destruct e; [apply IH|exact I].
Qed.

Lemma copy_rule_id (r : PolicyRule) : copy_rule r = r.
Proof.
  induction r as [r Hr|l r Hl Hr|l r Hl Hr|e He] using PolicyRule_nested_ind.
  - by destruct r.
  - destruct l, r; simpl in *; congruence.
  - destruct l, r; simpl in *; congruence.
  - destruct e; simpl in *; congruence.
Qed.

Lemma find_first_such {A : Type} (p : A -> bool) (P : A -> Prop) (l : list A) (x : A) :
  (forall y, p y = true <-> P y) -> find_first p l = Some x <-> first_such P l x.
Proof.
  intros HpP. rewrite find_first_split. unfold first_such.
  split; intros (l1 & l2 & Hl & Hx & Hb); exists l1, l2;
    (split_and!; [done|by apply HpP|]); intros y Hy.
  - rewrite <- HpP. rewrite Hb by done. discriminate.
  - specialize (Hb y Hy). rewrite <- HpP in Hb. by destruct (p y).
Qed.

(** A lookup loop followed by a test on the element found. *)
Lemma first_then {A : Type} (p test : A -> bool) (P T : A -> Prop) (l : list A) :
  (forall y, p y = true <-> P y) -> (forall y, test y = true <-> T y) ->
  match find_first p l with Some x => test x | None => false end = true
  <-> exists x, first_such P l x /\ T x.
Proof.
  intros HP HT. destruct (find_first p l) as [x|] eqn:Hf.
  - apply (find_first_such p P) in Hf; [|done]. split.
    + intros Ht. exists x. by rewrite <- HT.
    + intros (y & Hy & Ht). apply (find_first_such p P) in Hf, Hy; [|done..].
      rewrite Hf in Hy. injection Hy as ->. by apply HT.
  - split; [done|]. intros (y & Hy & _).
    apply (find_first_such p P) in Hy; [|done]. congruence.
Qed.

Lemma prefix_spec (p s : string) : String.prefix p s = true <-> exists t, s = p +:+ t.
Proof.
  revert s. induction p as [|a p IH]; intros s; [split; [by exists s|by destruct s]|].
  destruct s as [|b s]; simpl; [split; [done|by intros [t ?]]|].
  destruct (Ascii.ascii_dec a b) as [->|Hne].
  - rewrite IH. split; intros [t Ht]; exists t; [by rewrite Ht|by injection Ht].
  - split; [done|]. intros [t Ht]. injection Ht as <- _. by destruct Hne.
Qed.

Lemma str_contains_spec (sub s : string) :
  str_contains sub s = true <-> exists before after, s = before +:+ sub +:+ after.
Proof.
  induction s as [|c s IH]; cbn [str_contains]; rewrite orb_true_iff, prefix_spec.
  - split; [|intros (b & a & Hb); left; destruct b; [by exists a|done]].
    intros [[t Ht]|?]; [by exists "", t|done].
  - rewrite IH. split.
    + intros [[t Ht]|(b & a & ->)]; [by exists "", t|by exists (String c b), a].
    + intros ([|c' b] & a & Hb); [left; by exists a|right; injection Hb as _ ->; by exists b, a].
Qed.

Lemma has_key_test (key : string) (t : Tag) :
  str_eqb (sv_str (tag_key t)) key = true <-> has_key key t.
Proof. apply str_eqb_eq. Qed.

Lemma stage_named_test (id : string) (so : StageOutput) :
  str_eqb (so_stage_id so) id = true <-> stage_named id so.
Proof. apply str_eqb_eq. Qed.

Lemma by_evaluator_test (id : string) (er : EvaluatorResult) :
  str_eqb (er_evaluator_id er) id = true <-> by_evaluator id er.
Proof. apply str_eqb_eq. Qed.

#[local] Hint Resolve has_key_test stage_named_test by_evaluator_test : core.

Lemma eval_tag_number_spec ctx key test (T : float64 -> Prop) :
  (forall x, test x = true <-> T x) ->
  eval_tag_number ctx key test = true <-> numeric_tag ctx key T.
Proof.
  intros HT. unfold eval_tag_number, tag_of, numeric_tag.
  rewrite (first_then _ (fun t => let '(val, ok) := parse_double (tag_value t) in
                                  (ok && test val)%bool)
             (has_key key) (fun t => exists x, parse_double (tag_value t) = (x, true) /\ T x));
    [naive_solver|apply has_key_test|].
  intros t. destruct (parse_double (tag_value t)) as [x []]; simpl; [|naive_solver].
  rewrite HT. naive_solver.
Qed.

Lemma eval_tag_contains_spec ctx key sub :
  eval_tag_contains ctx key sub = true <->
  exists t before after, first_such (has_key key) (ev_tags (pc_event ctx)) t /\
    sv_str (tag_value t) = before +:+ sub +:+ after /\ ~ (key = "" /\ tag_value t = sv_null).
Proof.
  unfold eval_tag_contains, find_tag, tag_of.
  destruct (find_first _ _) as [t|] eqn:Hf.
  - assert (Hfs : first_such (has_key key) (ev_tags (pc_event ctx)) t)
      by (by eapply find_first_such in Hf; [|apply has_key_test]).
    assert (Hguard : (sv_data_is_null (tag_value t) && str_empty key)%bool = true
                     <-> (key = "" /\ tag_value t = sv_null)).
    { rewrite andb_true_iff, str_empty_eq. destruct (tag_value t); simpl; naive_solver. }
    destruct (_ && _)%bool; split.
    + done.
    + intros (t' & b & a & Ht' & _ & Hn). exfalso. apply Hn.
      eapply find_first_such in Ht'; [|apply has_key_test]. rewrite Hf in Ht'.
      injection Ht' as <-. tauto.
    + intros (b & a & Hv)%str_contains_spec. exists t, b, a. split_and!; [done..|].
      rewrite <- Hguard. discriminate.
    + intros (t' & b & a & Ht' & Hv & _). apply str_contains_spec. exists b, a.
      eapply find_first_such in Ht'; [|apply has_key_test]. rewrite Hf in Ht'. congruence.
  - split; [by destruct (_ && _)%bool|]. intros (t & b & a & Ht & _).
    eapply find_first_such in Ht; [|apply has_key_test]. congruence.
Qed.

Lemma eval_tag_starts_with_spec ctx key pre :
  eval_tag_starts_with ctx key pre = true <->
  exists t after, first_such (has_key key) (ev_tags (pc_event ctx)) t /\
    sv_str (tag_value t) = pre +:+ after.
Proof.
  unfold eval_tag_starts_with, tag_of.
  rewrite (first_then _ _ (has_key key) (fun t => exists a, sv_str (tag_value t) = pre +:+ a));
    [naive_solver|auto|intros; apply prefix_spec].
Qed.

Lemma leaf_results_spec ctx id (p : EvaluatorResult -> bool) (P : EvaluatorResult -> Prop) :
  (forall er, p er = true <-> P er) ->
  match result_of ctx id with Some er => p er | None => false end = true <->
  exists er, first_such (by_evaluator id) (all_results ctx) er /\ P er.
Proof. apply first_then. auto. Qed.

(** Every leaf decides its declarative meaning; [now] is the clock reading of
    the two age leaves. *)
Lemma leaf_spec {W : Type} `{Clock W} (ctx : PolicyContext) (r : PolicyRule) (now : Z) (w : W) :
  is_leaf r -> system_now w = (now, w) ->
  exists b, evaluate ctx r w = (b, w) /\ (b = true <-> holds now ctx r).
Proof.
  intros Hr Hnow. destruct r; try done; cbn [evaluate holds]; unfold bindM, retM;
    rewrite ?Hnow; eexists; (split; [reflexivity|]).
  - apply first_then; [auto|]. intros; apply verdict_eqb_eq.
  - unfold eval_score_above. rewrite existsb_elem_of. split.
    + intros (er & Hin & [? Hs]%andb_true_iff). destruct (er_score er) as [x|] eqn:Hx; [|done].
      exists er, x. split_and!; auto. by apply by_evaluator_test.
    + intros (er & x & Hin & Hid & Hx & Hs). exists er. rewrite Hx, Hs, andb_true_r.
      split; [done|]. by apply by_evaluator_test.
  - unfold eval_tag_equals. rewrite existsb_elem_of. setoid_rewrite andb_true_iff.
    by setoid_rewrite str_eqb_eq.
  - apply eval_tag_contains_spec.
  - apply eval_tag_starts_with_spec.
  - apply first_then; [auto|]. intros y. rewrite existsb_elem_of. setoid_rewrite str_eqb_eq.
    naive_solver.
  - unfold eval_tag_exists, tag_of. destruct (find_first _ _) as [t|] eqn:Hf.
    + apply find_first_Some in Hf as [Hin Hk]. split; [|done]. exists t. by rewrite <- has_key_test.
    + split; [done|]. intros (t & Hin & Hk). rewrite find_first_None in Hf.
      apply has_key_test in Hk. by rewrite Hf in Hk.
  - by apply eval_tag_number_spec.
  - by apply eval_tag_number_spec.
  - unfold eval_tag_between. destruct (f_ge lo hi); [naive_solver|].
    rewrite (eval_tag_number_spec _ _ _ (fun x => f_le lo x = true /\ f_lt x hi = true));
      [naive_solver|]. intros x. by rewrite andb_true_iff.
  - apply str_eqb_eq.
  - unfold eval_event_type_in. rewrite existsb_elem_of. setoid_rewrite str_eqb_eq. naive_solver.
  - apply str_eqb_eq.
  - unfold eval_older. destruct (Z.leb_spec (now - ev_timestamp (pc_event ctx)) 0).
    + split; [done|lia].
    + rewrite Z.ltb_lt. lia.
  - unfold eval_newer. destruct (Z.ltb_spec (now - ev_timestamp (pc_event ctx)) 0).
    + split; [done|lia].
    + rewrite Z.ltb_lt. lia.
  - unfold eval_score_between. destruct (f_ge lo hi); [naive_solver|].
    rewrite (first_then _ _ (fun er => by_evaluator evaluator_id er /\ is_Some (er_score er))
      (fun er => exists x, er_score er = Some x /\ f_le lo x = true /\ f_lt x hi = true));
      [naive_solver| |].
    + intros er. rewrite andb_true_iff, by_evaluator_test. destruct (er_score er); naive_solver.
    + intros er. destruct (er_score er); [|naive_solver]. rewrite andb_true_iff. naive_solver.
  - apply first_then; [auto|]. intros so. unfold is_degraded.
    by rewrite negb_true_iff, Z.eqb_neq.
  - by apply leaf_results_spec.
  - apply leaf_results_spec. intros er. destruct (er_reason_code er); [|done].
    rewrite str_eqb_eq. naive_solver.
Qed.

(** Evaluation under a clock that reads [now] throughout. *)
Lemma evaluate_frozen {W : Type} `{Clock W} (ctx : PolicyContext) (r : PolicyRule) (now : Z) (w : W) :
  system_now w = (now, w) ->
  exists b, evaluate ctx r w = (b, w) /\ (b = true <-> holds now ctx r).
Proof.
  intros Hnow. induction r as [r Hr|l r Hl Hr|l r Hl Hr|e He] using PolicyRule_nested_ind.
  - by apply leaf_spec.
  - destruct l as [l|], r as [r|]; try (exists false; done).
    destruct Hl as (a & Ea & Ha), Hr as (b & Eb & Hb). cbn [evaluate holds]. unfold bindM.
    rewrite Ea. destruct a; [exists b; rewrite Eb; naive_solver|exists false; naive_solver].
  - destruct l as [l|], r as [r|]; try (exists false; done).
    destruct Hl as (a & Ea & Ha), Hr as (b & Eb & Hb). cbn [evaluate holds]. unfold bindM.
    rewrite Ea. destruct a; [exists true; naive_solver|exists b; rewrite Eb; naive_solver].
  - destruct e as [e|]; [|exists true; done].
    destruct He as (a & Ea & Ha). cbn [evaluate holds]. unfold bindM, retM. rewrite Ea.
    exists (negb a). split; [done|]. rewrite <- Ha. by destruct a.
Qed.

(** *** The code and the documentation *)

(** Among elements of which at most one has the name, the first is any. *)
Lemma first_is_any {A : Type} (P T : A -> Prop) (l : list A) :
  at_most_one P l -> (exists x, first_such P l x /\ T x) <-> exists x, x ∈ l /\ P x /\ T x.
Proof.
  intros Hone. split.
  - intros (x & (l1 & l2 & -> & HP & _) & HT). exists x. split_and!; [set_solver|done..].
  - intros (x & Hx & HP & HT). apply list_elem_of_split in Hx as (l1 & l2 & ->). exists x. split; [|done].
    exists l1, l2. split_and!; [done..|]. intros y Hy. apply (Hone l1 x l2 eq_refl HP). set_solver.
Qed.

Lemma all_results_elem (ctx : PolicyContext) (er : EvaluatorResult) :
  er ∈ all_results ctx <-> exists so, so ∈ pc_stage_outputs ctx /\ er ∈ so_evaluator_results so.
Proof.
  unfold all_results. induction (pc_stage_outputs ctx) as [|so l IH]; cbn [fmap list_fmap concat]; [set_solver|].
  rewrite elem_of_app, IH. setoid_rewrite elem_of_cons. naive_solver.
Qed.

Lemma result_is_any (ctx : PolicyContext) (id : string) (T : EvaluatorResult -> Prop) :
  at_most_one (by_evaluator id) (all_results ctx) ->
  (exists er, first_such (by_evaluator id) (all_results ctx) er /\ T er) <->
  exists so er, so ∈ pc_stage_outputs ctx /\ er ∈ so_evaluator_results so /\ by_evaluator id er /\ T er.
Proof. intros Hone. rewrite first_is_any by done. setoid_rewrite all_results_elem. naive_solver. Qed.

Lemma keyword_prefix (k k' s r : string) :
  Strtod.keyword (k +:+ k') s = Some r -> (match Strtod.keyword k s with Some _ => true | None => false end) = true.
Proof.
  revert s. induction k as [|c k IH]; intros [|c' s] Hk; try done.
  change (String c k +:+ k') with (String c (k +:+ k')) in Hk. cbn [Strtod.keyword] in *.
  destruct (Ascii.eqb c _); [by apply IH|done].
Qed.

(** Plain texts are read as documented. *)
Lemma plain_strtod (s : string) : plain_text s = true -> str_empty s = false ->
  match decimal_text s with
  | Some (m, x) => out_of_range m x = false /\ Strtod.strtod s = Some (x, "")
  | None => match Strtod.strtod s with Some (_, rest) => rest <> "" | None => True end
  end.
Proof.
  intros Hplain Hne. unfold plain_text in Hplain. rewrite !andb_true_iff in Hplain.
  destruct Hplain as (((((Hlen & Hfirst) & Hhex) & Hinf) & Hnan) & Hrange).
  assert (Hskip : Strtod.skip_spaces s = s).
  { destruct s as [|c s]; [done|]. cbn [Strtod.skip_spaces]. apply andb_true_iff in Hfirst as [Hsp _].
    apply negb_true_iff in Hsp. by rewrite Hsp. }
  assert (Hsign : Strtod.sign s = undash s).
  { destruct s as [|c s]; [done|]. apply andb_true_iff in Hfirst as [_ Hplus]. unfold Strtod.sign, undash.
    destruct c as [[] [] [] [] [] [] [] []]; done. }
  unfold Strtod.strtod, decimal_text in *. rewrite Hskip, Hsign. destruct (undash s) as [neg s1]. cbn [snd] in *.
  assert (Hinfinity : Strtod.keyword "infinity" s1 = None).
  { destruct (Strtod.keyword "infinity" s1) as [r|] eqn:Hk; [|done]. by rewrite (keyword_prefix "inf" "inity" s1 r Hk) in Hinf. }
  rewrite Hinfinity. destruct (Strtod.keyword "inf" s1); [done|]. destruct (Strtod.keyword "nan" s1); [done|].
  destruct (Strtod.keyword "0x" s1); [done|]. destruct (Strtod.mantissa _ 10 s1) as [[[m [|n]] frac] r]; [done|].
  destruct (Strtod.exponent_part _ r) as [e r']. destruct (str_empty r') eqn:Hr.
  - apply str_empty_eq in Hr as ->. by apply negb_true_iff in Hrange.
  - intros ->. done.
Qed.

Lemma parse_double_plain (v : string_view) :
  plain_text (sv_str v) = true ->
  parse_double v = match documented_number (sv_str v) with Some x => (x, true) | None => (f64_zero, false) end.
Proof.
  intros Hplain. assert (Hlen : (String.length (sv_str v) < 64)%nat).
  { unfold plain_text in Hplain. rewrite !andb_true_iff in Hplain. by apply Nat.ltb_lt, Hplain. }
  unfold parse_double, documented_number. destruct (str_empty (sv_str v)) eqn:He.
  { apply str_empty_eq in He. by rewrite He. }
  pose proof (plain_strtod _ Hplain He) as Hs.
  destruct (Nat.leb_spec parse_buffer_size (String.length (sv_str v))); [unfold parse_buffer_size in *; lia|].
  destruct (decimal_text (sv_str v)) as [[m x]|].
  - by destruct Hs as [-> ->].
  - destruct (Strtod.strtod (sv_str v)) as [[x rest]|]; [|done]. destruct (str_empty rest) eqn:Hr; [|done].
    by apply str_empty_eq in Hr.
Qed.

Lemma number_is_documented (ctx : PolicyContext) (key : string) (T : float64 -> Prop) :
  plain_tag ctx key -> numeric_tag ctx key T <-> documented_tag ctx key T.
Proof.
  intros [Hone Hplain]. unfold numeric_tag, documented_tag.
  transitivity (exists t, first_such (has_key key) (ev_tags (pc_event ctx)) t /\
    exists x, parse_double (tag_value t) = (x, true) /\ T x); [naive_solver|].
  rewrite first_is_any by done.
  assert (Hread : forall t x, t ∈ ev_tags (pc_event ctx) -> has_key key t ->
    parse_double (tag_value t) = (x, true) <-> documented_number (sv_str (tag_value t)) = Some x).
  { intros t x Ht Hk. rewrite parse_double_plain by by apply Hplain. destruct (documented_number _); naive_solver. }
  split.
  - intros (t & Ht & Hk & x & Hp & HT). exists t, x. split_and!; [done..| |done]. by apply Hread.
  - intros (t & x & Ht & Hk & Hp & HT). exists t. split_and!; [done..|]. exists x. split; [|done]. by apply Hread.
Qed.

Lemma holds_documented (now : Z) (ctx : PolicyContext) (rule : PolicyRule) :
  unambiguous ctx rule -> holds now ctx rule <-> documented now ctx rule.
Proof.
  induction rule as [r Hr|l r Hl Hr|l r Hl Hr|e He] using PolicyRule_nested_ind; intros Hclear.
  - destruct r; try done; cbn [holds documented unambiguous] in *.
    + by apply first_is_any.
    + setoid_rewrite all_results_elem. naive_solver.
    + destruct Hclear as [Hkey Hone].
      transitivity (exists t, first_such (has_key key) (ev_tags (pc_event ctx)) t /\
        exists before after, sv_str (tag_value t) = before +:+ substring +:+ after); [naive_solver|]. by apply first_is_any.
    + transitivity (exists t, first_such (has_key key) (ev_tags (pc_event ctx)) t /\
        exists after, sv_str (tag_value t) = prefix0 +:+ after); [naive_solver|]. by apply first_is_any.
    + by apply (first_is_any _ (fun t => sv_str (tag_value t) ∈ values)).
    + naive_solver.
    + by apply number_is_documented.
    + by apply number_is_documented.
    + by rewrite number_is_documented.
    + unfold ns_per_ms in *. lia.
    + apply and_iff_compat_l. rewrite <- result_is_any by done.
      assert (Hscored : at_most_one (fun er => by_evaluator evaluator_id er /\ is_Some (er_score er)) (all_results ctx)).
      { intros l1 x l2 Hl [Hx _] y Hy [Hy' _]. by apply (Hclear l1 x l2 Hl Hx y). }
      transitivity (exists er, first_such (fun er => by_evaluator evaluator_id er /\ is_Some (er_score er)) (all_results ctx) er /\
        exists score, er_score er = Some score /\ f_le lo score = true /\ f_lt score hi = true); [naive_solver|].
      rewrite !first_is_any by done. unfold is_Some. naive_solver.
    + by apply first_is_any.
    + by apply result_is_any.
    + by apply result_is_any.
  - destruct l as [l|], r as [r|]; try done. cbn [holds documented unambiguous] in *. destruct Hclear. simpl in Hl, Hr. by rewrite Hl, Hr.
  - destruct l as [l|], r as [r|]; try done. cbn [holds documented unambiguous] in *. destruct Hclear. simpl in Hl, Hr. by rewrite Hl, Hr.
  - destruct e as [e|]; [|done]. cbn [holds documented unambiguous] in *. simpl in He. by rewrite He.
Qed.

(** Distinct names. *)
Lemma named_once {A : Type} (name : A -> string) (k : string) (l : list A) :
  NoDup (map name l) -> at_most_one (fun x => name x = k) l.
Proof.
  intros Hnd l1 x l2 -> Hx y Hy Hyk. rewrite map_app in Hnd. apply NoDup_app in Hnd as (_ & Hdis & Hnd).
  cbn [map] in *. apply NoDup_cons in Hnd as [Hfresh _]. apply elem_of_app in Hy as [Hy|Hy].
  - apply (Hdis (name y)); [by apply list_elem_of_fmap_2|]. rewrite Hyk, <- Hx. left.
  - apply Hfresh. rewrite Hx, <- Hyk. by apply list_elem_of_fmap_2.
Qed.

Lemma example_unambiguous : unambiguous example_context example_rule.
Proof.
  split; [|split; [split|]].
  - apply (named_once so_stage_id). cbn. repeat constructor; set_solver.
  - apply (named_once (fun t => sv_str (tag_key t))). cbn. repeat constructor; set_solver.
  - intros t Ht _. cbn in Ht. apply list_elem_of_singleton in Ht as ->. vm_compute. reflexivity.
  - cbn. lia.
Qed.

(** *** Where they differ *)

Definition tagged (tags : list (string * string)) : PolicyContext :=
  mkPolicyContext (mkEvent 1 "tenant" "user" "login" 0 [] (map (fun '(k, v) => mkTag (sv k) (sv v)) tags)) [].

(** Leading spaces and plus signs, hexadecimal texts and infinities are read. *)
Example texts_read_by_strtod_only :
  Forall (fun text =>
    evaluate (HC := fixed_clock) (tagged [("n", text)]) (TagValueGreaterThan "n" (f64_of_Z 4)) 0 = (true, 0) /\
    documented_number text = None) [" 5"; "+5"; "0x10"; "inf"; "1e400"].
Proof. repeat constructor. Qed.

(** Numerals of 64 characters or more are not. *)
Example long_numeral_not_read :
  let text := String.string_of_list_ascii (repeat "0"%char 63 ++ ["5"%char]) in
  evaluate (HC := fixed_clock) (tagged [("n", text)]) (TagValueGreaterThan "n" (f64_of_Z 4)) 0 = (false, 0) /\
  documented_number text = Some (f64_of_Z 5).
Proof. split; vm_compute; reflexivity. Qed.

(** An age limit of zero matches what is in the past, which the contract excludes. *)
Example zero_age_limit :
  evaluate (HC := fixed_clock) (tagged []) (EventOlderThan 0) 1 = (true, 1) /\ ~ documented 1 (tagged []) (EventOlderThan 0).
Proof. split; [reflexivity|]. cbn. tauto. Qed.

(** Of two tags of a name only the first counts, except for [TagEquals]. *)
Example second_tag_ignored :
  let ctx := tagged [("role", "guest"); ("role", "admin")] in
  evaluate (HC := fixed_clock) ctx (TagIn "role" ["admin"]) 0 = (false, 0) /\
  evaluate (HC := fixed_clock) ctx (TagEquals "role" "admin") 0 = (true, 0) /\
  documented 0 ctx (TagIn "role" ["admin"]).
Proof.
  split; [reflexivity|]. split; [reflexivity|]. exists (mkTag (sv "role") (sv "admin")). cbn.
  split_and!; [by right; left|done|by left].
Qed.

(** A later result of the evaluator was skipped. *)
Example second_result_ignored :
  evaluate (HC := fixed_clock) skipped_context (EvaluatorWasSkipped "ev") 0 = (false, 0) /\
  documented 0 skipped_context (EvaluatorWasSkipped "ev").
Proof.
  split; [reflexivity|]. do 2 eexists. split; [by left|]. split; [by right; left|done].
Qed.

(** ** Properties *)

(** C15: for every rule and context, [RuleEngine::evaluate] under a clock that
    reads [now] returns true exactly when the rule's documented meaning holds at
    [now], and leaves the world as it found it, provided the documentation says
    one thing of the context: the tag, evaluator and stage names that the rule
    looks up are unique in it, the texts it compares as numbers are plain ones,
    no age limit is zero and no child is null.  Outside of that the code takes the
    first tag, stage or result of a name, and the texts [strtod] takes. *)
Theorem evaluate_correct {W : Type} {HC : Clock W} (ctx : PolicyContext) (rule : PolicyRule)
    (now : Z) (w : W) (H : system_now w = (now, w)) (Hclear : unambiguous ctx rule) :
  exists b, evaluate ctx rule w = (b, w) /\ (b = true <-> documented now ctx rule).
Proof.
  destruct (evaluate_frozen ctx rule now w H) as (b & Hb & Hholds). exists b. split; [done|].
  by rewrite Hholds, holds_documented.
Qed.

Lemma evaluate_correct_witness :
  system_now (W := Z) (Clock := fixed_clock) 1000 = (1000, 1000) /\
  exists b, evaluate (HC := fixed_clock) example_context example_rule 1000 = (b, 1000) /\
    (b = true <-> documented 1000 example_context example_rule).
Proof.
  split; [reflexivity|].
  exact (evaluate_correct (HC := fixed_clock) example_context example_rule 1000 1000 eq_refl example_unambiguous).
Defined.

Example evaluate_example :
  evaluate (HC := fixed_clock) example_context example_rule 1000 = (true, 1000).
Proof. vm_compute. reflexivity. Qed.

(** A tag holding the decimal text of an integer below 10^60 parses to the
    double nearest to that integer (the integer itself below 2^53), and text of
    64 characters or more is always rejected. *)
Theorem parse_double_decimal (n : Z) (H : 0 <= n < 10 ^ 60) :
  parse_double (sv (to_string_Z n)) = (f64_of_Z n, true) /\
  forall v, (parse_buffer_size <= String.length (sv_str v))%nat ->
    parse_double v = (f64_zero, false).
Proof.
  split.
  - destruct (to_string_digits n 60) as (Hlen & _ & k & Hk & Hr); [done|lia|].
    unfold parse_double. cbn [sv_str]. rewrite strtod_to_string by done.
    destruct (str_empty (to_string_Z n)) eqn:He.
    + apply str_empty_eq in He. rewrite He in Hr. simpl in Hr. injection Hr as _ <-. lia.
    + destruct (Nat.leb_spec parse_buffer_size (String.length (to_string_Z n))); [|done].
      unfold parse_buffer_size in *. lia.
  - intros v Hv. unfold parse_double. destruct (str_empty (sv_str v)); [done|].
    destruct (Nat.leb_spec parse_buffer_size (String.length (sv_str v))); [done|lia].
Qed.

Lemma parse_double_decimal_witness :
  0 <= 1234567 < 10 ^ 60 /\ parse_double (sv "1234567") = (f64_of_Z 1234567, true).
Proof.
  split; [lia|]. exact (proj1 (parse_double_decimal 1234567 ltac:(lia))).
Defined.

(** [EvaluatorWasSkipped] and [EvaluatorReasonIs] decide by the first
    result of the named evaluator alone: no later result of that evaluator, in
    the same or a later stage, can make the rule match. *)
Theorem health_rules_use_first_result {W : Type} {HC : Clock W} (ctx : PolicyContext)
    (id reason : string) (before after : list EvaluatorResult) (er : EvaluatorResult) (w : W)
    (Hall : all_results ctx = before ++ er :: after)
    (Hfirst : forall x, x ∈ before -> er_evaluator_id x <> id)
    (Hid : er_evaluator_id er = id) :
  evaluate ctx (EvaluatorWasSkipped id) w = (er_skipped er, w) /\
  (evaluate ctx (EvaluatorReasonIs id reason) w).1 = bool_decide (er_reason_code er = Some reason).
Proof.
  assert (Hr : result_of ctx id = Some er).
  { apply find_first_split. exists before, after. split_and!; [done|by apply str_eqb_eq|].
    intros y Hy. apply str_eqb_neq. auto. }
  cbn. unfold retM, eval_was_skipped, eval_reason_is. rewrite Hr. split; [done|].
  destruct (er_reason_code er) as [rc|]; cbn; [|done].
  destruct (str_eqb rc reason) eqn:E; symmetry.
  - apply bool_decide_eq_true. apply str_eqb_eq in E. congruence.
  - apply bool_decide_eq_false. apply str_eqb_neq in E. congruence.
Qed.

Lemma health_rules_use_first_result_witness :
  evaluate (HC := fixed_clock) skipped_context (EvaluatorWasSkipped "ev") 0 = (false, 0).
Proof.
  exact (proj1 (health_rules_use_first_result (HC := fixed_clock) skipped_context "ev" "" []
    [skipped_result] ran_result 0 eq_refl
    (fun x Hx => False_ind _ (not_elem_of_nil x Hx)) eq_refl)).
Defined.
