(* ===== verification/RuleTree.v ===== *)
(** * The memory of policy rules

    The copies, moves and destructors of [PolicyRule], [And], [Or] and [Not]
    (src/policy/rule_engine.cpp, policy/rule_engine.hpp) with the objects behind
    their [unique_ptr]s.  RuleEngine.v has a rule as a tree and its copy as
    [copy_rule]; here a rule is an object in a heap, a copy allocates, an
    assignment frees what the target owned, and the use of an address without an
    object is an error.  [object] says that an object and what it owns form a
    rule, by the part of the heap they take. *)

From S2P Require Import Prelude Ieee CoreTypes RuleEngine.

Open Scope list_scope.

(** ** The heap *)

Definition address : Type := positive.

(** [std::unique_ptr<PolicyRule>]. *)
Definition pointer : Type := option address.

Inductive binary_kind : Type := BinaryAnd | BinaryOr.

(** The variant of an object: a leaf, which owns no object, an [And] or an [Or],
    a [Not]. *)
Inductive rule_node : Type :=
| Leaf (rule : PolicyRule)
| Binary (kind : binary_kind) (lchild rchild : pointer)
| Negation (expr : pointer).

Notation Heap := (gmap address rule_node).

(** An address without an object; the bound on the depth. *)
Inductive heap_error : Type := Dangling (a : address) | OutOfFuel.

Definition HeapM (A : Type) : Type := Heap -> expected (A * Heap) heap_error.

Definition heap_ret {A : Type} (x : A) : HeapM A := fun h => Ok (x, h).

Definition heap_bind {A B : Type} (m : HeapM A) (k : A -> HeapM B) : HeapM B := fun h =>
  match m h with Ok (x, h') => k x h' | Unexpected e => Unexpected e end.

Notation "'mem' x <- m ; k" := (heap_bind m (fun x => k))
  (at level 200, x name, m at level 100, k at level 200, only parsing).
Notation "'mem' '_' <- m ; k" := (heap_bind m (fun _ => k))
  (at level 200, m at level 100, k at level 200, only parsing).

Definition load (a : address) : HeapM rule_node := fun h =>
  match h !! a with Some n => Ok (n, h) | None => Unexpected (Dangling a) end.

Definition store (a : address) (n : rule_node) : HeapM unit := fun h =>
  match h !! a with Some _ => Ok (tt, <[a := n]> h) | None => Unexpected (Dangling a) end.

(** [new PolicyRule] and [delete]. *)
Definition alloc (n : rule_node) : HeapM address := fun h => let a := fresh (dom h) in Ok (a, <[a := n]> h).

Definition free (a : address) : HeapM unit := fun h =>
  match h !! a with Some _ => Ok (tt, base.delete a h) | None => Unexpected (Dangling a) end.

(** ** Copies *)

(** [p ? std::make_unique<PolicyRule>( *p) : nullptr]. *)
Definition copy_child (copy : rule_node -> HeapM rule_node) (p : pointer) : HeapM pointer :=
  match p with
  | None => heap_ret None
  | Some a => mem n <- load a; mem n' <- copy n; mem a' <- alloc n'; heap_ret (Some a')
  end.

(** The copy constructors; [fuel] bounds the depth. *)
Fixpoint copy_node (fuel : nat) (n : rule_node) : HeapM rule_node :=
  match fuel with
  | O => fun _ => Unexpected OutOfFuel
  | S fuel' =>
      match n with
      | Leaf rule => heap_ret (Leaf rule)
      | Binary kind lchild rchild =>
          mem lchild' <- copy_child (copy_node fuel') lchild;
          mem rchild' <- copy_child (copy_node fuel') rchild;
          heap_ret (Binary kind lchild' rchild')
      | Negation expr => mem expr' <- copy_child (copy_node fuel') expr; heap_ret (Negation expr')
      end
  end.

(** A new object that is a copy of the one at [q]. *)
Definition copy_construct (fuel : nat) (q : address) : HeapM address :=
  mem n <- load q; mem n' <- copy_node fuel n; alloc n'.

(** ** Destruction *)

(** [~unique_ptr()]. *)
Definition destroy_child (destroy : rule_node -> HeapM unit) (p : pointer) : HeapM unit :=
  match p with
  | None => heap_ret tt
  | Some a => mem n <- load a; mem _ <- destroy n; free a
  end.

(** The destructors; members go in reverse. *)
Fixpoint destroy_node (fuel : nat) (n : rule_node) : HeapM unit :=
  match fuel with
  | O => fun _ => Unexpected OutOfFuel
  | S fuel' =>
      match n with
      | Leaf _ => heap_ret tt
      | Binary _ lchild rchild =>
          mem _ <- destroy_child (destroy_node fuel') rchild; destroy_child (destroy_node fuel') lchild
      | Negation expr => destroy_child (destroy_node fuel') expr
      end
  end.

Definition destroy_object (fuel : nat) (p : address) : HeapM unit := destroy_child (destroy_node fuel) (Some p).

(** ** Assignment *)

(** A member of [And], [Or] or [Not]. *)
Inductive member : Type := LeftMember | RightMember | ExprMember.

Definition get_member (m : member) (n : rule_node) : pointer :=
  match m, n with
  | LeftMember, Binary _ lchild _ => lchild
  | RightMember, Binary _ _ rchild => rchild
  | ExprMember, Negation expr => expr
  | _, _ => None
  end.

Definition set_member (m : member) (p : pointer) (n : rule_node) : rule_node :=
  match m, n with
  | LeftMember, Binary k _ rchild => Binary k p rchild
  | RightMember, Binary k lchild _ => Binary k lchild p
  | ExprMember, Negation _ => Negation p
  | _, _ => n
  end.

(** [left = other.left ? std::make_unique<PolicyRule>( *other.left) : nullptr]:
    the old object goes once the pointer is replaced. *)
Definition assign_member (fuel : nat) (p q : address) (m : member) : HeapM unit :=
  mem other <- load q;
  mem new <- copy_child (copy_node fuel) (get_member m other);
  mem this <- load p;
  mem _ <- store p (set_member m new this);
  destroy_child (destroy_node fuel) (get_member m this).

(** The alternatives that are copied without a chance of an exception: they hold
    no string. *)
Definition nothrow_copy (r : PolicyRule) : bool :=
  match r with EventOlderThan _ | EventNewerThan _ => true | _ => false end.

(** [PolicyRule::operator=] at [p] from [q]: the members when both have the same
    composite alternative; else the variant's assignment, which copies first,
    unless the copy cannot throw. *)
Definition assign (fuel : nat) (p q : address) : HeapM unit :=
  if decide (p = q) then heap_ret tt else
  mem this <- load p;
  mem other <- load q;
  match this, other with
  | Binary BinaryAnd _ _, Binary BinaryAnd _ _ | Binary BinaryOr _ _, Binary BinaryOr _ _ =>
      mem _ <- assign_member fuel p q LeftMember; assign_member fuel p q RightMember
  | Negation _, Negation _ => assign_member fuel p q ExprMember
  | _, Leaf rule =>
      if nothrow_copy rule
      then mem _ <- destroy_node fuel this; mem n <- load q; store p n
      else mem _ <- destroy_node fuel this; store p (Leaf rule)
  | _, _ => mem n <- copy_node fuel other; mem _ <- destroy_node fuel this; store p n
  end.

(** ** Moves *)

Section Moves.

(** What is left of the strings of a leaf that is moved from. *)
Variable moved_leaf : PolicyRule -> PolicyRule.

Definition moved_node (n : rule_node) : rule_node :=
  match n with
  | Leaf rule => Leaf (moved_leaf rule)
  | Binary kind _ _ => Binary kind None None
  | Negation _ => Negation None
  end.

(** A new object from the one at [q], which is left without children. *)
Definition move_construct (q : address) : HeapM address :=
  mem n <- load q; mem _ <- store q (moved_node n); alloc n.

(** [left = std::move(other.left)]. *)
Definition move_member (fuel : nat) (p q : address) (m : member) : HeapM unit :=
  mem other <- load q;
  mem _ <- store q (set_member m None other);
  mem this <- load p;
  mem _ <- store p (set_member m (get_member m other) this);
  destroy_child (destroy_node fuel) (get_member m this).

(** The members when both have the same composite alternative; else the old value
    goes first. *)
Definition move_assign (fuel : nat) (p q : address) : HeapM unit :=
  mem this <- load p;
  mem other <- load q;
  match this, other with
  | Binary BinaryAnd _ _, Binary BinaryAnd _ _ | Binary BinaryOr _ _, Binary BinaryOr _ _ =>
      mem _ <- move_member fuel p q LeftMember; move_member fuel p q RightMember
  | Negation _, Negation _ => move_member fuel p q ExprMember
  | _, _ => mem _ <- destroy_node fuel this; mem n <- load q; mem _ <- store q (moved_node n); store p n
  end.

(** The rule an object is when it has been moved from. *)
Definition moved_rule (r : PolicyRule) : PolicyRule :=
  match r with And _ _ => And None None | Or _ _ => Or None None | Not _ => Not None | leaf => moved_leaf leaf end.

End Moves.

(** ** Objects and the rules they form *)

Definition is_leaf (r : PolicyRule) : bool := match r with And _ _ | Or _ _ | Not _ => false | _ => true end.

Definition child_tree (tree : PolicyRule -> rule_node -> Heap -> Prop) (c : option PolicyRule) (p : pointer) (h : Heap) : Prop :=
  match c, p with
  | None, None => h = ∅
  | Some r, Some a => exists n h', h = <[a := n]> h' /\ h' !! a = None /\ tree r n h'
  | _, _ => False
  end.

(** The node [n] and what it owns, which is all of [h], form the rule [r]. *)
Fixpoint node_tree (r : PolicyRule) (n : rule_node) (h : Heap) : Prop :=
  match n with
  | Leaf rule => rule = r /\ is_leaf r = true /\ h = ∅
  | Binary kind lp rp =>
      match r with
      | And lchild rchild =>
          kind = BinaryAnd /\ exists hl hr, h = hl ∪ hr /\ hl ##ₘ hr /\
            child_tree node_tree lchild lp hl /\ child_tree node_tree rchild rp hr
      | Or lchild rchild =>
          kind = BinaryOr /\ exists hl hr, h = hl ∪ hr /\ hl ##ₘ hr /\
            child_tree node_tree lchild lp hl /\ child_tree node_tree rchild rp hr
      | _ => False
      end
  | Negation expr => match r with Not c => child_tree node_tree c expr h | _ => False end
  end.

(** The object at [p] and what it owns. *)
Definition object (p : address) (r : PolicyRule) (h : Heap) : Prop := child_tree node_tree (Some r) (Some p) h.

Definition child_depth (depth : PolicyRule -> nat) (c : option PolicyRule) : nat :=
  match c with Some r => depth r | None => O end.

Fixpoint rule_depth (r : PolicyRule) : nat :=
  match r with
  | And l r | Or l r => S (Nat.max (child_depth rule_depth l) (child_depth rule_depth r))
  | Not c => S (child_depth rule_depth c)
  | _ => 1
  end.

(** ** Lemmas *)

Lemma alloc_fresh (n : rule_node) (h : Heap) : exists a, h !! a = None /\ alloc n h = Ok (a, <[a := n]> h).
Proof. exists (fresh (dom h)). split; [|done]. apply not_elem_of_dom, is_fresh. Qed.

(** What a copy of something that forms [r] gives, in a heap that has [h]. *)
Definition copy_spec (fuel : nat) (r : PolicyRule) : Prop :=
  forall n h H, node_tree r n h -> h ⊆ H ->
    exists n' h', copy_node fuel n H = Ok (n', h' ∪ H) /\ h' ##ₘ H /\ node_tree r n' h'.

Lemma copy_child_spec (fuel : nat) (c : option PolicyRule) (p : pointer) (h H : Heap) :
  (forall r, c = Some r -> copy_spec fuel r) -> child_tree node_tree c p h -> h ⊆ H ->
  exists p' h', copy_child (copy_node fuel) p H = Ok (p', h' ∪ H) /\ h' ##ₘ H /\ child_tree node_tree c p' h'.
Proof.
  intros Hcopy Htree Hsub. destruct c as [r|], p as [a|]; try done; cbn in Htree.
  - destruct Htree as (n & h0 & -> & Ha & Htree).
    assert (Hload : H !! a = Some n) by (eapply lookup_weaken; [apply lookup_insert_eq|exact Hsub]).
    assert (Hsub0 : h0 ⊆ H) by (etrans; [by apply insert_subseteq|exact Hsub]).
    destruct (Hcopy r eq_refl n h0 H Htree Hsub0) as (n' & h' & Hn & Hdisj & Htree').
    destruct (alloc_fresh n' (h' ∪ H)) as (a' & Ha' & Halloc). apply lookup_union_None in Ha' as [Hh' HH].
    exists (Some a'), (<[a' := n']> h'). cbn. unfold heap_bind, load. rewrite Hload, Hn, Halloc, insert_union_l.
    split_and!; [done|by apply map_disjoint_insert_l|]. by exists n', h'.
  - exists None, ∅. split_and!; [by rewrite (left_id_L ∅ (∪))|apply map_disjoint_empty_l|done].
Qed.

Lemma child_depth_le (c : option PolicyRule) (d : nat) :
  (child_depth rule_depth c <= d)%nat -> forall r, c = Some r -> (rule_depth r <= d)%nat.
Proof. intros Hle r ->. exact Hle. Qed.

Definition binary_rule (kind : binary_kind) (lchild rchild : option PolicyRule) : PolicyRule :=
  match kind with BinaryAnd => And lchild rchild | BinaryOr => Or lchild rchild end.

Lemma node_tree_leaf (r rule : PolicyRule) (h : Heap) : node_tree r (Leaf rule) h <-> rule = r /\ is_leaf r = true /\ h = ∅.
Proof. by destruct r. Qed.

Lemma node_tree_binary (r : PolicyRule) (kind : binary_kind) (lp rp : pointer) (h : Heap) :
  node_tree r (Binary kind lp rp) h <->
  exists cl cr hl hr, r = binary_rule kind cl cr /\ h = hl ∪ hr /\ hl ##ₘ hr /\
    child_tree node_tree cl lp hl /\ child_tree node_tree cr rp hr.
Proof.
  split.
  - destruct r; cbn; try done; intros (-> & hl & hr & Hx); by eexists _, _, hl, hr.
  - intros (cl & cr & hl & hr & -> & Hx). by destruct kind; cbn; (split; [done|]); exists hl, hr.
Qed.

Lemma node_tree_negation (r : PolicyRule) (expr : pointer) (h : Heap) :
  node_tree r (Negation expr) h <-> exists c, r = Not c /\ child_tree node_tree c expr h.
Proof. split; [destruct r; cbn; try done; by eexists|by intros (c & -> & Hc)]. Qed.

Lemma binary_rule_depth (kind : binary_kind) (cl cr : option PolicyRule) :
  rule_depth (binary_rule kind cl cr) = S (Nat.max (child_depth rule_depth cl) (child_depth rule_depth cr)).
Proof. by destruct kind. Qed.

Lemma copy_node_spec (fuel : nat) (r : PolicyRule) : (rule_depth r <= fuel)%nat -> copy_spec fuel r.
Proof.
  revert r. induction fuel as [|fuel IH]; intros r Hd; [destruct r; cbn in Hd; lia|]. intros [rule|kind lp rp|expr] h H Htree Hsub.
  - apply node_tree_leaf in Htree as (-> & Hleaf & ->). exists (Leaf r), ∅.
    split_and!; [cbn; by rewrite (left_id_L ∅ (∪))|apply map_disjoint_empty_l|by apply node_tree_leaf].
  - apply node_tree_binary in Htree as (cl & cr & hl & hr & -> & -> & Hdisj & Hl & Hr). rewrite binary_rule_depth in Hd.
    destruct (copy_child_spec fuel cl lp hl H) as (lp' & hl' & Hcopyl & Hdl & Htl); [|done|..].
    { intros x Hx. apply IH, (child_depth_le cl); [lia|done]. }
    { etrans; [by apply map_union_subseteq_l|done]. }
    destruct (copy_child_spec fuel cr rp hr (hl' ∪ H)) as (rp' & hr' & Hcopyr & Hdr & Htr); [|done|..].
    { intros x Hx. apply IH, (child_depth_le cr); [lia|done]. }
    { etrans; [by apply map_union_subseteq_r|]. etrans; [done|by apply map_union_subseteq_r]. }
    apply map_disjoint_union_r in Hdr as [Hd1 Hd2]. exists (Binary kind lp' rp'), (hl' ∪ hr'). split_and!.
    + cbn. unfold heap_bind. by rewrite Hcopyl, Hcopyr, (map_union_comm hl' hr'), (assoc_L (∪)).
    + by apply map_disjoint_union_l.
    + apply node_tree_binary. by exists cl, cr, hl', hr'.
  - apply node_tree_negation in Htree as (c & -> & Hc). cbn in Hd.
    destruct (copy_child_spec fuel c expr h H) as (p' & h' & Hcopy & Hdisj & Ht); [|done..|].
    { intros x Hx. apply IH, (child_depth_le c); [lia|done]. }
    exists (Negation p'), h'. split_and!; [cbn; unfold heap_bind; by rewrite Hcopy|done|]. apply node_tree_negation. by exists c.
Qed.

(** Destroying something that forms [r] takes what it owns and nothing else. *)
Definition destroy_spec (fuel : nat) (r : PolicyRule) : Prop :=
  forall n h F, node_tree r n h -> h ##ₘ F -> destroy_node fuel n (h ∪ F) = Ok (tt, F).

Lemma destroy_child_spec (fuel : nat) (c : option PolicyRule) (p : pointer) (h F : Heap) :
  (forall r, c = Some r -> destroy_spec fuel r) -> child_tree node_tree c p h -> h ##ₘ F ->
  destroy_child (destroy_node fuel) p (h ∪ F) = Ok (tt, F).
Proof.
  intros Hdes Htree Hdisj. destruct c as [r|], p as [a|]; try done; cbn in Htree.
  - destruct Htree as (n & h0 & -> & Ha & Htree). apply map_disjoint_insert_l in Hdisj as [HFa Hdisj].
    cbn. unfold heap_bind, load. rewrite <- insert_union_l, lookup_insert_eq, (insert_union_r h0 F a n Ha).
    rewrite (Hdes r eq_refl n h0 (<[a := n]> F) Htree) by (by apply map_disjoint_insert_r).
    unfold free. by rewrite lookup_insert_eq, delete_insert_id.
  - subst h. by rewrite (left_id_L ∅ (∪)).
Qed.

Lemma destroy_node_spec (fuel : nat) (r : PolicyRule) : (rule_depth r <= fuel)%nat -> destroy_spec fuel r.
Proof.
  revert r. induction fuel as [|fuel IH]; intros r Hd; [destruct r; cbn in Hd; lia|]. intros [rule|kind lp rp|expr] h F Htree Hdisj.
  - apply node_tree_leaf in Htree as (-> & _ & ->). cbn. by rewrite (left_id_L ∅ (∪)).
  - apply node_tree_binary in Htree as (cl & cr & hl & hr & -> & -> & Hlr & Hl & Hr). rewrite binary_rule_depth in Hd.
    apply map_disjoint_union_l in Hdisj as [HlF HrF]. cbn. unfold heap_bind.
    rewrite (map_union_comm hl hr), <- (assoc_L (∪)) by done.
    rewrite (destroy_child_spec fuel cr rp hr (hl ∪ F)); [|intros x Hx; apply IH, (child_depth_le cr); [lia|done]|done|].
    + apply (destroy_child_spec fuel cl); [|done|done]. intros x Hx. apply IH, (child_depth_le cl); [lia|done].
    + by apply map_disjoint_union_r.
  - apply node_tree_negation in Htree as (c & -> & Hc). cbn in Hd.
    apply (destroy_child_spec fuel c); [|done|done]. intros x Hx. apply IH, (child_depth_le c); [lia|done].
Qed.

(** ** Assignment *)

Lemma depth_copy (fuel : nat) (c : option PolicyRule) :
  (child_depth rule_depth c <= fuel)%nat -> forall r, c = Some r -> copy_spec fuel r.
Proof. intros Hd r Hr. apply copy_node_spec, (child_depth_le c); [exact Hd|exact Hr]. Qed.

Lemma depth_destroy (fuel : nat) (c : option PolicyRule) :
  (child_depth rule_depth c <= fuel)%nat -> forall r, c = Some r -> destroy_spec fuel r.
Proof. intros Hd r Hr. apply destroy_node_spec, (child_depth_le c); [exact Hd|exact Hr]. Qed.

(** A member of the object at [p], which owns [hm] of a heap with [R] besides. *)
Lemma assign_member_spec (fuel : nat) (p q : address) (m : member) (n1 n2 : rule_node) (c1 c2 : option PolicyRule)
    (hm hc R : Heap) :
  R !! p = None -> hm !! p = None -> hm ##ₘ R -> child_tree node_tree c1 (get_member m n1) hm ->
  R !! q = Some n2 -> hc ⊆ R -> child_tree node_tree c2 (get_member m n2) hc ->
  (child_depth rule_depth c1 <= fuel)%nat -> (child_depth rule_depth c2 <= fuel)%nat ->
  exists p' h', assign_member fuel p q m (<[p := n1]> (hm ∪ R)) = Ok (tt, <[p := set_member m p' n1]> (h' ∪ R)) /\
    h' ##ₘ R /\ h' !! p = None /\ child_tree node_tree c2 p' h'.
Proof.
  intros HRp Hmp HmR Ht1 HRq Hsub Ht2 Hd1 Hd2.
  assert (Hpq : p <> q) by congruence. set (X := <[p := n1]> (hm ∪ R)).
  assert (HRX : R ⊆ X).
  { etrans; [by apply map_union_subseteq_r|]. apply insert_subseteq. by apply lookup_union_None. }
  assert (Hq : X !! q = Some n2) by (by eapply lookup_weaken).
  destruct (copy_child_spec fuel c2 (get_member m n2) hc X) as (p' & h' & Hcopy & Hdisj & Ht'); [by apply depth_copy|done|by etrans|].
  apply map_disjoint_insert_r in Hdisj as [Hp' Hdisj]. apply map_disjoint_union_r in Hdisj as [Hm' HR'].
  exists p', h'. split_and!; [|done|done|done].
  unfold assign_member, heap_bind, load, store. rewrite Hq, Hcopy.
  assert (Hp : (h' ∪ X) !! p = Some n1) by (rewrite lookup_union_r by done; apply lookup_insert_eq). rewrite Hp, Hp.
  assert (Heap_eq : <[p := set_member m p' n1]> (h' ∪ X) = hm ∪ <[p := set_member m p' n1]> (h' ∪ R)).
  { unfold X. rewrite <- insert_union_r by done. rewrite insert_insert_eq, <- insert_union_r by done.
    by rewrite !(assoc_L (∪)), (map_union_comm hm h'). }
  rewrite Heap_eq. apply (destroy_child_spec fuel c1); [by apply depth_destroy|done|].
  apply map_disjoint_insert_r. split; [done|]. by apply map_disjoint_union_r.
Qed.

(** The object at [p] with what it owns, and all the rest of the heap. *)
Definition assigned (p : address) (r : PolicyRule) (G : Heap) (result : expected (unit * Heap) heap_error) : Prop :=
  exists h', result = Ok (tt, h' ∪ G) /\ object p r h' /\ h' ##ₘ G.

(** The end of an assignment, with the new node and what it owns at hand. *)
Lemma assigned_intro (p : address) (r : PolicyRule) (n : rule_node) (h G : Heap) :
  node_tree r n h -> h !! p = None -> G !! p = None -> h ##ₘ G -> assigned p r G (Ok (tt, <[p := n]> (h ∪ G))).
Proof.
  intros Ht Hh HG Hdisj. exists (<[p := n]> h). rewrite insert_union_l. split_and!; [done|by exists n, h|].
  by apply map_disjoint_insert_l.
Qed.

Lemma assign_binary (fuel : nat) (p q : address) (kind : binary_kind) (lp rp lp2 rp2 : pointer)
    (cl cr cl2 cr2 : option PolicyRule) (hl hr hl2 hr2 G : Heap) :
  G !! p = None -> hl !! p = None -> hr !! p = None -> hl ##ₘ hr -> hl ##ₘ G -> hr ##ₘ G ->
  child_tree node_tree cl lp hl -> child_tree node_tree cr rp hr ->
  G !! q = Some (Binary kind lp2 rp2) -> hl2 ⊆ G -> hr2 ⊆ G ->
  child_tree node_tree cl2 lp2 hl2 -> child_tree node_tree cr2 rp2 hr2 ->
  (child_depth rule_depth cl `max` child_depth rule_depth cr <= fuel)%nat ->
  (child_depth rule_depth cl2 `max` child_depth rule_depth cr2 <= fuel)%nat ->
  assigned p (binary_rule kind cl2 cr2) G
    ((mem _ <- assign_member fuel p q LeftMember; assign_member fuel p q RightMember)
      (<[p := Binary kind lp rp]> ((hl ∪ hr) ∪ G))).
Proof.
  intros HGp Hlp Hrp Hlr HlG HrG Hl Hr Hq Hsl Hsr Hl2 Hr2 Hd1 Hd2. unfold heap_bind. rewrite <- (assoc_L (∪)).
  destruct (assign_member_spec fuel p q LeftMember (Binary kind lp rp) (Binary kind lp2 rp2) cl cl2 hl hl2 (hr ∪ G))
    as (lp' & hl' & -> & Hd' & Hlp' & Ht'); cbn; [by apply lookup_union_None|done|by apply map_disjoint_union_r|done| | |done|lia|lia|].
  { eapply lookup_weaken; [exact Hq|by apply map_union_subseteq_r]. }
  { etrans; [exact Hsl|by apply map_union_subseteq_r]. }
  apply map_disjoint_union_r in Hd' as [Hd'r Hd'G].
  rewrite (assoc_L (∪)), (map_union_comm hl' hr), <- (assoc_L (∪)) by done.
  destruct (assign_member_spec fuel p q RightMember (Binary kind lp' rp) (Binary kind lp2 rp2) cr cr2 hr hr2 (hl' ∪ G))
    as (rp' & hr' & -> & Hd'' & Hrp' & Ht''); cbn; [by apply lookup_union_None|done|by apply map_disjoint_union_r|done| | |done|lia|lia|].
  { eapply lookup_weaken; [exact Hq|by apply map_union_subseteq_r]. }
  { etrans; [exact Hsr|by apply map_union_subseteq_r]. }
  apply map_disjoint_union_r in Hd'' as [Hd''l Hd''G].
  rewrite (assoc_L (∪)), (map_union_comm hr' hl') by done. apply assigned_intro; [|by apply lookup_union_None|done|].
  - apply node_tree_binary. by exists cl2, cr2, hl', hr'.
  - by apply map_disjoint_union_l.
Qed.

Section Assignment.

(** The object at [p], what it owns, and the rest with the object at [q]. *)
Context (fuel : nat) (p q : address) (n1 n2 : rule_node) (r1 r2 : PolicyRule) (h1 h2 G : Heap).
Hypothesis Hp : G !! p = None.
Hypothesis Hh1p : h1 !! p = None.
Hypothesis Hdisj : h1 ##ₘ G.
Hypothesis Htree1 : node_tree r1 n1 h1.
Hypothesis Hq : G !! q = Some n2.
Hypothesis Hsub : h2 ⊆ G.
Hypothesis Htree2 : node_tree r2 n2 h2.
Hypothesis Hd1 : (rule_depth r1 <= fuel)%nat.
Hypothesis Hd2 : (rule_depth r2 <= fuel)%nat.

(** The old value destroyed in place. *)
Lemma destroy_old (h : Heap) :
  h ##ₘ h1 -> h !! p = None ->
  destroy_node fuel n1 (<[p := n1]> (h1 ∪ (h ∪ G))) = Ok (tt, <[p := n1]> (h ∪ G)).
Proof.
  intros Hh Hhp. rewrite insert_union_r by done. apply (destroy_node_spec fuel r1 Hd1); [done|].
  apply map_disjoint_insert_r. split; [done|]. by apply map_disjoint_union_r.
Qed.

Lemma store_new (n : rule_node) (h : Heap) : store p n (<[p := n1]> h) = Ok (tt, <[p := n]> h).
Proof. unfold store. by rewrite lookup_insert_eq, insert_insert_eq. Qed.

Lemma assign_replace :
  assigned p r2 G ((mem n <- copy_node fuel n2; mem _ <- destroy_node fuel n1; store p n) (<[p := n1]> (h1 ∪ G))).
Proof.
  set (X := <[p := n1]> (h1 ∪ G)).
  assert (HGX : h2 ⊆ X).
  { etrans; [exact Hsub|]. etrans; [by apply map_union_subseteq_r|]. apply insert_subseteq. by apply lookup_union_None. }
  destruct (copy_node_spec fuel r2 Hd2 n2 h2 X Htree2 HGX) as (n' & h' & Hcopy & Hd' & Ht').
  apply map_disjoint_insert_r in Hd' as [Hp' Hd']. apply map_disjoint_union_r in Hd' as [Hd'1 Hd'G].
  unfold heap_bind. rewrite Hcopy. unfold X. rewrite <- insert_union_r by done.
  rewrite (assoc_L (∪)), (map_union_comm h' h1), <- (assoc_L (∪)) by done.
  rewrite destroy_old by done. rewrite store_new. by apply assigned_intro.
Qed.

Lemma assign_leaf (rule : PolicyRule) :
  n2 = Leaf rule ->
  assigned p r2 G ((mem _ <- destroy_node fuel n1; store p (Leaf rule)) (<[p := n1]> (h1 ∪ G))) /\
  assigned p r2 G ((mem _ <- destroy_node fuel n1; mem n <- load q; store p n) (<[p := n1]> (h1 ∪ G))).
Proof.
  intros ->. apply node_tree_leaf in Htree2 as (-> & Hleaf & _).
  assert (Hpq : p <> q) by congruence.
  assert (Hdes : destroy_node fuel n1 (<[p := n1]> (h1 ∪ G)) = Ok (tt, <[p := n1]> (∅ ∪ G))).
  { rewrite <- (destroy_old ∅) by (done || apply map_disjoint_empty_l). by rewrite (left_id_L ∅ (∪)). }
  assert (Hend : assigned p r2 G (Ok (tt, <[p := Leaf r2]> (∅ ∪ G)))).
  { apply assigned_intro; [by apply node_tree_leaf|done|done|apply map_disjoint_empty_l]. }
  unfold heap_bind. rewrite Hdes. split; [by rewrite store_new|]. unfold load.
  rewrite lookup_insert_ne, (left_id_L ∅ (∪)), Hq by done. rewrite store_new. by rewrite (left_id_L ∅ (∪)) in Hend.
Qed.

Lemma assign_same_kind (kind : binary_kind) (lp rp lp2 rp2 : pointer) :
  n1 = Binary kind lp rp -> n2 = Binary kind lp2 rp2 ->
  assigned p r2 G ((mem _ <- assign_member fuel p q LeftMember; assign_member fuel p q RightMember)
    (<[p := n1]> (h1 ∪ G))).
Proof.
  intros -> ->. apply node_tree_binary in Htree1 as (cl & cr & hl & hr & -> & -> & Hlr & Hl & Hr).
  apply node_tree_binary in Htree2 as (cl2 & cr2 & hl2 & hr2 & -> & -> & Hlr2 & Hl2 & Hr2).
  rewrite binary_rule_depth in Hd1, Hd2. apply map_disjoint_union_l in Hdisj as [HlG HrG].
  apply lookup_union_None in Hh1p as [Hlp Hrp].
  apply (assign_binary fuel p q kind lp rp lp2 rp2 cl cr cl2 cr2 hl hr hl2 hr2); try done; [..|lia|lia].
  - etrans; [by apply map_union_subseteq_l|done].
  - etrans; [by apply map_union_subseteq_r|done].
Qed.

Lemma assign_negation (e1 e2 : pointer) :
  n1 = Negation e1 -> n2 = Negation e2 -> assigned p r2 G (assign_member fuel p q ExprMember (<[p := n1]> (h1 ∪ G))).
Proof.
  intros -> ->. apply node_tree_negation in Htree1 as (c1 & -> & Hc1). apply node_tree_negation in Htree2 as (c2 & -> & Hc2).
  cbn in Hd1, Hd2.
  destruct (assign_member_spec fuel p q ExprMember (Negation e1) (Negation e2) c1 c2 h1 h2 G)
    as (p' & h' & -> & Hd' & Hp' & Ht'); try done; [lia|lia|].
  by apply assigned_intro.
Qed.

End Assignment.

Lemma assign_spec (fuel : nat) (p q : address) (r1 r2 : PolicyRule) (hp hq G : Heap) :
  object p r1 hp -> object q r2 hq -> hq ⊆ G -> hp ##ₘ G -> (rule_depth r1 <= fuel)%nat -> (rule_depth r2 <= fuel)%nat ->
  assigned p r2 G (assign fuel p q (hp ∪ G)).
Proof.
  intros (n1 & h1 & -> & Hh1p & Ht1) (n2 & h2 & -> & Hh2q & Ht2) Hsub Hdisj Hd1 Hd2.
  apply map_disjoint_insert_l in Hdisj as [Hp Hdisj].
  assert (Hq : G !! q = Some n2) by (eapply lookup_weaken; [apply lookup_insert_eq|exact Hsub]).
  assert (Hsub2 : h2 ⊆ G) by (etrans; [by apply insert_subseteq|exact Hsub]).
  assert (Hpq : p <> q) by congruence. rewrite <- insert_union_l. unfold assign. rewrite decide_False by done.
  unfold heap_bind at 1, load at 1. rewrite lookup_insert_eq. unfold heap_bind at 1, load at 1.
  rewrite lookup_insert_ne, lookup_union_r, Hq by (done || by eapply map_disjoint_Some_r).
  destruct n2 as [rule|kind2 lp2 rp2|e2].
  - destruct (assign_leaf fuel p q n1 (Leaf rule) r1 r2 h1 h2 G Hp Hh1p Hdisj Ht1 Hq Ht2 Hd1 rule eq_refl) as [Htemp Hdirect].
    by destruct n1 as [|[]|], (nothrow_copy rule).
  - pose proof (assign_replace fuel p n1 (Binary kind2 lp2 rp2) r1 r2 h1 h2 G) as Hreplace.
    destruct n1 as [rule|kind1 lp rp|e1]; [by destruct kind2; apply Hreplace| |by destruct kind2; apply Hreplace].
    pose proof (assign_same_kind fuel p q (Binary kind1 lp rp) (Binary kind2 lp2 rp2) r1 r2 h1 h2 G) as Hsame.
    destruct kind1, kind2; [by eapply Hsame|by apply Hreplace|by apply Hreplace|by eapply Hsame].
  - pose proof (assign_replace fuel p n1 (Negation e2) r1 r2 h1 h2 G) as Hreplace.
    pose proof (assign_negation fuel p q n1 (Negation e2) r1 r2 h1 h2 G) as Hsame.
    destruct n1 as [rule|kind1 lp rp|e1]; [by apply Hreplace|by destruct kind1; apply Hreplace|by eapply Hsame].
Qed.

Lemma copy_construct_spec (fuel : nat) (q : address) (r : PolicyRule) (hq H : Heap) :
  object q r hq -> hq ⊆ H -> (rule_depth r <= fuel)%nat ->
  exists a h', copy_construct fuel q H = Ok (a, h' ∪ H) /\ object a r h' /\ h' ##ₘ H.
Proof.
  intros Hobj Hsub Hd.
  destruct (copy_child_spec fuel (Some r) (Some q) hq H) as (p' & h' & Hcopy & Hdisj & Ht); [|done..|].
  { intros x [= <-]. by apply copy_node_spec. }
  destruct p' as [a|]; [|done]. exists a, h'. split_and!; [|done|done].
  unfold copy_construct. cbn in Hcopy. unfold heap_bind in *. destruct (load q H) as [[n h1]|e]; [|done].
  destruct (copy_node fuel n h1) as [[n' h2]|e]; [|done]. destruct (alloc n' h2) as [[a' h3]|e]; [|done].
  cbn in Hcopy. by injection Hcopy as -> ->.
Qed.

Lemma destroy_object_spec (fuel : nat) (p : address) (r : PolicyRule) (hp F : Heap) :
  object p r hp -> hp ##ₘ F -> (rule_depth r <= fuel)%nat -> destroy_object fuel p (hp ∪ F) = Ok (tt, F).
Proof. intros Hobj Hdisj Hd. apply (destroy_child_spec fuel (Some r)); [|done|done]. intros x [= <-]. by apply destroy_node_spec. Qed.

(** The member [left] from the [left] of the object it points to: that object goes. *)
Lemma assign_own_left (fuel : nat) (p q : address) (kind : binary_kind) (a b : option PolicyRule) (lp2 rp2 rp : pointer)
    (h2 R : Heap) :
  h2 !! q = None -> node_tree (binary_rule kind a b) (Binary kind lp2 rp2) h2 ->
  <[q := Binary kind lp2 rp2]> h2 ##ₘ R -> <[q := Binary kind lp2 rp2]> h2 !! p = None -> R !! p = None ->
  (rule_depth (binary_rule kind a b) <= fuel)%nat ->
  exists H', assign_member fuel p q LeftMember (<[p := Binary kind (Some q) rp]> (<[q := Binary kind lp2 rp2]> h2 ∪ R))
    = Ok (tt, H') /\ H' !! q = None.
Proof.
  intros Hh2q Hn HlR Hlp HRp Hd. set (hl := <[q := Binary kind lp2 rp2]> h2) in *.
  assert (Hlq : hl !! q = Some (Binary kind lp2 rp2)) by apply lookup_insert_eq.
  assert (Hpq : p <> q) by congruence. set (X := <[p := Binary kind (Some q) rp]> (hl ∪ R)).
  assert (HXq : X !! q = Some (Binary kind lp2 rp2)) by (unfold X; rewrite lookup_insert_ne by done; by apply lookup_union_Some_l).
  assert (HXp : X !! p = Some (Binary kind (Some q) rp)) by apply lookup_insert_eq.
  assert (HhlX : hl ⊆ X).
  { etrans; [by apply map_union_subseteq_l|]. apply insert_subseteq. by apply lookup_union_None. }
  pose proof Hn as (a' & b' & ha & hb & Heq & Hh2 & Hab & Hta & Htb)%node_tree_binary.
  assert (a' = a) as -> by (destruct kind; naive_solver). rewrite binary_rule_depth in Hd.
  destruct (copy_child_spec fuel a lp2 ha X) as (p' & h' & Hcopy & Hd' & _); [apply depth_copy; lia|done| |].
  { etrans; [|exact HhlX]. etrans; [|by apply insert_subseteq]. rewrite Hh2. by apply map_union_subseteq_l. }
  assert (Hh'p : h' !! p = None) by (by eapply map_disjoint_Some_r).
  assert (Hp : (h' ∪ X) !! p = Some (Binary kind (Some q) rp)) by (by rewrite lookup_union_r).
  exists (<[p := Binary kind p' rp]> (h' ∪ R)). split.
  - unfold assign_member, heap_bind, load, store. rewrite HXq. cbn [get_member]. rewrite Hcopy, Hp, Hp. cbn [set_member get_member].
    apply map_disjoint_insert_r in Hd' as [_ Hd']. apply map_disjoint_union_r in Hd' as [Hd'l Hd'R].
    unfold X. rewrite <- insert_union_r, insert_insert_eq, (assoc_L (∪)), (map_union_comm h' hl), <- (assoc_L (∪)), insert_union_r by done.
    apply (destroy_child_spec fuel (Some (binary_rule kind a b))); [|by exists (Binary kind lp2 rp2), h2|].
    + intros x [= <-]. apply destroy_node_spec. rewrite binary_rule_depth. lia.
    + apply map_disjoint_insert_r. split; [done|]. by apply map_disjoint_union_r.
  - rewrite lookup_insert_ne by done. apply lookup_union_None. split; by eapply map_disjoint_Some_r || by eapply map_disjoint_Some_l.
Qed.

(** A rule assigned its own left child, of the same alternative: the child goes
    with the old [left], and [operator=] then reads its [right]. *)
Lemma child_assignment_dangles (fuel : nat) (p q : address) (kind : binary_kind) (a b : option PolicyRule) (rp : pointer)
    (hl R : Heap) :
  object q (binary_rule kind a b) hl -> hl ##ₘ R -> hl !! p = None -> R !! p = None ->
  (rule_depth (binary_rule kind a b) <= fuel)%nat ->
  assign fuel p q (<[p := Binary kind (Some q) rp]> (hl ∪ R)) = Unexpected (Dangling q).
Proof.
  intros (n & h2 & -> & Hh2q & Hn) HlR Hlp HRp Hd.
  destruct n as [rule|kind' lp2 rp2|e]; [apply node_tree_leaf in Hn as (_ & Hleaf & _); by destruct kind| |by destruct kind].
  assert (kind' = kind) as -> by (by destruct kind, kind'; cbn in Hn; naive_solver).
  destruct (assign_own_left fuel p q kind a b lp2 rp2 rp h2 R Hh2q Hn HlR Hlp HRp Hd) as (H' & Hleft & Hgone).
  assert (Hpq : p <> q). { intros ->. by rewrite lookup_insert_eq in Hlp. }
  unfold assign. rewrite decide_False by done. unfold heap_bind at 1, load at 1. rewrite lookup_insert_eq.
  unfold heap_bind at 1, load at 1. rewrite lookup_insert_ne, <- insert_union_l, lookup_insert_eq by done.
  rewrite <- insert_union_l in Hleft.
  destruct kind; unfold heap_bind at 1; rewrite Hleft; unfold assign_member, heap_bind, load; by rewrite Hgone.
Qed.

(** ** Moves *)

Section MoveLemmas.

Variable moved_leaf : PolicyRule -> PolicyRule.
Hypothesis moved_is_leaf : forall r, is_leaf r = true -> is_leaf (moved_leaf r) = true.

Lemma moved_tree (r : PolicyRule) (n : rule_node) (h : Heap) :
  node_tree r n h -> node_tree (moved_rule moved_leaf r) (moved_node moved_leaf n) ∅.
Proof.
  destruct n as [rule|kind lp rp|e]; cbn [moved_node].
  - intros (-> & Hleaf & _)%node_tree_leaf. apply node_tree_leaf. replace (moved_rule moved_leaf r) with (moved_leaf r) by (by destruct r).
    auto.
  - intros (cl & cr & hl & hr & -> & _)%node_tree_binary. apply node_tree_binary. exists None, None, ∅, ∅.
    split_and!; [by destruct kind|by rewrite (left_id_L ∅ (∪))|apply map_disjoint_empty_l|done|done].
  - intros (c & -> & _)%node_tree_negation. apply node_tree_negation. by exists None.
Qed.

(** A heap with the objects at [p] and [q] apart from the rest. *)
Definition two_objects (p q : address) (n1 n2 : rule_node) (R : Heap) : Heap := <[p := n1]> (<[q := n2]> R).

Section Two.

Context (p q : address) (n1 n2 : rule_node) (R : Heap) (Hpq : p <> q) (Hp : R !! p = None) (Hq : R !! q = None).

Lemma load_two : load p (two_objects p q n1 n2 R) = Ok (n1, two_objects p q n1 n2 R) /\
  load q (two_objects p q n1 n2 R) = Ok (n2, two_objects p q n1 n2 R).
Proof.
  unfold load, two_objects. rewrite lookup_insert_eq. by rewrite lookup_insert_ne, lookup_insert_eq by done.
Qed.

Lemma store_two (n : rule_node) : store p n (two_objects p q n1 n2 R) = Ok (tt, two_objects p q n n2 R) /\
  store q n (two_objects p q n1 n2 R) = Ok (tt, two_objects p q n1 n R).
Proof.
  unfold store, two_objects. rewrite lookup_insert_eq, insert_insert_eq. rewrite lookup_insert_ne, lookup_insert_eq by done.
  split; [done|]. by rewrite insert_insert_ne, insert_insert_eq by done.
Qed.

Lemma two_objects_union (h : Heap) : h !! p = None -> h !! q = None -> h ##ₘ R ->
  two_objects p q n1 n2 (h ∪ R) = h ∪ two_objects p q n1 n2 R /\ h ##ₘ two_objects p q n1 n2 R.
Proof.
  intros Hhp Hhq Hd. unfold two_objects. rewrite !insert_union_r by done. split; [done|].
  by rewrite !map_disjoint_insert_r.
Qed.

End Two.

Lemma move_member_spec (fuel : nat) (p q : address) (m : member) (n1 n2 : rule_node) (c : option PolicyRule) (h R : Heap) :
  p <> q -> h !! p = None -> h !! q = None -> h ##ₘ R -> child_tree node_tree c (get_member m n1) h ->
  (child_depth rule_depth c <= fuel)%nat ->
  move_member fuel p q m (two_objects p q n1 n2 (h ∪ R)) =
    Ok (tt, two_objects p q (set_member m (get_member m n2) n1) (set_member m None n2) R).
Proof.
  intros Hpq Hhp Hhq Hd Hc Hdepth. unfold move_member, heap_bind.
  rewrite (proj2 (load_two p q n1 n2 _ Hpq)), (proj2 (store_two p q n1 n2 _ Hpq _)).
  rewrite (proj1 (load_two p q n1 _ _ Hpq)), (proj1 (store_two p q n1 _ _ Hpq _)).
  destruct (two_objects_union p q (set_member m (get_member m n2) n1) (set_member m None n2) R h Hhp Hhq Hd) as [-> Hd'].
  apply (destroy_child_spec fuel c); [by apply depth_destroy|done|done].
Qed.

(** The objects at [p] and [q] with what they own, [h1] and [h2], and the rest. *)
Lemma move_assign_nodes (fuel : nat) (p q : address) (n1 n2 : rule_node) (r1 r2 : PolicyRule) (h1 h2 R : Heap) :
  p <> q -> h1 !! p = None -> h1 !! q = None -> h1 ##ₘ R -> node_tree r1 n1 h1 -> node_tree r2 n2 h2 ->
  (rule_depth r1 <= fuel)%nat ->
  move_assign moved_leaf fuel p q (two_objects p q n1 n2 (h1 ∪ R)) =
    Ok (tt, two_objects p q n2 (moved_node moved_leaf n2) R).
Proof.
  intros Hpq Hp Hq Hd Ht1 Ht2 Hdepth. unfold move_assign, heap_bind at 1.
  rewrite (proj1 (load_two p q n1 n2 _ Hpq)). unfold heap_bind at 1. rewrite (proj2 (load_two p q n1 n2 _ Hpq)).
  assert (Hreplace : (mem _ <- destroy_node fuel n1; mem n <- load q; mem _ <- store q (moved_node moved_leaf n); store p n)
    (two_objects p q n1 n2 (h1 ∪ R)) = Ok (tt, two_objects p q n2 (moved_node moved_leaf n2) R)).
  { destruct (two_objects_union p q n1 n2 R h1 Hp Hq Hd) as [-> Hd']. unfold heap_bind.
    rewrite (destroy_node_spec fuel r1 Hdepth n1 h1 _ Ht1 Hd'), (proj2 (load_two p q n1 n2 _ Hpq)).
    by rewrite (proj2 (store_two p q n1 n2 _ Hpq _)), (proj1 (store_two p q n1 _ _ Hpq _)). }
  assert (Hsame : forall kind lp rp lp2 rp2, n1 = Binary kind lp rp -> n2 = Binary kind lp2 rp2 ->
    (mem _ <- move_member fuel p q LeftMember; move_member fuel p q RightMember) (two_objects p q n1 n2 (h1 ∪ R)) =
      Ok (tt, two_objects p q n2 (moved_node moved_leaf n2) R)).
  { intros kind lp rp lp2 rp2 -> ->. clear Hreplace. apply node_tree_binary in Ht1 as (cl & cr & hl & hr & -> & -> & Hlr & Hl & Hr).
    rewrite binary_rule_depth in Hdepth. apply map_disjoint_union_l in Hd as [HlR HrR].
    apply lookup_union_None in Hp as [Hlp Hrp]. apply lookup_union_None in Hq as [Hlq Hrq]. unfold heap_bind.
    rewrite <- (assoc_L (∪)), (move_member_spec fuel p q LeftMember _ _ cl) by (done || lia || by apply map_disjoint_union_r).
    by rewrite (move_member_spec fuel p q RightMember _ _ cr) by (done || lia). }
  destruct n1 as [rule|[] lp rp|e1], n2 as [rule2|[] lp2 rp2|e2]; try exact Hreplace; try by eapply Hsame.
  apply node_tree_negation in Ht1 as (c & -> & Hc). cbn in Hdepth.
  by rewrite (move_member_spec fuel p q ExprMember _ _ c) by (done || lia).
Qed.

(** What moving the rule [r] out of [q] to [p] leaves in the heap, with [F] besides. *)
Definition moved_to (p q : address) (r : PolicyRule) (F H' : Heap) : Prop :=
  exists hp hq, H' = hp ∪ (hq ∪ F) /\ object p r hp /\ object q (moved_rule moved_leaf r) hq /\
    hp ##ₘ hq /\ hp ##ₘ F /\ hq ##ₘ F.

Lemma moved_to_intro (p q : address) (n : rule_node) (r : PolicyRule) (h F : Heap) :
  p <> q -> h !! p = None -> h !! q = None -> F !! p = None -> F !! q = None -> h ##ₘ F -> node_tree r n h ->
  moved_to p q r F (two_objects p q n (moved_node moved_leaf n) (h ∪ F)).
Proof.
  intros Hpq Hhp Hhq HFp HFq Hd Ht. exists (<[p := n]> h), (<[q := moved_node moved_leaf n]> ∅). split_and!.
  - unfold two_objects. by rewrite insert_union_r, insert_union_l, <- !insert_union_l, (left_id_L ∅ (∪)) by done.
  - by exists n, h.
  - exists (moved_node moved_leaf n), ∅. split_and!; [done|done|by apply (moved_tree r n h)].
  - apply map_disjoint_insert_l. split; [by rewrite lookup_insert_ne|].
    apply map_disjoint_insert_r. split; [done|apply map_disjoint_empty_r].
  - by apply map_disjoint_insert_l.
  - apply map_disjoint_insert_l. split; [done|apply map_disjoint_empty_l].
Qed.

Lemma move_assign_spec (fuel : nat) (p q : address) (r1 r2 : PolicyRule) (hp hq F : Heap) :
  object p r1 hp -> object q r2 hq -> hp ##ₘ hq -> hp ##ₘ F -> hq ##ₘ F -> (rule_depth r1 <= fuel)%nat ->
  exists H', move_assign moved_leaf fuel p q (hp ∪ (hq ∪ F)) = Ok (tt, H') /\ moved_to p q r2 F H'.
Proof.
  intros (n1 & h1 & -> & Hh1p & Ht1) (n2 & h2 & -> & Hh2q & Ht2) Hpq HpF HqF Hd1.
  apply map_disjoint_insert_l in HpF as [HFp H1F]. apply map_disjoint_insert_l in HqF as [HFq H2F].
  apply map_disjoint_insert_l in Hpq as [Hqp H1q]. apply map_disjoint_insert_r in H1q as [Hh1q H12].
  assert (Hne : p <> q). { intros ->. by rewrite lookup_insert_eq in Hqp. }
  rewrite lookup_insert_ne in Hqp by done.
  exists (two_objects p q n2 (moved_node moved_leaf n2) (h2 ∪ F)). split; [|by apply moved_to_intro].
  rewrite <- (move_assign_nodes fuel p q n1 n2 r1 r2 h1 h2) by (done || by apply map_disjoint_union_r).
  unfold two_objects. by rewrite <- !insert_union_l, !(insert_union_r h1) by done.
Qed.

Lemma move_construct_spec (q : address) (r : PolicyRule) (hq F : Heap) :
  object q r hq -> hq ##ₘ F ->
  exists a H', move_construct moved_leaf q (hq ∪ F) = Ok (a, H') /\ moved_to a q r F H'.
Proof.
  intros (n & h & -> & Hhq & Ht) Hd. apply map_disjoint_insert_l in Hd as [HFq Hd].
  destruct (alloc_fresh n (<[q := moved_node moved_leaf n]> (h ∪ F))) as (a & Ha & Halloc).
  apply lookup_insert_None in Ha as [Ha Hne]. apply lookup_union_None in Ha as [Hha HFa].
  exists a, (two_objects a q n (moved_node moved_leaf n) (h ∪ F)). split; [|by apply moved_to_intro].
  unfold move_construct, heap_bind, load, store. rewrite <- insert_union_l, lookup_insert_eq, lookup_insert_eq, insert_insert_eq.
  exact Halloc.
Qed.

End MoveLemmas.

(** ** Properties *)

(** C16: copies of policy rules are deep, moves hand over what the source owns,
    and their memory is sound: assigning one rule to another, and copying one,
    give an object of the same rule that shares nothing with the source; moving
    one leaves its source without children, whatever becomes of strings that are
    moved from; what the target owned is freed, destroying a rule frees what it
    owns, no more, no less and nothing twice, and whatever else the heap holds is
    as it was. *)
Theorem rule_objects_independent (moved_leaf : PolicyRule -> PolicyRule)
    (Hmoved : forall r, is_leaf r = true -> is_leaf (moved_leaf r) = true)
    (fuel : nat) (p q : address) (r1 r2 : PolicyRule) (hp hq F : Heap)
    (Hp : object p r1 hp) (Hq : object q r2 hq) (Hpq : hp ##ₘ hq) (HpF : hp ##ₘ F) (HqF : hq ##ₘ F)
    (Hd1 : (rule_depth r1 <= fuel)%nat) (Hd2 : (rule_depth r2 <= fuel)%nat) :
  (exists h', assign fuel p q (hp ∪ (hq ∪ F)) = Ok (tt, h' ∪ (hq ∪ F)) /\
    object p (copy_rule r2) h' /\ h' ##ₘ (hq ∪ F)) /\
  (exists a h', copy_construct fuel q (hq ∪ F) = Ok (a, h' ∪ (hq ∪ F)) /\
    object a (copy_rule r2) h' /\ h' ##ₘ (hq ∪ F)) /\
  (exists H', move_assign moved_leaf fuel p q (hp ∪ (hq ∪ F)) = Ok (tt, H') /\ moved_to moved_leaf p q r2 F H') /\
  (exists a H', move_construct moved_leaf q (hq ∪ F) = Ok (a, H') /\ moved_to moved_leaf a q r2 F H') /\
  assign fuel p p (hp ∪ F) = Ok (tt, hp ∪ F) /\
  destroy_object fuel p (hp ∪ F) = Ok (tt, F).
Proof.
  rewrite copy_rule_id. assert (Hsub : hq ⊆ hq ∪ F) by apply map_union_subseteq_l.
  assert (Hdisj : hp ##ₘ hq ∪ F) by (by apply map_disjoint_union_r). split_and!.
  - exact (assign_spec fuel p q r1 r2 hp hq (hq ∪ F) Hp Hq Hsub Hdisj Hd1 Hd2).
  - by apply (copy_construct_spec fuel q r2 hq).
  - by apply (move_assign_spec moved_leaf Hmoved fuel p q r1 r2 hp hq).
  - by apply move_construct_spec.
  - unfold assign. by rewrite decide_True.
  - by apply (destroy_object_spec fuel p r1).
Qed.

(** Two objects, [!exists] and [exists && exists], beside a third. *)
Definition demo_exists : PolicyRule := TagExists EmptyString.
Definition demo_target : Heap := <[1%positive := Negation (Some 2%positive)]> (<[2%positive := Leaf demo_exists]> ∅).
Definition demo_source : Heap :=
  <[3%positive := Binary BinaryAnd (Some 4%positive) (Some 5%positive)]>
    (<[4%positive := Leaf demo_exists]> ∅ ∪ <[5%positive := Leaf demo_exists]> ∅).
Definition demo_rest : Heap := <[6%positive := Leaf demo_exists]> ∅.

Lemma rule_objects_independent_witness :
  exists h', assign 3 1%positive 3%positive (demo_target ∪ (demo_source ∪ demo_rest)) = Ok (tt, h' ∪ (demo_source ∪ demo_rest)) /\
    object 1%positive (And (Some demo_exists) (Some demo_exists)) h' /\ h' ##ₘ (demo_source ∪ demo_rest).
Proof.
  assert (Ht : object 1%positive (Not (Some demo_exists)) demo_target).
  { eexists _, _. split_and!; [reflexivity|reflexivity|]. eexists _, _. by split_and!. }
  assert (Hs : object 3%positive (And (Some demo_exists) (Some demo_exists)) demo_source).
  { eexists _, _. split_and!; [reflexivity|reflexivity|]. split; [done|]. eexists _, _. split_and!; [reflexivity| |..].
    - apply map_disjoint_insert_l. split; [reflexivity|apply map_disjoint_empty_l].
    - eexists _, _. by split_and!.
    - eexists _, _. by split_and!. }
  assert (Hdisj1 : demo_target ##ₘ demo_source) by (by repeat (apply map_disjoint_insert_l; split); try apply map_disjoint_empty_l).
  assert (Hdisj2 : demo_target ##ₘ demo_rest) by (by repeat (apply map_disjoint_insert_l; split); try apply map_disjoint_empty_l).
  assert (Hdisj3 : demo_source ##ₘ demo_rest) by (apply map_disjoint_insert_r; split; [reflexivity|apply map_disjoint_empty_r]).
  refine (proj1 (rule_objects_independent (fun r => r) (fun r Hr => Hr) 3 1%positive 3%positive (Not (Some demo_exists))
    (And (Some demo_exists) (Some demo_exists)) demo_target demo_source demo_rest Ht Hs Hdisj1 Hdisj2 Hdisj3 _ _)); cbn; lia.
Defined.
