(* ===== verification/StateStore.v ===== *)
(** * Window state: keys, values, the StateStore concept, InProcessWindowStore

    include/fre/state/window_store.hpp, src/state/window_store.cpp and the
    [StateStore] concept of include/fre/core/concepts.hpp.  The concept is a
    class of operations; [StateStoreLaws] is the contract its clients rely on,
    stated over an abstract view of the store as a map with default value
    {0.0, 0}.  [InProcessWindowStore] keeps one hash map per shard, indexed by
    the string [make_key] builds. *)

From S2P Require Import Prelude Ieee CoreTypes Errors.
From Stdlib Require Import SpecFloat Ascii.

Open Scope Z_scope.

(** ** Data *)

Inductive AggregationFn : Type := AggCount | AggSum | AggDistinctCount.
Inductive GroupBy : Type := ByEntityId | ByTenantId | ByTag.
Inductive WindowType : Type := Tumbling | Sliding | Session.

Record WindowKey : Type := mkWindowKey {
  wk_tenant_id : string;
  wk_entity_id : string;
  wk_window_name : string;
  wk_epoch : Z
}.

#[export] Instance WindowKey_eq_dec : EqDecision WindowKey.
Proof. solve_decision. Defined.

#[export] Instance WindowKey_countable : Countable WindowKey.
Proof.
  refine (inj_countable'
    (fun k => (wk_tenant_id k, wk_entity_id k, wk_window_name k, wk_epoch k))
    (fun '(t, e, n, ep) => mkWindowKey t e n ep) _).
  by intros [].
Defined.

Record WindowValue : Type := mkWindowValue { wv_aggregate : float64; wv_version : Z }.

(** [WindowValue{}]. *)
Definition WindowValue_zero : WindowValue := mkWindowValue f64_zero 0.

(** ** The StateStore concept *)

Class StateStore (S : Type) : Type := {
  store_get : WindowKey -> M S (expected WindowValue StoreError);
  store_cas : WindowKey -> WindowValue -> WindowValue -> M S (expected bool StoreError);
  store_expire : WindowKey -> M S (expected unit StoreError);
  store_available : S -> bool
}.

(** The contract of a store on a set of keys: reads return the view, a
    compare-and-swap succeeds exactly when the expected version is the current
    one and then replaces that entry only, [expire] resets it. *)
Class StateStoreLaws (S : Type) `{StateStore S} : Type := {
  store_ok : S -> Prop;
  store_key : WindowKey -> Prop;
  store_view : S -> WindowKey -> WindowValue;
  law_get : forall k s, store_ok s -> store_key k -> exists s',
    store_get k s = (Ok (store_view s k), s') /\ store_ok s' /\
    forall j, store_key j -> store_view s' j = store_view s j;
  law_cas : forall k e n s, store_ok s -> store_key k -> exists s',
    store_cas k e n s
      = (Ok (Z.eqb (wv_version (store_view s k)) (wv_version e)), s') /\ store_ok s' /\
    forall j, store_key j ->
      store_view s' j =
        if (bool_decide (j = k) && Z.eqb (wv_version (store_view s k)) (wv_version e))%bool
        then n else store_view s j;
  law_expire : forall k s, store_ok s -> store_key k -> exists s',
    store_expire k s = (Ok tt, s') /\ store_ok s' /\
    forall j, store_key j ->
      store_view s' j = if bool_decide (j = k) then WindowValue_zero else store_view s j
}.

(** ** InProcessWindowStore *)

Record InProcessWindowStore : Type := mkInProcess {
  ip_num_shards : Z;
  ip_shards : list (gmap string WindowValue);
  ip_has_expiry_cb : bool;
  ip_expiry_calls : list (WindowKey * WindowValue)  (** calls made to the callback *)
}.

Definition inprocess_new (num_shards : Z) : InProcessWindowStore :=
  mkInProcess num_shards (replicate (Z.to_nat num_shards) ∅) false [].

Definition make_key (k : WindowKey) : string :=
  wk_tenant_id k +:+ ":" +:+ wk_entity_id k +:+ ":" +:+ wk_window_name k +:+ ":"
    +:+ to_string_Z (wk_epoch k).

Section InProcess.

Context `{StdHash}.

Definition shard_index (num_shards : Z) (k : WindowKey) : nat :=
  Z.to_nat (Z.lxor (std_hash (wk_tenant_id k)) (std_hash (wk_entity_id k)) mod num_shards).

Definition shard_for (s : InProcessWindowStore) (k : WindowKey) : gmap string WindowValue :=
  default ∅ (ip_shards s !! shard_index (ip_num_shards s) k).

Definition set_shard (s : InProcessWindowStore) (k : WindowKey) (d : gmap string WindowValue)
    : InProcessWindowStore :=
  mkInProcess (ip_num_shards s) (<[shard_index (ip_num_shards s) k := d]> (ip_shards s))
    (ip_has_expiry_cb s) (ip_expiry_calls s).

Definition inprocess_get (k : WindowKey) : M InProcessWindowStore (expected WindowValue StoreError) :=
  fun s =>
    match shard_for s k !! make_key k with
    | Some v => (Ok v, s)
    | None => (Ok WindowValue_zero, s)
    end.

Definition inprocess_cas (k : WindowKey) (expected_val new_val : WindowValue)
    : M InProcessWindowStore (expected bool StoreError) :=
  fun s =>
    let shard := shard_for s k in
    let current := default WindowValue_zero (shard !! make_key k) in
    if negb (Z.eqb (wv_version current) (wv_version expected_val)) then (Ok false, s)
    else (Ok true, set_shard s k (<[make_key k := new_val]> shard)).

Definition inprocess_expire (k : WindowKey) : M InProcessWindowStore (expected unit StoreError) :=
  fun s =>
    let shard := shard_for s k in
    match shard !! make_key k with
    | Some v =>
        let s1 := if ip_has_expiry_cb s
                  then mkInProcess (ip_num_shards s) (ip_shards s) (ip_has_expiry_cb s)
                         (ip_expiry_calls s ++ [(k, v)])
                  else s in
        (Ok tt, set_shard s1 k (delete (make_key k) shard))
    | None => (Ok tt, s)
    end.

(** [is_available()]. *)
Definition inprocess_available (_ : InProcessWindowStore) : bool := true.

Definition register_expiry_callback (s : InProcessWindowStore) : InProcessWindowStore :=
  mkInProcess (ip_num_shards s) (ip_shards s) true (ip_expiry_calls s).

(** [tick(now)]: the body is empty in this version. *)
Definition inprocess_tick (now : Z) (s : InProcessWindowStore) : InProcessWindowStore := s.

#[export] Instance inprocess_store : StateStore InProcessWindowStore := {
  store_get := inprocess_get;
  store_cas := inprocess_cas;
  store_expire := inprocess_expire;
  store_available := inprocess_available
}.

(** ** Specification vocabulary *)

Definition inprocess_ok (s : InProcessWindowStore) : Prop :=
  0 < ip_num_shards s /\ Z.of_nat (length (ip_shards s)) = ip_num_shards s.

Definition inprocess_view (s : InProcessWindowStore) (k : WindowKey) : WindowValue :=
  default WindowValue_zero (shard_for s k !! make_key k).

End InProcess.

Fixpoint no_colon (s : string) : bool :=
  match s with
  | EmptyString => true
  | String c s' => negb (Ascii.eqb c ":"%char) && no_colon s'
  end.

(** Keys whose identifiers hold no colon and whose epoch is a [uint64_t]. *)
Definition plain_key (k : WindowKey) : Prop :=
  no_colon (wk_tenant_id k) = true /\ no_colon (wk_entity_id k) = true /\
  no_colon (wk_window_name k) = true /\ 0 <= wk_epoch k < u64_mod.

(** ** The abstract store: a total map with default [WindowValue{}] *)

Inductive store_op : Type :=
| OpGet (k : WindowKey)
| OpCas (k : WindowKey) (e n : WindowValue)
| OpExpire (k : WindowKey).

Inductive store_reply : Type :=
| RGet (r : expected WindowValue StoreError)
| RCas (r : expected bool StoreError)
| RExpire (r : expected unit StoreError).

Definition op_key (o : store_op) : WindowKey :=
  match o with OpGet k | OpCas k _ _ | OpExpire k => k end.

Definition run_op {S : Type} `{StateStore S} (o : store_op) : M S store_reply :=
  match o with
  | OpGet k => do r <- store_get k; retM (RGet r)
  | OpCas k e n => do r <- store_cas k e n; retM (RCas r)
  | OpExpire k => do r <- store_expire k; retM (RExpire r)
  end.

Fixpoint run_ops {S : Type} `{StateStore S} (os : list store_op) : M S (list store_reply) :=
  match os with
  | [] => retM []
  | o :: os' => do r <- run_op o; do rs <- run_ops os'; retM (r :: rs)
  end.

Definition map_value (m : gmap WindowKey WindowValue) (k : WindowKey) : WindowValue :=
  default WindowValue_zero (m !! k).

Definition spec_op (o : store_op) (m : gmap WindowKey WindowValue)
    : store_reply * gmap WindowKey WindowValue :=
  match o with
  | OpGet k => (RGet (Ok (map_value m k)), m)
  | OpCas k e n =>
      if Z.eqb (wv_version (map_value m k)) (wv_version e)
      then (RCas (Ok true), <[k := n]> m) else (RCas (Ok false), m)
  | OpExpire k => (RExpire (Ok tt), delete k m)
  end.

Fixpoint spec_ops (os : list store_op) (m : gmap WindowKey WindowValue)
    : list store_reply * gmap WindowKey WindowValue :=
  match os with
  | [] => ([], m)
  | o :: os' =>
      let '(r, m1) := spec_op o m in
      let '(rs, m2) := spec_ops os' m1 in (r :: rs, m2)
  end.

(** [WindowKey]s hash by [operator()] of [std::hash<fre::WindowKey>]. *)
Definition hash_combine (h v : Z) : Z :=
  Z.lxor h (wrap_u64 (v + 2654435769 + wrap_u64 (Z.shiftl h 6) + Z.shiftr h 2)).

Definition window_key_hash `{StdHash} (hash_u64 : Z -> Z) (k : WindowKey) : Z :=
  hash_combine (hash_combine (hash_combine (hash_combine 0
    (std_hash (wk_tenant_id k))) (std_hash (wk_entity_id k))) (std_hash (wk_window_name k)))
    (hash_u64 (wk_epoch k)).

(** Sample keys: two tenants whose key strings coincide. *)
Definition key_tenant_a : WindowKey := mkWindowKey "acme" "eu:bob" "w" 7.
Definition key_tenant_b : WindowKey := mkWindowKey "acme:eu" "bob" "w" 7.
Definition key_plain : WindowKey := mkWindowKey "acme" "bob" "w" 7.

(** ** Lemmas *)

Lemma no_colon_split (a b x y : string) :
  no_colon a = true -> no_colon b = true ->
  a +:+ ":" +:+ x = b +:+ ":" +:+ y -> a = b /\ x = y.
Proof.
  revert b. induction a as [|c a IH]; intros [|c' b] Ha Hb Heq; simpl in *.
  - by injection Heq.
  - injection Heq as <- _. done.
  - injection Heq as -> _. done.
  - injection Heq as <- Heq. apply andb_true_iff in Ha as [_ Ha], Hb as [_ Hb].
    by destruct (IH b Ha Hb Heq) as [-> ->].
Qed.

Lemma make_key_inj (k1 k2 : WindowKey) :
  plain_key k1 -> plain_key k2 -> make_key k1 = make_key k2 -> k1 = k2.
Proof.
  destruct k1 as [t1 e1 n1 p1], k2 as [t2 e2 n2 p2].
  intros (Ht1 & He1 & Hn1 & Hp1) (Ht2 & He2 & Hn2 & Hp2). unfold make_key. simpl in *.
  intros Heq. apply no_colon_split in Heq as [-> Heq]; [|done..].
  apply no_colon_split in Heq as [-> Heq]; [|done..].
  apply no_colon_split in Heq as [-> Heq]; [|done..].
  unfold to_string_Z in Heq. apply (inj pretty) in Heq. f_equal. lia.
Qed.

Section InProcessLemmas.

Context `{StdHash}.

Lemma shard_index_lt (s : InProcessWindowStore) (k : WindowKey) :
  inprocess_ok s -> (shard_index (ip_num_shards s) k < length (ip_shards s))%nat.
Proof.
  intros [Hpos Hlen]. unfold shard_index.
  pose proof (Z.mod_pos_bound (Z.lxor (std_hash (wk_tenant_id k)) (std_hash (wk_entity_id k)))
                (ip_num_shards s) Hpos). lia.
Qed.

Lemma set_shard_ok (s : InProcessWindowStore) k d : inprocess_ok s -> inprocess_ok (set_shard s k d).
Proof. intros [? ?]. split; simpl; [done|]. by rewrite length_insert. Qed.

Lemma shard_for_set (s : InProcessWindowStore) k j d :
  inprocess_ok s ->
  shard_for (set_shard s k d) j =
    if Nat.eqb (shard_index (ip_num_shards s) k) (shard_index (ip_num_shards s) j)
    then d else shard_for s j.
Proof.
  intros Hok. unfold shard_for, set_shard. simpl.
  destruct (Nat.eqb_spec (shard_index (ip_num_shards s) k) (shard_index (ip_num_shards s) j))
    as [<-|Hne].
  - by rewrite list_lookup_insert_eq by (by apply shard_index_lt).
  - by rewrite list_lookup_insert_ne.
Qed.

(** A write to the entry of [k] is seen by the keys with the same shard and the
    same key string, and by no other. *)
Lemma view_set (s : InProcessWindowStore) k j (v : option WindowValue) :
  inprocess_ok s -> plain_key k -> plain_key j ->
  inprocess_view
    (set_shard s k (match v with Some v => <[make_key k := v]> (shard_for s k)
                               | None => delete (make_key k) (shard_for s k) end)) j
  = if bool_decide (j = k) then default WindowValue_zero v else inprocess_view s j.
Proof.
  intros Hok Hk Hj. unfold inprocess_view. rewrite shard_for_set by done.
  case_bool_decide as Heq.
  - subst. rewrite Nat.eqb_refl. by destruct v; rewrite ?lookup_insert_eq, ?lookup_delete_eq.
  - assert (Hne : make_key k <> make_key j) by (intros Hm; apply Heq; symmetry; by apply make_key_inj).
    destruct (Nat.eqb_spec (shard_index (ip_num_shards s) k) (shard_index (ip_num_shards s) j))
      as [Hi|Hi]; [|done].
    assert (Hs : shard_for s k = shard_for s j) by (unfold shard_for; by rewrite Hi).
    by destruct v; rewrite ?lookup_insert_ne, ?lookup_delete_ne, ?Hs by done.
Qed.

Lemma inprocess_get_spec k s : inprocess_get k s = (Ok (inprocess_view s k), s).
Proof. unfold inprocess_get, inprocess_view. by destruct (shard_for s k !! make_key k). Qed.

Lemma inprocess_cas_spec k e n s :
  inprocess_ok s -> plain_key k -> exists s',
    inprocess_cas k e n s = (Ok (Z.eqb (wv_version (inprocess_view s k)) (wv_version e)), s') /\
    inprocess_ok s' /\
    forall j, plain_key j ->
      inprocess_view s' j =
        if (bool_decide (j = k) && Z.eqb (wv_version (inprocess_view s k)) (wv_version e))%bool
        then n else inprocess_view s j.
Proof.
  intros Hok Hk. unfold inprocess_cas.
  fold (inprocess_view s k). destruct (Z.eqb _ _); simpl.
  - eexists. split; [done|]. split; [by apply set_shard_ok|].
    intros j Hj. rewrite andb_true_r. by apply (view_set s k j (Some n)).
  - exists s. split_and!; [done|done|]. intros j _. by rewrite andb_false_r.
Qed.

Lemma inprocess_expire_spec k s :
  inprocess_ok s -> plain_key k -> exists s',
    inprocess_expire k s = (Ok tt, s') /\ inprocess_ok s' /\
    forall j, plain_key j ->
      inprocess_view s' j = if bool_decide (j = k) then WindowValue_zero else inprocess_view s j.
Proof.
  intros Hok Hk. unfold inprocess_expire.
  destruct (shard_for s k !! make_key k) as [v|] eqn:Hv.
  - set (s1 := if ip_has_expiry_cb s then _ else s).
    assert (Hs1 : inprocess_ok s1 /\ shard_for s1 k = shard_for s k /\
                  forall j, inprocess_view s1 j = inprocess_view s j)
      by (unfold s1; destruct (ip_has_expiry_cb s); done).
    destruct Hs1 as (Hok1 & Hsh & Hview). eexists. split; [done|].
    split; [by apply set_shard_ok|]. intros j Hj.
    rewrite <- Hsh, (view_set s1 k j None) by done. by rewrite Hview.
  - exists s. split_and!; [done..|]. intros j _. case_bool_decide as Heq; [|done].
    subst. unfold inprocess_view. by rewrite Hv.
Qed.

Lemma inprocess_law_get k s :
  inprocess_ok s -> plain_key k -> exists s',
    inprocess_get k s = (Ok (inprocess_view s k), s') /\ inprocess_ok s' /\
    forall j, plain_key j -> inprocess_view s' j = inprocess_view s j.
Proof. intros Hok _. exists s. split; [apply inprocess_get_spec|]. auto. Qed.

#[export] Instance inprocess_laws : StateStoreLaws InProcessWindowStore := {
  store_ok := inprocess_ok;
  store_key := plain_key;
  store_view := inprocess_view;
  law_get := inprocess_law_get;
  law_cas := inprocess_cas_spec;
  law_expire := inprocess_expire_spec
}.

Lemma inprocess_new_ok (n : Z) : 0 < n -> inprocess_ok (inprocess_new n).
Proof. intros Hn. split; simpl; [done|]. rewrite length_replicate. lia. Qed.

Lemma inprocess_new_view (n : Z) (k : WindowKey) :
  inprocess_view (inprocess_new n) k = WindowValue_zero.
Proof.
  unfold inprocess_view, shard_for. simpl.
  destruct (replicate (Z.to_nat n) ∅ !! shard_index n k) as [m|] eqn:E; simpl; [|done].
  apply lookup_replicate in E as [-> _]. done.
Qed.

End InProcessLemmas.

(** ** Clients of the contract *)

Lemma run_op_refines {S : Type} `{StateStoreLaws S} (o : store_op) (s : S)
    (m : gmap WindowKey WindowValue) :
  store_ok s -> store_key (op_key o) ->
  (forall k, store_key k -> store_view s k = map_value m k) ->
  (run_op o s).1 = (spec_op o m).1 /\ store_ok (run_op o s).2 /\
  forall k, store_key k -> store_view (run_op o s).2 k = map_value (spec_op o m).2 k.
Proof.
  intros Hok Hk Hview. destruct o as [k|k e n|k]; simpl in Hk; simpl; unfold_M.
  - destruct (law_get k s Hok Hk) as (s' & -> & Hok' & Hv). simpl.
    split_and!; [by rewrite Hview|done|]. intros j Hj. by rewrite Hv, Hview.
  - destruct (law_cas k e n s Hok Hk) as (s' & -> & Hok' & Hv). simpl. rewrite <- Hview by done.
    destruct (Z.eqb _ _); simpl; (split_and!; [done|done|]; intros j Hj; rewrite Hv by done).
    + rewrite andb_true_r. unfold map_value. case_bool_decide as Heq.
      * subst. by rewrite lookup_insert_eq.
      * rewrite lookup_insert_ne by done. by apply Hview.
    + rewrite andb_false_r. by apply Hview.
  - destruct (law_expire k s Hok Hk) as (s' & -> & Hok' & Hv). simpl.
    split_and!; [done|done|]. intros j Hj. rewrite Hv by done.
    unfold map_value. case_bool_decide as Heq.
    + subst. by rewrite lookup_delete_eq.
    + rewrite lookup_delete_ne by done. by apply Hview.
Qed.

Lemma run_ops_refines {S : Type} `{StateStoreLaws S} (os : list store_op) :
  forall (s : S) (m : gmap WindowKey WindowValue),
  store_ok s -> Forall (fun o => store_key (op_key o)) os ->
  (forall k, store_key k -> store_view s k = map_value m k) ->
  (run_ops os s).1 = (spec_ops os m).1 /\ store_ok (run_ops os s).2 /\
  forall k, store_key k -> store_view (run_ops os s).2 k = map_value (spec_ops os m).2 k.
Proof.
  induction os as [|o os IH]; intros s m Hok Hks Hview; [done|].
  apply Forall_cons in Hks as [Hk Hks].
  destruct (run_op_refines o s m Hok Hk Hview) as (Hr & Hok' & Hv).
  simpl. unfold_M. destruct (run_op o s) as [r s1], (spec_op o m) as [r' m1].
  simpl in Hr, Hok', Hv. subst r'.
  destruct (IH s1 m1 Hok' Hks Hv) as (Hrs & Hok2 & Hv2).
  destruct (run_ops os s1) as [rs s2], (spec_ops os m1) as [rs' m2]. simpl in *. by subst.
Qed.

(** ** Properties *)

(** C20: on keys whose identifiers hold no colon and whose epochs are 64-bit
    numbers, an [InProcessWindowStore] of any number of shards answers every
    sequence of get, compare_and_swap and expire calls exactly like one map from
    [WindowKey] to [WindowValue] in which missing keys read as [WindowValue{}],
    whatever [std::hash] is.  (With colons it need not: [colliding_keys_share_entry].) *)
Theorem inprocess_refines_map `{StdHash} (n : Z) (os : list store_op)
    (Hn : 0 < n) (Hks : Forall (fun o => plain_key (op_key o)) os) :
  (run_ops os (inprocess_new n)).1 = (spec_ops os ∅).1.
Proof.
  apply run_ops_refines; [by apply inprocess_new_ok|done|].
  intros k _. apply inprocess_new_view.
Qed.

Lemma inprocess_refines_map_witness :
  (run_ops [OpCas key_plain WindowValue_zero (mkWindowValue f64_one 1); OpGet key_plain]
     (inprocess_new 64)).1 = [RCas (Ok true); RGet (Ok (mkWindowValue f64_one 1))].
Proof.
  rewrite (inprocess_refines_map 64).
  - vm_compute. reflexivity.
  - lia.
  - repeat constructor; vm_compute; congruence.
Defined.

(** Keys of different tenants whose "tenant:entity:window:epoch" strings
    coincide share one entry when they fall in the same shard: a successful
    compare_and_swap by one tenant is what the other tenant's get returns. *)
Theorem colliding_keys_share_entry `{StdHash} (s : InProcessWindowStore) (a b : WindowKey)
    (e v : WindowValue) (Hok : inprocess_ok s) (Hkey : make_key a = make_key b)
    (Hshard : shard_index (ip_num_shards s) a = shard_index (ip_num_shards s) b)
    (Hcas : (inprocess_cas a e v s).1 = Ok true) :
  (inprocess_get b (inprocess_cas a e v s).2).1 = Ok v.
Proof.
  unfold inprocess_cas in *. destruct (negb _); [done|]. simpl.
  rewrite inprocess_get_spec. simpl. unfold inprocess_view.
  rewrite shard_for_set by done. rewrite Hshard, Nat.eqb_refl, Hkey, lookup_insert_eq. done.
Qed.

Lemma colliding_keys_share_entry_witness :
  wk_tenant_id key_tenant_a <> wk_tenant_id key_tenant_b /\
  (inprocess_get key_tenant_b
     (inprocess_cas key_tenant_a WindowValue_zero (mkWindowValue f64_one 1)
        (inprocess_new 1)).2).1 = Ok (mkWindowValue f64_one 1).
Proof.
  split; [discriminate|].
  apply (colliding_keys_share_entry (inprocess_new 1) key_tenant_a key_tenant_b).
  - split; [reflexivity|reflexivity].
  - reflexivity.
  - unfold shard_index. simpl. by rewrite !Z.mod_1_r.
  - vm_compute. reflexivity.
Defined.
