(* ===== verification/ExternalStore.v ===== *)
(** * ExternalWindowStore: a backend with a local fallback

    include/fre/state/external_store.hpp and src/state/external_store.cpp.  The
    backend is a table of [std::function]s, any of which may be empty (calling
    an empty one throws [std::bad_function_call]); its state is the world [W].
    The fallback is the [InProcessWindowStore] of StateStore.v. *)

From S2P Require Import Prelude Ieee CoreTypes Errors StateStore.

Section ExternalStore.

Context {W : Type} `{StdHash}.

Record ExternalStoreBackend : Type := mkBackend {
  be_get : option (WindowKey -> M W (expected WindowValue StoreError));
  be_compare_and_swap :
    option (WindowKey -> WindowValue -> WindowValue -> M W (expected bool StoreError));
  be_expire : option (WindowKey -> M W (expected unit StoreError));
  be_is_available : option (M W bool)
}.

Record ExternalWindowStore : Type := mkExternal {
  ext_backend : ExternalStoreBackend;
  ext_fallback : InProcessWindowStore;
  ext_using_fallback : bool
}.

Definition external_new (b : ExternalStoreBackend) (fallback : InProcessWindowStore)
    : ExternalWindowStore := mkExternal b fallback false.

Definition set_using_fallback (x : ExternalWindowStore) (b : bool) : ExternalWindowStore :=
  mkExternal (ext_backend x) (ext_fallback x) b.

Definition set_fallback (x : ExternalWindowStore) (f : InProcessWindowStore) : ExternalWindowStore :=
  mkExternal (ext_backend x) f (ext_using_fallback x).

Definition external_is_degraded (x : ExternalWindowStore) : bool := ext_using_fallback x.

(** Operations act on the world and the store object. *)
Definition XM (A : Type) : Type := M (W * ExternalWindowStore) A.

Definition bad_function_call : string := "bad_function_call".

Definition external_is_available : XM bool := fun '(w, x) =>
  match be_is_available (ext_backend x) with
  | None => (false, (w, x))
  | Some f => let '(b, w1) := f w in (b, (w1, x))
  end.

(** [backend_.f(args)]. *)
Definition call_backend {A : Type} (f : option (M W A)) : XM (outcome A) := fun '(w, x) =>
  match f with
  | None => (Threw bad_function_call, (w, x))
  | Some g => let '(a, w1) := g w in (Returned a, (w1, x))
  end.

(** [fallback_->f(args)]. *)
Definition call_fallback {A : Type} (f : M InProcessWindowStore A) : XM (outcome A) := fun '(w, x) =>
  let '(a, s) := f (ext_fallback x) in (Returned a, (w, set_fallback x s)).

Definition mark_using_fallback (b : bool) : XM unit := fun '(w, x) =>
  (tt, (w, set_using_fallback x b)).

Definition external_get (key : WindowKey) : XM (outcome (expected WindowValue StoreError)) :=
  do available <- external_is_available;
  if available then
    do _ <- mark_using_fallback false;
    fun s => call_backend (option_map (fun f => f key) (be_get (ext_backend s.2))) s
  else
    do _ <- mark_using_fallback true; call_fallback (inprocess_get key).

Definition external_cas (key : WindowKey) (expected_val new_val : WindowValue)
    : XM (outcome (expected bool StoreError)) :=
  do available <- external_is_available;
  if available then
    do _ <- mark_using_fallback false;
    fun s => call_backend
      (option_map (fun f => f key expected_val new_val) (be_compare_and_swap (ext_backend s.2))) s
  else
    do _ <- mark_using_fallback true; call_fallback (inprocess_cas key expected_val new_val).

Definition external_expire (key : WindowKey) : XM (outcome (expected unit StoreError)) :=
  do available <- external_is_available;
  if available then
    do _ <- mark_using_fallback false;
    fun s => call_backend (option_map (fun f => f key) (be_expire (ext_backend s.2))) s
  else
    do _ <- mark_using_fallback true; call_fallback (inprocess_expire key).

(** ** Sequences of operations *)

Inductive external_reply : Type :=
| XGet (r : outcome (expected WindowValue StoreError))
| XCas (r : outcome (expected bool StoreError))
| XExpire (r : outcome (expected unit StoreError)).

Definition external_op (o : store_op) : XM external_reply :=
  match o with
  | OpGet k => do r <- external_get k; retM (XGet r)
  | OpCas k e n => do r <- external_cas k e n; retM (XCas r)
  | OpExpire k => do r <- external_expire k; retM (XExpire r)
  end.

Fixpoint external_ops (os : list store_op) : XM (list external_reply) :=
  match os with
  | [] => retM []
  | o :: os' => do r <- external_op o; do rs <- external_ops os'; retM (r :: rs)
  end.

Definition reply_of (r : store_reply) : external_reply :=
  match r with
  | RGet r => XGet (Returned r)
  | RCas r => XCas (Returned r)
  | RExpire r => XExpire (Returned r)
  end.

(** The backend answers [false] in every world of [P], which the probe keeps. *)
Definition down_in (P : W -> Prop) (b : ExternalStoreBackend) : Prop :=
  forall w, P w -> match be_is_available b with
                   | None => True
                   | Some f => (f w).1 = false /\ P (f w).2
                   end.

(** ** Lemmas *)

#[local] Opaque inprocess_get inprocess_cas inprocess_expire.

Ltac case_fallback :=
  match goal with
  | |- context [inprocess_get ?k ?s] => destruct (inprocess_get k s)
  | |- context [inprocess_cas ?k ?e ?n ?s] => destruct (inprocess_cas k e n s)
  | |- context [inprocess_expire ?k ?s] => destruct (inprocess_expire k s)
  end.

Lemma external_op_down (P : W -> Prop) (o : store_op) (w : W) (x : ExternalWindowStore) :
  down_in P (ext_backend x) -> P w -> exists w',
    external_op o (w, x)
      = (reply_of (run_op o (ext_fallback x)).1,
         (w', mkExternal (ext_backend x) (run_op o (ext_fallback x)).2 true)) /\ P w'.
Proof.
  intros Hd Hw. specialize (Hd w Hw).
  destruct o as [k|k e n|k]; simpl;
    unfold external_get, external_cas, external_expire, external_is_available, call_fallback,
      mark_using_fallback, set_using_fallback;
    unfold_M; simpl;
    (destruct (be_is_available (ext_backend x)) as [f|];
      [destruct (f w) as [b w1]; destruct Hd as [Hb HP]; simpl in Hb, HP; subst b | rename w into w1]);
    simpl; exists w1; (split; [|done]); case_fallback; done.
Qed.

Lemma external_ops_down (P : W -> Prop) (os : list store_op) :
  forall (w : W) (x : ExternalWindowStore), down_in P (ext_backend x) -> P w ->
  (external_ops os (w, x)).1 = map reply_of (run_ops os (ext_fallback x)).1.
Proof.
  induction os as [|o os IH]; intros w x Hd Hw; [done|].
  simpl. destruct (external_op_down P o w x Hd Hw) as (w' & Ho & Hw').
  unfold_M. rewrite Ho. destruct (run_op o (ext_fallback x)) as [r s1] eqn:Er. simpl.
  specialize (IH w' (mkExternal (ext_backend x) s1 true) Hd Hw'). simpl in IH.
  destruct (external_ops os _) as [rs ws], (run_ops os s1) as [rs' s2]. simpl in *. by rewrite IH.
Qed.

(** An operation on an available backend is the backend's call: the fallback
    store is left alone. *)
Lemma external_op_up (o : store_op) (w w1 : W) (x : ExternalWindowStore) (f : M W bool) :
  be_is_available (ext_backend x) = Some f -> f w = (true, w1) ->
  ext_fallback (external_op o (w, x)).2.2 = ext_fallback x /\
  external_is_degraded (external_op o (w, x)).2.2 = false.
Proof.
  intros Hf Hw. destruct o as [k|k e n|k]; simpl;
    unfold external_get, external_cas, external_expire, external_is_available, call_backend,
      mark_using_fallback, set_using_fallback;
    unfold_M; simpl; rewrite Hf, Hw; simpl.
  - destruct (be_get (ext_backend x)) as [g|]; simpl; [|done]. by destruct (g k w1).
  - destruct (be_compare_and_swap (ext_backend x)) as [g|]; simpl; [|done]. by destruct (g k e n w1).
  - destruct (be_expire (ext_backend x)) as [g|]; simpl; [|done]. by destruct (g k w1).
Qed.

End ExternalStore.

Arguments ExternalStoreBackend W : clear implicits.
Arguments ExternalWindowStore W : clear implicits.

(** A backend that cannot be reached: what [make_redis_backend] installs. *)
Definition unavailable_backend (W : Type) : ExternalStoreBackend W :=
  mkBackend None None None (Some (retM false)).

(** ** Properties *)

(** While the backend stays unavailable, an [ExternalWindowStore] over a
    fresh fallback answers every sequence of operations on plain keys like one
    map, without ever calling (or throwing from) a backend function. *)
Theorem external_fallback_refines_map {W : Type} `{StdHash} (P : W -> Prop)
    (b : ExternalStoreBackend W) (n : Z) (os : list store_op) (w : W)
    (Hn : (0 < n)%Z) (Hdown : down_in P b) (Hw : P w)
    (Hks : Forall (fun o => plain_key (op_key o)) os) :
  (external_ops os (w, external_new b (inprocess_new n))).1 = map reply_of (spec_ops os ∅).1.
Proof.
  rewrite (external_ops_down P) by done. f_equal.
  apply run_ops_refines; [by apply inprocess_new_ok|done|].
  intros k _. apply inprocess_new_view.
Qed.

Lemma external_fallback_refines_map_witness :
  (external_ops [OpCas key_plain WindowValue_zero (mkWindowValue f64_one 1); OpGet key_plain]
     (tt, external_new (unavailable_backend unit) (inprocess_new 64))).1
  = [XCas (Returned (Ok true)); XGet (Returned (Ok (mkWindowValue f64_one 1)))].
Proof.
  rewrite (external_fallback_refines_map (fun _ => True) (unavailable_backend unit) 64);
    [reflexivity|lia|by intros []|done|repeat constructor; vm_compute; congruence].
Defined.
