(* ===== verification/Threshold.v ===== *)
(** * ThresholdEvaluator: windowed counting over a StateStore

    include/fre/evaluator/threshold_evaluator.hpp, against the [StateStore]
    class: one sequential evaluation, and the interleaving of any number of
    evaluations of one window by concurrent threads as a step relation whose
    atomic actions are the store's get and compare_and_swap. *)

From S2P Require Import Prelude Ieee CoreTypes Errors StateStore.
From Stdlib Require Import SpecFloat.

Open Scope list_scope.
Open Scope Z_scope.

Record ThresholdEvaluatorConfig : Type := mkThresholdConfig {
  tc_window_duration : Z;  (** milliseconds *)
  tc_aggregation : AggregationFn;
  tc_group_by : GroupBy;
  tc_threshold : float64;
  tc_group_by_tag : string;
  tc_window_name : string
}.

Definition threshold_evaluator_id : string := "threshold_evaluator".

Definition entity_key (c : ThresholdEvaluatorConfig) (e : Event) : string :=
  match tc_group_by c with
  | ByEntityId => ev_entity_id e
  | ByTenantId => ev_tenant_id e
  | ByTag => sv_str (event_tag e (tc_group_by_tag c))
  end.

Definition current_epoch (c : ThresholdEvaluatorConfig) (e : Event) : Z :=
  let ts_ms := wrap_u64 (Z.quot (ev_timestamp e) ns_per_ms) in
  let window_ms := wrap_u64 (tc_window_duration c) in
  if Z.eqb window_ms 0 then 0 else ts_ms / window_ms.

Definition aggregate_value (c : ThresholdEvaluatorConfig) (current : float64) (e : Event) : float64 :=
  match tc_aggregation c with
  | AggCount => f64_add current f64_one
  | AggSum => f64_add current f64_one
  | AggDistinctCount => f64_add current f64_one
  end.

Definition threshold_key (c : ThresholdEvaluatorConfig) (e : Event) : WindowKey :=
  mkWindowKey (ev_tenant_id e) (entity_key c e) (tc_window_name c) (current_epoch c e).

Definition max_attempts : nat := 10.

(** The value a thread tries to install over [current]. *)
Definition updated_value (c : ThresholdEvaluatorConfig) (e : Event) (current : WindowValue) : WindowValue :=
  mkWindowValue (aggregate_value c (wv_aggregate current) e) (wrap_u64 (wv_version current + 1)).

Definition store_failure (err : StoreError) : EvaluatorError :=
  mkEvaluatorError EvalInternalError threshold_evaluator_id (se_detail err).

(** The result after the loop: [None] when no attempt swapped.  The metadata
    casts the aggregate to [int]; [undefined_int] is what the cast gives out of
    the range of [int]. *)
Definition threshold_metadata (undefined_int : float64 -> Z) (c : ThresholdEvaluatorConfig)
    (aggregate : float64) : string :=
  let count := match f64_to_int aggregate with Some n => n | None => undefined_int aggregate end in
  "{" +:+ dquote +:+ "window_count" +:+ dquote +:+ ":" +:+ pretty count
  +:+ "," +:+ dquote +:+ "threshold" +:+ dquote +:+ ":" +:+ FormatDouble.format_double (tc_threshold c)
  +:+ "," +:+ dquote +:+ "window_name" +:+ dquote +:+ ":" +:+ dquote +:+ tc_window_name c +:+ dquote
  +:+ "}".

Definition threshold_result (undefined_int : float64 -> Z) (c : ThresholdEvaluatorConfig)
    (swapped : option WindowValue) : EvaluatorResult :=
  match swapped with
  | None =>
      mkEvaluatorResult threshold_evaluator_id Pass (Some "cas_contention") None false None None
  | Some updated =>
      let exceeded := f_gt (wv_aggregate updated) (tc_threshold c) in
      let verdict := if exceeded then Flag else Pass in
      if exceeded
      then mkEvaluatorResult threshold_evaluator_id verdict (Some "threshold_exceeded") None false
             (Some (threshold_metadata undefined_int c (wv_aggregate updated))) None
      else mkEvaluatorResult threshold_evaluator_id verdict None None false None None
  end.

Section Evaluate.

Context {S : Type} `{StateStore S}.
Variable undefined_int : float64 -> Z.

Fixpoint cas_attempts (attempts : nat) (c : ThresholdEvaluatorConfig) (e : Event) (key : WindowKey)
    : M S (expected (option WindowValue) EvaluatorError) :=
  match attempts with
  | O => retM (Ok None)
  | Datatypes.S attempts' =>
      do get_result <- store_get key;
      match get_result with
      | Unexpected err => retM (Unexpected (store_failure err))
      | Ok current =>
          let updated := updated_value c e current in
          do cas_result <- store_cas key current updated;
          match cas_result with
          | Unexpected err => retM (Unexpected (store_failure err))
          | Ok true => retM (Ok (Some updated))
          | Ok false => cas_attempts attempts' c e key
          end
      end
  end.

Definition threshold_evaluate (c : ThresholdEvaluatorConfig) (e : Event)
    : M S (expected EvaluatorResult EvaluatorError) :=
  do r <- cas_attempts max_attempts c e (threshold_key c e);
  match r with
  | Unexpected err => retM (Unexpected err)
  | Ok swapped => retM (Ok (threshold_result undefined_int c swapped))
  end.

(** Evaluating a sequence of events one after the other. *)
Fixpoint threshold_evaluate_all (c : ThresholdEvaluatorConfig) (es : list Event)
    : M S (list (expected EvaluatorResult EvaluatorError)) :=
  match es with
  | [] => retM []
  | e :: es' =>
      do r <- threshold_evaluate c e;
      do rs <- threshold_evaluate_all c es'; retM (r :: rs)
  end.

(** ** Concurrent evaluations

    Each thread evaluates one event.  Its program counter: about to call get
    with [failed] attempts behind it, about to call compare_and_swap with the
    value it read, finished, or stopped by a store error. *)
Inductive thread : Type :=
| AtGet (e : Event) (failed : nat)
| AtCas (e : Event) (failed : nat) (current : WindowValue)
| Finished (e : Event) (swapped : option WindowValue)
| Stopped (err : EvaluatorError).

(** The loop test [attempts < 10 && !swapped]. *)
Definition next_attempt (e : Event) (failed : nat) : thread :=
  if Nat.ltb failed max_attempts then AtGet e failed else Finished e None.

Definition spawn_thread (e : Event) : thread := next_attempt e 0.

Definition thread_step (c : ThresholdEvaluatorConfig) (t : thread) (s : S) : option (thread * S) :=
  match t with
  | AtGet e failed =>
      let '(r, s') := store_get (threshold_key c e) s in
      match r with
      | Ok current => Some (AtCas e failed current, s')
      | Unexpected err => Some (Stopped (store_failure err), s')
      end
  | AtCas e failed current =>
      let updated := updated_value c e current in
      let '(r, s') := store_cas (threshold_key c e) current updated s in
      match r with
      | Ok true => Some (Finished e (Some updated), s')
      | Ok false => Some (next_attempt e (Datatypes.S failed), s')
      | Unexpected err => Some (Stopped (store_failure err), s')
      end
  | Finished _ _ | Stopped _ => None
  end.

Inductive system_step (c : ThresholdEvaluatorConfig) : list thread * S -> list thread * S -> Prop :=
| system_step_intro ts i t t' s s' :
    ts !! i = Some t -> thread_step c t s = Some (t', s') ->
    system_step c (ts, s) (<[i := t']> ts, s').

(** Run one schedule, a list of thread numbers. *)
Fixpoint run_schedule (c : ThresholdEvaluatorConfig) (sched : list nat) (st : list thread * S)
    : option (list thread * S) :=
  match sched with
  | [] => Some st
  | i :: sched' =>
      match st.1 !! i with
      | None => None
      | Some t =>
          match thread_step c t st.2 with
          | None => None
          | Some (t', s') => run_schedule c sched' (<[i := t']> st.1, s')
          end
      end
  end.

(** Values installed by the threads that finished with a successful swap. *)
Definition swapped_value (t : thread) : option WindowValue :=
  match t with Finished _ (Some v) => Some v | _ => None end.

Definition swaps (ts : list thread) : list WindowValue := omap swapped_value ts.

End Evaluate.

(** The window state after [n] increments of a fresh window. *)
Definition count_value (n : Z) : WindowValue := mkWindowValue (f64_of_Z n) n.

(** The values after 1, 2, ..., [n] increments. *)
Fixpoint counts_up_to (n : nat) : list WindowValue :=
  match n with
  | O => []
  | S n' => count_value (Z.of_nat (S n')) :: counts_up_to n'
  end.

(** Sample data: ten requests in a minute allowed, one event, two threads. *)
Definition sample_config : ThresholdEvaluatorConfig :=
  mkThresholdConfig 60000 AggCount ByEntityId (f64_of_Z 1) "" "w".

Definition sample_event : Event := mkEvent 1 "acme" "bob" "login" 120000000000 [] [].

(** ** Lemmas: one evaluation *)

Section Sequential.

Context {S : Type} `{StateStoreLaws S}.
Variable undefined_int : float64 -> Z.

Lemma aggregate_value_count (c : ThresholdEvaluatorConfig) (n : Z) (e : Event) :
  0 <= n -> n + 1 < 2 ^ prec64 -> aggregate_value c (f64_of_Z n) e = f64_of_Z (n + 1).
Proof. intros. unfold aggregate_value. by destruct (tc_aggregation c); apply f64_count_succ. Qed.

Lemma updated_value_count (c : ThresholdEvaluatorConfig) (n : Z) (e : Event) :
  0 <= n -> n + 1 < 2 ^ prec64 -> updated_value c e (count_value n) = count_value (n + 1).
Proof.
  intros Hn Hlt. unfold updated_value, count_value. simpl wv_aggregate. simpl wv_version.
  rewrite aggregate_value_count by done. f_equal.
  apply Z.mod_small. unfold prec64, u64_mod in *. lia.
Qed.

(** An evaluation that meets no concurrent writer swaps at the first attempt. *)
Lemma threshold_evaluate_count (c : ThresholdEvaluatorConfig) (e : Event) (n : Z) (s : S) :
  store_ok s -> store_key (threshold_key c e) ->
  store_view s (threshold_key c e) = count_value n -> 0 <= n -> n + 1 < 2 ^ prec64 ->
  exists s',
    threshold_evaluate undefined_int c e s
      = (Ok (threshold_result undefined_int c (Some (count_value (n + 1)))), s') /\
    store_ok s' /\
    forall j, store_key j -> store_view s' j =
      if bool_decide (j = threshold_key c e) then count_value (n + 1) else store_view s j.
Proof.
  intros Hok Hk Hv Hn Hlt. unfold threshold_evaluate, max_attempts. cbn [cas_attempts]. unfold_M.
  destruct (law_get (threshold_key c e) s Hok Hk) as (s1 & -> & Hok1 & Hv1).
  destruct (law_cas (threshold_key c e) (store_view s (threshold_key c e))
      (updated_value c e (store_view s (threshold_key c e))) s1 Hok1 Hk) as (s2 & -> & Hok2 & Hv2).
  rewrite Hv1, Z.eqb_refl in * by done. exists s2. rewrite Hv, updated_value_count by done.
  split_and!; [done|done|]. intros j Hj. rewrite Hv2 by done.
  rewrite andb_true_r, Hv1, Hv, updated_value_count by done. done.
Qed.

Lemma threshold_evaluate_all_count (c : ThresholdEvaluatorConfig) (k : WindowKey) (es : list Event) :
  store_key k -> Forall (fun e => threshold_key c e = k) es ->
  forall (n : Z) (s : S), store_ok s -> store_view s k = count_value n ->
  0 <= n -> n + Z.of_nat (length es) < 2 ^ prec64 ->
  (threshold_evaluate_all undefined_int c es s).1
    = map (fun i => Ok (threshold_result undefined_int c (Some (count_value (n + 1 + Z.of_nat i)))))
        (seq 0 (length es)).
Proof.
  intros Hk. induction 1 as [|e es He Hes IH]; intros n s Hok Hv Hn Hlt; [done|].
  simpl length in Hlt. subst k.
  destruct (threshold_evaluate_count c e n s Hok Hk Hv Hn ltac:(lia)) as (s1 & Heq & Hok1 & Hv1).
  cbn [threshold_evaluate_all length]. unfold_M. rewrite Heq.
  specialize (IH (n + 1) s1 Hok1). rewrite Hv1, bool_decide_eq_true_2 in IH by done.
  specialize (IH eq_refl ltac:(lia) ltac:(lia)).
  destruct (threshold_evaluate_all undefined_int c es s1) as [rs s2]. simpl in IH |- *. subst rs.
  rewrite <- fmap_S_seq. rewrite Z.add_0_r. f_equal. rewrite map_map. apply map_ext. intros i.
  by replace (n + 1 + Z.of_nat (Datatypes.S i)) with (n + 1 + 1 + Z.of_nat i) by lia.
Qed.

Lemma threshold_verdict (c : ThresholdEvaluatorConfig) (threshold n : Z) :
  tc_threshold c = f64_of_Z threshold -> 0 <= threshold < 2 ^ prec64 -> 0 <= n < 2 ^ prec64 ->
  er_verdict (threshold_result undefined_int c (Some (count_value n)))
    = if Z.ltb threshold n then Flag else Pass.
Proof.
  intros Ht Hr Hn. unfold threshold_result, f_gt. simpl wv_aggregate.
  change (SFltb (tc_threshold c) (f64_of_Z n)) with (f_lt (tc_threshold c) (f64_of_Z n)).
  rewrite Ht, f64_lt_of_Z by done. by destruct (Z.ltb threshold n).
Qed.

End Sequential.

(** ** Lemmas: concurrent evaluations *)

Section Concurrent.

Context {S : Type} `{StateStoreLaws S}.
Variable c : ThresholdEvaluatorConfig.
Variable k : WindowKey.
Hypothesis Hk : store_key k.

Lemma swaps_app (ts us : list thread) : swaps (ts ++ us) = swaps ts ++ swaps us.
Proof. apply omap_app. Qed.

Lemma swaps_cons (t : thread) (ts : list thread) :
  swaps (t :: ts) = match swapped_value t with Some v => v :: swaps ts | None => swaps ts end.
Proof. done. Qed.

Lemma swaps_insert (ts : list thread) (i : nat) (t t' : thread) :
  ts !! i = Some t -> swapped_value t = None ->
  swaps (<[i := t']> ts) ≡ₚ
    match swapped_value t' with Some v => v :: swaps ts | None => swaps ts end.
Proof.
  intros Hi Ht. rewrite insert_take_drop by (by eapply lookup_lt_Some).
  assert (Hts : swaps ts = swaps (take i ts) ++ swaps (drop (Datatypes.S i) ts)).
  { rewrite <- (take_drop_middle ts i t Hi) at 1. by rewrite swaps_app, swaps_cons, Ht. }
  rewrite Hts, swaps_app, swaps_cons.
  destruct (swapped_value t') as [v|]; [|done]. by rewrite <- Permutation_middle.
Qed.

Lemma swaps_length_le (ts : list thread) : (length (swaps ts) <= length ts)%nat.
Proof.
  induction ts as [|t ts IH]; [done|]. rewrite swaps_cons.
  destruct (swapped_value t); simpl; lia.
Qed.

Lemma swaps_length_lt (ts : list thread) (i : nat) (t : thread) :
  ts !! i = Some t -> swapped_value t = None -> (length (swaps ts) < length ts)%nat.
Proof.
  intros Hi Ht. rewrite <- (take_drop_middle ts i t Hi), swaps_app, swaps_cons, Ht, !length_app.
  pose proof (swaps_length_le (take i ts)). pose proof (swaps_length_le (drop (Datatypes.S i) ts)).
  simpl. lia.
Qed.

(** What is known of one thread when [n] increments have been installed. *)
Definition thread_ok (n : nat) (t : thread) : Prop :=
  match t with
  | AtGet e failed => threshold_key c e = k /\ (failed < max_attempts)%nat /\ (failed <= n)%nat
  | AtCas e failed current =>
      threshold_key c e = k /\ (failed < max_attempts)%nat /\
      exists m, (failed <= m <= n)%nat /\ current = count_value (Z.of_nat m)
  | Finished e None => (max_attempts <= n)%nat
  | Finished e (Some _) => True
  | Stopped _ => False
  end.

Definition system_inv (st : list thread * S) : Prop :=
  let n := length (swaps st.1) in
  store_ok st.2 /\ store_view st.2 k = count_value (Z.of_nat n) /\
  swaps st.1 ≡ₚ counts_up_to n /\ Forall (thread_ok n) st.1.

Lemma thread_ok_mono (n m : nat) (t : thread) : (n <= m)%nat -> thread_ok n t -> thread_ok m t.
Proof.
  intros Hnm. destruct t as [e f|e f cur|e [v|]|err]; simpl; [naive_solver lia| |done|lia|done].
  intros (? & ? & x & ? & ?). split_and!; [done|done|]. exists x. split; [lia|done].
Qed.

Lemma next_attempt_ok (n : nat) (e : Event) (failed : nat) :
  threshold_key c e = k -> (failed <= n)%nat -> (failed <= max_attempts)%nat ->
  thread_ok n (next_attempt e failed) /\ swapped_value (next_attempt e failed) = None.
Proof.
  intros He Hf Hmax. unfold next_attempt. destruct (Nat.ltb_spec failed max_attempts); simpl.
  - done.
  - split; [lia|done].
Qed.

Lemma system_step_quiet (ts : list thread) (i : nat) (t t' : thread) (s s' : S) :
  system_inv (ts, s) -> ts !! i = Some t -> swapped_value t = None -> swapped_value t' = None ->
  store_ok s' -> store_view s' k = store_view s k -> thread_ok (length (swaps ts)) t' ->
  system_inv (<[i := t']> ts, s').
Proof.
  intros (Hok & Hv & Hp & Hts) Hi Ht Ht' Hok' Hv' Hokt. unfold system_inv. simpl in *.
  pose proof (swaps_insert ts i t t' Hi Ht) as Hs. rewrite Ht' in Hs.
  rewrite (Permutation_length Hs). split_and!; [done|by rewrite Hv'|by etrans|].
  by apply Forall_insert.
Qed.

Lemma system_step_inv (st st' : list thread * S) :
  Z.of_nat (length st.1) < 2 ^ prec64 ->
  system_inv st -> system_step c st st' -> system_inv st'.
Proof.
  intros Hbound Hinv Hstep. destruct Hstep as [ts i t t' s s' Hi Hstep].
  pose proof Hinv as (Hok & Hv & Hp & Hts). simpl in *.
  pose proof (Forall_lookup_1 _ _ _ _ Hts Hi) as Ht.
  destruct t as [e f|e f cur|e v|err]; simpl in Hstep; [| |done|done].
  - destruct Ht as (He & Hmax & Hf). rewrite He in Hstep.
    destruct (law_get k s Hok Hk) as (s1 & Heq & Hok1 & Hv1).
    rewrite Heq in Hstep. injection Hstep as <- <-.
    eapply system_step_quiet; [done..|by apply Hv1|].
    simpl. rewrite Hv. split_and!; [done|done|]. exists (length (swaps ts)). split; [lia|done].
  - destruct Ht as (He & Hmax & m & Hm & ->). rewrite He in Hstep.
    destruct (law_cas k (count_value (Z.of_nat m))
      (updated_value c e (count_value (Z.of_nat m))) s Hok Hk) as (s1 & Heq & Hok1 & Hv1).
    rewrite Heq in Hstep. rewrite Hv in *. simpl wv_version in *.
    specialize (Hv1 _ Hk). rewrite bool_decide_eq_true_2 in Hv1 by done. simpl in Hv1.
    pose proof (swaps_length_lt ts i _ Hi eq_refl) as Hlt.
    destruct (Z.eqb_spec (Z.of_nat (length (swaps ts))) (Z.of_nat m)) as [Hnm|Hnm].
    + injection Hstep as <- <-. apply Nat2Z.inj in Hnm. subst m.
      rewrite updated_value_count in * by lia.
      pose proof (swaps_insert ts i _ (Finished e (Some (count_value (Z.of_nat (length (swaps ts)) + 1))))
        Hi eq_refl) as Hs. simpl in Hs.
      unfold system_inv. simpl. rewrite (Permutation_length Hs). cbn [length].
      replace (Z.of_nat (length (swaps ts)) + 1)
        with (Z.of_nat (Datatypes.S (length (swaps ts)))) in * by lia.
      split_and!; [done|done| |].
      * etrans; [exact Hs|]. cbn [counts_up_to]. by apply Permutation_skip.
      * apply Forall_insert; [|done]. eapply Forall_impl; [done|].
        intros x. apply thread_ok_mono. lia.
    + injection Hstep as <- <-.
      destruct (next_attempt_ok (length (swaps ts)) e (Datatypes.S f)) as [Hn1 Hn2]; [done|lia|lia|].
      eapply system_step_quiet; [done..| |done]. by rewrite Hv1, Hv.
Qed.

Lemma system_step_length (st st' : list thread * S) :
  system_step c st st' -> length st'.1 = length st.1.
Proof. intros []. simpl. apply length_insert. Qed.

Lemma swaps_spawn (es : list Event) : swaps (map spawn_thread es) = [].
Proof. by induction es. Qed.

Lemma system_inv_init (es : list Event) (s : S) :
  store_ok s -> store_view s k = WindowValue_zero ->
  Forall (fun e => threshold_key c e = k) es -> system_inv (map spawn_thread es, s).
Proof.
  intros Hok Hv Hes. unfold system_inv. simpl. rewrite swaps_spawn. split_and!; [done|done|done|].
  apply Forall_fmap. eapply Forall_impl; [done|]. intros e He. simpl.
  split_and!; [done|unfold max_attempts; lia|lia].
Qed.

Lemma system_reachable (es : list Event) (s s' : S) (ts : list thread) :
  store_ok s -> store_view s k = WindowValue_zero ->
  Forall (fun e => threshold_key c e = k) es -> Z.of_nat (length es) < 2 ^ prec64 ->
  rtc (system_step c) (map spawn_thread es, s) (ts, s') ->
  system_inv (ts, s') /\ length ts = length es.
Proof.
  intros Hok Hv Hes Hlen Hrtc.
  assert (Hgen : forall st st', rtc (system_step c) st st' -> length st.1 = length es ->
    system_inv st -> system_inv st' /\ length st'.1 = length es).
  { induction 1 as [|x y z Hxy _ IH]; intros Hl Hi; [done|]. apply IH.
    - by rewrite (system_step_length _ _ Hxy).
    - eapply system_step_inv; [|done|done]. by rewrite Hl. }
  apply (Hgen _ _ Hrtc); simpl; [apply length_map|by apply system_inv_init].
Qed.

End Concurrent.

Lemma run_schedule_rtc {S : Type} `{StateStore S} (c : ThresholdEvaluatorConfig) (sched : list nat) :
  forall st st', run_schedule c sched st = Some st' -> rtc (system_step c) st st'.
Proof.
  induction sched as [|i sched IH]; intros [ts s] st' Hrun; simpl in Hrun.
  - injection Hrun as <-. done.
  - destruct (ts !! i) as [t|] eqn:Hi; [|done].
    destruct (thread_step c t s) as [[t' s']|] eqn:Ht; [|done].
    eapply rtc_l; [by econstructor|]. by apply IH.
Qed.

(** ** Properties *)

(** Over any lawful store, evaluating a sequence of events of one window,
    fresh at the start, increments its count once per event, and the i-th
    evaluation flags exactly when i exceeds the (integral) threshold; it never
    fails and never reports contention. *)
Theorem threshold_flags_above {S : Type} `{StateStoreLaws S} (undefined_int : float64 -> Z)
    (c : ThresholdEvaluatorConfig) (k : WindowKey) (threshold : Z) (es : list Event) (s : S)
    (Hok : store_ok s) (Hk : store_key k) (Hfresh : store_view s k = WindowValue_zero)
    (Hes : Forall (fun e => threshold_key c e = k) es)
    (Hlen : Z.of_nat (length es) < 2 ^ prec64)
    (Ht : tc_threshold c = f64_of_Z threshold) (Hr : 0 <= threshold < 2 ^ prec64) :
  length (threshold_evaluate_all undefined_int c es s).1 = length es /\
  forall i r, (threshold_evaluate_all undefined_int c es s).1 !! i = Some r -> exists res,
    r = Ok res /\ er_reason_code res <> Some "cas_contention" /\
    er_verdict res = if Z.ltb threshold (Z.of_nat i + 1) then Flag else Pass.
Proof.
  rewrite (threshold_evaluate_all_count undefined_int c k es Hk Hes 0 s Hok Hfresh) by lia.
  rewrite length_map, length_seq. split; [done|]. intros i r Hi.
  apply list_lookup_fmap_Some in Hi as (j & -> & Hj). apply lookup_seq in Hj as [-> Hi].
  eexists. split; [done|]. split.
  - unfold threshold_result. by destruct (f_gt _ _).
  - rewrite (threshold_verdict undefined_int c threshold) by (done || lia).
    simpl. by replace (0 + 1 + Z.of_nat i) with (Z.of_nat i + 1) by lia.
Qed.

Lemma threshold_flags_above_witness :
  option_map (fun r => match r with Ok res => er_verdict res | Unexpected _ => Block end)
    ((threshold_evaluate_all (fun _ => 0) sample_config [sample_event; sample_event]
       (inprocess_new 64)).1 !! 1%nat) = Some Flag.
Proof.
  destruct (threshold_flags_above (fun _ => 0) sample_config
    (threshold_key sample_config sample_event) 1 [sample_event; sample_event] (inprocess_new 64))
    as [Hl Hf].
  - by apply inprocess_new_ok.
  - repeat constructor; vm_compute; congruence.
  - apply inprocess_new_view.
  - by repeat constructor.
  - reflexivity.
  - reflexivity.
  - unfold prec64. lia.
  - destruct (lookup_lt_is_Some_2 _ 1%nat ltac:(rewrite Hl; simpl; lia)) as [r Hr].
    rewrite Hr. destruct (Hf _ _ Hr) as (res & -> & _ & Hv). simpl. by rewrite Hv.
Defined.

(** C19: however any number of concurrent evaluations of one window interleave
    their store calls, no increment is lost: in every reachable state the
    stored value is the count of the evaluations that swapped so far, and these
    evaluations saw the counts 1, 2, ..., n, each exactly once. *)
Theorem threshold_no_lost_updates {S : Type} `{StateStoreLaws S}
    (c : ThresholdEvaluatorConfig) (k : WindowKey) (es : list Event) (s s' : S) (ts : list thread)
    (Hk : store_key k) (Hok : store_ok s) (Hfresh : store_view s k = WindowValue_zero)
    (Hes : Forall (fun e => threshold_key c e = k) es)
    (Hlen : Z.of_nat (length es) < 2 ^ prec64)
    (Hrun : rtc (system_step c) (map spawn_thread es, s) (ts, s')) :
  store_view s' k = count_value (Z.of_nat (length (swaps ts))) /\
  swaps ts ≡ₚ counts_up_to (length (swaps ts)) /\
  forall err, Stopped err ∉ ts.
Proof.
  destruct (system_reachable c k Hk es s s' ts) as [(_ & Hv & Hp & Hts) _]; [done..|].
  split_and!; [done|done|]. intros err Herr. by apply (proj1 (Forall_forall _ _) Hts _ Herr).
Qed.

Lemma threshold_no_lost_updates_witness :
  option_map (fun st => inprocess_view st.2 (threshold_key sample_config sample_event))
    (run_schedule sample_config [0; 1; 0; 1; 1; 1]%nat
       (map spawn_thread [sample_event; sample_event], inprocess_new 64))
  = Some (count_value 2).
Proof.
  destruct (run_schedule sample_config [0; 1; 0; 1; 1; 1]%nat
    (map spawn_thread [sample_event; sample_event], inprocess_new 64)) as [[ts s']|] eqn:Hrun;
    [|vm_compute in Hrun; discriminate].
  assert (Hsw : length (swaps ts) = 2%nat) by (vm_compute in Hrun; injection Hrun as <- _; reflexivity).
  simpl. f_equal.
  destruct (threshold_no_lost_updates sample_config (threshold_key sample_config sample_event)
    [sample_event; sample_event] (inprocess_new 64) s' ts) as (Hv & _ & _).
  - repeat constructor; vm_compute; congruence.
  - by apply inprocess_new_ok.
  - apply inprocess_new_view.
  - by repeat constructor.
  - reflexivity.
  - by apply (run_schedule_rtc sample_config [0; 1; 0; 1; 1; 1]%nat).
  - simpl in Hv. by rewrite Hv, Hsw.
Defined.

(** The ten attempts of the compare-and-swap loop suffice for up to ten
    concurrent evaluations of a window: none of them gives up with
    "cas_contention" (each failed attempt is another evaluation's success). *)
Theorem threshold_ten_threads_suffice {S : Type} `{StateStoreLaws S}
    (c : ThresholdEvaluatorConfig) (k : WindowKey) (es : list Event) (s s' : S) (ts : list thread)
    (Hk : store_key k) (Hok : store_ok s) (Hfresh : store_view s k = WindowValue_zero)
    (Hes : Forall (fun e => threshold_key c e = k) es)
    (Hten : (length es <= 10)%nat)
    (Hrun : rtc (system_step c) (map spawn_thread es, s) (ts, s')) :
  forall e, Finished e None ∉ ts.
Proof.
  intros e He.
  destruct (system_reachable c k Hk es s s' ts) as [(_ & _ & _ & Hts) Hl];
    [done..|unfold prec64; lia|done|].
  apply list_elem_of_lookup in He as [i Hi]. pose proof (Forall_lookup_1 _ _ _ _ Hts Hi) as Hn.
  pose proof (swaps_length_lt ts i _ Hi eq_refl). simpl in *. unfold max_attempts in *. lia.
Qed.

Lemma threshold_ten_threads_suffice_witness :
  option_map (fun st => length (swaps st.1))
    (run_schedule sample_config [0; 1; 0; 1; 1; 1]%nat
       (map spawn_thread [sample_event; sample_event], inprocess_new 64)) = Some 2%nat /\
  forall ts s', run_schedule sample_config [0; 1; 0; 1; 1; 1]%nat
       (map spawn_thread [sample_event; sample_event], inprocess_new 64) = Some (ts, s') ->
    Finished sample_event None ∉ ts.
Proof.
  split; [vm_compute; reflexivity|]. intros ts s' Hrun.
  apply (threshold_ten_threads_suffice sample_config (threshold_key sample_config sample_event)
    [sample_event; sample_event] (inprocess_new 64) s' ts).
  - repeat constructor; vm_compute; congruence.
  - by apply inprocess_new_ok.
  - apply inprocess_new_view.
  - by repeat constructor.
  - simpl. lia.
  - by apply (run_schedule_rtc sample_config [0; 1; 0; 1; 1; 1]%nat).
Defined.
