(* ===== verification/Evaluators.v ===== *)
(** * The list-based and the historical evaluators

    [AllowDeny]: include/fre/evaluator/allow_deny_evaluator.hpp and
    src/evaluator/allow_deny_evaluator.cpp, from the text of the list files to
    the verdict.  [Historical]:
    include/fre/evaluator/windowed_historical_evaluator.hpp over any store with
    [query_range]. *)

From S2P Require Import Prelude Ieee CoreTypes Errors.
From Stdlib Require Import SpecFloat Ascii.

Open Scope list_scope.
Open Scope Z_scope.

Module AllowDeny.

Inductive AllowDenyMatchField : Type := MatchEntityId | MatchTenantId.

Record AllowDenyEvaluatorConfig : Type := mkAllowDenyConfig {
  allow_list_path : string;
  deny_list_path : string;
  match_field : AllowDenyMatchField;
  default_verdict : Verdict;
  evaluator_id : string
}.

Record AllowDenyEvaluator : Type := mkAllowDeny {
  config_ : AllowDenyEvaluatorConfig;
  allow_set_ : gset string;
  deny_set_ : gset string
}.

Definition carriage_return : ascii := ascii_of_N 13.

(** [while (std::getline(ifs, line))] on the rest of a file, [line] holding the
    characters read so far: the last line counts also when no newline ends it. *)
Fixpoint getlines (line s : string) : list string :=
  match s with
  | EmptyString => if str_empty line then [] else [line]
  | String c s' =>
      if Ascii.eqb c newline then line :: getlines EmptyString s'
      else getlines (line +:+ String c EmptyString) s'
  end.

(** Drop one trailing carriage return. *)
Fixpoint strip_cr (line : string) : string :=
  match line with
  | EmptyString => EmptyString
  | String c EmptyString => if Ascii.eqb c carriage_return then EmptyString else String c EmptyString
  | String c line' => String c (strip_cr line')
  end.

Definition add_line (line : string) (result : gset string) : gset string :=
  let line := strip_cr line in
  if negb (str_empty line) then {[ line ]} ∪ result else result.

(** [files path] is the content of a readable file. *)
Definition load_list (files : string -> option string) (path : string) : outcome (gset string) :=
  if str_empty path then Returned ∅
  else match files path with
       | None => Threw ("AllowDenyEvaluator: cannot open list file: " +:+ path)
       | Some text => Returned (foldl (fun acc line => add_line line acc) ∅ (getlines EmptyString text))
       end.

Definition construct (files : string -> option string) (config : AllowDenyEvaluatorConfig)
    : outcome AllowDenyEvaluator :=
  match load_list files (allow_list_path config) with
  | Threw what => Threw what
  | Returned allow =>
      match load_list files (deny_list_path config) with
      | Threw what => Threw what
      | Returned deny => Returned (mkAllowDeny config allow deny)
      end
  end.

Definition match_key (ev : AllowDenyEvaluator) (event : Event) : string :=
  match match_field (config_ ev) with
  | MatchEntityId => ev_entity_id event
  | MatchTenantId => ev_tenant_id event
  end.

Definition evaluate (ev : AllowDenyEvaluator) (event : Event) : expected EvaluatorResult EvaluatorError :=
  let key := match_key ev event in
  let result v reason :=
    Ok (mkEvaluatorResult (evaluator_id (config_ ev)) v (Some reason) None false None None) in
  if (negb (bool_decide (allow_set_ ev = ∅)) && bool_decide (key ∈ allow_set_ ev))%bool
  then result Pass "allow_list_match"
  else if bool_decide (key ∈ deny_set_ ev) then result Block "deny_list_match"
  else result (default_verdict (config_ ev)) "default".

(** ** Specification vocabulary: text files of entries *)

Fixpoint has_char (c : ascii) (s : string) : bool :=
  match s with
  | EmptyString => false
  | String c' s' => (Ascii.eqb c' c || has_char c s')%bool
  end.

Fixpoint ends_with_cr (s : string) : bool :=
  match s with
  | EmptyString => false
  | String c EmptyString => Ascii.eqb c carriage_return
  | String _ s' => ends_with_cr s'
  end.

(** What can be listed: a non-empty line that does not end in a carriage return. *)
Definition entry (s : string) : Prop :=
  s <> "" /\ has_char newline s = false /\ ends_with_cr s = false.

(** One line per entry, each ended by LF or CR LF. *)
Fixpoint file_text (lines : list (string * bool)) : string :=
  match lines with
  | [] => ""
  | (l, crlf) :: rest =>
      l +:+ (if crlf then String carriage_return "" else "")
        +:+ String newline (file_text rest)
  end.

Definition sample_config : AllowDenyEvaluatorConfig :=
  mkAllowDenyConfig "allow.txt" "deny.txt" MatchEntityId Flag "lists".

Definition sample_files (path : string) : option string :=
  if str_eqb path "allow.txt" then Some (file_text [("alice", true); ("bob", false)])
  else if str_eqb path "deny.txt" then Some (file_text [("bob", false); ("mallory", true)])
  else None.

Definition sample_event (entity : string) : Event := mkEvent 1 "acme" entity "login" 0 [] [].

End AllowDeny.

Module Historical.

(** The [RangeQueryStore] concept. *)
Class RangeQueryStore (S : Type) : Type := {
  query_range : string -> string -> string -> Z -> Z -> M S (expected float64 StoreError)
}.

Record WindowedHistoricalEvaluator : Type := mkHistorical {
  window_name_ : string;
  window_ms_ : Z;    (** [uint64_t] *)
  num_windows_ : Z;  (** [uint32_t] *)
  threshold_ : float64
}.

Definition historical_id : string := "WindowedHistoricalEvaluator".

Definition current_epoch_at (h : WindowedHistoricalEvaluator) (now : Z) : Z :=
  let now_ms := wrap_u64 (Z.quot now ns_per_ms) in
  if Z.ltb 0 (window_ms_ h) then now_ms / window_ms_ h else 0.

Definition start_epoch_at (h : WindowedHistoricalEvaluator) (current_epoch : Z) : Z :=
  if Z.leb (num_windows_ h) current_epoch
  then wrap_u64 (wrap_u64 (current_epoch - num_windows_ h) + 1) else 0.

(** The store and the clock are parts of the world [W]. *)
Definition evaluate {W : Type} `{Clock W} `{RangeQueryStore W} (h : WindowedHistoricalEvaluator)
    (event : Event) : M W (expected EvaluatorResult EvaluatorError) :=
  do now <- system_now;
  let current_epoch := current_epoch_at h now in
  let start_epoch := start_epoch_at h current_epoch in
  do result <- query_range (ev_tenant_id event) (ev_entity_id event) (window_name_ h)
                 start_epoch current_epoch;
  match result with
  | Unexpected err =>
      retM (Unexpected (mkEvaluatorError EvalInternalError historical_id (se_detail err)))
  | Ok total =>
      retM (Ok (mkEvaluatorResult historical_id
        (if f_ge total (threshold_ h) then Flag else Pass) None None false None None))
  end.

(** A world for examples: a clock standing at [now] and a store that answers
    with the number of epochs asked for. *)
#[local] Instance span_clock : Clock Z := {
  steady_now := fun now => (now, now);
  system_now := fun now => (now, now);
  sleep_for := fun _ now => (tt, now)
}.

#[local] Instance span_store : RangeQueryStore Z := {
  query_range := fun _ _ _ a b now => (Ok (f64_of_Z (b - a + 1)), now)
}.

Definition sample_historical : WindowedHistoricalEvaluator :=
  mkHistorical "w" 60000 30 (f64_of_Z 30).

End Historical.

(** ** Lemmas: list files *)

Section ListFiles.

Import AllowDeny.

Lemma getlines_line (l line rest : string) :
  has_char newline l = false ->
  getlines line (l +:+ String newline rest) = (line +:+ l) :: getlines "" rest.
Proof.
  revert line. induction l as [|c l IH]; intros line Hl.
  - change ("" +:+ String newline rest) with (String newline rest).
    cbn [getlines]. rewrite Ascii.eqb_refl. by rewrite append_nil_r.
  - cbn [has_char] in Hl. apply orb_false_iff in Hl as [Hc Hl].
    change (String c l +:+ String newline rest) with (String c (l +:+ String newline rest)).
    cbn [getlines]. rewrite Hc, IH by done. by rewrite append_assoc.
Qed.

Lemma strip_cr_id (l : string) : ends_with_cr l = false -> strip_cr l = l.
Proof.
  induction l as [|c l IH]; [done|]. intros Hl. destruct l as [|c' l].
  - cbn [ends_with_cr] in Hl. cbn [strip_cr]. by rewrite Hl.
  - cbn [strip_cr]. f_equal. by apply IH.
Qed.

Lemma strip_cr_crlf (l : string) : strip_cr (l +:+ String carriage_return "") = l.
Proof.
  induction l as [|c l IH]; [done|]. destruct l as [|c' l]; [done|].
  change (String c (strip_cr (String c' l +:+ String carriage_return "")) = String c (String c' l)).
  by rewrite IH.
Qed.

Lemma has_char_app (c : ascii) (a b : string) : has_char c (a +:+ b) = (has_char c a || has_char c b)%bool.
Proof.
  induction a as [|x a IH]; [done|].
  change ((Ascii.eqb x c || has_char c (a +:+ b)) = (Ascii.eqb x c || has_char c a) || has_char c b)%bool.
  by rewrite IH, orb_assoc.
Qed.

(** Reading back a file of entries gives the set of its entries. *)
Lemma load_file_text (lines : list (string * bool)) (acc : gset string) :
  Forall (fun l => entry l.1) lines ->
  foldl (fun acc line => add_line line acc) acc (getlines "" (file_text lines))
    = list_to_set (map fst lines) ∪ acc.
Proof.
  revert acc. induction lines as [|[l crlf] lines IH]; intros acc Hl; simpl; [set_solver|].
  apply Forall_cons in Hl as [(Hne & Hnl & Hcr) Hl]. simpl in Hne, Hnl, Hcr.
  rewrite <- append_assoc, getlines_line.
  2:{ rewrite has_char_app, Hnl. by destruct crlf. }
  simpl foldl. rewrite IH by done.
  assert (Hs : strip_cr ("" +:+ (l +:+ (if crlf then String carriage_return "" else ""))) = l).
  { change (strip_cr (l +:+ (if crlf then String carriage_return "" else "")) = l).
    destruct crlf; [apply strip_cr_crlf|]. rewrite append_nil_r. by apply strip_cr_id. }
  unfold add_line. rewrite Hs.
  destruct (str_empty l) eqn:He; [by apply String.eqb_eq in He|]. simpl. set_solver.
Qed.

Lemma load_list_file_text (files : string -> option string) (path : string) lines :
  path <> "" -> files path = Some (file_text lines) -> Forall (fun l => entry l.1) lines ->
  load_list files path = Returned (list_to_set (map fst lines)).
Proof.
  intros Hp Hf Hl. unfold load_list.
  destruct (str_empty path) eqn:He; [by apply String.eqb_eq in He|].
  rewrite Hf, load_file_text by done. f_equal. set_solver.
Qed.

End ListFiles.

(** ** Lemmas: historical ranges *)

Section HistoricalRanges.

Import Historical.

Lemma start_epoch_range (h : WindowedHistoricalEvaluator) (cur : Z) :
  0 <= cur < u64_mod -> 0 < num_windows_ h < u32_mod ->
  start_epoch_at h cur = Z.max 0 (cur - num_windows_ h + 1).
Proof.
  intros Hc Hn. unfold start_epoch_at. destruct (Z.leb_spec (num_windows_ h) cur); [|lia].
  unfold wrap_u64. rewrite (Z.mod_small (cur - num_windows_ h)) by lia.
  rewrite Z.mod_small by lia. lia.
Qed.

Lemma current_epoch_range (h : WindowedHistoricalEvaluator) (now : Z) :
  0 <= current_epoch_at h now < u64_mod.
Proof.
  unfold current_epoch_at. pose proof (wrap_u64_range (Z.quot now ns_per_ms)) as Hw.
  destruct (Z.ltb_spec 0 (window_ms_ h)); [|unfold u64_mod; lia].
  split; [apply Z.div_pos; lia|]. apply Z.div_lt_upper_bound; [lia|]. nia.
Qed.

End HistoricalRanges.

(** ** Properties *)

(** An [AllowDenyEvaluator] built from an allow file and a deny file, each
    with one entry per line under LF or CR LF endings, passes exactly the keys
    of the allow list, blocks the other keys of the deny list, and gives every
    other key the default verdict. *)
Theorem allow_deny_decides (files : string -> option string)
    (config : AllowDeny.AllowDenyEvaluatorConfig) (allow deny : list (string * bool)) (event : Event)
    (Hpa : AllowDeny.allow_list_path config <> "") (Hpd : AllowDeny.deny_list_path config <> "")
    (Ha : files (AllowDeny.allow_list_path config) = Some (AllowDeny.file_text allow))
    (Hd : files (AllowDeny.deny_list_path config) = Some (AllowDeny.file_text deny))
    (Hea : Forall (fun l => AllowDeny.entry l.1) allow)
    (Hed : Forall (fun l => AllowDeny.entry l.1) deny) :
  exists ev res,
    AllowDeny.construct files config = Returned ev /\ AllowDeny.evaluate ev event = Ok res /\
    let key := match AllowDeny.match_field config with
               | AllowDeny.MatchEntityId => ev_entity_id event
               | AllowDeny.MatchTenantId => ev_tenant_id event
               end in
    er_verdict res =
      if bool_decide (key ∈ map fst allow) then Pass
      else if bool_decide (key ∈ map fst deny) then Block
      else AllowDeny.default_verdict config.
Proof.
  unfold AllowDeny.construct.
  rewrite (load_list_file_text files _ allow), (load_list_file_text files _ deny) by done.
  exists (AllowDeny.mkAllowDeny config (list_to_set (map fst allow)) (list_to_set (map fst deny))).
  unfold AllowDeny.evaluate, AllowDeny.match_key. simpl.
  destruct (AllowDeny.match_field config);
    repeat case_bool_decide; simpl; eexists; (split; [done|split; [reflexivity|]]); simpl; set_solver.
Qed.

Lemma allow_deny_decides_witness :
  exists ev res,
    AllowDeny.construct AllowDeny.sample_files AllowDeny.sample_config = Returned ev /\
    AllowDeny.evaluate ev (AllowDeny.sample_event "bob") = Ok res /\ er_verdict res = Pass.
Proof.
  destruct (allow_deny_decides AllowDeny.sample_files AllowDeny.sample_config
    [("alice", true); ("bob", false)] [("bob", false); ("mallory", true)]
    (AllowDeny.sample_event "bob")) as (ev & res & Hc & He & Hv).
  - discriminate.
  - discriminate.
  - reflexivity.
  - reflexivity.
  - repeat constructor; discriminate.
  - repeat constructor; discriminate.
  - exists ev, res. split_and!; [exact Hc|exact He|exact Hv].
Defined.

(** A [WindowedHistoricalEvaluator] over [n >= 1] windows asks the store for
    the current epoch and the [n - 1] before it, as far as epochs go back, and
    flags exactly when the total reaches the threshold. *)
Theorem historical_queries_last_windows {W : Type} `{Clock W} `{Historical.RangeQueryStore W}
    (h : Historical.WindowedHistoricalEvaluator) (event : Event) (w w1 : W) (now : Z)
    (Hn : 0 < Historical.num_windows_ h < u32_mod) (Hnow : system_now w = (now, w1)) :
  let cur := Historical.current_epoch_at h now in
  let first := Z.max 0 (cur - Historical.num_windows_ h + 1) in
  exists w2,
    match (Historical.query_range (ev_tenant_id event) (ev_entity_id event)
             (Historical.window_name_ h) first cur w1).1 with
    | Ok total => exists res,
        Historical.evaluate h event w = (Ok res, w2) /\
        (er_verdict res = Flag <-> f_le (Historical.threshold_ h) total = true) /\
        (er_verdict res = Flag \/ er_verdict res = Pass)
    | Unexpected err => exists e,
        Historical.evaluate h event w = (Unexpected e, w2) /\
        ee_code e = EvalInternalError /\ ee_detail e = se_detail err
    end.
Proof.
  intros cur first. unfold Historical.evaluate. unfold_M. rewrite Hnow. fold cur.
  rewrite (start_epoch_range h cur) by (done || apply current_epoch_range). fold first.
  destruct (Historical.query_range _ _ _ first cur w1) as [[total|err] w2]; simpl;
    exists w2; eexists; (split; [done|]); simpl; [|done].
  change (f_le (Historical.threshold_ h) total) with (f_ge total (Historical.threshold_ h)).
  destruct (f_ge total (Historical.threshold_ h)); naive_solver.
Qed.

Lemma historical_queries_last_windows_witness :
  exists w2 res,
    Historical.evaluate (H := Historical.span_clock) (H0 := Historical.span_store) Historical.sample_historical
      (AllowDeny.sample_event "bob") (86400 * 10 ^ 9) = (Ok res, w2) /\ er_verdict res = Flag.
Proof.
  destruct (historical_queries_last_windows (H := Historical.span_clock)
    (H0 := Historical.span_store) Historical.sample_historical
    (AllowDeny.sample_event "bob") (86400 * 10 ^ 9) (86400 * 10 ^ 9) (86400 * 10 ^ 9))
    as (w2 & res & Heq & Hf & _).
  - simpl. unfold u32_mod. lia.
  - reflexivity.
  - exists w2, res. split; [exact Heq|]. apply Hf. vm_compute. reflexivity.
Defined.
