(* ===== verification/Plugin.v ===== *)
(** * Evaluator plugins: loading, calling, releasing

    src/evaluator/plugin_loader.cpp, include/fre/evaluator/plugin_loader.hpp and
    the C structures of include/fre/core/plugin_abi.h.  The dynamic linker is a
    class of operations on the world [W]; its contract accounts for three kinds
    of resources: linker handles, vtables on the heap, plugin contexts. *)

From S2P Require Import Prelude Ieee CoreTypes Errors.
From stdpp Require Import gmultiset.
From Stdlib Require Import SpecFloat.

Open Scope Z_scope.

(** ** The C ABI *)

Inductive fre_verdict_t : Type := FRE_VERDICT_PASS | FRE_VERDICT_FLAG | FRE_VERDICT_BLOCK.

Inductive fre_evaluator_error_code_t : Type :=
| FRE_EVAL_ERR_TIMEOUT | FRE_EVAL_ERR_INTERNAL | FRE_EVAL_ERR_INVALID_INPUT
| FRE_EVAL_ERR_NOT_INITIALIZED.

(** Pointers to characters stand for the characters of the view they point into. *)
Record fre_event_view_t : Type := mkEventView {
  view_id : Z;
  view_tenant_id : string;
  view_entity_id : string;
  view_event_type : string;
  view_timestamp_us : Z;
  view_payload : list Byte.byte;
  view_payload_len : Z
}.

(** The character arrays hold C strings. *)
Record fre_evaluator_result_t : Type := mkPluginResult {
  res_verdict : fre_verdict_t;
  res_is_error : Z;
  res_error_code : fre_evaluator_error_code_t;
  res_evaluator_id : string;
  res_reason_code : string;
  res_score : float32
}.

Definition FRE_EVALUATOR_ABI_VERSION : Z := 1.

Record fre_evaluator_vtable_t (W : Type) : Type := mkVtable {
  vt_address : Z;
  vt_abi_version : Z;
  vt_evaluator_id : option string;
  vt_ctx : Z;
  vt_evaluate : option (Z -> fre_event_view_t -> M W (Z * fre_evaluator_result_t));
  vt_destroy : option (Z -> M W unit)
}.

Arguments mkVtable {W}.
Arguments vt_address {W}. Arguments vt_abi_version {W}. Arguments vt_evaluator_id {W}.
Arguments vt_ctx {W}. Arguments vt_evaluate {W}. Arguments vt_destroy {W}.

(** dlopen, dlsym of [fre_create_evaluator], dlclose, dlerror, operator delete. *)
Class DynamicLinker (W : Type) : Type := {
  dlopen : string -> M W (option Z);
  dlsym_factory : Z -> M W (option (string -> M W (option (fre_evaluator_vtable_t W))));
  dlclose : Z -> M W unit;
  dlerror : M W string;
  delete_vtable : fre_evaluator_vtable_t W -> M W unit
}.

Section Loader.

Context {W : Type} `{DynamicLinker W}.

(** ** EvaluatorHandle *)

Record EvaluatorHandle : Type := mkHandle {
  vtable_ : option (fre_evaluator_vtable_t W);
  dl_handle_ : option Z
}.

Definition destroy_context (vt : fre_evaluator_vtable_t W) : M W unit :=
  match vt_destroy vt with Some destroy => destroy (vt_ctx vt) | None => retM tt end.

Definition close_handle (h : option Z) : M W unit :=
  match h with Some h => dlclose h | None => retM tt end.

(** [~EvaluatorHandle()]. *)
Definition handle_destructor (h : EvaluatorHandle) : M W unit :=
  do _ <- match vtable_ h with
          | Some vt =>
              match vt_destroy vt with
              | Some destroy => do _ <- destroy (vt_ctx vt); delete_vtable vt
              | None => retM tt
              end
          | None => retM tt
          end;
  close_handle (dl_handle_ h).

(** The moved-from handle. *)
Definition handle_empty : EvaluatorHandle := mkHandle None None.

(** [EvaluatorHandle(EvaluatorHandle&&)]: the new handle and what is left of the old. *)
Definition handle_move (other : EvaluatorHandle) : EvaluatorHandle * EvaluatorHandle :=
  (mkHandle (vtable_ other) (dl_handle_ other), handle_empty).

(** [a = std::move(b)] for distinct objects: the new [a] and the new [b]. *)
Definition handle_move_assign (this other : EvaluatorHandle) : M W (EvaluatorHandle * EvaluatorHandle) :=
  do _ <- match vtable_ this with
          | Some vt =>
              match vt_destroy vt with Some destroy => destroy (vt_ctx vt) | None => retM tt end
          | None => retM tt
          end;
  do _ <- close_handle (dl_handle_ this);
  retM (mkHandle (vtable_ other) (dl_handle_ other), handle_empty).

Definition handle_evaluator_id (h : EvaluatorHandle) : string :=
  match vtable_ h with
  | Some vt => default "" (vt_evaluator_id vt)
  | None => ""
  end.

Definition event_view (event : Event) : fre_event_view_t :=
  mkEventView (ev_id event) (ev_tenant_id event) (ev_entity_id event) (ev_event_type event)
    (Z.quot (ev_timestamp event) ns_per_us) (ev_payload event)
    (wrap_u32 (Z.of_nat (length (ev_payload event)))).

Definition plugin_error_code (c : fre_evaluator_error_code_t) : EvaluatorErrorCode :=
  match c with
  | FRE_EVAL_ERR_TIMEOUT => EvalTimeout
  | FRE_EVAL_ERR_INTERNAL => EvalInternalError
  | FRE_EVAL_ERR_INVALID_INPUT => EvalInvalidInput
  | FRE_EVAL_ERR_NOT_INITIALIZED => EvalNotInitialized
  end.

Definition plugin_verdict (v : fre_verdict_t) : Verdict :=
  match v with
  | FRE_VERDICT_PASS => Pass
  | FRE_VERDICT_FLAG => Flag
  | FRE_VERDICT_BLOCK => Block
  end.

Definition plugin_result (rc : Z) (result : fre_evaluator_result_t)
    : expected EvaluatorResult EvaluatorError :=
  if (negb (Z.eqb rc 0) || negb (Z.eqb (res_is_error result) 0))%bool
  then Unexpected (mkEvaluatorError (plugin_error_code (res_error_code result))
         (res_evaluator_id result) (res_reason_code result))
  else Ok (mkEvaluatorResult (res_evaluator_id result) (plugin_verdict (res_verdict result))
         (if str_empty (res_reason_code result) then None else Some (res_reason_code result))
         (if is_nan (res_score result) then None else Some (res_score result))
         false None None).

Definition handle_evaluate (h : EvaluatorHandle) (event : Event)
    : M W (expected EvaluatorResult EvaluatorError) :=
  match vtable_ h with
  | Some vt =>
      match vt_evaluate vt with
      | Some evaluate =>
          do (rc, result) <- evaluate (vt_ctx vt) (event_view event);
          retM (plugin_result rc result)
      | None =>
          retM (Unexpected (mkEvaluatorError EvalNotInitialized (handle_evaluator_id h) ""))
      end
  | None => retM (Unexpected (mkEvaluatorError EvalNotInitialized (handle_evaluator_id h) ""))
  end.

(** ** PluginLoader *)

Definition load_failed (detail : string) : Error :=
  ErrConfig (mkConfigError EvaluatorLoadFailed detail).

Definition load (library_path config_json : string) : M W (expected EvaluatorHandle Error) :=
  do handle <- dlopen library_path;
  match handle with
  | None =>
      do err <- dlerror;
      retM (Unexpected (load_failed ("dlopen '" +:+ library_path +:+ "': " +:+ err)))
  | Some handle =>
      do factory <- dlsym_factory handle;
      match factory with
      | None =>
          do _ <- dlclose handle;
          retM (Unexpected (load_failed
            ("symbol 'fre_create_evaluator' not found in '" +:+ library_path +:+ "'")))
      | Some factory =>
          do vtable <- factory config_json;
          match vtable with
          | None =>
              do _ <- dlclose handle;
              retM (Unexpected (load_failed ("factory returned null for '" +:+ library_path +:+ "'")))
          | Some vtable =>
              if negb (Z.eqb (vt_abi_version vtable) FRE_EVALUATOR_ABI_VERSION) then
                do _ <- destroy_context vtable;
                do _ <- delete_vtable vtable;
                do _ <- dlclose handle;
                retM (Unexpected (load_failed
                  ("plugin ABI version " +:+ to_string_Z (vt_abi_version vtable) +:+ " != expected "
                   +:+ to_string_Z FRE_EVALUATOR_ABI_VERSION +:+ " in '" +:+ library_path +:+ "'")))
              else retM (Ok (mkHandle (Some vtable) (Some handle)))
          end
      end
  end.

End Loader.

Arguments EvaluatorHandle W : clear implicits.

(** ** The contract of the linker and of plugins *)

Inductive resource : Type :=
| RHandle (h : Z)
| RVtable (address : Z)
| RContext (ctx : Z).

#[export] Instance resource_eq_dec : EqDecision resource.
Proof. solve_decision. Defined.

#[export] Instance resource_countable : Countable resource.
Proof.
  refine (inj_countable'
    (fun r => match r with RHandle z => inl z | RVtable z => inr (inl z) | RContext z => inr (inr z) end)
    (fun s => match s with inl z => RHandle z | inr (inl z) => RVtable z | inr (inr z) => RContext z end) _).
  by intros [].
Defined.

Class DynamicLinkerLaws (W : Type) `{DynamicLinker W} : Type := {
  resources : W -> gmultiset resource;
  law_dlopen : forall path w, resources (dlopen path w).2 =
    match (dlopen path w).1 with Some h => resources w ⊎ {[+ RHandle h +]} | None => resources w end;
  law_dlsym : forall h w, resources (dlsym_factory h w).2 = resources w;
  law_dlclose : forall h w, resources (dlclose h w).2 = resources w ∖ {[+ RHandle h +]};
  law_dlerror : forall w, resources (dlerror w).2 = resources w;
  law_delete : forall vt w, resources (delete_vtable vt w).2 = resources w ∖ {[+ RVtable (vt_address vt) +]}
}.

(** A vtable made by a factory: [destroy] is present and frees the context. *)
Definition plugin_ok {W : Type} `{DynamicLinkerLaws W} (vt : fre_evaluator_vtable_t W) : Prop :=
  exists destroy, vt_destroy vt = Some destroy /\
    forall w, resources (destroy (vt_ctx vt) w).2 = resources w ∖ {[+ RContext (vt_ctx vt) +]}.

(** Factories of the libraries return null without allocating, or a good vtable
    with its context. *)
Definition plugins_ok (W : Type) `{DynamicLinkerLaws W} : Prop :=
  forall h w factory, (dlsym_factory h w).1 = Some factory -> forall config w',
    match (factory config w').1 with
    | Some vt => plugin_ok vt /\ resources (factory config w').2
        = resources w' ⊎ {[+ RVtable (vt_address vt) +]} ⊎ {[+ RContext (vt_ctx vt) +]}
    | None => resources (factory config w').2 = resources w'
    end.

(** Sample host: the resources are the world; libraries "good.so", "old.so" (another
    ABI version), "null.so" (factory fails) and "nosym.so". *)
Definition sample_vtable (version : Z) : fre_evaluator_vtable_t (gmultiset resource) :=
  mkVtable 100 version (Some "sample") 7
    (Some (fun _ _ w => ((0, mkPluginResult FRE_VERDICT_FLAG 0 FRE_EVAL_ERR_TIMEOUT "sample" "" S754_nan), w)))
    (Some (fun ctx w => (tt, w ∖ {[+ RContext ctx +]}))).

Definition sample_factory (version : Z) (config : string) (w : gmultiset resource)
    : option (fre_evaluator_vtable_t (gmultiset resource)) * gmultiset resource :=
  (Some (sample_vtable version), w ⊎ {[+ RVtable 100 +]} ⊎ {[+ RContext 7 +]}).

Definition sample_open (path : string) : option Z :=
  if str_eqb path "good.so" then Some 1 else if str_eqb path "old.so" then Some 2
  else if str_eqb path "null.so" then Some 3 else if str_eqb path "nosym.so" then Some 4 else None.

#[local] Instance sample_linker : DynamicLinker (gmultiset resource) := {
  dlopen := fun path w =>
    match sample_open path with Some h => (Some h, w ⊎ {[+ RHandle h +]}) | None => (None, w) end;
  dlsym_factory := fun h w =>
    (if Z.eqb h 1 then Some (sample_factory 1) else if Z.eqb h 2 then Some (sample_factory 2)
     else if Z.eqb h 3 then Some (fun _ w' => (None, w')) else None, w);
  dlclose := fun h w => (tt, w ∖ {[+ RHandle h +]});
  dlerror := fun w => ("cannot open shared object file", w);
  delete_vtable := fun vt w => (tt, w ∖ {[+ RVtable (vt_address vt) +]})
}.

(** ** Lemmas *)

Section LoaderLemmas.

Context {W : Type} `{DynamicLinkerLaws W}.

Lemma destroy_context_ok (vt : fre_evaluator_vtable_t W) (w : W) :
  plugin_ok vt -> resources (destroy_context vt w).2 = resources w ∖ {[+ RContext (vt_ctx vt) +]}.
Proof. intros (d & Hd & Hl). unfold destroy_context. rewrite Hd. apply Hl. Qed.

(** The three outcomes of [load]: nothing changed, or a handle that owns exactly
    the resources it added. *)
Lemma load_resources (path config : string) (w : W) :
  plugins_ok W ->
  match (load path config w).1 with
  | Unexpected e =>
      resources (load path config w).2 = resources w /\
      exists detail, e = ErrConfig (mkConfigError EvaluatorLoadFailed detail)
  | Ok h => exists vt dl,
      h = mkHandle (Some vt) (Some dl) /\ plugin_ok vt /\
      vt_abi_version vt = FRE_EVALUATOR_ABI_VERSION /\
      resources (load path config w).2
        = resources w ⊎ {[+ RHandle dl +]} ⊎ {[+ RVtable (vt_address vt) +]} ⊎ {[+ RContext (vt_ctx vt) +]}
  end.
Proof.
  intros Hp. unfold load. unfold_M. pose proof (law_dlopen path w) as Ho.
  destruct (dlopen path w) as [[h|] w1]; simpl in Ho.
  2:{ pose proof (law_dlerror w1) as He. destruct (dlerror w1) as [err w2]; simpl in *.
      split; [congruence|by eexists]. }
  pose proof (law_dlsym h w1) as Hs. specialize (Hp h w1).
  destruct (dlsym_factory h w1) as [[factory|] w2]; simpl in Hs, Hp.
  2:{ pose proof (law_dlclose h w2) as Hc. destruct (dlclose h w2) as [[] w3]; simpl in *.
      split; [multiset_solver|by eexists]. }
  specialize (Hp factory eq_refl config w2).
  destruct (factory config w2) as [[vt|] w3]; simpl in Hp.
  2:{ pose proof (law_dlclose h w3) as Hc. destruct (dlclose h w3) as [[] w4]; simpl in *.
      split; [multiset_solver|by eexists]. }
  destruct Hp as [Hvt Hr]. destruct (Z.eqb_spec (vt_abi_version vt) FRE_EVALUATOR_ABI_VERSION); simpl.
  - exists vt, h. split_and!; [done|done|done|multiset_solver].
  - pose proof (destroy_context_ok vt w3 Hvt) as Hd. destruct (destroy_context vt w3) as [[] w4].
    pose proof (law_delete vt w4) as Hdel. destruct (delete_vtable vt w4) as [[] w5].
    pose proof (law_dlclose h w5) as Hc. destruct (dlclose h w5) as [[] w6]; simpl in *.
    split; [multiset_solver|by eexists].
Qed.

Lemma handle_destructor_resources (vt : fre_evaluator_vtable_t W) (dl : Z) (w : W) :
  plugin_ok vt ->
  resources (handle_destructor (mkHandle (Some vt) (Some dl)) w).2
    = resources w ∖ {[+ RContext (vt_ctx vt) +]} ∖ {[+ RVtable (vt_address vt) +]} ∖ {[+ RHandle dl +]}.
Proof.
  intros (d & Hd & Hl). unfold handle_destructor, close_handle. simpl. rewrite Hd. unfold_M.
  specialize (Hl w). destruct (d (vt_ctx vt) w) as [[] w1].
  pose proof (law_delete vt w1) as Hdel. destruct (delete_vtable vt w1) as [[] w2].
  rewrite law_dlclose. simpl in *. by rewrite Hdel, Hl.
Qed.

Lemma handle_move_assign_resources (vt : fre_evaluator_vtable_t W) (dl : Z) (other : EvaluatorHandle W) (w : W) :
  plugin_ok vt ->
  handle_move_assign (mkHandle (Some vt) (Some dl)) other w
    = ((other, handle_empty), (handle_move_assign (mkHandle (Some vt) (Some dl)) other w).2) /\
  resources (handle_move_assign (mkHandle (Some vt) (Some dl)) other w).2
    = resources w ∖ {[+ RContext (vt_ctx vt) +]} ∖ {[+ RHandle dl +]}.
Proof.
  intros (d & Hd & Hl). unfold handle_move_assign, close_handle. simpl. rewrite Hd. unfold_M.
  specialize (Hl w). destruct (d (vt_ctx vt) w) as [[] w1].
  pose proof (law_dlclose dl w1) as Hc. destruct (dlclose dl w1) as [[] w2]. simpl in *.
  split; [by destruct other|]. by rewrite Hc, Hl.
Qed.

End LoaderLemmas.

Lemma sample_law_dlopen (path : string) (w : gmultiset resource) :
  (dlopen path w).2 =
    match (dlopen path w).1 with Some h => w ⊎ {[+ RHandle h +]} | None => w end.
Proof. simpl. by destruct (sample_open path). Qed.

#[local] Instance sample_linker_laws : DynamicLinkerLaws (gmultiset resource) := {
  resources := fun w => w;
  law_dlopen := sample_law_dlopen;
  law_dlsym := fun _ _ => eq_refl;
  law_dlclose := fun _ _ => eq_refl;
  law_dlerror := fun _ => eq_refl;
  law_delete := fun _ _ => eq_refl
}.

Lemma sample_vtable_ok (version : Z) : plugin_ok (sample_vtable version).
Proof. eexists. split; [reflexivity|]. done. Qed.

Lemma sample_plugins_ok : plugins_ok (gmultiset resource).
Proof.
  intros h w factory Hf config w'. simpl in Hf.
  destruct (Z.eqb h 1); [injection Hf as <-|destruct (Z.eqb h 2);
    [injection Hf as <-|destruct (Z.eqb h 3); [injection Hf as <-|done]]]; simpl; [| |done].
  all: split; [apply sample_vtable_ok|done].
Qed.

(** ** Properties *)



(** Move-assigning over a handle destroys its context and closes its
    library but, unlike the destructor, never deletes its vtable: the vtable is
    live in the end exactly as before. *)
Theorem move_assign_keeps_vtable {W : Type} `{DynamicLinkerLaws W}
    (vt : fre_evaluator_vtable_t W) (dl : Z) (other : EvaluatorHandle W) (w : W)
    (Hvt : plugin_ok vt) :
  multiplicity (RVtable (vt_address vt))
    (resources (handle_move_assign (mkHandle (Some vt) (Some dl)) other w).2)
    = multiplicity (RVtable (vt_address vt)) (resources w) /\
  multiplicity (RVtable (vt_address vt))
    (resources (handle_destructor (mkHandle (Some vt) (Some dl)) w).2)
    = (multiplicity (RVtable (vt_address vt)) (resources w) - 1)%nat.
Proof.
  destruct (handle_move_assign_resources vt dl other w Hvt) as [_ ->].
  rewrite handle_destructor_resources by done.
  rewrite !multiplicity_difference, !multiplicity_singleton.
  repeat case_decide; simplify_eq; lia.
Qed.

Lemma move_assign_keeps_vtable_witness :
  multiplicity (RVtable 100) (resources
    (handle_move_assign (mkHandle (Some (sample_vtable 1)) (Some 1)) handle_empty
       ({[+ RHandle 1 +]} ⊎ {[+ RVtable 100 +]} ⊎ {[+ RContext 7 +]})).2) = 1%nat.
Proof.
  rewrite (proj1 (move_assign_keeps_vtable (sample_vtable 1) 1 handle_empty
    ({[+ RHandle 1 +]} ⊎ {[+ RVtable 100 +]} ⊎ {[+ RContext 7 +]})
    (sample_vtable_ok 1))).
  reflexivity.
Defined.
