(* ===== verification/ShuffleShard.v ===== *)
(** * Shuffle sharding: the K-of-N assignment

    [assign_cells] of src/sharding/tenant_router.cpp and [assign_instances] of
    service/src/fleet_router.cpp, with the seeds of
    include/fre/sharding/hash_seeds.hpp.  The loop has no bound of its own, so
    the function takes fuel and answers [None] when it runs out: termination is
    a theorem for the parameters where it holds, and so is divergence where it
    does not. *)

From S2P Require Import Prelude.
From Stdlib Require Import Znumtheory.

Open Scope list_scope.
Open Scope Z_scope.

Definition k_hash_seeds : list Z :=
  [ 0x9e3779b9; 0x6c62272e; 0x94d049bb; 0xe9546b25;
    0x12e15e35; 0x3b1d8f2b; 0x7c9e4ab3; 0x4f5a1c9f ].

(** [seed] of iteration [i], a [uint32_t]. *)
Definition shard_seed (i : Z) : Z :=
  if Z.ltb i (Z.of_nat (length k_hash_seeds))
  then default 0 (k_hash_seeds !! Z.to_nat i) else wrap_u32 (i * 0x9e3779b9).

(** [static_cast<uint32_t>((h ^ (seed + i)) % n)]. *)
Definition candidate (h n i : Z) : Z :=
  wrap_u32 (Z.lxor h (wrap_u32 (shard_seed i + i)) mod n).

Fixpoint assign_loop (fuel : nat) (h num_cells cells_per_tenant i : Z) (cells : list Z)
    : option (list Z) :=
  match fuel with
  | O => None
  | S fuel' =>
      if Z.ltb (Z.of_nat (length cells)) cells_per_tenant then
        let cell := candidate h num_cells i in
        let cells' := if bool_decide (cell ∈ cells) then cells else cells ++ [cell] in
        if Z.eqb (Z.of_nat (length cells')) num_cells then Some cells'
        else assign_loop fuel' h num_cells cells_per_tenant (wrap_u32 (i + 1)) cells'
      else Some cells
  end.

Definition assign_cells `{StdHash} (fuel : nat) (tenant_id : string) (num_cells cells_per_tenant : Z)
    : option (list Z) :=
  assign_loop fuel (std_hash tenant_id) num_cells cells_per_tenant 0 [].

(** The copy of the loop in fleet_router.cpp. *)
Fixpoint instance_loop (fuel : nat) (h fleet_size instances_per_tenant i : Z) (result : list Z)
    : option (list Z) :=
  match fuel with
  | O => None
  | S fuel' =>
      if Z.ltb (Z.of_nat (length result)) instances_per_tenant then
        let instance := candidate h fleet_size i in
        let result' := if bool_decide (instance ∈ result) then result else result ++ [instance] in
        if Z.eqb (Z.of_nat (length result')) fleet_size then Some result'
        else instance_loop fuel' h fleet_size instances_per_tenant (wrap_u32 (i + 1)) result'
      else Some result
  end.

Definition assign_instances `{StdHash} (fuel : nat) (tenant_id : string)
    (fleet_size instances_per_tenant : Z) : option (list Z) :=
  instance_loop fuel (std_hash tenant_id) fleet_size instances_per_tenant 0 [].

(** Iterations after which the loop has stopped when [n] is a power of two and at
    least twice the number of cells asked for: the eight seeds, then half of [n]. *)
Definition assign_fuel (n : Z) : nat := Z.to_nat (9 + n / 2).

(** ** Specification vocabulary *)

Definition shard_ok (n : Z) (cells : list Z) : Prop :=
  NoDup cells /\ Forall (fun c => 0 <= c < n) cells.

(** One turn of the loop body. *)
Definition add_cell (cell : Z) (cells : list Z) : list Z :=
  if bool_decide (cell ∈ cells) then cells else cells ++ [cell].

(** The early seeds that can leave the parity class of the tenant. *)
Definition odd_turns : list Z := [0; 1; 2; 4; 6].

(** What the loop can ever hold: half of the cells, and five more. *)
Definition parity_ok (h n : Z) (cells : list Z) : Prop :=
  shard_ok n cells /\
  Forall (fun c => Z.odd c <> Z.odd h -> c ∈ map (candidate h n) odd_turns) cells.

(** ** Lemmas: candidates *)

Lemma candidate_range (h n i : Z) : 0 < n < u32_mod -> 0 <= candidate h n i < n.
Proof.
  intros Hn. unfold candidate, wrap_u32.
  pose proof (Z.mod_pos_bound (Z.lxor h ((shard_seed i + i) mod u32_mod)) n ltac:(lia)).
  rewrite (Z.mod_small (_ mod n)) by lia. done.
Qed.

Lemma candidate_unwrap (h n i : Z) :
  0 < n < u32_mod -> candidate h n i = Z.lxor h (wrap_u32 (shard_seed i + i)) mod n.
Proof.
  intros Hn. unfold candidate. unfold wrap_u32 at 1. apply Z.mod_small.
  pose proof (Z.mod_pos_bound (Z.lxor h (wrap_u32 (shard_seed i + i))) n ltac:(lia)). lia.
Qed.

Lemma lxor_mod_pow2 (a b m : Z) :
  0 <= m -> Z.lxor a b mod 2 ^ m = Z.lxor (a mod 2 ^ m) (b mod 2 ^ m).
Proof.
  intros Hm. apply Z.bits_inj'. intros n Hn. rewrite Z.lxor_spec.
  destruct (Z.lt_ge_cases n m).
  - by rewrite !Z.mod_pow2_bits_low, Z.lxor_spec by lia.
  - by rewrite !Z.mod_pow2_bits_high by lia.
Qed.

Lemma mod_mod_pow2 (a m : Z) : 0 <= m <= 32 -> (a mod u32_mod) mod 2 ^ m = a mod 2 ^ m.
Proof.
  intros Hm. symmetry. apply Znumtheory.Zmod_div_mod; [apply Z.pow_pos_nonneg; lia|done|].
  exists (2 ^ (32 - m)). rewrite <- Z.pow_add_r by lia. f_equal. lia.
Qed.

(** From iteration 8 on the seed plus the counter is a multiple of an even
    constant. *)
Lemma late_offset (i : Z) : 8 <= i -> wrap_u32 (shard_seed i + i) = wrap_u32 (i * 0x9e3779ba).
Proof.
  intros Hi. unfold shard_seed. destruct (Z.ltb_spec i (Z.of_nat (length k_hash_seeds))); [simpl in *; lia|].
  unfold wrap_u32. rewrite Zplus_mod_idemp_l. f_equal. lia.
Qed.

Lemma candidate_late (h m i : Z) :
  0 <= m < 32 -> 8 <= i ->
  candidate h (2 ^ m) i = Z.lxor (h mod 2 ^ m) ((i * 0x9e3779ba) mod 2 ^ m).
Proof.
  intros Hm Hi.
  assert (0 < 2 ^ m < u32_mod) by (split; [apply Z.pow_pos_nonneg; lia|apply Z.pow_lt_mono_r; lia]).
  rewrite candidate_unwrap, late_offset, lxor_mod_pow2 by lia.
  f_equal. apply mod_mod_pow2. lia.
Qed.

(** Half of the cells are hit by any [2^(m-1)] consecutive late iterations. *)
Lemma candidate_late_inj (h m i j : Z) :
  1 <= m < 32 -> 8 <= i -> i <= j < i + 2 ^ (m - 1) ->
  candidate h (2 ^ m) i = candidate h (2 ^ m) j -> i = j.
Proof.
  intros Hm Hi Hj Heq. rewrite !candidate_late in Heq by lia.
  assert (Hmod : (i * 0x9e3779ba) mod 2 ^ m = (j * 0x9e3779ba) mod 2 ^ m).
  { apply (f_equal (Z.lxor (h mod 2 ^ m))) in Heq.
    by rewrite <- !Z.lxor_assoc, Z.lxor_nilpotent, !Z.lxor_0_l in Heq. }
  assert (Hdiv : (2 ^ m | (j - i) * 0x9e3779ba)).
  { apply Z.mod_divide; [apply Z.pow_nonzero; lia|].
    rewrite Z.mul_sub_distr_r, Zminus_mod, Hmod, Z.sub_diag. apply Z.mod_0_l. apply Z.pow_nonzero; lia. }
  assert (Hdiv2 : (2 ^ (m - 1) | 0x4f1bbcdd * (j - i))).
  { apply Z.mul_divide_cancel_l with 2; [lia|].
    rewrite <- Z.pow_succ_r by lia. replace (Z.succ (m - 1)) with m by lia.
    replace (2 * (0x4f1bbcdd * (j - i))) with ((j - i) * 0x9e3779ba) by lia. done. }
  apply Z.gauss in Hdiv2; [|apply (Z.coprime_pow_l 2 0x4f1bbcdd); [lia|reflexivity]].
  destruct Hdiv2 as [q Hq].
  assert (0 < 2 ^ (m - 1)) by (apply Z.pow_pos_nonneg; lia).
  assert (q = 0) by nia. lia.
Qed.

(** Parity of a candidate for an even number of cells. *)
Lemma candidate_parity (h n i : Z) :
  0 < n < u32_mod -> (2 | n) ->
  Z.odd (candidate h n i) = xorb (Z.odd h) (Z.odd (shard_seed i + i)).
Proof.
  intros Hn Hev. rewrite candidate_unwrap by done.
  rewrite <- !Z.bit0_odd.
  assert (Hb : forall a k, (2 | k) -> 0 < k -> Z.testbit (a mod k) 0 = Z.testbit a 0).
  { intros a k [q ->] Hk. rewrite !Z.bit0_odd.
    rewrite (Z.div_mod a (q * 2)) at 2 by lia.
    rewrite Z.odd_add, <- Z.mul_assoc, (Z.mul_comm 2), Z.mul_assoc, Z.odd_mul, andb_false_r.
    by destruct (Z.odd _). }
  rewrite Hb, Z.lxor_spec by (done || lia). f_equal. apply Hb; [by exists (2 ^ 31)|done].
Qed.

Lemma late_even (i : Z) : 8 <= i < u32_mod -> Z.odd (shard_seed i + i) = false.
Proof.
  intros Hi. pose proof (late_offset i ltac:(lia)) as Hl.
  assert (Ho : forall a, Z.odd (wrap_u32 a) = Z.odd a).
  { intros a. unfold wrap_u32, u32_mod. rewrite (Z.div_mod a (2 ^ 32)) at 2 by lia.
    rewrite Z.odd_add. change (2 ^ 32) with (2 * 2 ^ 31) at 2. rewrite <- Z.mul_assoc, Z.odd_mul.
    simpl. by destruct (Z.odd _). }
  rewrite <- Ho, Hl, Ho, Z.odd_mul. simpl. by rewrite andb_false_r.
Qed.

(** ** Lemmas: the loop *)

Lemma add_cell_ok (n cell : Z) (cells : list Z) :
  0 <= cell < n -> shard_ok n cells -> shard_ok n (add_cell cell cells).
Proof.
  intros Hc [Hnd Hall]. unfold add_cell. case_bool_decide as Hin; [done|]. split.
  - apply NoDup_app. split_and!; [done| |apply NoDup_singleton]. set_solver.
  - apply Forall_app. split; [done|]. by apply Forall_singleton.
Qed.

Lemma add_cell_length (cell : Z) (cells : list Z) :
  (length cells <= length (add_cell cell cells) <= S (length cells))%nat.
Proof. unfold add_cell. case_bool_decide; rewrite ?length_app; simpl; lia. Qed.

Lemma elem_of_add_cell (x cell : Z) (cells : list Z) :
  x ∈ add_cell cell cells <-> x = cell \/ x ∈ cells.
Proof. unfold add_cell. case_bool_decide; set_solver. Qed.

Lemma shard_ok_length (n : Z) (cells : list Z) :
  0 <= n -> shard_ok n cells -> Z.of_nat (length cells) <= n.
Proof.
  intros Hn [Hnd Hall].
  assert (Hsub : cells ⊆+ map Z.of_nat (seq 0 (Z.to_nat n))).
  { apply NoDup_submseteq; [done|]. intros x Hx. apply (proj1 (Forall_forall _ _) Hall) in Hx.
    apply list_elem_of_fmap. exists (Z.to_nat x). split; [lia|]. apply elem_of_seq. lia. }
  apply submseteq_length in Hsub. rewrite length_map, length_seq in Hsub. lia.
Qed.

(** A result has distinct cells in range, [min(k, n)] of them. *)
Lemma assign_loop_sound (fuel : nat) (h n k : Z) :
  0 < n < u32_mod ->
  forall i cells r, shard_ok n cells ->
  Z.of_nat (length cells) <= k -> (Z.of_nat (length cells) < n \/ k <= Z.of_nat (length cells)) ->
  assign_loop fuel h n k i cells = Some r ->
  shard_ok n r /\ Z.of_nat (length r) = Z.min k n.
Proof.
  intros Hn. induction fuel as [|fuel IH]; intros i cells r Hok Hle Hlt Heq; [done|].
  cbn [assign_loop] in Heq. destruct (Z.ltb_spec (Z.of_nat (length cells)) k).
  - fold (add_cell (candidate h n i) cells) in Heq.
    pose proof (add_cell_ok n _ _ (candidate_range h n i Hn) Hok) as Hok'.
    pose proof (add_cell_length (candidate h n i) cells).
    pose proof (shard_ok_length n _ ltac:(lia) Hok').
    destruct (Z.eqb_spec (Z.of_nat (length (add_cell (candidate h n i) cells))) n).
    + injection Heq as <-. split; [done|]. lia.
    + eapply IH; [exact Hok'| | |exact Heq]; lia.
  - injection Heq as <-. split; [done|].
    pose proof (shard_ok_length n _ ltac:(lia) Hok). lia.
Qed.

(** Turns that do not stop the loop collect their candidates, still fewer than [k]. *)
Lemma assign_loop_progress (h n k : Z) :
  0 < n < u32_mod ->
  forall fuel i cells,
  0 <= i -> i + Z.of_nat fuel < u32_mod ->
  assign_loop (S fuel) h n k i cells = None ->
  exists cells', (shard_ok n cells -> shard_ok n cells') /\
    Z.of_nat (length cells') < k /\
    (forall x, x ∈ cells -> x ∈ cells') /\
    forall j, i <= j < i + Z.of_nat fuel -> candidate h n j ∈ cells'.
Proof.
  intros Hn. induction fuel as [|fuel IH]; intros i cells Hi Hb Heq.
  - cbn [assign_loop] in Heq. destruct (Z.ltb_spec (Z.of_nat (length cells)) k); [|done].
    exists cells. split_and!; [done|done|done|lia].
  - remember (S fuel) as f eqn:Hf. cbn [assign_loop] in Heq.
    destruct (Z.ltb_spec (Z.of_nat (length cells)) k); [|done].
    fold (add_cell (candidate h n i) cells) in Heq.
    destruct (Z.eqb_spec (Z.of_nat (length (add_cell (candidate h n i) cells))) n); [done|].
    subst f. unfold wrap_u32 in Heq. rewrite (Z.mod_small (i + 1) u32_mod) in Heq by lia.
    destruct (IH (i + 1) _ ltac:(lia) ltac:(lia) Heq) as (cells' & Hok & Hl & Hsub & Hc).
    exists cells'. split_and!.
    + intros Hs. apply Hok, add_cell_ok; [by apply candidate_range|done].
    + done.
    + intros x Hx. apply Hsub, elem_of_add_cell. by right.
    + intros j Hj. destruct (Z.eq_dec j i) as [->|]; [|apply Hc; lia].
      apply Hsub, elem_of_add_cell. by left.
Qed.

(** Powers of two with at least twice the cells asked for. *)
Lemma assign_loop_terminates (h m k : Z) :
  1 <= m < 32 -> 0 <= k <= 2 ^ (m - 1) ->
  exists r, assign_loop (assign_fuel (2 ^ m)) h (2 ^ m) k 0 [] = Some r.
Proof.
  intros Hm Hk.
  assert (Hhalf : 2 ^ m / 2 = 2 ^ (m - 1)).
  { rewrite <- (Z.div_mul (2 ^ (m - 1)) 2) by lia. f_equal.
    rewrite Z.mul_comm, <- Z.pow_succ_r by lia. f_equal. lia. }
  assert (Hb : 0 < 2 ^ (m - 1) <= 2 ^ 30) by (split; [apply Z.pow_pos_nonneg|apply Z.pow_le_mono_r]; lia).
  assert (Hn : 0 < 2 ^ m < u32_mod) by (split; [apply Z.pow_pos_nonneg; lia|apply Z.pow_lt_mono_r; lia]).
  destruct (assign_loop (assign_fuel (2 ^ m)) h (2 ^ m) k 0 []) as [r|] eqn:Hr; [by exists r|].
  exfalso. unfold assign_fuel in Hr. rewrite Hhalf in Hr.
  replace (Z.to_nat (9 + 2 ^ (m - 1))) with (S (Z.to_nat (8 + 2 ^ (m - 1)))) in Hr by lia.
  apply assign_loop_progress in Hr as (cells & Hok & Hl & _ & Hc); [|done|lia|unfold u32_mod; lia].
  assert (Hsub : map (candidate h (2 ^ m)) (map (fun i => 8 + Z.of_nat i) (seq 0 (Z.to_nat (2 ^ (m - 1)))))
                 ⊆+ cells).
  { apply NoDup_submseteq.
    - rewrite map_map. apply NoDup_fmap_2_strong; [|apply NoDup_seq].
      intros x y Hx%elem_of_seq Hy%elem_of_seq Heq.
      destruct (Nat.le_ge_cases x y).
      + apply candidate_late_inj in Heq; lia.
      + symmetry in Heq. apply candidate_late_inj in Heq; lia.
    - intros x Hx. apply list_elem_of_fmap in Hx as (j & -> & Hj).
      apply list_elem_of_fmap in Hj as (i & -> & Hi%elem_of_seq). apply Hc. lia. }
  apply submseteq_length in Hsub. rewrite !length_map, length_seq in Hsub. lia.
Qed.

Lemma candidate_other_parity (h n i : Z) :
  0 < n < u32_mod -> (2 | n) -> 0 <= i < u32_mod ->
  Z.odd (candidate h n i) <> Z.odd h -> candidate h n i ∈ map (candidate h n) odd_turns.
Proof.
  intros Hn Hev Hi Hp. rewrite candidate_parity in Hp by done.
  apply list_elem_of_fmap_2.
  destruct (Z.lt_ge_cases i 8) as [Hlt|Hge].
  - assert (Hcases : i = 0 \/ i = 1 \/ i = 2 \/ i = 3 \/ i = 4 \/ i = 5 \/ i = 6 \/ i = 7) by lia.
    unfold odd_turns. set_unfold.
    destruct Hcases as [->|[->|[->|[->|[->|[->|[->| ->]]]]]]]; try tauto;
      exfalso; apply Hp; vm_compute Z.odd; by rewrite xorb_false_r.
  - exfalso. apply Hp. rewrite late_even by lia. apply xorb_false_r.
Qed.

Lemma parity_ok_length (h n : Z) (cells : list Z) :
  0 < n < u32_mod -> (2 | n) -> parity_ok h n cells -> Z.of_nat (length cells) <= n / 2 + 5.
Proof.
  intros Hn [q ->] [[Hnd Hall] Hp]. rewrite Z.div_mul by lia.
  set (b := Z.b2z (Z.odd h)).
  assert (Hsub : cells ⊆+ map (fun i => 2 * Z.of_nat i + b) (seq 0 (Z.to_nat q))
                          ++ map (candidate h (q * 2)) odd_turns).
  { apply NoDup_submseteq; [done|]. intros x Hx. apply elem_of_app.
    apply (proj1 (Forall_forall _ _)) with (x := x) in Hall; [|done].
    apply (proj1 (Forall_forall _ _)) with (x := x) in Hp; [|done].
    destruct (bool_decide (Z.odd x = Z.odd h)) eqn:Ho.
    - apply bool_decide_eq_true in Ho. left. apply list_elem_of_fmap. exists (Z.to_nat (x / 2)).
      pose proof (Z.div_mod x 2 ltac:(lia)) as Hdm. rewrite Zmod_odd, Ho in Hdm.
      assert (0 <= x / 2 < q)
        by (split; [apply Z.div_pos; lia|apply Z.div_lt_upper_bound; lia]).
      split; [|apply elem_of_seq; lia]. unfold b. destruct (Z.odd h); simpl; lia.
    - apply bool_decide_eq_false in Ho. right. by apply Hp. }
  apply submseteq_length in Hsub. rewrite length_app, !length_map, length_seq in Hsub.
  simpl in Hsub. lia.
Qed.

Lemma assign_loop_diverges (h n k : Z) :
  10 < n < u32_mod -> (2 | n) -> n / 2 + 5 < k ->
  forall fuel i cells, 0 <= i < u32_mod -> parity_ok h n cells ->
  assign_loop fuel h n k i cells = None.
Proof.
  intros Hn Hev Hk. induction fuel as [|fuel IH]; intros i cells Hi Hok; [done|].
  cbn [assign_loop]. fold (add_cell (candidate h n i) cells).
  assert (Hok' : parity_ok h n (add_cell (candidate h n i) cells)).
  { destruct Hok as [Hs Hp]. split; [by apply add_cell_ok; [apply candidate_range; lia|]|].
    apply Forall_forall. intros x [->|Hx]%elem_of_add_cell.
    - apply candidate_other_parity; [lia|done|done].
    - by apply (proj1 (Forall_forall _ _) Hp). }
  pose proof (parity_ok_length h n cells ltac:(lia) Hev Hok).
  pose proof (parity_ok_length h n _ ltac:(lia) Hev Hok').
  destruct (Z.ltb_spec (Z.of_nat (length cells)) k); [|lia].
  assert (n / 2 + 5 < n).
  { destruct Hev as [q ->]. rewrite Z.div_mul by lia. lia. }
  destruct (Z.eqb_spec (Z.of_nat (length (add_cell (candidate h n i) cells))) n); [lia|].
  apply IH; [apply wrap_u32_range|done].
Qed.

Lemma instance_loop_eq (fuel : nat) (h n k i : Z) (cells : list Z) :
  instance_loop fuel h n k i cells = assign_loop fuel h n k i cells.
Proof.
  revert i cells. induction fuel as [|fuel IH]; intros i cells; [done|].
  cbn [assign_loop instance_loop]. by rewrite IH.
Qed.

(** What clients of the assignment use. *)
Lemma assign_cells_spec `{StdHash} (tenant : string) (m k : Z) :
  1 <= m < 32 -> 0 <= k <= 2 ^ (m - 1) -> exists cells,
    assign_cells (assign_fuel (2 ^ m)) tenant (2 ^ m) k = Some cells /\
    shard_ok (2 ^ m) cells /\ Z.of_nat (length cells) = k.
Proof.
  intros Hm Hk. destruct (assign_loop_terminates (std_hash tenant) m k Hm Hk) as [r Hr].
  exists r. split; [exact Hr|].
  assert (Hn : 0 < 2 ^ m < u32_mod) by (split; [apply Z.pow_pos_nonneg; lia|apply Z.pow_lt_mono_r; lia]).
  assert (2 ^ (m - 1) < 2 ^ m) by (apply Z.pow_lt_mono_r; lia).
  eapply assign_loop_sound in Hr as [Hok Hl]; [|done|..].
  - split; [done|]. lia.
  - split; constructor.
  - simpl. lia.
  - simpl. lia.
Qed.

Lemma assign_instances_spec `{StdHash} (tenant : string) (m k : Z) :
  1 <= m < 32 -> 0 <= k <= 2 ^ (m - 1) -> exists ids,
    assign_instances (assign_fuel (2 ^ m)) tenant (2 ^ m) k = Some ids /\
    shard_ok (2 ^ m) ids /\ Z.of_nat (length ids) = k.
Proof.
  intros Hm Hk. unfold assign_instances. setoid_rewrite instance_loop_eq.
  by apply assign_cells_spec.
Qed.

(** ** Properties *)

(** C26: for a number N of cells that is a power of two from 2 to 2^31 and at most
    N/2 of them per tenant, the assignment loop stops within 9 + N/2 turns,
    whatever the hash, with exactly K distinct cells below N; the fleet-level copy
    of the loop gives the very same numbers.  (For other N and K it may not stop:
    [assign_cells_diverges].) *)
Theorem assign_cells_correct `{StdHash} (tenant : string) (m k : Z)
    (Hm : 1 <= m < 32) (Hk : 0 <= k <= 2 ^ (m - 1)) :
  exists cells,
    assign_cells (assign_fuel (2 ^ m)) tenant (2 ^ m) k = Some cells /\
    assign_instances (assign_fuel (2 ^ m)) tenant (2 ^ m) k = Some cells /\
    NoDup cells /\ Forall (fun c => 0 <= c < 2 ^ m) cells /\ Z.of_nat (length cells) = k.
Proof.
  destruct (assign_cells_spec tenant m k Hm Hk) as (cells & Hc & [Hnd Hall] & Hl).
  exists cells. split_and!; [done| |done|done|done].
  unfold assign_instances. by rewrite instance_loop_eq.
Qed.

Lemma assign_cells_correct_witness :
  exists cells, assign_cells (assign_fuel 16) "acme" 16 4 = Some cells /\ length cells = 4%nat.
Proof.
  destruct (assign_cells_correct "acme" 4 4) as (cells & Hc & _ & _ & _ & Hl); [lia|lia|].
  exists cells. split; [exact Hc|lia].
Defined.

(** With an even number N of cells the loop can reach at most N/2 + 5 of
    them; asking for more, as N = 16 with the accepted K = 14 or 15 does, makes
    it run forever: no number of turns gives an answer, for any tenant. *)
Theorem assign_cells_diverges `{StdHash} (tenant : string) (n k : Z)
    (Hn : 10 < n < u32_mod) (Hev : (2 | n)) (Hk : n / 2 + 5 < k) (fuel : nat) :
  assign_cells fuel tenant n k = None.
Proof.
  apply assign_loop_diverges; [done|done|done|unfold u32_mod; lia|].
  repeat constructor.
Qed.

Lemma assign_cells_diverges_witness :
  assign_cells 1000000 "acme" 16 14 = None.
Proof.
  apply (assign_cells_diverges "acme" 16 14).
  - unfold u32_mod. lia.
  - by exists 8.
  - reflexivity.
Defined.
