(* ===== verification/TokenBucket.v ===== *)
(** * The lock-free token bucket

    [TokenBucket] of src/sharding/tenant_router.cpp: the fixed-point bucket, a
    call of [try_consume] running alone, and any number of calls interleaved,
    each atomic load and compare_exchange_weak (which may fail spuriously) one
    step.  Signed overflow is undefined behaviour in C++, so results of 64-bit
    signed arithmetic are [option]s. *)

From S2P Require Import Prelude.

Open Scope list_scope.
Open Scope Z_scope.

Definition TOKEN_SCALE : Z := 1024.

Definition in_i64 (z : Z) : bool := (Z.leb (- 2 ^ 63) z && Z.ltb z (2 ^ 63))%bool.

(** A signed 64-bit result, or nothing on overflow. *)
Definition i64 (z : Z) : option Z := if in_i64 z then Some z else None.

(** [static_cast<int64_t>] of a [uint64_t]. *)
Definition to_i64 (z : Z) : Z := if Z.ltb z (2 ^ 63) then z else z - 2 ^ 64.

Record TokenBucket : Type := mkTokenBucket {
  tokens : Z;
  last_refill_ns : Z;
  capacity_fp : Z;
  rate_fp_per_ns : Z
}.

(** The constructor, [now] being the steady clock in nanoseconds. *)
Definition bucket_new (capacity_tokens tokens_per_second now : Z) : option TokenBucket :=
  match i64 (capacity_tokens * TOKEN_SCALE), i64 (tokens_per_second * TOKEN_SCALE) with
  | Some cap, Some scaled => Some (mkTokenBucket cap (wrap_u64 now) cap (Z.quot scaled 1000000000))
  | _, _ => None
  end.

Definition set_tokens (b : TokenBucket) (t : Z) : TokenBucket :=
  mkTokenBucket t (last_refill_ns b) (capacity_fp b) (rate_fp_per_ns b).

Definition set_last_refill (b : TokenBucket) (ns : Z) : TokenBucket :=
  mkTokenBucket (tokens b) ns (capacity_fp b) (rate_fp_per_ns b).

(** ** One call, running alone *)

Definition bucket_refill (now_ns : Z) (b : TokenBucket) : option TokenBucket :=
  let elapsed := wrap_u64 (now_ns - last_refill_ns b) in
  if Z.eqb elapsed 0 then Some b
  else match i64 (to_i64 elapsed * rate_fp_per_ns b) with
       | None => None
       | Some add =>
           if Z.leb add 0 then Some b
           else match i64 (tokens b + add) with
                | None => None
                | Some sum => Some (set_tokens (set_last_refill b now_ns) (Z.min sum (capacity_fp b)))
                end
       end.

Definition bucket_consume (b : TokenBucket) : bool * TokenBucket :=
  if Z.leb TOKEN_SCALE (tokens b) then (true, set_tokens b (tokens b - TOKEN_SCALE)) else (false, b).

Definition try_consume (now : Z) (b : TokenBucket) : option (bool * TokenBucket) :=
  match bucket_refill (wrap_u64 now) b with
  | None => None
  | Some b' => Some (bucket_consume b')
  end.

(** ** Interleaved calls *)

(** Where a call is: before reading the clock; before loading [last_refill_ns];
    at the head of the refill loop with [prev_ns]; before loading [tokens] to
    clamp; at the clamping exchange with [cur]; before loading [tokens] to
    consume; at the head of the consume loop with [cur]; returned; or caught in
    a signed overflow. *)
Inductive bucket_pc : Type :=
| BStart
| BLoadLast (now_ns : Z)
| BRefill (now_ns prev_ns : Z)
| BLoadClamp (add : Z)
| BClamp (add cur : Z)
| BLoadConsume
| BConsume (cur : Z)
| BDone (granted : bool)
| BUndefined.

(** [compare_exchange_weak]: the exchange happens when the value is the expected
    one and the hardware does not fail spuriously. *)
Definition cas_succeeds (spurious : bool) (actual expected_ : Z) : bool :=
  (negb spurious && Z.eqb actual expected_)%bool.

(** One atomic action of a call; [now] is what the clock would show. *)
Definition bucket_step (now : Z) (spurious : bool) (pc : bucket_pc) (b : TokenBucket)
    : bucket_pc * TokenBucket :=
  match pc with
  | BStart => (BLoadLast (wrap_u64 now), b)
  | BLoadLast now_ns => (BRefill now_ns (last_refill_ns b), b)
  | BRefill now_ns prev_ns =>
      let elapsed := wrap_u64 (now_ns - prev_ns) in
      if Z.eqb elapsed 0 then (BLoadConsume, b)
      else match i64 (to_i64 elapsed * rate_fp_per_ns b) with
           | None => (BUndefined, b)
           | Some add =>
               if Z.leb add 0 then (BLoadConsume, b)
               else if cas_succeeds spurious (last_refill_ns b) prev_ns
               then (BLoadClamp add, set_last_refill b now_ns)
               else (BRefill now_ns (last_refill_ns b), b)
           end
  | BLoadClamp add => (BClamp add (tokens b), b)
  | BClamp add cur =>
      match i64 (cur + add) with
      | None => (BUndefined, b)
      | Some sum =>
          if cas_succeeds spurious (tokens b) cur
          then (BLoadConsume, set_tokens b (Z.min sum (capacity_fp b)))
          else (BClamp add (tokens b), b)
      end
  | BLoadConsume => (BConsume (tokens b), b)
  | BConsume cur =>
      if Z.leb TOKEN_SCALE cur then
        if cas_succeeds spurious (tokens b) cur
        then (BDone true, set_tokens b (cur - TOKEN_SCALE))
        else (BConsume (tokens b), b)
      else (BDone false, b)
  | BDone r => (BDone r, b)
  | BUndefined => (BUndefined, b)
  end.

(** Clock readings stay between [t0] and [t1]. *)
Inductive buckets_step (t0 t1 : Z) : list bucket_pc * TokenBucket -> list bucket_pc * TokenBucket -> Prop :=
| buckets_step_intro pcs i pc now spurious b :
    pcs !! i = Some pc -> t0 <= now <= t1 ->
    buckets_step t0 t1 (pcs, b)
      (<[i := (bucket_step now spurious pc b).1]> pcs, (bucket_step now spurious pc b).2).

(** A schedule: (call, clock, spurious failure) triples. *)
Fixpoint run_bucket_schedule (sched : list (nat * Z * bool)) (st : list bucket_pc * TokenBucket)
    : list bucket_pc * TokenBucket :=
  match sched with
  | [] => st
  | (i, now, spurious) :: sched' =>
      match st.1 !! i with
      | None => run_bucket_schedule sched' st
      | Some pc =>
          let '(pc', b') := bucket_step now spurious pc st.2 in
          run_bucket_schedule sched' (<[i := pc']> st.1, b')
      end
  end.

(** One call alone for at most [n] actions, the clock standing at [now]. *)
Fixpoint solo_run (n : nat) (now : Z) (pc : bucket_pc) (b : TokenBucket) : bucket_pc * TokenBucket :=
  match n with
  | O => (pc, b)
  | S n' => let '(pc', b') := bucket_step now false pc b in solo_run n' now pc' b'
  end.

(** ** Specification vocabulary *)

Definition granted (pc : bucket_pc) : Z := match pc with BDone true => 1 | _ => 0 end.

(** What a call has moved out of the clock but not yet into the bucket. *)
Definition pending (pc : bucket_pc) : Z :=
  match pc with BLoadClamp add | BClamp add _ => add | _ => 0 end.

Definition total (f : bucket_pc -> Z) (pcs : list bucket_pc) : Z :=
  foldr (fun pc acc => f pc + acc) 0 pcs.

Definition pc_ok (t0 t1 cap rate : Z) (pc : bucket_pc) : Prop :=
  match pc with
  | BLoadLast now_ns => t0 <= now_ns <= t1
  | BRefill now_ns prev_ns => t0 <= now_ns <= t1 /\ t0 <= prev_ns <= t1
  | BLoadClamp add => 0 < add <= rate * (t1 - t0)
  | BClamp add cur => 0 < add <= rate * (t1 - t0) /\ 0 <= cur <= cap
  | BUndefined => False
  | _ => True
  end.

Definition bucket_inv (t0 t1 cap rate : Z) (st : list bucket_pc * TokenBucket) : Prop :=
  let '(pcs, b) := st in
  capacity_fp b = cap /\ rate_fp_per_ns b = rate /\ 0 <= tokens b <= cap /\
  t0 <= last_refill_ns b <= t1 /\
  tokens b + TOKEN_SCALE * total granted pcs + total pending pcs
    <= cap + rate * (last_refill_ns b - t0) /\
  Forall (pc_ok t0 t1 cap rate) pcs.

(** ** Lemmas *)

Lemma total_insert (f : bucket_pc -> Z) (pcs : list bucket_pc) (i : nat) (pc pc' : bucket_pc) :
  pcs !! i = Some pc -> total f (<[i := pc']> pcs) = total f pcs - f pc + f pc'.
Proof.
  revert i. induction pcs as [|x pcs IH]; intros [|i] Hi; simpl in *; [done|done| |].
  - injection Hi as ->. lia.
  - rewrite (IH i Hi). lia.
Qed.

Lemma total_nonneg (f : bucket_pc -> Z) (pcs : list bucket_pc) :
  Forall (fun pc => 0 <= f pc) pcs -> 0 <= total f pcs.
Proof. induction 1; simpl; lia. Qed.

Lemma total_ge (f : bucket_pc -> Z) (pcs : list bucket_pc) (i : nat) (pc : bucket_pc) :
  Forall (fun pc => 0 <= f pc) pcs -> pcs !! i = Some pc -> f pc <= total f pcs.
Proof.
  intros Hf. revert i. induction Hf as [|x pcs Hx Hf IH]; intros [|i] Hi; simpl in *; [done|done| |].
  - injection Hi as ->. pose proof (total_nonneg f pcs Hf). lia.
  - specialize (IH i Hi). lia.
Qed.

Lemma pending_nonneg (t0 t1 cap rate : Z) (pcs : list bucket_pc) :
  Forall (pc_ok t0 t1 cap rate) pcs -> Forall (fun pc => 0 <= pending pc) pcs.
Proof.
  intros H. eapply Forall_impl; [exact H|]. intros [] Hpc; simpl in *; lia.
Qed.

Lemma granted_nonneg (pcs : list bucket_pc) : Forall (fun pc => 0 <= granted pc) pcs.
Proof. apply Forall_forall. intros [| | | | | | |[]|] _; simpl; lia. Qed.

(** Every clock distance that refills is a forward distance. *)
Lemma refill_amount (t0 t1 now_ns prev_ns rate : Z) :
  0 <= t0 -> t1 < 2 ^ 63 -> 0 <= rate -> t0 <= now_ns <= t1 -> t0 <= prev_ns <= t1 ->
  rate * (t1 - t0) < 2 ^ 63 ->
  let elapsed := wrap_u64 (now_ns - prev_ns) in
  match i64 (to_i64 elapsed * rate) with
  | None => False
  | Some add => add <= 0 \/ (0 < add /\ prev_ns < now_ns /\ add = rate * (now_ns - prev_ns))
  end.
Proof.
  intros Ht0 Ht1 Hr Hn Hp Hb elapsed.
  assert (He : to_i64 elapsed = now_ns - prev_ns).
  { unfold elapsed, to_i64, wrap_u64, u64_mod.
    destruct (Z.le_gt_cases prev_ns now_ns).
    - rewrite Z.mod_small by lia. destruct (Z.ltb_spec (now_ns - prev_ns) (2 ^ 63)); lia.
    - assert (Hm : (now_ns - prev_ns) mod 2 ^ 64 = now_ns - prev_ns + 2 ^ 64)
        by (symmetry; apply (Z.mod_unique_pos _ _ (-1)); lia).
      rewrite Hm. destruct (Z.ltb_spec (now_ns - prev_ns + 2 ^ 64) (2 ^ 63)); lia. }
  rewrite He. unfold i64, in_i64.
  assert (- 2 ^ 63 <= (now_ns - prev_ns) * rate < 2 ^ 63) as [Hlo Hhi] by nia.
  apply Z.leb_le in Hlo. apply Z.ltb_lt in Hhi. rewrite Hlo, Hhi. simpl.
  destruct (Z.le_gt_cases now_ns prev_ns); [left; nia|].
  destruct (Z.eq_dec rate 0) as [->|]; [left; lia|]. right. nia.
Qed.

Lemma i64_small (z : Z) : 0 <= z < 2 ^ 63 -> i64 z = Some z.
Proof.
  intros Hz. unfold i64, in_i64. destruct (Z.leb_spec (- 2 ^ 63) z); [|lia].
  destruct (Z.ltb_spec z (2 ^ 63)); [done|lia].
Qed.

Lemma cas_succeeds_true (spurious : bool) (actual expected_ : Z) :
  cas_succeeds spurious actual expected_ = true -> actual = expected_.
Proof. unfold cas_succeeds. intros H. bool_to_prop. by apply Z.eqb_eq. Qed.

(** The change one action makes to the accounts. *)
Definition step_ok (t0 t1 cap rate : Z) (pc pc' : bucket_pc) (b b' : TokenBucket) : Prop :=
  capacity_fp b' = cap /\ rate_fp_per_ns b' = rate /\ 0 <= tokens b' <= cap /\
  t0 <= last_refill_ns b' <= t1 /\ pc_ok t0 t1 cap rate pc' /\
  tokens b' + TOKEN_SCALE * granted pc' + pending pc' - rate * last_refill_ns b'
    <= tokens b + TOKEN_SCALE * granted pc + pending pc - rate * last_refill_ns b.

Section Step.

Variables t0 t1 cap rate : Z.
Hypothesis Ht0 : 0 <= t0.
Hypothesis Ht1 : t0 <= t1 < 2 ^ 63.
Hypothesis Hrate : 0 <= rate.
Hypothesis Hbound : cap + rate * (t1 - t0) < 2 ^ 63.

Definition shared_ok (b : TokenBucket) : Prop :=
  capacity_fp b = cap /\ rate_fp_per_ns b = rate /\ 0 <= tokens b <= cap /\
  t0 <= last_refill_ns b <= t1.

Lemma refill_step_ok (now_ns prev_ns now : Z) (spurious : bool) (b : TokenBucket) :
  shared_ok b -> pc_ok t0 t1 cap rate (BRefill now_ns prev_ns) ->
  step_ok t0 t1 cap rate (BRefill now_ns prev_ns)
    (bucket_step now spurious (BRefill now_ns prev_ns) b).1 b
    (bucket_step now spurious (BRefill now_ns prev_ns) b).2.
Proof.
  intros (Hc & Hr & Ht & Hl) [Hn Hp]. cbn [bucket_step].
  pose proof (refill_amount t0 t1 now_ns prev_ns rate Ht0 ltac:(lia) Hrate Hn Hp ltac:(lia)) as Ha.
  rewrite Hr. simpl in Ha. unfold step_ok.
  destruct (Z.eqb _ 0); [simpl; split_and!; lia|].
  destruct (i64 _) as [add|]; [|done].
  destruct (Z.leb_spec add 0); [simpl; split_and!; lia|].
  destruct Ha as [Ha|(_ & Hlt & Hadd)]; [lia|].
  destruct (cas_succeeds _ _ _) eqn:Hcas; simpl; [|split_and!; lia].
  apply cas_succeeds_true in Hcas. rewrite Hcas. split_and!; nia.
Qed.

Lemma bucket_step_ok (pc : bucket_pc) (now : Z) (spurious : bool) (b : TokenBucket) :
  shared_ok b -> pc_ok t0 t1 cap rate pc -> t0 <= now <= t1 ->
  step_ok t0 t1 cap rate pc (bucket_step now spurious pc b).1 b (bucket_step now spurious pc b).2.
Proof.
  intros Hb Hpc Hnow. pose proof Hb as (Hc & Hr & Ht & Hl).
  destruct pc as [|now_ns|now_ns prev_ns|add|add cur| |cur|r|];
    [..|done]; try (by apply refill_step_ok); cbn [bucket_step]; unfold step_ok.
  - simpl. unfold wrap_u64, u64_mod. rewrite Z.mod_small by lia. split_and!; lia.
  - simpl in *. split_and!; lia.
  - simpl in *. split_and!; lia.
  - simpl in Hpc. rewrite i64_small by lia.
    destruct (cas_succeeds _ _ _) eqn:Hcas; simpl; [|split_and!; lia].
    apply cas_succeeds_true in Hcas. rewrite Hc. split_and!; lia.
  - simpl. split_and!; lia.
  - destruct (Z.leb_spec TOKEN_SCALE cur); simpl; [|split_and!; lia].
    destruct (cas_succeeds _ _ _) eqn:Hcas; simpl; [|split_and!; lia].
    apply cas_succeeds_true in Hcas. unfold TOKEN_SCALE in *. split_and!; lia.
  - simpl. split_and!; lia.
Qed.

Lemma buckets_step_inv (st st' : list bucket_pc * TokenBucket) :
  bucket_inv t0 t1 cap rate st -> buckets_step t0 t1 st st' -> bucket_inv t0 t1 cap rate st'.
Proof.
  intros Hinv Hstep. destruct Hstep as [pcs i pc now spurious b Hi Hnow].
  destruct Hinv as (Hc & Hr & Ht & Hl & Hacc & Hpcs).
  pose proof (Forall_lookup_1 _ _ _ _ Hpcs Hi) as Hpc.
  destruct (bucket_step_ok pc now spurious b) as (Hc' & Hr' & Ht' & Hl' & Hpc' & Hacc');
    [done|done|done|].
  refine (conj Hc' (conj Hr' (conj Ht' (conj Hl' (conj _ (Forall_insert _ _ _ _ Hpcs Hpc')))))).
  rewrite !(total_insert _ _ _ _ _ Hi). lia.
Qed.

End Step.

Lemma total_start (f : bucket_pc -> Z) (n : nat) : f BStart = 0 -> total f (replicate n BStart) = 0.
Proof. intros Hf. induction n as [|n IH]; simpl; [done|]. rewrite Hf. lia. Qed.

Lemma bucket_new_spec (capacity tps now : Z) (b : TokenBucket) :
  0 <= now < u64_mod -> bucket_new capacity tps now = Some b ->
  b = mkTokenBucket (capacity * TOKEN_SCALE) now (capacity * TOKEN_SCALE)
        (Z.quot (tps * TOKEN_SCALE) 1000000000).
Proof.
  intros Hnow Hnew. unfold bucket_new, i64 in Hnew.
  destruct (in_i64 _); [|done]. destruct (in_i64 _); [|done]. injection Hnew as <-.
  unfold wrap_u64. by rewrite Z.mod_small.
Qed.

Lemma buckets_reachable (t0 t1 cap rate : Z) (n : nat) (st : list bucket_pc * TokenBucket) :
  0 <= t0 <= t1 -> t1 < 2 ^ 63 -> 0 <= rate -> 0 <= cap -> cap + rate * (t1 - t0) < 2 ^ 63 ->
  rtc (buckets_step t0 t1) (replicate n BStart, mkTokenBucket cap t0 cap rate) st ->
  bucket_inv t0 t1 cap rate st.
Proof.
  intros Ht0 Ht1 Hr Hcap Hb Hrtc.
  assert (Hinit : bucket_inv t0 t1 cap rate (replicate n BStart, mkTokenBucket cap t0 cap rate)).
  { unfold bucket_inv. simpl. rewrite !total_start by done. split_and!; try lia; try done.
    apply Forall_replicate. done. }
  revert Hinit. induction Hrtc as [|x y z Hxy _ IH]; intros Hx; [done|].
  apply IH. eapply buckets_step_inv; [..|exact Hx|exact Hxy]; lia.
Qed.

Lemma run_bucket_schedule_rtc (t0 t1 : Z) (sched : list (nat * Z * bool)) :
  Forall (fun x => t0 <= x.1.2 <= t1) sched ->
  forall st, rtc (buckets_step t0 t1) st (run_bucket_schedule sched st).
Proof.
  induction 1 as [|[[i now] spurious] sched Hn _ IH]; intros [pcs b]; [done|].
  cbn [run_bucket_schedule]. simpl fst. simpl snd. destruct (pcs !! i) as [pc|] eqn:Hi; [|apply IH].
  pose proof (buckets_step_intro t0 t1 pcs i pc now spurious b Hi Hn) as Hstep.
  destruct (bucket_step now spurious pc b) as [pc' b']. eapply rtc_l; [exact Hstep|]. apply IH.
Qed.

(** ** Properties *)

(** C25: however concurrent [try_consume] calls interleave and fail spuriously,
    the bucket stays between 0 and its capacity, no signed overflow happens,
    and the tokens granted never exceed the capacity plus what the elapsed time
    refills. *)
Theorem bucket_rate_bound (t0 t1 capacity tps : Z) (n : nat) (b0 b : TokenBucket)
    (pcs : list bucket_pc)
    (Ht : 0 <= t0 <= t1) (Ht1 : t1 < 2 ^ 63) (Hc : 0 <= capacity) (Hr : 0 <= tps)
    (Hb : capacity * TOKEN_SCALE + Z.quot (tps * TOKEN_SCALE) 1000000000 * (t1 - t0) < 2 ^ 63)
    (Hnew : bucket_new capacity tps t0 = Some b0)
    (Hrun : rtc (buckets_step t0 t1) (replicate n BStart, b0) (pcs, b)) :
  0 <= tokens b <= capacity * TOKEN_SCALE /\
  BUndefined ∉ pcs /\
  TOKEN_SCALE * total granted pcs
    <= capacity * TOKEN_SCALE + Z.quot (tps * TOKEN_SCALE) 1000000000 * (t1 - t0).
Proof.
  apply bucket_new_spec in Hnew as ->; [|unfold u64_mod; lia].
  assert (0 <= Z.quot (tps * TOKEN_SCALE) 1000000000)
    by (apply Z.quot_pos; unfold TOKEN_SCALE; lia).
  assert (0 <= capacity * TOKEN_SCALE) by (unfold TOKEN_SCALE; lia).
  destruct (buckets_reachable t0 t1 (capacity * TOKEN_SCALE)
    (Z.quot (tps * TOKEN_SCALE) 1000000000) n (pcs, b)) as (_ & _ & Htok & Hl & Hacc & Hpcs);
    [done..|].
  pose proof (total_nonneg _ _ (pending_nonneg _ _ _ _ _ Hpcs)).
  split; [done|]. split; [|nia].
  intros Hin. by apply (proj1 (Forall_forall _ _) Hpcs) in Hin.
Qed.

Lemma bucket_rate_bound_witness :
  exists b0, bucket_new 1 1000000 0 = Some b0 /\
    TOKEN_SCALE * total granted (run_bucket_schedule
      [(0%nat, 5, false); (1%nat, 5, false); (0%nat, 5, false); (0%nat, 5, false);
       (0%nat, 5, false); (0%nat, 5, false)] (replicate 2 BStart, b0)).1
    <= 1 * TOKEN_SCALE + Z.quot (1000000 * TOKEN_SCALE) 1000000000 * (10 - 0).
Proof.
  eexists. split; [reflexivity|].
  set (b0 := mkTokenBucket _ _ _ _).
  destruct (run_bucket_schedule _ (replicate 2 BStart, b0)) as [pcs b] eqn:Hrun.
  apply (bucket_rate_bound 0 10 1 1000000 2 b0 b pcs).
  - lia.
  - lia.
  - lia.
  - lia.
  - vm_compute. reflexivity.
  - reflexivity.
  - rewrite <- Hrun. apply run_bucket_schedule_rtc. repeat constructor; simpl; lia.
Defined.

(** At fewer than 976563 tokens per second (the default is 500) the
    fixed-point rate truncates to zero: the bucket is never refilled, and over
    its whole life no more than [capacity] calls are ever granted, whatever
    their number, timing and interleaving. *)
Theorem bucket_never_refills (t1 capacity tps t0 : Z) (n : nat) (b0 b : TokenBucket)
    (pcs : list bucket_pc)
    (Ht : 0 <= t0 <= t1) (Ht1 : t1 < 2 ^ 63) (Hc : 0 <= capacity) (Hr : 0 <= tps < 976563)
    (Hb : capacity * TOKEN_SCALE < 2 ^ 63)
    (Hnew : bucket_new capacity tps t0 = Some b0)
    (Hrun : rtc (buckets_step t0 t1) (replicate n BStart, b0) (pcs, b)) :
  rate_fp_per_ns b = 0 /\ total granted pcs <= capacity.
Proof.
  apply bucket_new_spec in Hnew as ->; [|unfold u64_mod; lia].
  assert (Hz : Z.quot (tps * TOKEN_SCALE) 1000000000 = 0)
    by (apply Z.quot_small; unfold TOKEN_SCALE; lia).
  rewrite Hz in Hrun.
  destruct (buckets_reachable t0 t1 (capacity * TOKEN_SCALE) 0 n (pcs, b))
    as (_ & Hrate & Htok & Hl & Hacc & Hpcs); [done|done|done|unfold TOKEN_SCALE; lia|lia|done|].
  pose proof (total_nonneg _ _ (pending_nonneg _ _ _ _ _ Hpcs)).
  split; [done|]. unfold TOKEN_SCALE in *. lia.
Qed.

Lemma bucket_never_refills_witness :
  exists b0, bucket_new 1000 500 0 = Some b0 /\
    total granted (run_bucket_schedule
      [(0%nat, 86400000000000, false); (0%nat, 86400000000000, false)] (replicate 1 BStart, b0)).1 <= 1000.
Proof.
  eexists. split; [reflexivity|].
  set (b0 := mkTokenBucket _ _ _ _).
  destruct (run_bucket_schedule _ (replicate 1 BStart, b0)) as [pcs b] eqn:Hrun.
  apply (bucket_never_refills 86400000000000 1000 500 0 1 b0 b pcs).
  - lia.
  - lia.
  - lia.
  - lia.
  - vm_compute. reflexivity.
  - reflexivity.
  - rewrite <- Hrun. apply run_bucket_schedule_rtc. repeat constructor; simpl; lia.
Defined.

(** A call that no other call disturbs finishes within seven atomic actions
    (both exchange loops succeed at once) with the result and the bucket of the
    sequential [try_consume]. *)
Theorem try_consume_solo (now : Z) (b : TokenBucket) :
  match try_consume now b with
  | Some (r, b') => solo_run 7 now BStart b = (BDone r, b')
  | None => (solo_run 7 now BStart b).1 = BUndefined
  end.
Proof.
  unfold try_consume, bucket_refill, bucket_consume. cbn [solo_run bucket_step].
  destruct (Z.eqb _ 0); [cbn [solo_run bucket_step]; rewrite ?Z.eqb_refl|
    destruct (i64 (to_i64 _ * _)) as [add|]; [|done]; destruct (Z.leb add 0);
    [cbn [solo_run bucket_step]|unfold cas_succeeds; rewrite Z.eqb_refl; cbn [negb andb];
     cbn [solo_run bucket_step tokens set_last_refill];
     destruct (i64 (tokens b + add)) as [sum|]; [|done];
     unfold cas_succeeds; cbn [negb andb tokens set_last_refill]; rewrite Z.eqb_refl;
     cbn [solo_run bucket_step capacity_fp set_last_refill]]];
  match goal with |- context [Z.leb TOKEN_SCALE ?t] => destruct (Z.leb TOKEN_SCALE t) end;
  cbn [solo_run bucket_step]; unfold cas_succeeds; cbn [negb andb]; rewrite ?Z.eqb_refl; done.
Qed.
