(* ===== verification/TenantRouter.v ===== *)
(** * TenantRouter: cells, rate limits and concurrency slots per tenant

    include/fre/sharding/tenant_router.hpp and the class of
    src/sharding/tenant_router.cpp.  A call answers [None] when the C++ call
    does not return (the assignment loop of ShuffleShard.v) or overflows a
    signed integer (TokenBucket.v).  Strands are numbered by their cell. *)

From S2P Require Import Prelude CoreTypes Errors ShuffleShard TokenBucket.

Open Scope list_scope.
Open Scope Z_scope.

Record ShardingConfig : Type := mkShardingConfig {
  num_cells : Z;
  cells_per_tenant : Z;
  thread_count : Z
}.

Record RateLimitConfig : Type := mkRateLimitConfig {
  bucket_capacity : Z;
  tokens_per_second : Z;
  rl_max_concurrent : Z
}.

Record TenantState : Type := mkTenantState {
  cell_indices : list Z;
  bucket : TokenBucket;
  in_flight : Z;       (** [int32_t] *)
  max_concurrent : Z
}.

Record TenantRouter : Type := mkTenantRouter {
  shard_cfg : ShardingConfig;
  rate_cfg : RateLimitConfig;
  strands : list Z;
  tenants : gmap string TenantState;
  pool_stopped : bool
}.

(** [TenantRouter(shard_cfg, rate_cfg)]: one strand per cell, no tenant yet. *)
Definition router_new (sc : ShardingConfig) (rc : RateLimitConfig) : TenantRouter :=
  mkTenantRouter sc rc (map Z.of_nat (seq 0 (Z.to_nat (num_cells sc)))) ∅ false.

Definition set_tenant (r : TenantRouter) (tenant : string) (ts : TenantState) : TenantRouter :=
  mkTenantRouter (shard_cfg r) (rate_cfg r) (strands r) (<[tenant := ts]> (tenants r)) (pool_stopped r).

Definition set_bucket (ts : TenantState) (b : TokenBucket) : TenantState :=
  mkTenantState (cell_indices ts) b (in_flight ts) (max_concurrent ts).

Definition set_in_flight (ts : TenantState) (n : Z) : TenantState :=
  mkTenantState (cell_indices ts) (bucket ts) n (max_concurrent ts).

(** Wrap-around of [std::atomic<int32_t>]. *)
Definition wrap_i32 (z : Z) : Z := (z + 2 ^ 31) mod 2 ^ 32 - 2 ^ 31.

Section Router.

Context {W : Type} `{Clock W} `{StdHash}.

(** Turns granted to the assignment loop. *)
Variable fuel : nat.

Definition RM (A : Type) : Type := W -> TenantRouter -> option (A * W * TenantRouter).

Definition get_or_create_tenant (tenant_id : string) : RM TenantState := fun w r =>
  match tenants r !! tenant_id with
  | Some ts => Some (ts, w, r)
  | None =>
      match assign_cells fuel tenant_id (num_cells (shard_cfg r)) (cells_per_tenant (shard_cfg r)) with
      | None => None
      | Some cells =>
          let '(now, w1) := steady_now w in
          match bucket_new (bucket_capacity (rate_cfg r)) (tokens_per_second (rate_cfg r)) now with
          | None => None
          | Some b =>
              let ts := mkTenantState cells b 0 (rl_max_concurrent (rate_cfg r)) in
              Some (ts, w1, set_tenant r tenant_id ts)
          end
      end
  end.

Definition cells_for (tenant_id : string) : RM (list Z) := fun w r =>
  match get_or_create_tenant tenant_id w r with
  | None => None
  | Some (ts, w1, r1) => Some (map (fun idx => default (-1) (strands r1 !! Z.to_nat idx)) (cell_indices ts), w1, r1)
  end.

Definition try_acquire (tenant_id : string) : RM (expected unit RateLimitError) := fun w r =>
  match get_or_create_tenant tenant_id w r with
  | None => None
  | Some (ts, w1, r1) =>
      let '(now, w2) := steady_now w1 in
      match try_consume now (bucket ts) with
      | None => None
      | Some (consumed, b) =>
          let ts := set_bucket ts b in
          if negb consumed
          then Some (Unexpected (mkRateLimitError Exhausted tenant_id), w2, set_tenant r1 tenant_id ts)
          else
            let prev := in_flight ts in
            let ts := set_in_flight ts (wrap_i32 (prev + 1)) in
            if Z.leb (max_concurrent ts) prev then
              let ts := set_in_flight ts (wrap_i32 (in_flight ts - 1)) in
              Some (Unexpected (mkRateLimitError ConcurrencyCapReached tenant_id), w2,
                    set_tenant r1 tenant_id ts)
            else Some (Ok tt, w2, set_tenant r1 tenant_id ts)
      end
  end.

Definition release (tenant_id : string) : RM unit := fun w r =>
  match tenants r !! tenant_id with
  | None => Some (tt, w, r)
  | Some ts => Some (tt, w, set_tenant r tenant_id (set_in_flight ts (wrap_i32 (in_flight ts - 1))))
  end.

Definition router_stop : RM unit := fun w r =>
  Some (tt, w, mkTenantRouter (shard_cfg r) (rate_cfg r) (strands r) (tenants r) true).

(** [~TenantConcurrencyGuard()]. *)
Definition guard_destructor (tenant_id : string) : RM unit := release tenant_id.

(** ** Histories *)

Inductive router_op : Type := OpAcquire (tenant : string) | OpRelease (tenant : string).

Definition op_tenant (o : router_op) : string := match o with OpAcquire t | OpRelease t => t end.

(** The change of a tenant's slots recorded by one operation. *)
Definition router_step (o : router_op) : RM Z := fun w r =>
  match o with
  | OpAcquire t =>
      match try_acquire t w r with
      | None => None
      | Some (Ok _, w1, r1) => Some (1, w1, r1)
      | Some (Unexpected _, w1, r1) => Some (0, w1, r1)
      end
  | OpRelease t =>
      match release t w r with
      | None => None
      | Some (_, w1, r1) => Some (match tenants r !! t with Some _ => -1 | None => 0 end, w1, r1)
      end
  end.

Fixpoint router_run (os : list router_op) : RM (list (string * Z)) := fun w r =>
  match os with
  | [] => Some ([], w, r)
  | o :: os' =>
      match router_step o w r with
      | None => None
      | Some (d, w1, r1) =>
          match router_run os' w1 r1 with
          | None => None
          | Some (ds, w2, r2) => Some ((op_tenant o, d) :: ds, w2, r2)
          end
      end
  end.

(** Slots taken minus slots returned by a tenant. *)
Definition slots (tenant : string) (ds : list (string * Z)) : Z :=
  foldr (fun x acc => (if str_eqb x.1 tenant then x.2 else 0) + acc) 0 ds.

Definition in_flight_of (r : TenantRouter) (tenant : string) : Z :=
  match tenants r !! tenant with Some ts => in_flight ts | None => 0 end.

(** Every tenant known has the cells the assignment gives it. *)
Definition router_ok (r : TenantRouter) : Prop :=
  strands r = map Z.of_nat (seq 0 (Z.to_nat (num_cells (shard_cfg r)))) /\
  forall t ts, tenants r !! t = Some ts ->
    assign_cells fuel t (num_cells (shard_cfg r)) (cells_per_tenant (shard_cfg r)) = Some (cell_indices ts) /\
    max_concurrent ts = rl_max_concurrent (rate_cfg r).

End Router.

(** A router of 16 cells, 4 per tenant, and the default limits. *)
Definition sample_router : TenantRouter :=
  router_new (mkShardingConfig 16 4 2) (mkRateLimitConfig 2 500 1).

(** A router whose only tenant holds its only slot and one token. *)
Definition busy_router : TenantRouter :=
  set_tenant sample_router "acme" (mkTenantState [] (mkTokenBucket 1024 0 2048 0) 1 1).

#[local] Instance tick_clock : Clock Z := {
  steady_now := fun w => (w, w + 1);
  system_now := fun w => (w, w + 1);
  sleep_for := fun ns w => (tt, w + ns)
}.

(** ** Lemmas *)

Lemma wrap_i32_small (z : Z) : - 2 ^ 31 <= z < 2 ^ 31 -> wrap_i32 z = z.
Proof. intros Hz. unfold wrap_i32. rewrite Z.mod_small; lia. Qed.

Section RouterLemmas.

Context {W : Type} `{Clock W} `{StdHash}.
Variable fuel : nat.

(** The tenant's entry is the only thing an access may create. *)
Lemma get_or_create_spec (t : string) (w w1 : W) (r r1 : TenantRouter) (ts : TenantState) :
  router_ok fuel r -> get_or_create_tenant fuel t w r = Some (ts, w1, r1) ->
  router_ok fuel r1 /\ tenants r1 !! t = Some ts /\ in_flight ts = in_flight_of r t /\
  shard_cfg r1 = shard_cfg r /\ rate_cfg r1 = rate_cfg r /\
  forall j, j <> t -> tenants r1 !! j = tenants r !! j.
Proof.
  intros Hok Heq. unfold get_or_create_tenant, in_flight_of in *.
  destruct (tenants r !! t) as [ts0|] eqn:Ht.
  - injection Heq as -> -> ->. done.
  - destruct (assign_cells _ _ _ _) as [cells|] eqn:Hc; [|done].
    destruct (steady_now w) as [now w2]. destruct (bucket_new _ _ _) as [b|]; [|done].
    injection Heq as <- <- <-. simpl. split_and!; [| |done|done|done|].
    + destruct Hok as [Hs Hts]. split; [done|]. simpl. intros j ts'.
      destruct (decide (j = t)) as [->|]; [rewrite lookup_insert_eq; by intros [= <-]|].
      rewrite lookup_insert_ne by done. apply Hts.
    + apply lookup_insert_eq.
    + intros j Hj. by rewrite lookup_insert_ne.
Qed.

Lemma set_tenant_ok (r : TenantRouter) (t : string) (ts ts' : TenantState) :
  router_ok fuel r -> tenants r !! t = Some ts ->
  cell_indices ts' = cell_indices ts -> max_concurrent ts' = max_concurrent ts ->
  router_ok fuel (set_tenant r t ts').
Proof.
  intros [Hs Hts] Ht Hc Hm. split; [done|]. simpl. intros j x.
  destruct (decide (j = t)) as [->|]; [|rewrite lookup_insert_ne by done; apply Hts].
  rewrite lookup_insert_eq. intros [= <-]. rewrite Hc, Hm. by apply Hts.
Qed.

(** [try_acquire] on every branch. *)
Lemma try_acquire_cases (t : string) (w w' : W) (r r' : TenantRouter) (res : expected unit RateLimitError) :
  router_ok fuel r -> try_acquire fuel t w r = Some (res, w', r') ->
  - 2 ^ 31 <= in_flight_of r t < 2 ^ 31 - 1 ->
  exists ts consumed b, 
    router_ok fuel r' /\ tenants r' !! t = Some ts /\ bucket ts = b /\
    shard_cfg r' = shard_cfg r /\ rate_cfg r' = rate_cfg r /\
    (forall j, j <> t -> tenants r' !! j = tenants r !! j) /\
    (forall ts0, tenants r !! t = Some ts0 -> exists now, try_consume now (bucket ts0) = Some (consumed, b)) /\
    match consumed, Z.leb (rl_max_concurrent (rate_cfg r)) (in_flight_of r t) with
    | false, _ => res = Unexpected (mkRateLimitError Exhausted t) /\ in_flight ts = in_flight_of r t
    | true, true =>
        res = Unexpected (mkRateLimitError ConcurrencyCapReached t) /\ in_flight ts = in_flight_of r t
    | true, false => res = Ok tt /\ in_flight ts = in_flight_of r t + 1
    end.
Proof.
  intros Hok Heq Hrange. unfold try_acquire in Heq.
  destruct (get_or_create_tenant fuel t w r) as [[[ts w1] r1]|] eqn:Hg; [|done].
  pose proof (get_or_create_spec t w w1 r r1 ts Hok Hg) as (Hok1 & Ht1 & Hfl & Hsc & Hrc & Hother).
  assert (Hbucket : forall ts0, tenants r !! t = Some ts0 -> ts = ts0).
  { intros ts0 Hts0. unfold get_or_create_tenant in Hg. rewrite Hts0 in Hg. by injection Hg as ->. }
  destruct (steady_now w1) as [now w2]. destruct (try_consume now (bucket ts)) as [[consumed b]|] eqn:Hc; [|done].
  destruct Hok1 as [Hstr1 Hall1]. destruct (Hall1 t ts Ht1) as [_ Hmax].
  pose proof (conj Hstr1 Hall1 : router_ok fuel r1) as Hok1. rewrite Hrc in Hmax.
  simpl in Heq. rewrite Hmax, Hfl in Heq.
  assert (Hgen : forall x, r' = set_tenant r1 t x -> cell_indices x = cell_indices ts ->
      max_concurrent x = max_concurrent ts -> bucket x = b ->
      router_ok fuel r' /\ tenants r' !! t = Some x /\ bucket x = b /\
      shard_cfg r' = shard_cfg r /\ rate_cfg r' = rate_cfg r /\
      (forall j, j <> t -> tenants r' !! j = tenants r !! j) /\
      (forall ts0, tenants r !! t = Some ts0 -> exists now, try_consume now (bucket ts0) = Some (consumed, b))).
  { intros x -> Hcx Hmx Hbx. split_and!; [by eapply set_tenant_ok| |done|done|done| |].
    - simpl. apply lookup_insert_eq.
    - intros j Hj. simpl. rewrite lookup_insert_ne by done. by apply Hother.
    - intros ts0 Hts0. exists now. by rewrite <- (Hbucket ts0 Hts0). }
  assert (Hadd : wrap_i32 (in_flight_of r t + 1) = in_flight_of r t + 1) by (apply wrap_i32_small; lia).
  assert (Hback : wrap_i32 (in_flight_of r t + 1 - 1) = in_flight_of r t)
    by (rewrite wrap_i32_small; lia).
  destruct consumed; simpl in Heq; rewrite ?Hadd, ?Hback in Heq.
  - destruct (Z.leb _ _); injection Heq as <- _ Hr';
      destruct (Hgen _ (eq_sym Hr') eq_refl eq_refl eq_refl) as (? & ? & ? & ? & ? & ? & ?);
      eexists _, true, b; split_and!; done.
  - injection Heq as <- _ Hr'.
    destruct (Hgen _ (eq_sym Hr') eq_refl eq_refl eq_refl) as (? & ? & ? & ? & ? & ? & ?).
    eexists _, false, b. split_and!; done.
Qed.

(** Releases. *)
Lemma release_cases (t : string) (w w' : W) (r r' : TenantRouter) :
  router_ok fuel r -> release t w r = Some (tt, w', r') -> - 2 ^ 31 < in_flight_of r t <= 2 ^ 31 ->
  router_ok fuel r' /\ shard_cfg r' = shard_cfg r /\ rate_cfg r' = rate_cfg r /\
  (forall j, j <> t -> tenants r' !! j = tenants r !! j) /\
  in_flight_of r' t = in_flight_of r t - match tenants r !! t with Some _ => 1 | None => 0 end.
Proof.
  intros Hok Heq Hr. unfold release, in_flight_of in *.
  destruct (tenants r !! t) as [ts|] eqn:Ht; injection Heq as _ <-.
  - split_and!; [by eapply set_tenant_ok|done|done| |].
    + intros j Hj. simpl. by rewrite lookup_insert_ne.
    + simpl. rewrite lookup_insert_eq. simpl. apply wrap_i32_small. lia.
  - rewrite Ht. split_and!; [done|done|done|done|lia].
Qed.

(** One operation of a history. *)
Lemma router_step_spec (o : router_op) (w w' : W) (r r' : TenantRouter) (d : Z) :
  router_ok fuel r -> router_step fuel o w r = Some (d, w', r') ->
  - 2 ^ 31 < in_flight_of r (op_tenant o) < 2 ^ 31 - 1 ->
  router_ok fuel r' /\ shard_cfg r' = shard_cfg r /\ rate_cfg r' = rate_cfg r /\
  (forall j, j <> op_tenant o -> tenants r' !! j = tenants r !! j) /\
  in_flight_of r' (op_tenant o) = in_flight_of r (op_tenant o) + d /\ -1 <= d <= 1 /\
  (0 < d -> in_flight_of r (op_tenant o) < rl_max_concurrent (rate_cfg r)).
Proof.
  intros Hok Heq Hr. destruct o as [t|t]; cbn [router_step op_tenant] in *.
  - destruct (try_acquire fuel t w r) as [[[res w1] r1]|] eqn:Ha; [|done].
    destruct (try_acquire_cases t w w1 r r1 res Hok Ha ltac:(lia))
      as (ts & consumed & b & Hok1 & Hts & _ & Hsc & Hrc & Ho & _ & Hcase).
    assert (r' = r1 /\ match res with Ok _ => d = 1 | Unexpected _ => d = 0 end) as [-> Hd]
      by (destruct res; injection Heq as <- _ <-; done).
    unfold in_flight_of at 1. rewrite Hts.
    destruct consumed, (Z.leb_spec (rl_max_concurrent (rate_cfg r)) (in_flight_of r t));
      destruct Hcase as [-> Hin]; simpl in Hd; subst d; split_and!; try done; lia.
  - destruct (release t w r) as [[[[] w1] r1]|] eqn:Ha; [|done].
    destruct (release_cases t w w1 r r1 Hok Ha ltac:(lia)) as (Hok1 & Hsc & Hrc & Ho & Hin).
    injection Heq as <- _ <-. rewrite Hin.
    split_and!; try done; destruct (tenants r !! t); lia.
Qed.

Lemma str_eqb_spec (a b : string) : reflect (a = b) (str_eqb a b).
Proof. apply String.eqb_spec. Qed.

Lemma router_run_spec (os : list router_op) :
  forall (w w' : W) (r r' : TenantRouter) ds,
  router_ok fuel r -> router_run fuel os w r = Some (ds, w', r') ->
  (forall t, - (2 ^ 31 - Z.of_nat (length os)) < in_flight_of r t < 2 ^ 31 - 1 - Z.of_nat (length os)) ->
  router_ok fuel r' /\ shard_cfg r' = shard_cfg r /\
  (forall t, in_flight_of r' t = in_flight_of r t + slots t ds) /\
  (forall t, in_flight_of r' t <= Z.max (in_flight_of r t) (rl_max_concurrent (rate_cfg r))).
Proof.
  induction os as [|o os IH]; intros w w' r r' ds Hok Heq Hr; cbn [router_run] in Heq.
  - injection Heq as <- _ <-. split_and!; [done|done|intros t; simpl; lia|intros t; lia].
  - destruct (router_step fuel o w r) as [[[d w1] r1]|] eqn:Hs; [|done].
    destruct (router_run fuel os w1 r1) as [[[ds' w2] r2]|] eqn:Hrun; [|done].
    injection Heq as <- _ <-. simpl length in Hr.
    pose proof (Hr (op_tenant o)) as Hro.
    destruct (router_step_spec o w w1 r r1 d Hok Hs ltac:(lia))
      as (Hok1 & Hsc & Hrc & Hother & Hin & Hd & Hcap).
    assert (Hflow : forall t, in_flight_of r1 t = in_flight_of r t + if str_eqb (op_tenant o) t then d else 0).
    { intros t. destruct (str_eqb_spec (op_tenant o) t) as [<-|Hne]; [done|].
      unfold in_flight_of. rewrite Hother by done. lia. }
    destruct (IH w1 w2 r1 r2 ds' Hok1 Hrun) as (Hok2 & Hsc2 & Hfl & Hmax).
    { intros t. rewrite Hflow. specialize (Hr t). destruct (str_eqb _ t); lia. }
    split_and!; [done|by rewrite Hsc2| |].
    + intros t. rewrite Hfl, Hflow. simpl. lia.
    + intros t. specialize (Hmax t). rewrite Hrc, Hflow in Hmax.
      destruct (str_eqb_spec (op_tenant o) t) as [Heqt|Hne]; [|lia]. rewrite <- Heqt in *.
      destruct (Z.lt_ge_cases 0 d) as [Hpos|]; [specialize (Hcap Hpos)|]; lia.
Qed.

Lemma router_new_ok (sc : ShardingConfig) (rc : RateLimitConfig) : router_ok fuel (router_new sc rc).
Proof. split; [done|]. intros t ts Ht. simpl in Ht. by rewrite lookup_empty in Ht. Qed.

(** ** Lemmas: the calls return *)

(** Buckets of zero rate cannot overflow. *)
Definition rates_zero (r : TenantRouter) : Prop :=
  forall t ts, tenants r !! t = Some ts -> rate_fp_per_ns (bucket ts) = 0.

Definition limits_ok (r : TenantRouter) (m : Z) : Prop :=
  1 <= m < 32 /\ num_cells (shard_cfg r) = 2 ^ m /\
  0 <= cells_per_tenant (shard_cfg r) <= 2 ^ (m - 1) /\
  0 <= bucket_capacity (rate_cfg r) < 2 ^ 53 /\ 0 <= tokens_per_second (rate_cfg r) < 976563.

Lemma try_consume_zero_rate (now : Z) (b : TokenBucket) :
  rate_fp_per_ns b = 0 -> exists g b', try_consume now b = Some (g, b') /\ rate_fp_per_ns b' = 0.
Proof.
  intros Hr. unfold try_consume, bucket_refill. rewrite Hr, Z.mul_0_r.
  assert (Hrefill : forall x : bool, (if x then Some b else Some b) = Some b) by (by intros []).
  simpl. rewrite Hrefill. unfold bucket_consume.
  destruct (Z.leb TOKEN_SCALE (tokens b)); do 2 eexists; done.
Qed.

Lemma rates_zero_set (r : TenantRouter) (t : string) (ts : TenantState) :
  rates_zero r -> rate_fp_per_ns (bucket ts) = 0 -> rates_zero (set_tenant r t ts).
Proof.
  intros Hz Hts j x. simpl. destruct (decide (j = t)) as [->|].
  - rewrite lookup_insert_eq. by intros [= <-].
  - rewrite lookup_insert_ne by done. apply Hz.
Qed.

Lemma get_or_create_returns (t : string) (w : W) (r : TenantRouter) (m : Z) :
  limits_ok r m -> fuel = assign_fuel (2 ^ m) -> rates_zero r -> exists ts w1 r1,
    get_or_create_tenant fuel t w r = Some (ts, w1, r1) /\ rates_zero r1 /\
    rate_fp_per_ns (bucket ts) = 0 /\ shard_cfg r1 = shard_cfg r /\ rate_cfg r1 = rate_cfg r.
Proof.
  intros (Hm & Hn & Hk & Hc & Htps) Hfuel Hz. unfold get_or_create_tenant.
  destruct (tenants r !! t) as [ts|] eqn:Ht.
  { exists ts, w, r. split_and!; [done|done|by eapply Hz|done|done]. }
  destruct (assign_cells_spec t m (cells_per_tenant (shard_cfg r)) Hm Hk) as (cells & Hcells & _).
  rewrite Hn, Hfuel, Hcells. destruct (steady_now w) as [now w1].
  unfold bucket_new. unfold TOKEN_SCALE. rewrite !i64_small by lia.
  rewrite Z.quot_small by lia.
  do 3 eexists. split; [reflexivity|]. split_and!; [by apply rates_zero_set|done|done|done].
Qed.

Lemma router_step_returns (o : router_op) (w : W) (r : TenantRouter) (m : Z) :
  limits_ok r m -> fuel = assign_fuel (2 ^ m) -> rates_zero r -> exists d w1 r1,
    router_step fuel o w r = Some (d, w1, r1) /\ rates_zero r1 /\ limits_ok r1 m.
Proof.
  intros Hl Hfuel Hz. destruct o as [t|t]; cbn [router_step].
  - destruct (get_or_create_returns t w r m Hl Hfuel Hz) as (ts & w1 & r1 & Hg & Hz1 & Hts & Hsc & Hrc).
    unfold try_acquire. rewrite Hg. destruct (steady_now w1) as [now w2].
    destruct (try_consume_zero_rate now (bucket ts) Hts) as (g & b & -> & Hb).
    assert (Hl1 : limits_ok r1 m) by (unfold limits_ok in *; by rewrite Hsc, Hrc).
    destruct g; simpl; [destruct (Z.leb _ _)|];
      do 3 eexists; (split; [done|]); (split; [by apply rates_zero_set|exact Hl1]).
  - unfold release. destruct (tenants r !! t) as [ts|] eqn:Ht; do 3 eexists;
      (split; [done|]); (split; [|exact Hl]); [|done].
    apply rates_zero_set; [done|]. exact (Hz t ts Ht).
Qed.

Lemma router_run_returns (os : list router_op) :
  forall (w : W) (r : TenantRouter) (m : Z),
  limits_ok r m -> fuel = assign_fuel (2 ^ m) -> rates_zero r -> exists ds w' r',
    router_run fuel os w r = Some (ds, w', r') /\ rates_zero r' /\ limits_ok r' m.
Proof.
  induction os as [|o os IH]; intros w r m Hl Hfuel Hz; cbn [router_run]; [by do 3 eexists|].
  destruct (router_step_returns o w r m Hl Hfuel Hz) as (d & w1 & r1 & -> & Hz1 & Hl1).
  destruct (IH w1 r1 m Hl1 Hfuel Hz1) as (ds & w2 & r2 & -> & Hz2). by do 3 eexists.
Qed.

(** The two facts together, from a new router. *)
Lemma router_history (os : list router_op) (sc : ShardingConfig) (rc : RateLimitConfig) (w : W) (m : Z) :
  limits_ok (router_new sc rc) m -> fuel = assign_fuel (2 ^ m) -> Z.of_nat (length os) < 2 ^ 30 ->
  exists ds w' r', router_run fuel os w (router_new sc rc) = Some (ds, w', r') /\
    router_ok fuel r' /\ rates_zero r' /\ limits_ok r' m /\ shard_cfg r' = sc /\
    (forall t, in_flight_of r' t = slots t ds) /\
    (forall t, in_flight_of r' t <= Z.max 0 (rl_max_concurrent rc)).
Proof.
  intros Hl Hfuel Hlen.
  destruct (router_run_returns os w (router_new sc rc) m Hl Hfuel) as (ds & w' & r' & Hrun & Hz & Hl').
  { intros t ts. simpl. by rewrite lookup_empty. }
  assert (Hzero : forall t, in_flight_of (router_new sc rc) t = 0)
    by (intros t; unfold in_flight_of; simpl; by rewrite lookup_empty).
  destruct (router_run_spec os w w' (router_new sc rc) r' ds) as (Hok & Hsc & Hfl & Hmax);
    [apply router_new_ok|done|intros t; rewrite Hzero; lia|].
  exists ds, w', r'. split_and!; [done|done|done|done|done| |].
  - intros t. rewrite Hfl, Hzero. lia.
  - intros t. specialize (Hmax t). by rewrite Hzero in Hmax.
Qed.

End RouterLemmas.

Arguments router_run_spec {W H H0}.

Lemma strands_lookup (n idx : Z) :
  0 <= idx < n -> default (-1) (map Z.of_nat (seq 0 (Z.to_nat n)) !! Z.to_nat idx) = idx.
Proof.
  intros Hi. rewrite list_lookup_fmap, lookup_seq_lt by lia. simpl. lia.
Qed.

Lemma map_cells_id (n : Z) (cells : list Z) :
  Forall (fun c => 0 <= c < n) cells ->
  map (fun idx => default (-1) (map Z.of_nat (seq 0 (Z.to_nat n)) !! Z.to_nat idx)) cells = cells.
Proof.
  induction 1 as [|c cells Hc _ IH]; [done|]. cbn [map]. rewrite IH. f_equal. by apply strands_lookup.
Qed.

(** ** Properties *)

(** C27: on a power-of-two router with the default (or any truncated) refill rate
    every history of acquires and releases runs to the end, and after any
    history each tenant's in-flight count is its successful acquires minus its
    releases, and never above the cap. *)
Theorem router_inflight_balance {W : Type} `{Clock W} `{StdHash} (m : Z) (sc : ShardingConfig)
    (rc : RateLimitConfig) (os : list router_op) (w : W)
    (Hl : limits_ok (router_new sc rc) m) (Hlen : Z.of_nat (length os) < 2 ^ 30) :
  exists ds w' r', router_run (assign_fuel (2 ^ m)) os w (router_new sc rc) = Some (ds, w', r') /\
    forall t, in_flight_of r' t = slots t ds /\ in_flight_of r' t <= Z.max 0 (rl_max_concurrent rc).
Proof.
  destruct (router_history (assign_fuel (2 ^ m)) os sc rc w m Hl eq_refl Hlen)
    as (ds & w' & r' & Hrun & _ & _ & _ & _ & Hfl & Hmax).
  exists ds, w', r'. auto.
Qed.

Lemma router_inflight_balance_witness :
  exists ds w' r', router_run (assign_fuel (2 ^ 4)) [OpAcquire "acme"; OpAcquire "acme"; OpRelease "acme"]
      0 sample_router = Some (ds, w', r') /\ in_flight_of r' "acme" = slots "acme" ds.
Proof.
  destruct (router_inflight_balance 4 (mkShardingConfig 16 4 2) (mkRateLimitConfig 2 500 1)
    [OpAcquire "acme"; OpAcquire "acme"; OpRelease "acme"] 0) as (ds & w' & r' & Hrun & Hall).
  - unfold limits_ok. simpl. lia.
  - reflexivity.
  - exists ds, w', r'. split; [exact Hrun|apply Hall].
Defined.

(** A tenant's strands are a function of its name: after any history of a
    power-of-two router, [cells_for] returns without touching other tenants and
    names exactly the K distinct cells of the shuffle-shard assignment. *)
Theorem cells_for_stable {W : Type} `{Clock W} `{StdHash} (m : Z) (sc : ShardingConfig)
    (rc : RateLimitConfig) (os : list router_op) (w : W) (tenant : string)
    (Hl : limits_ok (router_new sc rc) m) (Hlen : Z.of_nat (length os) < 2 ^ 30) :
  exists cells ds w' r', 
    assign_cells (assign_fuel (2 ^ m)) tenant (2 ^ m) (cells_per_tenant sc) = Some cells /\
    router_run (assign_fuel (2 ^ m)) os w (router_new sc rc) = Some (ds, w', r') /\
    exists w'' r'', cells_for (assign_fuel (2 ^ m)) tenant w' r' = Some (cells, w'', r'') /\
      forall t, t <> tenant -> tenants r'' !! t = tenants r' !! t.
Proof.
  destruct (router_history (assign_fuel (2 ^ m)) os sc rc w m Hl eq_refl Hlen)
    as (ds & w' & r' & Hrun & Hok & Hz & Hl' & Hsc & _).
  destruct (get_or_create_returns (assign_fuel (2 ^ m)) tenant w' r' m Hl' eq_refl Hz)
    as (ts & w'' & r'' & Hg & _ & _ & Hsc'' & _).
  destruct (get_or_create_spec _ tenant w' w'' r' r'' ts Hok Hg) as ([Hstr Hts] & Ht & _ & _ & _ & Hother).
  destruct (Hts tenant ts Ht) as [Hcells _]. destruct Hl as (Hm & Hn & Hk & _). simpl in Hn, Hk.
  rewrite Hsc'', Hsc, Hn in Hcells.
  destruct (assign_cells_spec tenant m (cells_per_tenant sc) Hm Hk) as (cells & Heq & [_ Hrange] & _).
  rewrite Heq in Hcells. injection Hcells as ->.
  exists (cell_indices ts), ds, w', r'. split_and!; [done|done|]. unfold cells_for. rewrite Hg.
  exists w'', r''. split; [|done]. do 3 f_equal.
  rewrite Hstr, Hsc'', Hsc, Hn. apply map_cells_id. exact Hrange.
Qed.

Lemma cells_for_stable_witness :
  exists cells ds w' r', assign_cells (assign_fuel 16) "acme" 16 4 = Some cells /\
    router_run (assign_fuel 16) [OpAcquire "acme"; OpAcquire "other"] 0 sample_router = Some (ds, w', r') /\
    exists w'' r'', cells_for (assign_fuel 16) "acme" w' r' = Some (cells, w'', r'').
Proof.
  destruct (cells_for_stable 4 (mkShardingConfig 16 4 2) (mkRateLimitConfig 2 500 1)
    [OpAcquire "acme"; OpAcquire "other"] 0 "acme") as (cells & ds & w' & r' & Hc & Hrun & w'' & r'' & Hf & _).
  - unfold limits_ok. simpl. lia.
  - reflexivity.
  - exists cells, ds, w', r'. split; [exact Hc|]. split; [exact Hrun|]. exists w'', r''. exact Hf.
Defined.

(** A tenant at its concurrency cap is refused only after a token has been
    taken from its bucket: the refused call leaves the in-flight count alone
    but one token fewer than the refill had left. *)
Theorem cap_rejection_spends_token {W : Type} `{Clock W} `{StdHash} (fuel : nat) (tenant : string)
    (w w1 : W) (r : TenantRouter) (ts : TenantState) (b : TokenBucket) (now : Z)
    (Hts : tenants r !! tenant = Some ts) (Hrange : 0 <= in_flight ts < 2 ^ 31 - 1)
    (Hcap : max_concurrent ts <= in_flight ts) (Hclock : steady_now w = (now, w1))
    (Hrefill : bucket_refill (wrap_u64 now) (bucket ts) = Some b) (Htok : TOKEN_SCALE <= tokens b) :
  exists r', 
    try_acquire fuel tenant w r
      = Some (Unexpected (mkRateLimitError ConcurrencyCapReached tenant), w1, r') /\
    in_flight_of r' tenant = in_flight ts /\
    option_map (fun ts' => tokens (bucket ts')) (tenants r' !! tenant) = Some (tokens b - TOKEN_SCALE).
Proof.
  unfold try_acquire, get_or_create_tenant, try_consume, bucket_consume, in_flight_of.
  rewrite Hts, Hclock, Hrefill. apply Z.leb_le in Htok. rewrite Htok. simpl.
  apply Z.leb_le in Hcap. rewrite Hcap. eexists. split; [reflexivity|]. simpl.
  rewrite lookup_insert_eq. simpl. split; [|done]. rewrite !wrap_i32_small; rewrite ?wrap_i32_small; lia.
Qed.

Lemma cap_rejection_spends_token_witness :
  exists r', try_acquire (assign_fuel 16) "acme" 7 busy_router
      = Some (Unexpected (mkRateLimitError ConcurrencyCapReached "acme"), 8, r') /\
    in_flight_of r' "acme" = 1.
Proof.
  destruct (cap_rejection_spends_token (assign_fuel 16) "acme" 7 8 busy_router
    (mkTenantState [] (mkTokenBucket 1024 0 2048 0) 1 1) (mkTokenBucket 1024 0 2048 0) 7)
    as (r' & Ha & Hf & _).
  - reflexivity.
  - simpl. lia.
  - simpl. lia.
  - reflexivity.
  - reflexivity.
  - reflexivity.
  - exists r'. split; [exact Ha|exact Hf].
Defined.
