(* ===== verification/FleetRouter.v ===== *)
(** * FleetRouter: which service instances own a tenant

    service/src/fleet_router.cpp and include/fre/service/fleet_router.hpp, over
    the instance assignment of ShuffleShard.v.  [None] is a call that does not
    return within the fuel given to the assignment loop. *)

From S2P Require Import Prelude CoreTypes ShuffleShard.

Open Scope list_scope.
Open Scope Z_scope.

Record InstanceInfo : Type := mkInstanceInfo { ii_id : Z; ii_address : string }.

Record FleetConfig : Type := mkFleetConfig {
  instance_id : Z;
  fleet_size : Z;
  instances_per_tenant : Z;
  topology : list InstanceInfo
}.

Section Fleet.

Context `{StdHash}.
Variable fuel : nat.

Definition owns (c : FleetConfig) (tenant_id : string) : option bool :=
  if Z.leb (fleet_size c) 1 then Some true
  else match assign_instances fuel tenant_id (fleet_size c) (instances_per_tenant c) with
       | None => None
       | Some owners => Some (bool_decide (instance_id c ∈ owners))
       end.

(** The inner loop with its [break]: the address written for one owner. *)
Definition owner_address (topo : list InstanceInfo) (id : Z) : option string :=
  option_map ii_address
    (find_first (fun info => (Z.eqb (ii_id info) id && negb (str_empty (ii_address info)))%bool) topo).

(** The outer loop: the stream and the [first] flag. *)
Fixpoint hint_loop (topo : list InstanceInfo) (owner_ids : list Z) (oss : string) (first : bool) : string :=
  match owner_ids with
  | [] => oss
  | id :: ids =>
      match owner_address topo id with
      | Some address => hint_loop topo ids (oss +:+ (if first then "" else ",") +:+ address) false
      | None => hint_loop topo ids oss first
      end
  end.

Definition redirect_hint (c : FleetConfig) (tenant_id : string) : option string :=
  if (Z.leb (fleet_size c) 1 || Nat.eqb (length (topology c)) 0)%bool then Some ""
  else match assign_instances fuel tenant_id (fleet_size c) (instances_per_tenant c) with
       | None => None
       | Some owner_ids => Some (hint_loop (topology c) owner_ids "" true)
       end.

Definition topology_json (c : FleetConfig) : string :=
  "{" +:+ dquote +:+ "instance_id" +:+ dquote +:+ ":" +:+ to_string_Z (instance_id c) +:+ ","
  +:+ dquote +:+ "fleet_size" +:+ dquote +:+ ":" +:+ to_string_Z (fleet_size c) +:+ ","
  +:+ dquote +:+ "instances_per_tenant" +:+ dquote +:+ ":" +:+ to_string_Z (instances_per_tenant c)
  +:+ "}".

End Fleet.

(** The same fleet seen from instance [id]. *)
Definition at_instance (c : FleetConfig) (id : Z) : FleetConfig :=
  mkFleetConfig id (fleet_size c) (instances_per_tenant c) (topology c).

Definition comma_join (l : list string) : string := String.concat "," l.

Definition sample_fleet : FleetConfig :=
  mkFleetConfig 0 8 2 (map (fun i => mkInstanceInfo (Z.of_nat i) ("host" +:+ to_string_Z (Z.of_nat i))) (seq 0 8)).

(** ** Lemmas *)

Lemma comma_join_cons (x : string) (l : list string) :
  comma_join (x :: l) = x +:+ foldr (fun y acc => "," +:+ y +:+ acc) "" l.
Proof.
  revert x. induction l as [|y l IH]; intros x.
  - symmetry. apply append_nil_r.
  - change (x +:+ "," +:+ comma_join (y :: l) = x +:+ foldr (fun y acc => "," +:+ y +:+ acc) "" (y :: l)).
    by rewrite IH.
Qed.

Lemma hint_loop_later (topo : list InstanceInfo) (ids : list Z) (oss : string) :
  hint_loop topo ids oss false
    = oss +:+ foldr (fun y acc => "," +:+ y +:+ acc) "" (omap (owner_address topo) ids).
Proof.
  revert oss. induction ids as [|id ids IH]; intros oss; cbn [hint_loop omap list_omap].
  - symmetry. apply append_nil_r.
  - destruct (owner_address topo id) as [a|]; [|apply IH].
    rewrite IH, append_assoc. f_equal.
Qed.

Lemma hint_loop_join (topo : list InstanceInfo) (ids : list Z) :
  hint_loop topo ids "" true = comma_join (omap (owner_address topo) ids).
Proof.
  induction ids as [|id ids IH]; [done|]. cbn [hint_loop omap list_omap].
  destruct (owner_address topo id) as [a|]; [|done].
  rewrite comma_join_cons. apply hint_loop_later.
Qed.

Lemma filter_members_length (n : Z) (l : list Z) :
  0 <= n -> shard_ok n l ->
  length (filter (fun id => id ∈ l) (map Z.of_nat (seq 0 (Z.to_nat n)))) = length l.
Proof.
  intros Hn [Hnd Hall]. apply Permutation_length, NoDup_Permutation; [|done|].
  - apply NoDup_filter, NoDup_fmap_2; [intros x y; lia|apply NoDup_seq].
  - intros x. rewrite list_elem_of_filter. split; [tauto|]. intros Hx. split; [done|].
    apply (proj1 (Forall_forall _ _) Hall) in Hx.
    apply list_elem_of_fmap. exists (Z.to_nat x). split; [lia|]. apply elem_of_seq. lia.
Qed.

(** ** Properties *)

(** In a fleet of a power of two instances (at least two) with K at most
    half of them, every tenant is owned by exactly K instances, and the hint
    given by any instance lists the addresses of precisely those, in assignment
    order. *)
Theorem fleet_owners_exact `{StdHash} (c : FleetConfig) (m : Z) (tenant : string)
    (Hm : 1 <= m < 32) (Hsize : fleet_size c = 2 ^ m)
    (Hk : 0 <= instances_per_tenant c <= 2 ^ (m - 1)) (Htopo : topology c <> []) :
  exists owners,
    Z.of_nat (length owners) = instances_per_tenant c /\ NoDup owners /\
    (forall id, owns (assign_fuel (2 ^ m)) (at_instance c id) tenant = Some (bool_decide (id ∈ owners))) /\
    Z.of_nat (length (filter (fun id => owns (assign_fuel (2 ^ m)) (at_instance c id) tenant = Some true)
      (map Z.of_nat (seq 0 (Z.to_nat (fleet_size c)))))) = instances_per_tenant c /\
    redirect_hint (assign_fuel (2 ^ m)) c tenant = Some (comma_join (omap (owner_address (topology c)) owners)).
Proof.
  destruct (assign_instances_spec tenant m (instances_per_tenant c) Hm Hk) as (owners & Ho & Hok & Hl).
  assert (Hbig : Z.leb (fleet_size c) 1 = false).
  { rewrite Hsize. apply Z.leb_gt. apply (Z.lt_le_trans 1 (2 ^ 1)); [done|]. apply Z.pow_le_mono_r; lia. }
  assert (Howns : forall id, owns (assign_fuel (2 ^ m)) (at_instance c id) tenant = Some (bool_decide (id ∈ owners))).
  { intros id. unfold owns. simpl. by rewrite Hbig, Hsize, Ho. }
  exists owners. split_and!; [done|apply Hok|done| |].
  - rewrite <- Hl. rewrite <- (filter_members_length (fleet_size c) owners) by (rewrite Hsize; done || lia).
    do 2 f_equal. apply list_filter_iff. intros id. rewrite (Howns id). case_bool_decide; naive_solver.
  - unfold redirect_hint. rewrite Hbig. destruct (topology c) eqn:Et; [done|]. simpl.
    by rewrite Hsize, Ho, hint_loop_join.
Qed.

Lemma fleet_owners_exact_witness :
  exists owners, length owners = 2%nat /\
    redirect_hint (assign_fuel 8) sample_fleet "acme"
      = Some (comma_join (omap (owner_address (topology sample_fleet)) owners)).
Proof.
  destruct (fleet_owners_exact sample_fleet 3 "acme") as (owners & Hl & _ & _ & _ & Hh).
  - lia.
  - reflexivity.
  - simpl. lia.
  - discriminate.
  - exists owners. split; [simpl in Hl; lia|exact Hh].
Defined.
