(* ===== verification/Config.v ===== *)
(** * Pipeline configuration and its validating builder

    include/fre/pipeline/pipeline_config.hpp and src/pipeline/pipeline_config.cpp.
    Evaluators and emission targets are the type-erased [std::function]s of the
    header: they act on the world [W] and may throw.  Durations are in
    milliseconds. *)

From S2P Require Import Prelude Ieee CoreTypes Errors DecisionTypes RuleEngine ShuffleShard TenantRouter.

Open Scope list_scope.
Open Scope Z_scope.

Inductive FailureMode : Type := FailOpen | FailClosed | EmitDegraded.

#[export] Instance FailureMode_eq_dec : EqDecision FailureMode.
Proof. solve_decision. Defined.

Definition EvaluatorFn (W : Type) : Type :=
  Event -> M W (outcome (expected EvaluatorResult EvaluatorError)).

Definition EmissionFn (W : Type) : Type := Decision -> M W (outcome (expected unit EmissionError)).

Record IngestStageConfig : Type := mkIngestConfig { ic_skew_tolerance : Z; ic_timeout : Z }.

Record EvalStageConfig (W : Type) : Type := mkEvalConfig {
  ec_timeout : Z;
  ec_failure_mode : FailureMode;
  ec_composition : CompositionRule;
  ec_evaluators : list (EvaluatorFn W)
}.

Record InferenceStageConfig (W : Type) : Type := mkInferenceConfig {
  nc_timeout : Z;
  nc_failure_mode : FailureMode;
  nc_composition : CompositionRule;
  nc_score_threshold : float32;
  nc_evaluators : list (EvaluatorFn W)
}.

Record PolicyStageRule : Type := mkPolicyStageRule {
  psr_rule : PolicyRule;
  psr_priority : Z;
  psr_action_verdict : Verdict;
  psr_rule_id : string;
  psr_decision_type_id : option string
}.

Record PolicyStageConfig : Type := mkPolicyConfig {
  pcfg_timeout : Z;
  pcfg_failure_mode : FailureMode;
  pcfg_rules : list PolicyStageRule
}.

Record EmitStageConfig (W : Type) : Type := mkEmitConfig {
  mc_timeout : Z;
  mc_failure_mode : FailureMode;
  mc_retry_limit : Z;  (** [uint32_t] *)
  mc_targets : list (EmissionFn W)
}.

Arguments mkEvalConfig {W}. Arguments ec_timeout {W}. Arguments ec_failure_mode {W}.
Arguments ec_composition {W}. Arguments ec_evaluators {W}.
Arguments mkInferenceConfig {W}. Arguments nc_timeout {W}. Arguments nc_failure_mode {W}.
Arguments nc_composition {W}. Arguments nc_score_threshold {W}. Arguments nc_evaluators {W}.
Arguments mkEmitConfig {W}. Arguments mc_timeout {W}. Arguments mc_failure_mode {W}.
Arguments mc_retry_limit {W}. Arguments mc_targets {W}.

(** [add_evaluator], [add_target]: append to the vector. *)
Definition eval_add_evaluator {W : Type} (c : EvalStageConfig W) (fn : EvaluatorFn W) : EvalStageConfig W :=
  mkEvalConfig (ec_timeout c) (ec_failure_mode c) (ec_composition c) (ec_evaluators c ++ [fn]).

Definition inference_add_evaluator {W : Type} (c : InferenceStageConfig W) (fn : EvaluatorFn W)
    : InferenceStageConfig W :=
  mkInferenceConfig (nc_timeout c) (nc_failure_mode c) (nc_composition c) (nc_score_threshold c)
    (nc_evaluators c ++ [fn]).

Definition emit_add_target {W : Type} (c : EmitStageConfig W) (fn : EmissionFn W) : EmitStageConfig W :=
  mkEmitConfig (mc_timeout c) (mc_failure_mode c) (mc_retry_limit c) (mc_targets c ++ [fn]).

(** [add_stdout_target]; [%s] prints up to the first NUL. *)
Definition stdout_line (d : Decision) : string :=
  "[emit] pipeline=" +:+ c_str (d_pipeline_id d) +:+ " event=" +:+ to_string_Z (d_event_id d)
  +:+ " verdict=" +:+ to_string_Z (verdict_ord (d_final_verdict d)) +:+ String newline EmptyString.

Definition stdout_target {W : Type} `{Stdout W} : EmissionFn W := fun d =>
  do _ <- print (stdout_line d); retM (Returned (Ok tt)).

Definition emit_add_stdout_target {W : Type} `{Stdout W} (c : EmitStageConfig W) : EmitStageConfig W :=
  emit_add_target c stdout_target.

Definition noop_target {W : Type} : EmissionFn W := fun _ => retM (Returned (Ok tt)).

(** [add_rule]: append, then [std::sort] by priority. *)
Definition rule_lt (a b : PolicyStageRule) : bool := Z.ltb (psr_priority a) (psr_priority b).

Definition policy_add_rule `{StdSort} (c : PolicyStageConfig) (r : PolicyStageRule) : PolicyStageConfig :=
  mkPolicyConfig (pcfg_timeout c) (pcfg_failure_mode c) (std_sort rule_lt (pcfg_rules c ++ [r])).

Record PipelineConfig (W : Type) : Type := mkPipelineConfig {
  cfg_pipeline_id : string;
  cfg_pipeline_version : string;
  cfg_latency_budget : Z;
  cfg_sharding : ShardingConfig;
  cfg_rate_limit : RateLimitConfig;
  cfg_ingest : IngestStageConfig;
  cfg_eval : option (EvalStageConfig W);
  cfg_inference : option (InferenceStageConfig W);
  cfg_policy : option PolicyStageConfig;
  cfg_emit : EmitStageConfig W;
  cfg_registry : option DecisionTypeRegistry
}.

Arguments mkPipelineConfig {W}. Arguments cfg_pipeline_id {W}. Arguments cfg_pipeline_version {W}.
Arguments cfg_latency_budget {W}. Arguments cfg_sharding {W}. Arguments cfg_rate_limit {W}.
Arguments cfg_ingest {W}. Arguments cfg_eval {W}. Arguments cfg_inference {W}.
Arguments cfg_policy {W}. Arguments cfg_emit {W}. Arguments cfg_registry {W}.

(** ** The builder *)

Record Builder (W : Type) : Type := mkBuilder { config_ : PipelineConfig W; has_emit_ : bool }.

Arguments mkBuilder {W}. Arguments config_ {W}. Arguments has_emit_ {W}.

(** The setters: each replaces one member and returns the builder; [emit] also
    raises the flag. *)
Definition builder_pipeline_id {W : Type} (b : Builder W) (id : string) : Builder W :=
  let c := config_ b in
  mkBuilder (mkPipelineConfig id (cfg_pipeline_version c) (cfg_latency_budget c) (cfg_sharding
    c) (cfg_rate_limit c) (cfg_ingest c) (cfg_eval c) (cfg_inference c) (cfg_policy c) (cfg_emit
    c) (cfg_registry c)) (has_emit_ b).

Definition builder_pipeline_version {W : Type} (b : Builder W) (v : string) : Builder W :=
  let c := config_ b in
  mkBuilder (mkPipelineConfig (cfg_pipeline_id c) v (cfg_latency_budget c) (cfg_sharding c)
    (cfg_rate_limit c) (cfg_ingest c) (cfg_eval c) (cfg_inference c) (cfg_policy c) (cfg_emit c)
    (cfg_registry c)) (has_emit_ b).

Definition builder_latency_budget {W : Type} (b : Builder W) (budget : Z) : Builder W :=
  let c := config_ b in
  mkBuilder (mkPipelineConfig (cfg_pipeline_id c) (cfg_pipeline_version c) budget (cfg_sharding
    c) (cfg_rate_limit c) (cfg_ingest c) (cfg_eval c) (cfg_inference c) (cfg_policy c) (cfg_emit
    c) (cfg_registry c)) (has_emit_ b).

Definition builder_sharding {W : Type} (b : Builder W) (cfg : ShardingConfig) : Builder W :=
  let c := config_ b in
  mkBuilder (mkPipelineConfig (cfg_pipeline_id c) (cfg_pipeline_version c) (cfg_latency_budget
    c) cfg (cfg_rate_limit c) (cfg_ingest c) (cfg_eval c) (cfg_inference c) (cfg_policy c)
    (cfg_emit c) (cfg_registry c)) (has_emit_ b).

Definition builder_rate_limit {W : Type} (b : Builder W) (cfg : RateLimitConfig) : Builder W :=
  let c := config_ b in
  mkBuilder (mkPipelineConfig (cfg_pipeline_id c) (cfg_pipeline_version c) (cfg_latency_budget
    c) (cfg_sharding c) cfg (cfg_ingest c) (cfg_eval c) (cfg_inference c) (cfg_policy c)
    (cfg_emit c) (cfg_registry c)) (has_emit_ b).

Definition builder_ingest {W : Type} (b : Builder W) (cfg : IngestStageConfig) : Builder W :=
  let c := config_ b in
  mkBuilder (mkPipelineConfig (cfg_pipeline_id c) (cfg_pipeline_version c) (cfg_latency_budget
    c) (cfg_sharding c) (cfg_rate_limit c) cfg (cfg_eval c) (cfg_inference c) (cfg_policy c)
    (cfg_emit c) (cfg_registry c)) (has_emit_ b).

Definition builder_lightweight_eval {W : Type} (b : Builder W) (cfg : EvalStageConfig W) : Builder W :=
  let c := config_ b in
  mkBuilder (mkPipelineConfig (cfg_pipeline_id c) (cfg_pipeline_version c) (cfg_latency_budget
    c) (cfg_sharding c) (cfg_rate_limit c) (cfg_ingest c) (Some cfg) (cfg_inference c)
    (cfg_policy c) (cfg_emit c) (cfg_registry c)) (has_emit_ b).

Definition builder_ml_inference {W : Type} (b : Builder W) (cfg : InferenceStageConfig W) : Builder W :=
  let c := config_ b in
  mkBuilder (mkPipelineConfig (cfg_pipeline_id c) (cfg_pipeline_version c) (cfg_latency_budget
    c) (cfg_sharding c) (cfg_rate_limit c) (cfg_ingest c) (cfg_eval c) (Some cfg) (cfg_policy c)
    (cfg_emit c) (cfg_registry c)) (has_emit_ b).

Definition builder_policy_eval {W : Type} (b : Builder W) (cfg : PolicyStageConfig) : Builder W :=
  let c := config_ b in
  mkBuilder (mkPipelineConfig (cfg_pipeline_id c) (cfg_pipeline_version c) (cfg_latency_budget
    c) (cfg_sharding c) (cfg_rate_limit c) (cfg_ingest c) (cfg_eval c) (cfg_inference c) (Some
    cfg) (cfg_emit c) (cfg_registry c)) (has_emit_ b).

Definition builder_emit {W : Type} (b : Builder W) (cfg : EmitStageConfig W) : Builder W :=
  let c := config_ b in
  mkBuilder (mkPipelineConfig (cfg_pipeline_id c) (cfg_pipeline_version c) (cfg_latency_budget
    c) (cfg_sharding c) (cfg_rate_limit c) (cfg_ingest c) (cfg_eval c) (cfg_inference c)
    (cfg_policy c) cfg (cfg_registry c)) true.

Definition builder_decision_types {W : Type} (b : Builder W) (registry : DecisionTypeRegistry) : Builder W :=
  let c := config_ b in
  mkBuilder (mkPipelineConfig (cfg_pipeline_id c) (cfg_pipeline_version c) (cfg_latency_budget
    c) (cfg_sharding c) (cfg_rate_limit c) (cfg_ingest c) (cfg_eval c) (cfg_inference c)
    (cfg_policy c) (cfg_emit c) (Some registry)) (has_emit_ b).

(** The members' default initialisers. *)
Definition default_emit {W : Type} : EmitStageConfig W := mkEmitConfig 10 EmitDegraded 3 [].

Definition builder_new {W : Type} : Builder W :=
  mkBuilder (mkPipelineConfig "" "1.0.0" 300 (mkShardingConfig 16 4 0) (mkRateLimitConfig 1000 500 100)
    (mkIngestConfig 30000 5) None None None default_emit None) false.

Definition sum_stage_timeouts {W : Type} (c : PipelineConfig W) : Z :=
  ic_timeout (cfg_ingest c) + mc_timeout (cfg_emit c)
  + match cfg_eval c with Some e => ec_timeout e | None => 0 end
  + match cfg_inference c with Some e => nc_timeout e | None => 0 end
  + match cfg_policy c with Some e => pcfg_timeout e | None => 0 end.

(** [std::set<std::string>]: its elements in ascending order. *)
Fixpoint set_insert (x : string) (l : list string) : list string :=
  match l with
  | [] => [x]
  | y :: l' => if str_eqb x y then l else if String.ltb x y then x :: l else y :: set_insert x l'
  end.

Fixpoint collect_stage_refs (rule : PolicyRule) (out : list string) : list string :=
  let child c out := match c with Some r => collect_stage_refs r out | None => out end in
  match rule with
  | StageVerdictIs stage_id _ => set_insert stage_id out
  | And l r => child r (child l out)
  | Or l r => child r (child l out)
  | Not e => child e out
  | _ => out
  end.

Definition active_stages {W : Type} (c : PipelineConfig W) : list string :=
  let s := set_insert "emit" (set_insert "ingest" []) in
  let s := match cfg_eval c with Some _ => set_insert "eval" s | None => s end in
  match cfg_inference c with Some _ => set_insert "inference" s | None => s end.

Definition rule_name (psr : PolicyStageRule) : string :=
  if str_empty (psr_rule_id psr) then "(unnamed)" else psr_rule_id psr.

(** The body of the loop over the rules: the error returned, if any. *)
Definition validate_rule (active : list string) (registry : option DecisionTypeRegistry)
    (psr : PolicyStageRule) : option ConfigError :=
  match find_first (fun ref => negb (existsb (str_eqb ref) active)) (collect_stage_refs (psr_rule psr) []) with
  | Some ref =>
      Some (mkConfigError UndefinedStageDependency
        ("policy rule '" +:+ rule_name psr +:+ "' references undefined stage '" +:+ ref +:+ "'"))
  | None =>
      match psr_decision_type_id psr with
      | None => None
      | Some type_id =>
          match registry with
          | None =>
              Some (mkConfigError InvalidPolicyRule
                ("policy rule '" +:+ rule_name psr +:+
                 "' has a decision_type_id but no DecisionTypeRegistry is configured on the pipeline"))
          | Some r =>
              match registry_find r type_id with
              | Some _ => None
              | None =>
                  Some (mkConfigError InvalidPolicyRule
                    ("policy rule '" +:+ rule_name psr +:+
                     "' references unregistered decision type '" +:+ type_id +:+ "'"))
              end
          end
      end
  end.

Fixpoint validate_rules (active : list string) (registry : option DecisionTypeRegistry)
    (rules : list PolicyStageRule) : option ConfigError :=
  match rules with
  | [] => None
  | psr :: rules' =>
      match validate_rule active registry psr with
      | Some err => Some err
      | None => validate_rules active registry rules'
      end
  end.

Definition validate {W : Type} (b : Builder W) : option ConfigError :=
  let c := config_ b in
  if (negb (has_emit_ b) || Nat.eqb (length (mc_targets (cfg_emit c))) 0)%bool then
    Some (mkConfigError RequiredStageMissing "emit stage must be configured with at least one target")
  else
    let total := sum_stage_timeouts c in
    if Z.ltb (cfg_latency_budget c) total then
      Some (mkConfigError LatencyBudgetExceeded
        ("stage timeouts sum to " +:+ pretty total +:+ "ms, exceeding budget of "
         +:+ pretty (cfg_latency_budget c) +:+ "ms"))
    else if Z.leb (num_cells (cfg_sharding c)) (cells_per_tenant (cfg_sharding c)) then
      Some (mkConfigError InvalidShardingConfig
        ("cells_per_tenant (" +:+ pretty (cells_per_tenant (cfg_sharding c)) +:+ ") must be < num_cells ("
         +:+ pretty (num_cells (cfg_sharding c)) +:+ ")"))
    else
      match cfg_policy c with
      | None => None
      | Some p => validate_rules (active_stages c) (cfg_registry c) (pcfg_rules p)
      end.

Definition build {W : Type} (b : Builder W) : expected (PipelineConfig W) Error :=
  match validate b with
  | Some err => Unexpected (ErrConfig err)
  | None => Ok (config_ b)
  end.

(** ** Specification vocabulary *)

(** Stages a rule asks the verdict of, anywhere in its tree. *)
Inductive refers_stage : PolicyRule -> string -> Prop :=
| refers_here id v : refers_stage (StageVerdictIs id v) id
| refers_and_l l r id : refers_stage l id -> refers_stage (And (Some l) r) id
| refers_and_r l r id : refers_stage r id -> refers_stage (And l (Some r)) id
| refers_or_l l r id : refers_stage l id -> refers_stage (Or (Some l) r) id
| refers_or_r l r id : refers_stage r id -> refers_stage (Or l (Some r)) id
| refers_not e id : refers_stage e id -> refers_stage (Not (Some e)) id.

Definition stage_configured {W : Type} (c : PipelineConfig W) (id : string) : Prop :=
  id = "ingest" \/ id = "emit" \/ (id = "eval" /\ is_Some (cfg_eval c)) \/
  (id = "inference" /\ is_Some (cfg_inference c)).

Definition rule_valid {W : Type} (c : PipelineConfig W) (psr : PolicyStageRule) : Prop :=
  (forall id, refers_stage (psr_rule psr) id -> stage_configured c id) /\
  (forall type_id, psr_decision_type_id psr = Some type_id ->
    exists r d, cfg_registry c = Some r /\ registry_find r type_id = Some d).

(** What [validate] comes down to ([validate_None]). *)
Definition passes_checks {W : Type} (c : PipelineConfig W) : Prop :=
  mc_targets (cfg_emit c) <> [] /\
  sum_stage_timeouts c <= cfg_latency_budget c /\
  cells_per_tenant (cfg_sharding c) < num_cells (cfg_sharding c) /\
  forall p psr, cfg_policy c = Some p -> psr ∈ pcfg_rules p -> rule_valid c psr.

(** *** The contract

    The table "validation rules enforced at build()" of
    specs/001-nrt-detection-pipeline/contracts/pipeline-config-contract.md. *)

Inductive subrule (leaf : PolicyRule) : PolicyRule -> Prop :=
| sub_here : subrule leaf leaf
| sub_and_l l r : subrule leaf l -> subrule leaf (And (Some l) r)
| sub_and_r l r : subrule leaf r -> subrule leaf (And l (Some r))
| sub_or_l l r : subrule leaf l -> subrule leaf (Or (Some l) r)
| sub_or_r l r : subrule leaf r -> subrule leaf (Or l (Some r))
| sub_not e : subrule leaf e -> subrule leaf (Not (Some e)).

(** A rule names a stage to ask its verdict or its degradation. *)
Definition names_stage (rule : PolicyRule) (id : string) : Prop :=
  (exists v, subrule (StageVerdictIs id v) rule) \/ subrule (StageIsDegraded id) rule.

Definition policy_rule_of {W : Type} (c : PipelineConfig W) (psr : PolicyStageRule) : Prop :=
  exists p, cfg_policy c = Some p /\ psr ∈ pcfg_rules p.

(** The stages of the configuration with their timeouts. *)
Definition stage_timeouts {W : Type} (c : PipelineConfig W) : list (string * Z) :=
  [("ingest", ic_timeout (cfg_ingest c))]
  ++ match cfg_eval c with Some e => [("eval", ec_timeout e)] | None => [] end
  ++ match cfg_inference c with Some e => [("inference", nc_timeout e)] | None => [] end
  ++ match cfg_policy c with Some p => [("policy", pcfg_timeout p)] | None => [] end
  ++ [("emit", mc_timeout (cfg_emit c))].

Definition stage_present {W : Type} (c : PipelineConfig W) (id : string) : Prop := id ∈ map fst (stage_timeouts c).

Definition total_timeout {W : Type} (c : PipelineConfig W) : Z := foldr Z.add 0 (map snd (stage_timeouts c)).

Record contract_valid {W : Type} (c : PipelineConfig W) : Prop := {
  contract_id : cfg_pipeline_id c <> "";                                                  (** MissingField *)
  contract_emit : mc_targets (cfg_emit c) <> [];                                          (** RequiredStageMissing *)
  contract_timeouts : total_timeout c <= cfg_latency_budget c;                            (** LatencyBudgetExceeded *)
  contract_stages : forall psr id,
    policy_rule_of c psr -> names_stage (psr_rule psr) id -> stage_present c id;          (** UndefinedStageDependency *)
  contract_sharding : cells_per_tenant (cfg_sharding c) < num_cells (cfg_sharding c);     (** InvalidShardingConfig *)
  contract_budget : 1 <= cfg_latency_budget c <= 10000                                    (** InvalidLatencyBudget *)
}.

(** "Any rule with a decision_type_id must reference a registered type." *)
Definition types_registered {W : Type} (c : PipelineConfig W) : Prop :=
  forall psr type_id, policy_rule_of c psr -> psr_decision_type_id psr = Some type_id ->
    exists r d, cfg_registry c = Some r /\ registry_find r type_id = Some d.

(** Sample: the default stages around one policy rule on the eval stage. *)
Definition sample_rule : PolicyStageRule :=
  mkPolicyStageRule (And (Some (StageVerdictIs "eval" Block)) (Some (TagExists "vip"))) 1 Block "r1" None.

Definition sample_config (eval : bool) (sharding : ShardingConfig) : PipelineConfig unit :=
  mkPipelineConfig "p" "1.0.0" 300 sharding (mkRateLimitConfig 1000 500 100)
    (mkIngestConfig 30000 5)
    (if eval then Some (mkEvalConfig 10 FailOpen AnyBlock []) else None) None
    (Some (mkPolicyConfig 20 FailClosed [sample_rule]))
    (mkEmitConfig 10 EmitDegraded 3 [noop_target]) None.

Definition bare_config (id : string) (budget : Z) (rules : list PolicyStageRule) : PipelineConfig unit :=
  mkPipelineConfig id "1.0.0" budget (mkShardingConfig 16 4 0) (mkRateLimitConfig 1000 500 100)
    (mkIngestConfig 30000 5) None None (Some (mkPolicyConfig 20 FailClosed rules))
    (mkEmitConfig 10 EmitDegraded 3 [noop_target]) None.

#[local] Instance idle_clock : Clock Z := {
  steady_now := fun w => (w, w);
  system_now := fun w => (w, w);
  sleep_for := fun ns w => (tt, w + ns)
}.

(** ** Lemmas *)

Lemma elem_of_set_insert (x y : string) (l : list string) : y ∈ set_insert x l <-> y = x \/ y ∈ l.
Proof.
  induction l as [|z l IH]; simpl; [set_solver|].
  destruct (str_eqb x z) eqn:Hxz; [apply str_eqb_eq in Hxz; set_solver|].
  destruct (String.ltb x z); set_solver.
Qed.

Lemma PolicyRule_children_ind (P : PolicyRule -> Prop) :
  (forall r, (match r with And _ _ | Or _ _ | Not _ => False | _ => True end) -> P r) ->
  (forall l r, (forall x, l = Some x -> P x) -> (forall x, r = Some x -> P x) -> P (And l r)) ->
  (forall l r, (forall x, l = Some x -> P x) -> (forall x, r = Some x -> P x) -> P (Or l r)) ->
  (forall e, (forall x, e = Some x -> P x) -> P (Not e)) ->
  forall r, P r.
Proof.
  intros Hleaf Hand Hor Hnot.
  fix IH 1. intros r. destruct r; try (apply Hleaf; exact I).
  - apply Hand; intros x; [destruct lchild as [y|]|destruct rchild as [y|]]; intros [= <-]; apply IH.
  - apply Hor; intros x; [destruct lchild as [y|]|destruct rchild as [y|]]; intros [= <-]; apply IH.
  - apply Hnot; intros x; destruct expr as [y|]; intros [= <-]; apply IH.
Qed.

Lemma elem_of_collect_stage_refs (rule : PolicyRule) (id : string) :
  forall out, id ∈ collect_stage_refs rule out <-> refers_stage rule id \/ id ∈ out.
Proof.
  induction rule as [r Hr|l r IHl IHr|l r IHl IHr|e IHe] using PolicyRule_children_ind; intros out.
  - destruct r; try done; simpl; rewrite ?elem_of_set_insert; (split; [|intros [H|?]; [inv H|]; auto]);
      intros H; rewrite ?elem_of_set_insert in H; naive_solver (constructor).
  - simpl. destruct l as [l|], r as [r|]; rewrite ?(IHr _ eq_refl), ?(IHl _ eq_refl);
      (split; [intros H; naive_solver (by constructor)|intros [H|H]; [inv H|]; auto]).
  - simpl. destruct l as [l|], r as [r|]; rewrite ?(IHr _ eq_refl), ?(IHl _ eq_refl);
      (split; [intros H; naive_solver (by constructor)|intros [H|H]; [inv H|]; auto]).
  - simpl. destruct e as [e|]; rewrite ?(IHe _ eq_refl);
      (split; [intros H; naive_solver (by constructor)|intros [H|H]; [inv H|]; auto]).
Qed.

Lemma elem_of_active_stages {W : Type} (c : PipelineConfig W) (id : string) :
  existsb (str_eqb id) (active_stages c) = true <-> stage_configured c id.
Proof.
  assert (Hmem : existsb (str_eqb id) (active_stages c) = true <-> id ∈ active_stages c).
  { rewrite existsb_elem_of. setoid_rewrite str_eqb_eq. naive_solver. }
  rewrite Hmem. unfold active_stages, stage_configured, is_Some.
  destruct (cfg_eval c), (cfg_inference c); rewrite !elem_of_set_insert, elem_of_nil; naive_solver.
Qed.

Lemma validate_rule_None {W : Type} (c : PipelineConfig W) (psr : PolicyStageRule) :
  validate_rule (active_stages c) (cfg_registry c) psr = None <-> rule_valid c psr.
Proof.
  unfold validate_rule, rule_valid.
  destruct (find_first _ _) as [ref|] eqn:Hf.
  - split; [done|]. intros [Hs _]. apply find_first_Some in Hf as [Href Hn].
    apply elem_of_collect_stage_refs in Href as [Href|Href]; [|set_solver].
    apply Hs, elem_of_active_stages in Href. by rewrite Href in Hn.
  - assert (Hs : forall id, refers_stage (psr_rule psr) id -> stage_configured c id).
    { intros id Hid. apply elem_of_active_stages.
      apply negb_false_iff, (proj1 (find_first_None _ _) Hf).
      apply elem_of_collect_stage_refs. by left. }
    destruct (psr_decision_type_id psr) as [t|]; [|naive_solver].
    destruct (cfg_registry c) as [r|]; [|naive_solver].
    destruct (registry_find r t) as [d|] eqn:Hd; naive_solver.
Qed.

Lemma validate_rules_None {W : Type} (c : PipelineConfig W) (rules : list PolicyStageRule) :
  validate_rules (active_stages c) (cfg_registry c) rules = None <->
  forall psr, psr ∈ rules -> rule_valid c psr.
Proof.
  induction rules as [|psr rules IH]; simpl; [set_solver|].
  destruct (validate_rule _ _ psr) as [err|] eqn:Hv.
  - split; [done|]. intros Hall. assert (rule_valid c psr) as Hp by set_solver.
    apply validate_rule_None in Hp. by rewrite Hp in Hv.
  - apply validate_rule_None in Hv. rewrite IH. set_solver.
Qed.

Lemma validate_None {W : Type} (b : Builder W) :
  validate b = None <-> has_emit_ b = true /\ passes_checks (config_ b).
Proof.
  unfold validate, passes_checks. destruct (has_emit_ b); simpl; [|naive_solver].
  destruct (mc_targets (cfg_emit (config_ b))) as [|t ts]; simpl; [naive_solver|].
  destruct (Z.ltb_spec (cfg_latency_budget (config_ b)) (sum_stage_timeouts (config_ b)));
    [naive_solver lia|].
  destruct (Z.leb_spec (num_cells (cfg_sharding (config_ b))) (cells_per_tenant (cfg_sharding (config_ b))));
    [naive_solver lia|].
  destruct (cfg_policy (config_ b)) as [p|]; [rewrite validate_rules_None|]; naive_solver.
Qed.

(** *** The checks and the contract *)

Lemma total_timeout_sum {W : Type} (c : PipelineConfig W) : total_timeout c = sum_stage_timeouts c.
Proof.
  unfold total_timeout, stage_timeouts, sum_stage_timeouts.
  destruct (cfg_eval c), (cfg_inference c), (cfg_policy c); simpl; lia.
Qed.

Lemma refers_subrule (rule : PolicyRule) (id : string) : refers_stage rule id <-> exists v, subrule (StageVerdictIs id v) rule.
Proof.
  split.
  - induction 1 as [id v|l r id _ [v IH]|l r id _ [v IH]|l r id _ [v IH]|l r id _ [v IH]|e id _ [v IH]]; exists v; by constructor.
  - intros [v Hv]. induction Hv; by constructor.
Qed.

(** Every stage that may be asked its verdict, the policy stage apart. *)
Lemma configured_present {W : Type} (c : PipelineConfig W) (id : string) :
  stage_configured c id <-> id <> "policy" /\ stage_present c id.
Proof.
  unfold stage_configured, stage_present, stage_timeouts, is_Some.
  destruct (cfg_eval c), (cfg_inference c), (cfg_policy c); cbn [map fst app]; rewrite !elem_of_cons, elem_of_nil; naive_solver.
Qed.

Lemma contract_passes {W : Type} (c : PipelineConfig W) :
  contract_valid c -> types_registered c ->
  (forall psr v, policy_rule_of c psr -> ~ subrule (StageVerdictIs "policy" v) (psr_rule psr)) -> passes_checks c.
Proof.
  intros [Hid He Ht Hst Hsh Hb] Hreg Hpol. rewrite total_timeout_sum in Ht. split_and!; [done..|].
  intros p psr Hp Hpsr. assert (Hr : policy_rule_of c psr) by by exists p. split; [|intros t; by apply Hreg].
  intros id [v Hv]%refers_subrule. apply configured_present. split; [|by apply (Hst psr); [|left; exists v]].
  intros ->. by apply (Hpol psr v).
Qed.

Lemma passes_registered {W : Type} (c : PipelineConfig W) : passes_checks c -> types_registered c.
Proof. intros (_ & _ & _ & Hr) psr t (p & Hp & Hpsr) Ht. destruct (Hr p psr Hp Hpsr) as [_ Hreg]. by apply Hreg. Qed.

Lemma passes_contract {W : Type} (c : PipelineConfig W) :
  passes_checks c -> cfg_pipeline_id c <> "" -> 1 <= cfg_latency_budget c <= 10000 ->
  (forall psr id, policy_rule_of c psr -> subrule (StageIsDegraded id) (psr_rule psr) -> stage_present c id) ->
  contract_valid c.
Proof.
  intros (He & Ht & Hs & Hr) Hid Hb Hd. split; [done|done|by rewrite total_timeout_sum| |done|done].
  intros psr id Hpsr [Hv|Hdeg]; [|by eapply Hd]. destruct Hpsr as (p & Hp & Hpsr).
  destruct (Hr p psr Hp Hpsr) as [Hst _]. apply refers_subrule in Hv. by apply Hst, configured_present in Hv as [_ ?].
Qed.

(** The error of a rule of the policy. *)
Lemma validate_rule_Some {W : Type} (c : PipelineConfig W) (psr : PolicyStageRule) (e : ConfigError) :
  policy_rule_of c psr -> validate_rule (active_stages c) (cfg_registry c) psr = Some e ->
  match ce_code e with
  | UndefinedStageDependency => exists id v, subrule (StageVerdictIs id v) (psr_rule psr) /\ (id = "policy" \/ ~ stage_present c id)
  | InvalidPolicyRule => ~ types_registered c
  | _ => False
  end.
Proof.
  intros Hpsr. unfold validate_rule. destruct (find_first _ _) as [ref|] eqn:Hf.
  - intros [= <-]. cbn [ce_code]. apply find_first_Some in Hf as [Href Hn].
    apply elem_of_collect_stage_refs in Href as [[v Hv]%refers_subrule|Href]; [|set_solver]. exists ref, v. split; [done|].
    destruct (decide (ref = "policy")) as [->|Hne]; [by left|right]. intros Hp. apply negb_true_iff in Hn.
    by rewrite (proj2 (elem_of_active_stages c ref) (proj2 (configured_present c ref) (conj Hne Hp))) in Hn.
  - destruct (psr_decision_type_id psr) as [t|] eqn:Ht; [|done]. destruct (cfg_registry c) as [r|] eqn:Hreg.
    + destruct (registry_find r t) as [d|] eqn:Hd; [done|]. intros [= <-] Hall.
      destruct (Hall psr t Hpsr Ht) as (r' & d & Hr' & Hd'). congruence.
    + intros [= <-] Hall. destruct (Hall psr t Hpsr Ht) as (r' & d & Hr' & _). congruence.
Qed.

Lemma validate_rules_Some {W : Type} (c : PipelineConfig W) (rules : list PolicyStageRule) (e : ConfigError) :
  validate_rules (active_stages c) (cfg_registry c) rules = Some e ->
  exists psr, psr ∈ rules /\ validate_rule (active_stages c) (cfg_registry c) psr = Some e.
Proof.
  induction rules as [|psr rules IH]; [done|]. cbn [validate_rules].
  destruct (validate_rule _ _ psr) as [e'|] eqn:Hv.
  - intros [= ->]. exists psr. split; [left|done].
  - intros Hr. destruct (IH Hr) as (psr' & Hin & Hv'). exists psr'. split; [by right|done].
Qed.

Lemma validate_Some {W : Type} (b : Builder W) (e : ConfigError) :
  validate b = Some e ->
  match ce_code e with
  | RequiredStageMissing => has_emit_ b = false \/ mc_targets (cfg_emit (config_ b)) = []
  | LatencyBudgetExceeded => cfg_latency_budget (config_ b) < total_timeout (config_ b)
  | InvalidShardingConfig => num_cells (cfg_sharding (config_ b)) <= cells_per_tenant (cfg_sharding (config_ b))
  | UndefinedStageDependency => exists psr id v, policy_rule_of (config_ b) psr /\
      subrule (StageVerdictIs id v) (psr_rule psr) /\ (id = "policy" \/ ~ stage_present (config_ b) id)
  | InvalidPolicyRule => ~ types_registered (config_ b)
  | _ => False
  end.
Proof.
  unfold validate. rewrite total_timeout_sum. destruct (has_emit_ b); [|intros [= <-]; by left].
  destruct (mc_targets (cfg_emit (config_ b))) as [|t ts]; [intros [= <-]; by right|]. cbn [negb orb length Nat.eqb].
  destruct (Z.ltb_spec (cfg_latency_budget (config_ b)) (sum_stage_timeouts (config_ b))); [by intros [= <-]|].
  destruct (Z.leb_spec (num_cells (cfg_sharding (config_ b))) (cells_per_tenant (cfg_sharding (config_ b)))); [by intros [= <-]|].
  destruct (cfg_policy (config_ b)) as [p|] eqn:Hp; [|done]. intros (psr & Hpsr & Hv)%validate_rules_Some.
  assert (Hr : policy_rule_of (config_ b) psr) by by exists p. apply validate_rule_Some in Hv; [|done].
  destruct (ce_code e); try done. destruct Hv as (id & v & Hv). by exists psr, id, v.
Qed.

Lemma sample_contract : contract_valid (sample_config true (mkShardingConfig 16 4 0)).
Proof.
  split; try done; try (cbn; lia). intros psr id (p & [= <-] & Hpsr) Hn. apply list_elem_of_singleton in Hpsr as ->.
  assert (Hid : id = "eval").
  { destruct Hn as [[v Hs]|Hs]; inversion Hs as [|? ? Hl|? ? Hr| | |]; subst; try (inversion Hl; done); try (inversion Hr; done). }
  subst. unfold stage_present. cbn. set_solver.
Qed.

(** ** Properties *)



(** Configurations the contract refuses and [build] accepts: no pipeline id, a
    budget above 10 seconds, a rule on the degradation of a stage there is not. *)
Example accepted_against_contract :
  let accepted c := build (mkBuilder c true) = Ok c /\ ~ contract_valid c in
  accepted (bare_config "" 300 []) /\ accepted (bare_config "p" 20000 []) /\
  accepted (bare_config "p" 300 [mkPolicyStageRule (StageIsDegraded "no-such-stage") 1 Block "r" None]).
Proof.
  cbv zeta. split_and!; try reflexivity; intros [Hid _ _ Hst _ Hb].
  - by apply Hid.
  - cbn in Hb. lia.
  - assert (Hp : stage_present (bare_config "p" 300 [mkPolicyStageRule (StageIsDegraded "no-such-stage") 1 Block "r" None]) "no-such-stage").
    { eapply Hst; [by eexists; split; [done|left]|]. right. constructor. }
    unfold stage_present in Hp. cbn in Hp. set_solver.
Qed.

(** A rule on the verdict of the policy stage is refused, though the stage is there. *)
Example policy_stage_reference_refused :
  let c := bare_config "p" 300 [mkPolicyStageRule (StageVerdictIs "policy" Block) 1 Block "r" None] in
  (exists e, build (mkBuilder c true) = Unexpected (ErrConfig e) /\ ce_code e = UndefinedStageDependency) /\
  stage_present c "policy".
Proof. split; [by eexists|]. unfold stage_present. cbn. set_solver. Qed.

(** The builder's sharding check is not enough for the router: for every
    even N above 10 there are accepted configurations (K between N/2 + 6 and
    N - 1) whose router never returns from its first call for any tenant. *)
Theorem accepted_sharding_can_hang {W : Type} `{Clock W} `{StdHash} (b : Builder unit) (n k : Z)
    (Hvalid : build b = Ok (config_ b))
    (Hn : 10 < n < u32_mod) (Hev : (2 | n)) (Hk : n / 2 + 5 < k < n) :
  exists cfg, build (builder_sharding b (mkShardingConfig n k 0)) = Ok cfg /\
    forall fuel tenant (w : W),
      try_acquire fuel tenant w (router_new (cfg_sharding cfg) (cfg_rate_limit cfg)) = None.
Proof.
  exists (config_ (builder_sharding b (mkShardingConfig n k 0))). split.
  - unfold build in *. assert (Hnone : validate b = None) by (by destruct (validate b)).
    apply validate_None in Hnone as (He & Ht & Hs & _ & Hr).
    assert (Hv : validate (builder_sharding b (mkShardingConfig n k 0)) = None).
    { apply validate_None. split; [done|]. split_and!; simpl; [done|done|lia|exact Hr]. }
    by rewrite Hv.
  - intros fuel tenant w. unfold try_acquire, get_or_create_tenant. simpl. rewrite lookup_empty.
    unfold assign_cells.
    rewrite assign_loop_diverges; [done|done|done|lia|unfold u32_mod; lia|].
    split; [|constructor]. split; constructor.
Qed.

Lemma accepted_sharding_can_hang_witness :
  exists cfg, build (builder_sharding (mkBuilder (sample_config true (mkShardingConfig 16 4 0)) true)
      (mkShardingConfig 16 14 0)) = Ok cfg /\
    forall fuel tenant (w : Z),
      try_acquire (H := idle_clock) fuel tenant w (router_new (cfg_sharding cfg) (cfg_rate_limit cfg)) = None.
Proof.
  apply (accepted_sharding_can_hang (H := idle_clock)).
  - reflexivity.
  - unfold u32_mod. lia.
  - by exists 8.
  - split; reflexivity.
Defined.
