(* ===== verification/Stages.v ===== *)
(** * The ingest, evaluation and inference stages

    src/stage/ingest_stage.cpp, src/stage/eval_stage.cpp and
    src/stage/inference_stage.cpp.  A stage's [process] acts on the world and
    may throw when an evaluator does.  The worker threads of the inference
    stage are a class: a worker is spawned on a computation and polled. *)

From S2P Require Import Prelude Ieee CoreTypes Errors Config.
From Stdlib Require Import SpecFloat.

Open Scope list_scope.
Open Scope Z_scope.

(** [EvaluatorResult{.evaluator_id = id, .verdict = v, .reason_code = reason}]. *)
Definition plain_result (id : string) (v : Verdict) (reason : option string) : EvaluatorResult :=
  mkEvaluatorResult id v reason None false None None.

(** ** IngestStage *)

Section Ingest.

Context {W : Type} `{Clock W}.

Definition event_age_ms (now : Z) (e : Event) : Z := Z.quot (now - ev_timestamp e) ns_per_ms.

Definition ingest_process (c : IngestStageConfig) (event : Event)
    : M W (outcome (expected StageOutput Error)) :=
  do start <- steady_now;
  if negb (event_is_valid event) then
    do stop <- steady_now;
    retM (Returned (Ok (mkStageOutput "ingest" Pass
      [plain_result "ingest_validator" Pass (Some "invalid_event_fields")]
      Degraded.IngestValidationFailed (elapsed_us_of start stop))))
  else
    do now <- system_now;
    let late := Z.ltb (ic_skew_tolerance c) (event_age_ms now event) in
    let result := if late then plain_result "ingest_skew_check" Flag (Some "late_arrival")
                  else plain_result "ingest_validator" Pass None in
    do stop <- steady_now;
    retM (Returned (Ok (mkStageOutput "ingest" (if late then Flag else Pass) [result]
      Degraded.None (elapsed_us_of start stop)))).

End Ingest.

(** ** Failure modes *)

Definition apply_failure_mode (mode : FailureMode) (evaluator_id : string) : EvaluatorResult :=
  let '(v, reason) := match mode with
    | FailOpen => (Pass, "fail_open")
    | FailClosed => (Block, "fail_closed")
    | EmitDegraded => (Pass, "degraded")
    end in
  mkEvaluatorResult evaluator_id v (Some reason) None true None None.

(** [InferenceStage::apply_failure_mode], a copy of the other. *)
Definition inference_apply_failure_mode (mode : FailureMode) (evaluator_id : string) : EvaluatorResult :=
  match mode with
  | FailOpen => mkEvaluatorResult evaluator_id Pass (Some "fail_open") None true None None
  | FailClosed => mkEvaluatorResult evaluator_id Block (Some "fail_closed") None true None None
  | EmitDegraded => mkEvaluatorResult evaluator_id Pass (Some "degraded") None true None None
  end.

Lemma failure_modes_agree (mode : FailureMode) (evaluator_id : string) :
  inference_apply_failure_mode mode evaluator_id = apply_failure_mode mode evaluator_id.
Proof. by destruct mode. Qed.

(** ** EvalStage *)

Definition count_blocks (results : list EvaluatorResult) : Z :=
  foldl (fun n r => if verdict_eqb (er_verdict r) Block then n + 1 else n) 0 results.

Definition has_verdict (v : Verdict) (results : list EvaluatorResult) : bool :=
  existsb (fun r => verdict_eqb (er_verdict r) v) results.

Definition compose (rule : CompositionRule) (results : list EvaluatorResult) : Verdict :=
  if Nat.eqb (length results) 0 then Pass
  else match rule with
       | AnyBlock =>
           if has_verdict Block results then Block
           else if has_verdict Flag results then Flag else Pass
       | AnyFlag => fold_left (fun best r => max_verdict best (er_verdict r)) results Pass
       | Unanimous =>
           if existsb (fun r => negb (verdict_eqb (er_verdict r) Block)) results then Pass else Block
       | Majority => if Z.ltb (Z.of_nat (length results)) (count_blocks results * 2) then Block else Pass
       | WeightedScore => Pass
       end.

Section Eval.

Context {W : Type} `{Clock W}.

(** The loop over the evaluators from index [i] on. *)
Fixpoint eval_loop (mode : FailureMode) (i : nat) (fns : list (EvaluatorFn W)) (event : Event)
    : M W (outcome (list EvaluatorResult * DegradedReason)) :=
  match fns with
  | [] => retM (Returned ([], Degraded.None))
  | fn :: fns' =>
      call result <- fn event;
      let '(r, bit) := match result with
        | Ok r => (r, Degraded.None)
        | Unexpected _ =>
            (apply_failure_mode mode ("evaluator_" +:+ to_string_Z (Z.of_nat i)), Degraded.EvaluatorError)
        end in
      call rest <- eval_loop mode (S i) fns' event;
      let '(rs, bits) := rest in
      retM (Returned (r :: rs, degraded_or bit bits))
  end.

Definition eval_process (c : EvalStageConfig W) (event : Event)
    : M W (outcome (expected StageOutput Error)) :=
  do start <- steady_now;
  call out <- eval_loop (ec_failure_mode c) 0 (ec_evaluators c) event;
  let '(results, degraded) := out in
  do stop <- steady_now;
  retM (Returned (Ok (mkStageOutput "eval" (compose (ec_composition c) results) results degraded
    (elapsed_us_of start stop)))).

End Eval.

(** ** InferenceStage *)

(** [std::thread] running an evaluator that stores its result and then sets the
    [completed] flag: [poll] is the load of the flag with, when set, the result. *)
Class Workers (W : Type) : Type := {
  spawn : EvaluatorFn W -> Event -> M W Z;
  poll : Z -> M W (option (expected EvaluatorResult EvaluatorError));
  detach : Z -> M W unit;
  join : Z -> M W unit
}.

Inductive await_result : Type :=
| Completed (r : expected EvaluatorResult EvaluatorError)
| TimedOut
| OutOfFuel.

Definition poll_interval_ns : Z := 100 * ns_per_us.

Section Inference.

Context {W : Type} `{Clock W} `{Workers W}.

(** Rounds granted to the polling loop. *)
Variable fuel : nat.

Fixpoint await (rounds : nat) (deadline worker : Z) : M W await_result :=
  match rounds with
  | O => retM OutOfFuel
  | S rounds' =>
      do done_ <- poll worker;
      match done_ with
      | Some r => retM (Completed r)
      | None =>
          do now <- steady_now;
          if Z.leb deadline now then retM TimedOut
          else
            do _ <- sleep_for poll_interval_ns;
            await rounds' deadline worker
      end
  end.

Definition inference_evaluator_id (i : nat) : string :=
  "inference_evaluator_" +:+ to_string_Z (Z.of_nat i).

(** One evaluator: its result and the degraded bit, [None] out of fuel. *)
Definition run_worker (c : InferenceStageConfig W) (i : nat) (fn : EvaluatorFn W) (event : Event)
    : M W (option (EvaluatorResult * DegradedReason)) :=
  do worker <- spawn fn event;
  do now <- steady_now;
  let deadline := now + nc_timeout c * ns_per_ms in
  do outcome_ <- await fuel deadline worker;
  match outcome_ with
  | OutOfFuel => retM None
  | TimedOut =>
      do _ <- detach worker;
      retM (Some (inference_apply_failure_mode (nc_failure_mode c) (inference_evaluator_id i), Degraded.EvaluatorTimeout))
  | Completed r =>
      do _ <- join worker;
      match r with
      | Ok res => retM (Some (res, Degraded.None))
      | Unexpected _ =>
          retM (Some (inference_apply_failure_mode (nc_failure_mode c) (inference_evaluator_id i), Degraded.EvaluatorError))
      end
  end.

Fixpoint inference_loop (c : InferenceStageConfig W) (i : nat) (fns : list (EvaluatorFn W)) (event : Event)
    : M W (option (list EvaluatorResult * DegradedReason)) :=
  match fns with
  | [] => retM (Some ([], Degraded.None))
  | fn :: fns' =>
      do one <- run_worker c i fn event;
      match one with
      | None => retM None
      | Some (r, bit) =>
          do rest <- inference_loop c (S i) fns' event;
          match rest with
          | None => retM None
          | Some (rs, bits) => retM (Some (r :: rs, degraded_or bit bits))
          end
      end
  end.

End Inference.

(** The weighted-score composition, or the maximum of the verdicts. *)
Definition score_step (acc : float32 * Z) (r : EvaluatorResult) : float32 * Z :=
  match er_score r with
  | Some s => if negb (er_skipped r) then (f32_add acc.1 s, acc.2 + 1) else acc
  | None => acc
  end.

Definition average_score (results : list EvaluatorResult) : float32 :=
  let '(score_sum, score_count) := foldl score_step (f32_zero, 0) results in
  if Z.ltb 0 score_count then f32_div score_sum (f32_of_Z score_count) else f32_zero.

Definition inference_verdict (rule : CompositionRule) (threshold : float32) (results : list EvaluatorResult)
    : Verdict :=
  if (bool_decide (rule = WeightedScore) && negb (Nat.eqb (length results) 0))%bool
  then if f_gt (average_score results) threshold then Flag else Pass
  else fold_left (fun v r => max_verdict v (er_verdict r)) results Pass.

(** [None] when the fuel of a polling loop ran out. *)
Definition inference_process {W : Type} `{Clock W} `{Workers W} (fuel : nat) (c : InferenceStageConfig W)
    (event : Event) : M W (option (expected StageOutput Error)) :=
  do start <- steady_now;
  do out <- inference_loop fuel c 0 (nc_evaluators c) event;
  match out with
  | None => retM None
  | Some (results, degraded) =>
      do stop <- steady_now;
      retM (Some (Ok (mkStageOutput "inference"
        (inference_verdict (nc_composition c) (nc_score_threshold c) results) results degraded
        (elapsed_us_of start stop))))
  end.

(** ** Specification vocabulary *)

(** The results of running the evaluators one after the other, unless one throws. *)
Fixpoint run_all {W : Type} (fns : list (EvaluatorFn W)) (event : Event)
    : M W (outcome (list (expected EvaluatorResult EvaluatorError))) :=
  match fns with
  | [] => retM (Returned [])
  | fn :: fns' =>
      call r <- fn event;
      call rs <- run_all fns' event;
      retM (Returned (r :: rs))
  end.

(** What the stage records for the [i]-th evaluator. *)
Definition recorded (mode : FailureMode) (i : nat) (r : expected EvaluatorResult EvaluatorError)
    : EvaluatorResult :=
  match r with
  | Ok res => res
  | Unexpected _ => apply_failure_mode mode ("evaluator_" +:+ to_string_Z (Z.of_nat i))
  end.

Definition any_failed (rs : list (expected EvaluatorResult EvaluatorError)) : bool :=
  existsb (fun r => negb (has_value r)) rs.

(** A steady clock that sleeping moves forward by at least the time asked for and
    that no other action turns back. *)
Class TimedWorkers (W : Type) `{Clock W} `{Workers W} : Type := {
  time : W -> Z;
  law_now : forall w, time w <= (steady_now w).1 <= time (steady_now w).2;
  law_sleep : forall ns w, time w + ns <= time (sleep_for ns w).2;
  law_spawn : forall fn e w, time w <= time (spawn fn e w).2;
  law_poll : forall h w, time w <= time (poll h w).2;
  law_detach : forall h w, time w <= time (detach h w).2;
  law_join : forall h w, time w <= time (join h w).2
}.

(** Rounds that always suffice: one per 100 microseconds of the timeout, and one. *)
Definition await_fuel (timeout_ms : Z) : nat := S (Z.to_nat (10 * timeout_ms)).

(** Sample world: the clock; a worker finishes when the clock passes 1 ms. *)
#[local] Instance sample_clock : Clock Z := {
  steady_now := fun w => (w, w);
  system_now := fun w => (w, w);
  sleep_for := fun ns w => (tt, w + ns)
}.

Definition sample_score : EvaluatorResult :=
  mkEvaluatorResult "model" Pass None (Some (f32_of_Z 1)) false None None.

#[local] Instance sample_workers : Workers Z := {
  spawn := fun _ _ w => (0, w);
  poll := fun _ w => (if Z.leb ns_per_ms w then Some (Ok sample_score) else None, w);
  detach := fun _ w => (tt, w);
  join := fun _ w => (tt, w)
}.

Definition sample_event : Event := mkEvent 1 "acme" "bob" "login" 0 [] [].

Definition sample_inference (timeout_ms : Z) : InferenceStageConfig Z :=
  mkInferenceConfig timeout_ms FailClosed WeightedScore f32_zero
    [fun _ => retM (Returned (Ok sample_score))].

Definition failing_evaluator : EvaluatorFn Z :=
  fun _ => retM (Returned (Unexpected (mkEvaluatorError EvalInternalError "bad" "down"))).

Definition passing_evaluator : EvaluatorFn Z :=
  fun _ => retM (Returned (Ok (plain_result "good" Pass None))).

(** ** Lemmas: composition *)

Lemma has_verdict_spec (v : Verdict) (l : list EvaluatorResult) :
  has_verdict v l = true <-> exists r, r ∈ l /\ er_verdict r = v.
Proof.
  unfold has_verdict. rewrite existsb_elem_of. by setoid_rewrite verdict_eqb_eq.
Qed.

Lemma compose_any_block (l : list EvaluatorResult) :
  compose AnyBlock l = max_over er_verdict Pass l.
Proof.
  unfold compose. destruct (Nat.eqb_spec (length l) 0) as [Hl|Hl].
  { by destruct l. }
  destruct (has_verdict Block l) eqn:Hb; [|destruct (has_verdict Flag l) eqn:Hf].
  - apply has_verdict_spec in Hb as (r & Hr & Hv).
    pose proof (max_over_upper er_verdict Pass l r Hr) as Hu. rewrite Hv in Hu.
    unfold verdict_le in Hu. by destruct (max_over er_verdict Pass l).
  - apply has_verdict_spec in Hf as (r & Hr & Hv).
    pose proof (max_over_upper er_verdict Pass l r Hr) as Hu. rewrite Hv in Hu.
    destruct (max_over_attained er_verdict Pass l) as [Ha|(x & Hx & Ha)].
    + rewrite Ha in Hu. unfold verdict_le in Hu. simpl in Hu. lia.
    + destruct (max_over er_verdict Pass l) eqn:Em; [unfold verdict_le in Hu; simpl in Hu; lia|done|].
      assert (has_verdict Block l = true) by (apply has_verdict_spec; by exists x). congruence.
  - destruct (max_over_attained er_verdict Pass l) as [Ha|(x & Hx & Ha)]; [done|].
    destruct (max_over er_verdict Pass l) eqn:Em; [done|..].
    + assert (has_verdict Flag l = true) by (apply has_verdict_spec; by exists x). congruence.
    + assert (has_verdict Block l = true) by (apply has_verdict_spec; by exists x). congruence.
Qed.

Lemma count_blocks_filter (l : list EvaluatorResult) :
  count_blocks l = Z.of_nat (length (filter (fun r => er_verdict r = Block) l)).
Proof.
  unfold count_blocks.
  assert (Hgen : forall n, foldl (fun n r => if verdict_eqb (er_verdict r) Block then n + 1 else n) n l
    = n + Z.of_nat (length (filter (fun r => er_verdict r = Block) l))).
  { induction l as [|r l IH]; intros n; simpl; [lia|]. rewrite IH.
    destruct (verdict_eqb (er_verdict r) Block) eqn:Hv.
    - apply verdict_eqb_eq in Hv. rewrite filter_cons_True by done. simpl. lia.
    - rewrite filter_cons_False; [lia|]. intros Hb. apply verdict_eqb_eq in Hb. congruence. }
  apply Hgen.
Qed.

(** ** Lemmas: the evaluation loop *)

Section EvalLemmas.

Context {W : Type} `{Clock W}.

Lemma eval_loop_run_all (mode : FailureMode) (fns : list (EvaluatorFn W)) (event : Event) :
  forall i w,
  eval_loop mode i fns event w =
    match run_all fns event w with
    | (Threw what, w') => (Threw what, w')
    | (Returned rs, w') =>
        (Returned (imap (fun j r => recorded mode (i + j) r) rs,
                   if any_failed rs then Degraded.EvaluatorError else Degraded.None), w')
    end.
Proof.
  induction fns as [|fn fns IH]; intros i w; [done|].
  assert (Hshift : forall rs, imap (fun j x => recorded mode (S i + j) x) rs
      = imap ((fun j x => recorded mode (i + j) x) ∘ S) rs).
  { intros rs. apply imap_ext. intros j x _. simpl. by rewrite Nat.add_succ_r. }
  cbn [eval_loop run_all]. unfold bindX, retM.
  destruct (fn event w) as [[[res|err]|what] w1]; [..|done]; rewrite IH;
    destruct (run_all fns event w1) as [[rs|what] w2]; try done;
    rewrite Hshift; cbn [imap any_failed existsb has_value negb orb recorded]; rewrite ?Nat.add_0_r.
  - unfold any_failed. destruct (existsb _ rs); done.
  - unfold any_failed. by destruct (existsb _ rs).
Qed.

End EvalLemmas.

Section AwaitLemmas.

Context {W : Type} `{TimedWorkers W}.

Lemma await_terminates (rounds : nat) (deadline worker : Z) :
  forall w, deadline - time w <= Z.of_nat rounds * poll_interval_ns ->
  (await (S rounds) deadline worker w).1 <> OutOfFuel.
Proof.
  induction rounds as [|rounds IH]; intros w Hd; cbn [await]; unfold bindM, retM;
    pose proof (law_poll worker w) as Hp; destruct (poll worker w) as [[r|] w1]; try done;
    pose proof (law_now w1) as Hn; destruct (steady_now w1) as [now w2]; simpl in *;
    destruct (Z.leb_spec deadline now); try done; [lia|].
  pose proof (law_sleep poll_interval_ns w2) as Hs.
  destruct (sleep_for poll_interval_ns w2) as [[] w3]. apply IH. simpl in *.
  unfold poll_interval_ns in *. unfold ns_per_us in *. lia.
Qed.

Lemma run_worker_returns (c : InferenceStageConfig W) (i : nat) (fn : EvaluatorFn W) (event : Event) (w : W) :
  0 <= nc_timeout c ->
  (run_worker (await_fuel (nc_timeout c)) c i fn event w).1 <> None.
Proof.
  intros Ht. unfold run_worker, bindM, retM.
  destruct (spawn fn event w) as [h w1]. pose proof (law_now w1) as Hn.
  destruct (steady_now w1) as [now w2]. simpl in Hn.
  pose proof (await_terminates (Z.to_nat (10 * nc_timeout c)) (now + nc_timeout c * ns_per_ms) h w2) as Ha.
  unfold await_fuel.
  destruct (await (S (Z.to_nat (10 * nc_timeout c))) _ h w2) as [[r| |] w3]; simpl in Ha.
  - destruct (join h w3) as [[] w4]. by destruct r.
  - by destruct (detach h w3).
  - exfalso. apply Ha; [|done]. unfold poll_interval_ns, ns_per_ms, ns_per_us. lia.
Qed.

Lemma inference_loop_returns (c : InferenceStageConfig W) (fns : list (EvaluatorFn W)) (event : Event) :
  0 <= nc_timeout c -> forall i w,
  exists rs bits, (inference_loop (await_fuel (nc_timeout c)) c i fns event w).1 = Some (rs, bits) /\
    length rs = length fns.
Proof.
  intros Ht. induction fns as [|fn fns IH]; intros i w; cbn [inference_loop]; [by do 2 eexists|].
  unfold bindM, retM. pose proof (run_worker_returns c i fn event w Ht) as Hr.
  destruct (run_worker _ c i fn event w) as [[[r bit]|] w1]; [|done].
  destruct (IH (S i) w1) as (rs & bits & Heq & Hl).
  destruct (inference_loop _ c (S i) fns event w1) as [rest w2]. simpl in Heq. subst rest.
  do 2 eexists. split; [done|]. simpl. by rewrite Hl.
Qed.

End AwaitLemmas.

(** Results without a score that counts average to zero. *)
Lemma average_score_skipped (l : list EvaluatorResult) :
  Forall (fun r => er_score r = None \/ er_skipped r = true) l -> average_score l = f32_zero.
Proof.
  intros Hl. unfold average_score.
  assert (Hf : foldl score_step (f32_zero, 0) l = (f32_zero, 0)).
  { induction Hl as [|r l Hr _ IH]; [done|]. cbn [foldl]. unfold score_step at 2.
    destruct Hr as [->|Hs]; [done|]. destruct (er_score r); [|done]. by rewrite Hs. }
  by rewrite Hf.
Qed.

Lemma f_le_zero_not_gt (x : float32) : f_le f32_zero x = true -> f_gt f32_zero x = false.
Proof. destruct x as [[]|[]| |[]]; done. Qed.

(** ** Properties *)

(** The five composition rules decide as documented, on any list of results:
    AnyBlock and AnyFlag both give the worst verdict, Unanimous blocks when all
    (of at least one) block, Majority when more than half block, WeightedScore
    passes in this stage. *)
Theorem compose_correct (l : list EvaluatorResult) :
  compose AnyBlock l = max_over er_verdict Pass l /\
  compose AnyFlag l = max_over er_verdict Pass l /\
  (compose Unanimous l = Block <-> l <> [] /\ forall r, r ∈ l -> er_verdict r = Block) /\
  (compose Majority l = Block <->
    (length l < 2 * length (filter (fun r => er_verdict r = Block) l))%nat) /\
  compose WeightedScore l = Pass /\
  forall rule, compose rule [] = Pass.
Proof.
  split_and!.
  - apply compose_any_block.
  - unfold compose. destruct (Nat.eqb_spec (length l) 0); [by destruct l|]. done.
  - unfold compose. destruct l as [|x l']; [naive_solver|]. set (l := x :: l').
    change (Nat.eqb (length l) 0) with false. cbv iota.
    destruct (existsb _ l) eqn:E.
    + split; [done|]. intros [_ Hall]. apply existsb_elem_of in E as (r & Hr & Hn).
      apply negb_true_iff in Hn. rewrite (Hall r Hr) in Hn. done.
    + split; [|done]. intros _. split; [done|]. intros r Hr.
      apply (proj1 (existsb_not_elem_of _ _) E) in Hr. apply negb_false_iff in Hr.
      by apply verdict_eqb_eq.
  - unfold compose. destruct l as [|x l']; [simpl; split; [done|lia]|]. set (l := x :: l').
    change (Nat.eqb (length l) 0) with false. cbv iota. rewrite count_blocks_filter.
    destruct (Z.ltb_spec (Z.of_nat (length l))
      (Z.of_nat (length (filter (fun r => er_verdict r = Block) l)) * 2)); split; (done || lia).
  - unfold compose. by destruct (Nat.eqb _ _).
  - done.
Qed.

(** When no evaluator throws, the evaluation stage records exactly one
    result per evaluator, in order: the evaluator's own result, or a skipped
    result under the failure mode; it is degraded exactly when some evaluator
    failed, and under FailClosed with AnyBlock any failure blocks the event.
    A throwing evaluator aborts the stage. *)
Theorem eval_process_correct {W : Type} `{Clock W} (c : EvalStageConfig W) (event : Event) (w : W) :
  match run_all (ec_evaluators c) event (steady_now w).2 with
  | (Threw what, w') => eval_process c event w = (Threw what, w')
  | (Returned rs, w') => exists out,
      eval_process c event w = (Returned (Ok out), (steady_now w').2) /\
      so_evaluator_results out = imap (recorded (ec_failure_mode c)) rs /\
      length (so_evaluator_results out) = length rs /\
      so_verdict out = compose (ec_composition c) (so_evaluator_results out) /\
      so_degraded_reason out = (if any_failed rs then Degraded.EvaluatorError else Degraded.None) /\
      (ec_failure_mode c = FailClosed -> ec_composition c = AnyBlock -> any_failed rs = true ->
        so_verdict out = Block)
  end.
Proof.
  unfold eval_process, bindM, bindX, retM. destruct (steady_now w) as [start w1]. simpl snd.
  rewrite eval_loop_run_all.
  destruct (run_all (ec_evaluators c) event w1) as [[rs|what] w']; [|done].
  destruct (steady_now w') as [stop w2]. eexists. split; [done|]. simpl.
  split_and!; [done|by rewrite length_imap|done|done|].
  intros Hm Hc Hf. rewrite Hc, compose_any_block.
  change (max_over er_verdict Pass (imap (recorded (ec_failure_mode c)) rs) = Block).
  apply existsb_elem_of in Hf as (r & Hr & Hn). apply list_elem_of_lookup in Hr as [i Hi].
  assert (Hx : recorded (ec_failure_mode c) i r ∈ imap (recorded (ec_failure_mode c)) rs).
  { apply list_elem_of_lookup. exists i. by rewrite list_lookup_imap, Hi. }
  pose proof (max_over_upper er_verdict Pass _ _ Hx) as Hu.
  destruct r as [res|err]; [done|]. unfold verdict_le, recorded in Hu. rewrite Hm in Hu at 1.
  destruct (max_over er_verdict Pass _); simpl in Hu; (done || lia).
Qed.

(** C37: the polling loop of the inference stage always ends: with a steady clock
    that sleeping advances, [10 * timeout + 1] rounds per evaluator are enough
    for the stage to return one result per evaluator, whatever its workers do. *)
Theorem inference_always_returns {W : Type} `{TimedWorkers W} (c : InferenceStageConfig W)
    (event : Event) (w : W) (Ht : 0 <= nc_timeout c) :
  exists out, 
    (inference_process (await_fuel (nc_timeout c)) c event w).1 = Some (Ok out) /\
    length (so_evaluator_results out) = length (nc_evaluators c).
Proof.
  unfold inference_process, bindM, retM. destruct (steady_now w) as [start w1].
  destruct (inference_loop_returns c (nc_evaluators c) event Ht 0%nat w1) as (rs & bits & Heq & Hl).
  destruct (inference_loop _ c 0 (nc_evaluators c) event w1) as [out w2]. simpl in Heq. subst out.
  destruct (steady_now w2) as [stop w3]. eexists. split; [done|]. exact Hl.
Qed.

Lemma sample_law_sleep (ns w : Z) : w + ns <= (sleep_for ns w).2.
Proof. simpl. lia. Qed.

Lemma sample_law_now (w : Z) : w <= (steady_now w).1 <= (steady_now w).2.
Proof. simpl. lia. Qed.

#[local] Instance sample_timed : TimedWorkers Z := {
  time := fun w => w;
  law_now := sample_law_now;
  law_sleep := sample_law_sleep;
  law_spawn := fun _ _ w => Z.le_refl w;
  law_poll := fun _ w => Z.le_refl w;
  law_detach := fun _ w => Z.le_refl w;
  law_join := fun _ w => Z.le_refl w
}.

Lemma inference_always_returns_witness :
  exists out, (inference_process (await_fuel 5) (sample_inference 5) sample_event 0).1 = Some (Ok out) /\
    length (so_evaluator_results out) = 1%nat.
Proof.
  apply (inference_always_returns (sample_inference 5) sample_event 0). simpl. lia.
Defined.

(** Under WeightedScore an inference stage in FailClosed mode still passes
    the event when every evaluator failed or timed out (threshold not
    negative), although each recorded result says Block: skipped results do not
    count, and an empty average is 0. *)
Theorem weighted_fail_closed_passes (threshold : float32) (results : list EvaluatorResult)
    (Hall : Forall (fun r => exists id, r = inference_apply_failure_mode FailClosed id) results)
    (Ht : f_le f32_zero threshold = true) :
  inference_verdict WeightedScore threshold results = Pass /\
  Forall (fun r => er_verdict r = Block /\ er_skipped r = true) results.
Proof.
  assert (Hs : Forall (fun r => er_verdict r = Block /\ er_skipped r = true) results)
    by (eapply Forall_impl; [exact Hall|]; intros r [id ->]; done).
  split; [|done]. unfold inference_verdict. rewrite average_score_skipped.
  - rewrite bool_decide_eq_true_2 by done.
    assert (Hz : f_gt f32_zero threshold = false) by (by apply f_le_zero_not_gt).
    rewrite Hz. destruct results; done.
  - eapply Forall_impl; [exact Hs|]. naive_solver.
Qed.

Lemma weighted_fail_closed_passes_witness :
  inference_verdict WeightedScore (f32_of_Z 1) [inference_apply_failure_mode FailClosed "inference_evaluator_0"] = Pass.
Proof.
  apply (weighted_fail_closed_passes (f32_of_Z 1) [inference_apply_failure_mode FailClosed "inference_evaluator_0"]).
  - repeat constructor. by eexists.
  - reflexivity.
Defined.

(** The ingest stage always returns one result and never blocks: an event
    without tenant or entity is passed but marked IngestValidationFailed; a
    valid one is not degraded, and is flagged exactly when its age at receipt
    exceeds the skew tolerance. *)
Theorem ingest_outcomes {W : Type} `{Clock W} (c : IngestStageConfig) (event : Event) (w : W) :
  exists out w', ingest_process c event w = (Returned (Ok out), w') /\
    so_stage_id out = "ingest" /\ length (so_evaluator_results out) = 1%nat /\ so_verdict out <> Block /\
    if event_is_valid event
    then so_degraded_reason out = Degraded.None /\
         (so_verdict out = Flag <-> ic_skew_tolerance c < event_age_ms (system_now (steady_now w).2).1 event)
    else so_degraded_reason out = Degraded.IngestValidationFailed /\ so_verdict out = Pass.
Proof.
  unfold ingest_process, bindM, retM. destruct (steady_now w) as [start w1]. simpl snd.
  destruct (event_is_valid event); simpl.
  - destruct (system_now w1) as [now w2]. destruct (steady_now w2) as [stop w3].
    do 2 eexists. split; [done|]. simpl.
    destruct (Z.ltb_spec (ic_skew_tolerance c) (event_age_ms now event)); split_and!; naive_solver lia.
  - destruct (steady_now w1) as [stop w2]. do 2 eexists. split; [done|]. done.
Qed.
