(* ===== verification/InferenceWorkers.v ===== *)
(** * The workers of the inference stage and what they refer to

    The loop of [InferenceStage::process] (src/stage/inference_stage.cpp) starts
    one thread per evaluator, whose lambda refers to two locals of the loop's
    turn, [result_holder] and [completed].  Stages.v is about what the loop
    returns; this file is about the life of those locals: the loop and its
    workers interleave, a turn that times out detaches its worker and leaves the
    scope of its locals, and a worker that goes on touches what is gone. *)

From S2P Require Import Prelude.

Open Scope list_scope.

(** A worker: evaluating, about to set [completed], over. *)
Inductive worker_state : Type := Evaluating | Storing | WorkerOver.

(** One turn of the loop: whether its locals are alive, the value of [completed],
    its worker, and whether that was detached. *)
Record Turn : Type := mkTurn {
  tn_alive : bool;
  tn_completed : bool;
  tn_worker : worker_state;
  tn_detached : bool
}.

(** The thread of the stage: before a turn; at the loop's condition; past it with
    [completed] not set; past the deadline; joining; past the loop. *)
Inductive stage_state : Type :=
| BeforeTurn
| AtCondition
| NotCompleted
| PastDeadline
| Joining
| PastLoop.

Record Inference : Type := mkInference {
  in_stage : stage_state;
  in_turns : list Turn;      (** the turns begun; the last is the current one *)
  in_stale : list nat        (** history: turns whose locals were touched after their end *)
}.

Definition inference_new : Inference := mkInference BeforeTurn [] [].

(** The locals go out of scope, by the join or by the [goto]. *)
Definition end_turn (t : Turn) (by_detach : bool) : Turn :=
  mkTurn false (tn_completed t) (tn_worker t) (by_detach || tn_detached t)%bool.

(** [result_holder = fn(event)]. *)
Definition write_result (t : Turn) : Turn := mkTurn (tn_alive t) (tn_completed t) Storing (tn_detached t).

(** [completed.store(true)]. *)
Definition store_completed (t : Turn) : Turn := mkTurn (tn_alive t) true WorkerOver (tn_detached t).

Definition with_turn (s : Inference) (st : stage_state) (i : nat) (t : Turn) : Inference :=
  mkInference st (<[i := t]> (in_turns s)) (in_stale s).

(** A worker touches the locals of its turn. *)
Definition touched (s : Inference) (i : nat) (t t' : Turn) : Inference :=
  mkInference (in_stage s) (<[i := t']> (in_turns s)) (if tn_alive t then in_stale s else in_stale s ++ [i]).

Section Steps.

(** The number of evaluators. *)
Variable n : nat.

Definition current (s : Inference) : nat := pred (length (in_turns s)).

Inductive inference_step : Inference -> Inference -> Prop :=
| inf_spawn s :
    in_stage s = BeforeTurn -> (length (in_turns s) < n)%nat ->
    inference_step s (mkInference AtCondition (in_turns s ++ [mkTurn true false Evaluating false]) (in_stale s))
| inf_leave s :
    in_stage s = BeforeTurn -> length (in_turns s) = n ->
    inference_step s (mkInference PastLoop (in_turns s) (in_stale s))
| inf_completed s t :
    in_stage s = AtCondition -> in_turns s !! current s = Some t -> tn_completed t = true ->
    inference_step s (mkInference Joining (in_turns s) (in_stale s))
| inf_not_completed s t :
    in_stage s = AtCondition -> in_turns s !! current s = Some t -> tn_completed t = false ->
    inference_step s (mkInference NotCompleted (in_turns s) (in_stale s))
| inf_sleep s :
    in_stage s = NotCompleted -> inference_step s (mkInference AtCondition (in_turns s) (in_stale s))
| inf_deadline s :
    in_stage s = NotCompleted -> inference_step s (mkInference PastDeadline (in_turns s) (in_stale s))
| inf_detach s t :
    in_stage s = PastDeadline -> in_turns s !! current s = Some t ->
    inference_step s (with_turn s BeforeTurn (current s) (end_turn t true))
| inf_join s t :
    in_stage s = Joining -> in_turns s !! current s = Some t -> tn_worker t = WorkerOver ->
    inference_step s (with_turn s BeforeTurn (current s) (end_turn t false))
| inf_write s i t :
    in_turns s !! i = Some t -> tn_worker t = Evaluating -> inference_step s (touched s i t (write_result t))
| inf_store s i t :
    in_turns s !! i = Some t -> tn_worker t = Storing -> inference_step s (touched s i t (store_completed t)).

Definition inference_reachable (s : Inference) : Prop := rtc inference_step inference_new s.

End Steps.

(** ** Lemmas *)

(** A turn that is over and was not detached has a worker that is over. *)
Definition turn_ok (t : Turn) : Prop :=
  (tn_alive t = false -> tn_detached t = false -> tn_worker t = WorkerOver) /\
  (tn_alive t = true -> tn_detached t = false).

Record inference_inv (s : Inference) : Prop := {
  inf_turns : Forall turn_ok (in_turns s);
  inf_stale : forall i, i ∈ in_stale s -> exists t, in_turns s !! i = Some t /\ tn_detached t = true;
  inf_alive : forall i t, in_turns s !! i = Some t -> tn_alive t = true ->
    i = current s /\ in_stage s <> BeforeTurn /\ in_stage s <> PastLoop
}.

(** A change of the thread of the stage alone. *)
Lemma inference_inv_stage (s : Inference) (st : stage_state) :
  inference_inv s -> (st = PastLoop -> in_stage s = BeforeTurn) ->
  st <> BeforeTurn -> inference_inv (mkInference st (in_turns s) (in_stale s)).
Proof.
  intros [Ht Hs Ha] Hto Hst. split; [exact Ht|exact Hs|]. intros i t Hi Hal.
  destruct (Ha i t Hi Hal) as (Hc & Hb & Hp). split_and!; [exact Hc|exact Hst|]. cbn. intros Heq. by apply Hb, Hto.
Qed.

Lemma detached_kept (s : Inference) (i : nat) (t t' : Turn) (l : list nat) :
  (forall j, j ∈ l -> exists u, in_turns s !! j = Some u /\ tn_detached u = true) ->
  in_turns s !! i = Some t -> (tn_detached t = true -> tn_detached t' = true) ->
  forall j, j ∈ l -> exists u, <[i := t']> (in_turns s) !! j = Some u /\ tn_detached u = true.
Proof.
  intros Hl Hi Hd j Hj. destruct (Hl j Hj) as (u & Hu & Hdu). destruct (decide (i = j)) as [<-|Hne].
  - exists t'. split; [apply list_lookup_insert_eq; by eapply lookup_lt_Some|]. apply Hd. congruence.
  - exists u. by rewrite list_lookup_insert_ne.
Qed.

(** The turn that ends is the one that is alive. *)
Lemma inference_inv_end (s : Inference) (t : Turn) (by_detach : bool) :
  inference_inv s -> in_turns s !! current s = Some t -> (by_detach = false -> tn_worker t = WorkerOver) ->
  inference_inv (with_turn s BeforeTurn (current s) (end_turn t by_detach)).
Proof.
  intros [Ht Hs Ha] Hi Hover. pose proof (lookup_lt_Some _ _ _ Hi) as Hlt. split; cbn.
  - apply Forall_insert; [exact Ht|]. split; cbn; [|done]. intros _ Hd. apply orb_false_iff in Hd as [Hd _]. auto.
  - eapply detached_kept; [exact Hs|exact Hi|]. cbn. intros ->. by destruct by_detach.
  - intros i u Hu Hal. exfalso. destruct (decide (current s = i)) as [<-|Hne].
    + rewrite list_lookup_insert_eq in Hu by done. by injection Hu as <-.
    + rewrite list_lookup_insert_ne in Hu by done. by destruct (Ha i u Hu Hal) as [-> _].
Qed.

(** A worker that goes on keeps its turn and is recorded when it should not have. *)
Lemma inference_inv_touch (s : Inference) (i : nat) (t t' : Turn) :
  inference_inv s -> in_turns s !! i = Some t -> tn_worker t <> WorkerOver -> tn_alive t' = tn_alive t ->
  tn_detached t' = tn_detached t -> inference_inv (touched s i t t').
Proof.
  intros [Ht Hs Ha] Hi Hw Hal Hde. pose proof (lookup_lt_Some _ _ _ Hi) as Hlt.
  assert (Hok : turn_ok t) by (rewrite Forall_forall in Ht; apply Ht; by eapply list_elem_of_lookup_2).
  assert (Hdet : tn_alive t = false -> tn_detached t = true).
  { intros Hf. destruct (tn_detached t) eqn:Hd; [done|]. destruct Hw. by apply Hok. }
  split; cbn.
  - apply Forall_insert; [exact Ht|]. split; [|by rewrite Hal, Hde; apply Hok].
    rewrite Hal, Hde. intros Hf Hd. rewrite (Hdet Hf) in Hd. done.
  - apply (detached_kept s i t t'); [|exact Hi|by rewrite Hde]. destruct (tn_alive t); [exact Hs|].
    intros j [Hj|Hj]%elem_of_app; [by apply Hs|]. apply list_elem_of_singleton in Hj as ->. exists t. auto.
  - unfold current. cbn. rewrite length_insert. intros j u Hu Halu. destruct (decide (i = j)) as [<-|Hne].
    + rewrite list_lookup_insert_eq in Hu by done. injection Hu as <-. apply (Ha i t Hi). congruence.
    + rewrite list_lookup_insert_ne in Hu by done. by apply (Ha j u).
Qed.

Lemma inference_inv_step (n : nat) (s s' : Inference) : inference_step n s s' -> inference_inv s -> inference_inv s'.
Proof.
  intros Hstep Hinv.
  destruct Hstep as [s Hst Hlt|s Hst Hlen|s t Hst Hi Hc|s t Hst Hi Hc|s Hst|s Hst|s t Hst Hi|s t Hst Hi Hw|s i t Hi Hw|s i t Hi Hw].
  - destruct Hinv as [Ht Hs Ha]. split; cbn.
    + apply Forall_app. split; [exact Ht|]. by repeat constructor.
    + intros i Hi. destruct (Hs i Hi) as (t & Hti & Hd). exists t. split; [by apply lookup_app_l_Some|done].
    + intros i t Hi Hal. apply lookup_app_Some in Hi as [Hi|[Hge Hi]].
      * destruct (Ha i t Hi Hal) as (_ & Hb & _). done.
      * unfold current. cbn. rewrite length_app. cbn. apply list_lookup_singleton_Some in Hi as [Hz _].
        split_and!; [lia|done|done].
  - by apply inference_inv_stage.
  - by apply inference_inv_stage.
  - by apply inference_inv_stage.
  - by apply inference_inv_stage.
  - by apply inference_inv_stage.
  - by apply inference_inv_end.
  - by apply inference_inv_end.
  - apply inference_inv_touch; [done|done|by rewrite Hw|done|done].
  - apply inference_inv_touch; [done|done|by rewrite Hw|done|done].
Qed.

Lemma inference_reachable_inv (n : nat) (s : Inference) : inference_reachable n s -> inference_inv s.
Proof.
  intros Hrun. assert (Hinit : inference_inv inference_new).
  { split; cbn; [by constructor|intros i Hi; by apply elem_of_nil in Hi|done]. }
  revert Hinit. induction Hrun as [|x y z Hstep _ IH]; [done|]. intros Hx. by apply IH, (inference_inv_step n x).
Qed.

Lemma inference_reachable_step (n : nat) (s s' : Inference) :
  inference_reachable n s -> inference_step n s s' -> inference_reachable n s'.
Proof. intros Hs Hstep. eapply rtc_r; [exact Hs|exact Hstep]. Qed.

(** A stage with one evaluator that takes too long. *)
Definition timed_out_stage : Inference :=
  mkInference PastLoop [mkTurn false false Evaluating true] [].

Lemma timed_out_stage_reachable : inference_reachable 1 timed_out_stage.
Proof.
  eapply rtc_l; [by apply inf_spawn; [|cbn; lia]|]. eapply rtc_l; [by eapply inf_not_completed|].
  eapply rtc_l; [by apply inf_deadline|]. eapply rtc_l; [by eapply inf_detach|]. apply rtc_once. by apply inf_leave.
Qed.

(** ** Properties *)

(** C36: which workers of the inference stage touch what is gone: in every
    interleaving of the loop with its workers, only the worker of a turn that
    timed out ever does, a turn that ended by its join has no worker left, and
    the worker of a turn that timed out while it was at work always can, as
    nothing keeps [result_holder] and [completed] alive for it. *)
Theorem stale_workers_timed_out (n : nat) (s : Inference) (Hs : inference_reachable n s) :
  (forall i, i ∈ in_stale s -> exists t, in_turns s !! i = Some t /\ tn_detached t = true) /\
  (forall i t, in_turns s !! i = Some t -> tn_alive t = false -> tn_detached t = false -> tn_worker t = WorkerOver) /\
  (forall i t, in_turns s !! i = Some t -> tn_detached t = true -> tn_worker t <> WorkerOver ->
    exists s', inference_reachable n s' /\ rtc (inference_step n) s s' /\ i ∈ in_stale s').
Proof.
  destruct (inference_reachable_inv n s Hs) as [Ht Hstale Ha].
  assert (Hok : forall i t, in_turns s !! i = Some t -> turn_ok t)
    by (intros i t Hi; rewrite Forall_forall in Ht; apply Ht; by eapply list_elem_of_lookup_2).
  split_and!; [done|intros i t Hi; by apply (Hok i t Hi)|]. intros i t Hi Hd Hw.
  assert (Hal : tn_alive t = false) by (destruct (tn_alive t) eqn:Hal; [apply (Hok i t Hi) in Hal; congruence|done]).
  assert (Hgo : forall t', inference_step n s (touched s i t t') -> exists s', inference_reachable n s' /\
    rtc (inference_step n) s s' /\ i ∈ in_stale s').
  { intros t' Hstep. exists (touched s i t t'). split; [by eapply inference_reachable_step|].
    split; [by apply rtc_once|]. cbn. rewrite Hal. apply elem_of_app. right. by left. }
  destruct (tn_worker t) eqn:Hwk; [|..|done]; eapply Hgo; [by apply inf_write|by apply inf_store].
Qed.

Lemma stale_workers_timed_out_witness :
  in_stale timed_out_stage = [] /\ exists s', inference_reachable 1 s' /\ (0%nat) ∈ in_stale s'.
Proof.
  split; [reflexivity|].
  destruct (stale_workers_timed_out 1 timed_out_stage timed_out_stage_reachable) as (_ & _ & Hgo).
  destruct (Hgo 0%nat (mkTurn false false Evaluating true) eq_refl eq_refl) as (s' & Hr & _ & Hs); [done|].
  exists s'. split; [exact Hr|exact Hs].
Defined.
