(* ===== verification/EmitStage.v ===== *)
(** * EmitStage: delivery with retries

    src/stage/emit_stage.cpp.  Each target is called until it accepts the
    decision or the retries are used up, with exponential back-off.  The delay
    [10 * (1 << (attempts - 1))] is an [int] expression, undefined from the 29th
    attempt on; [attempts] is a [uint32_t]. *)

From S2P Require Import Prelude CoreTypes Errors Config Stages.

Open Scope list_scope.
Open Scope Z_scope.

(** The back-off in milliseconds after [attempts] failures; [None] when the
    [int] shift or product is undefined. *)
Definition backoff_ms (attempts : Z) : option Z :=
  let shift := wrap_u32 (attempts - 1) in
  if Z.leb 32 shift then None
  else
    let shifted := if Z.eqb shift 31 then - 2 ^ 31 else 2 ^ shift in
    let delay := 10 * shifted in
    if (Z.leb (- 2 ^ 31) delay && Z.ltb delay (2 ^ 31))%bool then Some delay else None.

(** How the loop over one target ends. *)
Inductive emission : Type :=
| Delivered (attempts : Z)          (** failures before the success *)
| Exhausted_retries (attempts : Z)
| TargetThrew (what : string)
| BackoffUndefined
| EmitOutOfFuel.

Section Emit.

Context {W : Type} `{Clock W}.

(** [while (attempts <= retry_limit)]; the branch that logs and counts the drop
    goes round the loop once more, where the condition fails. *)
Fixpoint emit_loop (fuel : nat) (retry_limit attempts : Z) (target : EmissionFn W) (d : Decision)
    : M W emission :=
  match fuel with
  | O => retM EmitOutOfFuel
  | S fuel' =>
      if Z.leb attempts retry_limit then
        do result <- target d;
        match result with
        | Threw what => retM (TargetThrew what)
        | Returned (Ok _) => retM (Delivered attempts)
        | Returned (Unexpected _) =>
            let attempts := wrap_u32 (attempts + 1) in
            if Z.leb attempts retry_limit then
              match backoff_ms attempts with
              | None => retM BackoffUndefined
              | Some delay =>
                  do _ <- sleep_for (delay * ns_per_ms);
                  emit_loop fuel' retry_limit attempts target d
              end
            else emit_loop fuel' retry_limit attempts target d
        end
      else retM (Exhausted_retries attempts)
  end.

(** Rounds for one target: the calls, and the last look at the condition. *)
Definition emit_fuel (retry_limit : Z) : nat := Z.to_nat (retry_limit + 2).

(** The state of the stage object: the drop counter. *)
Record EmitStage : Type := mkEmitStage {
  es_config : EmitStageConfig W;
  dropped_decisions_ : Z
}.

Definition delivered_result : EvaluatorResult := plain_result "emission_target" Pass None.

(** How the loop over the targets ends: the results, the bits and the drops, or
    what stopped it. *)
Inductive emit_end : Type :=
| EmitEnd (results : list EvaluatorResult) (degraded : DegradedReason) (drops : Z)
| EmitThrew (what : string)
| EmitUndefined
| EmitDiverges.

Fixpoint emit_targets (fuel : nat) (retry_limit : Z) (targets : list (EmissionFn W)) (d : Decision)
    : M W emit_end :=
  match targets with
  | [] => retM (EmitEnd [] Degraded.None 0)
  | target :: targets' =>
      do one <- emit_loop fuel retry_limit 0 target d;
      match one with
      | TargetThrew what => retM (EmitThrew what)
      | BackoffUndefined => retM EmitUndefined
      | EmitOutOfFuel => retM EmitDiverges
      | Delivered _ =>
          do rest <- emit_targets fuel retry_limit targets' d;
          match rest with
          | EmitEnd rs bits drops => retM (EmitEnd (delivered_result :: rs) bits drops)
          | other => retM other
          end
      | Exhausted_retries _ =>
          do rest <- emit_targets fuel retry_limit targets' d;
          match rest with
          | EmitEnd rs bits drops =>
              retM (EmitEnd rs (degraded_or Degraded.EmissionRetryExhausted bits) (drops + 1))
          | other => retM other
          end
      end
  end.

(** [process]: [None] when the stage never comes back or its behaviour is undefined. *)
Definition emit_process (st : EmitStage) (d : Decision)
    : M W (option (outcome (expected StageOutput Error * EmitStage))) :=
  do start <- steady_now;
  do r <- emit_targets (emit_fuel (mc_retry_limit (es_config st))) (mc_retry_limit (es_config st))
            (mc_targets (es_config st)) d;
  match r with
  | EmitUndefined | EmitDiverges => retM None
  | EmitThrew what => retM (Some (Threw what))
  | EmitEnd results degraded drops =>
      do stop <- steady_now;
      retM (Some (Returned
        (Ok (mkStageOutput "emit" Pass results degraded (elapsed_us_of start stop)),
         mkEmitStage (es_config st) (wrap_u64 (dropped_decisions_ st + drops)))))
  end.

(** [StdoutEmissionTarget::emit]. *)
Definition stdout_decision (d : Decision) : string :=
  "[decision] event=" +:+ to_string_Z (d_event_id d) +:+ " tenant=" +:+ d_tenant_id d +:+ " entity=" +:+ d_entity_id d
  +:+ " verdict=" +:+ (match d_final_verdict d with Pass => "pass" | Flag => "flag" | Block => "block" end)
  +:+ " elapsed_us=" +:+ to_string_Z (d_elapsed_us d)
  +:+ " degraded=" +:+ (if decision_is_degraded d then "1" else "0") +:+ String newline EmptyString.

Definition stdout_emission `{Stdout W} : EmissionFn W := fun d =>
  do _ <- print (stdout_decision d); retM (Returned (Ok tt)).

(** ** Specification vocabulary *)

(** The target did not take the decision. *)
Definition rejected (r : outcome (expected unit EmissionError)) : bool :=
  match r with Returned (Unexpected _) => true | _ => false end.

(** A target that never throws. *)
Definition no_throw (target : EmissionFn W) : Prop :=
  forall d w, match (target d w).1 with Threw _ => False | Returned _ => True end.

End Emit.

Arguments EmitStage W : clear implicits.

Lemma stdout_no_throw {W : Type} `{Stdout W} : no_throw (stdout_target (W := W)).
Proof. intros d w. unfold stdout_target, bindM. by destruct (print _ w). Qed.

(** Sample world: the clock and the number of rejections left. *)
#[local] Instance sample_clock : Clock (Z * Z) := {
  steady_now := fun w => (w.1, w);
  system_now := fun w => (w.1, w);
  sleep_for := fun ns w => (tt, (w.1 + ns, w.2))
}.

Definition flaky_target : EmissionFn (Z * Z) := fun _ w =>
  if Z.ltb 0 w.2 then (Returned (Unexpected (mkEmissionError TargetUnavailable "flaky" "")), (w.1, w.2 - 1))
  else (Returned (Ok tt), w).

Definition rejecting_target : EmissionFn (Z * Z) := fun _ w =>
  (Returned (Unexpected (mkEmissionError TargetUnavailable "down" "")), w).

Definition sample_stage (retry_limit : Z) : EmitStage (Z * Z) :=
  mkEmitStage (mkEmitConfig 10 EmitDegraded retry_limit [flaky_target]) 0.

Definition sample_decision : Decision := mkDecision "p" "1" 1 "acme" "bob" 0 [] Pass 0 0 [].

(** ** Lemmas *)

Section EmitLemmas.

Context {W : Type} `{Clock W}.

Lemma backoff_small (attempts : Z) : 1 <= attempts <= 28 -> backoff_ms attempts = Some (10 * 2 ^ (attempts - 1)).
Proof.
  intros Ha. unfold backoff_ms, wrap_u32, u32_mod. rewrite Z.mod_small by lia.
  destruct (Z.leb_spec 32 (attempts - 1)); [lia|].
  destruct (Z.eqb_spec (attempts - 1) 31); [lia|].
  assert (0 < 2 ^ (attempts - 1) <= 2 ^ 27)
    by (split; [apply Z.pow_pos_nonneg; lia|apply Z.pow_le_mono_r; lia]).
  destruct (Z.leb_spec (- 2 ^ 31) (10 * 2 ^ (attempts - 1))); [|lia].
  destruct (Z.ltb_spec (10 * 2 ^ (attempts - 1)) (2 ^ 31)); [done|lia].
Qed.

(** With at most 28 retries the loop over one target always ends. *)
Lemma emit_loop_ends (retry_limit : Z) (target : EmissionFn W) (d : Decision) :
  0 <= retry_limit <= 28 -> no_throw target ->
  forall n attempts w, 0 <= attempts <= retry_limit + 1 -> retry_limit + 2 - attempts <= Z.of_nat n ->
  match (emit_loop n retry_limit attempts target d w).1 with
  | Delivered a => attempts <= a <= retry_limit
  | Exhausted_retries a => a = retry_limit + 1
  | _ => False
  end.
Proof.
  intros Hr Ht. induction n as [|n IH]; intros attempts w Ha Hn; [lia|]. cbn [emit_loop].
  destruct (Z.leb_spec attempts retry_limit); [|unfold retM; simpl; lia].
  unfold bindM. specialize (Ht d w).
  destruct (target d w) as [[[[]|err]|what] w1]; simpl in Ht; [unfold retM; simpl; lia| |done].
  unfold wrap_u32, u32_mod. rewrite Z.mod_small by lia.
  destruct (Z.leb_spec (attempts + 1) retry_limit).
  - rewrite backoff_small by lia. destruct (sleep_for _ w1) as [[] w2].
    specialize (IH (attempts + 1) w2 ltac:(lia) ltac:(lia)).
    destruct (emit_loop n _ _ _ _ w2) as [[] w3]; simpl in *; lia.
  - specialize (IH (attempts + 1) w1 ltac:(lia) ltac:(lia)).
    destruct (emit_loop n _ _ _ _ w1) as [[] w3]; simpl in *; lia.
Qed.

(** Over all targets: each is delivered or dropped. *)
Lemma emit_targets_ends (retry_limit : Z) (targets : list (EmissionFn W)) (d : Decision) :
  0 <= retry_limit <= 28 -> Forall no_throw targets ->
  forall w, exists rs bits drops,
    (emit_targets (emit_fuel retry_limit) retry_limit targets d w).1 = EmitEnd rs bits drops /\
    Z.of_nat (length rs) + drops = Z.of_nat (length targets) /\ 0 <= drops /\
    Forall (fun r => r = delivered_result) rs /\
    bits = (if Z.ltb 0 drops then Degraded.EmissionRetryExhausted else Degraded.None).
Proof.
  intros Hr. induction 1 as [|target targets Ht _ IH]; intros w; cbn [emit_targets].
  - exists [], Degraded.None, 0. by split_and!.
  - unfold bindM.
    pose proof (emit_loop_ends retry_limit target d Hr Ht (emit_fuel retry_limit) 0 w ltac:(lia)
      ltac:(unfold emit_fuel; lia)) as Hl.
    destruct (emit_loop _ _ _ _ _ w) as [one w1]. simpl in Hl.
    destruct one as [a|a|what| |]; try done; destruct (IH w1) as (rs & bits & drops & Heq & Hlen & Hd & Hrs & Hb);
      destruct (emit_targets _ _ targets d w1) as [rest w2]; simpl in Heq; subst rest; unfold retM; simpl;
      do 3 eexists; (split; [done|]).
    + simpl. split_and!; [lia|done|by constructor|done].
    + split_and!; [lia|lia|done|]. subst bits.
      destruct (Z.ltb_spec 0 drops), (Z.ltb_spec 0 (drops + 1)); (done || lia).
Qed.

End EmitLemmas.

(** From the 29th back-off on the delay expression is undefined. *)
Lemma backoff_undefined (attempts : Z) : 29 <= attempts < u32_mod -> backoff_ms attempts = None.
Proof.
  intros Ha. unfold backoff_ms, wrap_u32, u32_mod in *. rewrite Z.mod_small by lia.
  destruct (Z.leb_spec 32 (attempts - 1)); [done|].
  assert (Hcases : attempts = 29 \/ attempts = 30 \/ attempts = 31 \/ attempts = 32) by lia.
  by destruct Hcases as [->|[->|[->| ->]]].
Qed.

(** A target that rejects everything leads there. *)
Lemma emit_loop_reaches_29 {W : Type} `{Clock W} (retry_limit : Z) (target : EmissionFn W) (d : Decision) :
  29 <= retry_limit < u32_mod - 1 -> (forall w, rejected (target d w).1 = true) ->
  forall n attempts w, 0 <= attempts <= 28 -> 29 - attempts <= Z.of_nat n ->
  (emit_loop n retry_limit attempts target d w).1 = BackoffUndefined.
Proof.
  intros Hr Ht. induction n as [|n IH]; intros attempts w Ha Hn; [lia|]. cbn [emit_loop].
  destruct (Z.leb_spec attempts retry_limit); [|lia].
  unfold bindM. specialize (Ht w) as Hw. destruct (target d w) as [[[[]|err]|what] w1]; try done.
  unfold u32_mod in *. unfold wrap_u32, u32_mod. rewrite Z.mod_small by lia.
  destruct (Z.leb_spec (attempts + 1) retry_limit); [|lia].
  destruct (Z.eq_dec attempts 28) as [->|].
  - by rewrite backoff_undefined by (unfold u32_mod; lia).
  - rewrite backoff_small by lia. destruct (sleep_for _ w1) as [[] w2]. apply IH; lia.
Qed.

(** ** Properties *)

(** With at most 28 retries and targets that do not throw, the emit stage
    always returns, within [retry_limit + 1] calls per target; every target is
    either recorded as delivered or counted as dropped, the stage is degraded
    exactly when some target was dropped, and its verdict is Pass. *)
Theorem emit_process_total {W : Type} `{Clock W} (st : EmitStage W) (d : Decision) (w : W)
    (Hr : 0 <= mc_retry_limit (es_config st) <= 28)
    (Ht : Forall no_throw (mc_targets (es_config st))) :
  exists out drops, 
    (emit_process st d w).1
      = Some (Returned (Ok out, mkEmitStage (es_config st) (wrap_u64 (dropped_decisions_ st + drops)))) /\
    so_verdict out = Pass /\
    Z.of_nat (length (so_evaluator_results out)) + drops = Z.of_nat (length (mc_targets (es_config st))) /\
    Forall (fun r => r = delivered_result) (so_evaluator_results out) /\
    so_degraded_reason out = (if Z.ltb 0 drops then Degraded.EmissionRetryExhausted else Degraded.None).
Proof.
  unfold emit_process, bindM. destruct (steady_now w) as [start w1].
  destruct (emit_targets_ends (mc_retry_limit (es_config st)) (mc_targets (es_config st)) d Hr Ht w1)
    as (rs & bits & drops & Heq & Hlen & _ & Hrs & Hb).
  destruct (emit_targets _ _ _ d w1) as [r w2]. simpl in Heq. subst r.
  destruct (steady_now w2) as [stop w3]. unfold retM. do 2 eexists. split; [done|]. done.
Qed.

Lemma emit_process_total_witness :
  exists out drops, (emit_process (sample_stage 3) sample_decision (0, 2)).1
    = Some (Returned (Ok out, mkEmitStage (es_config (sample_stage 3)) (wrap_u64 (0 + drops)))) /\
    so_verdict out = Pass.
Proof.
  destruct (emit_process_total (sample_stage 3) sample_decision (0, 2)) as (out & drops & Heq & Hv & _).
  - simpl. lia.
  - repeat constructor. intros d [t n]. unfold flaky_target. simpl. by destruct (Z.ltb 0 n).
  - exists out, drops. split; [exact Heq|exact Hv].
Defined.

(** A retry limit of 29 or more is not safe: when the first target keeps
    rejecting, the back-off expression overflows [int] before the retries are
    used up. *)
Theorem emit_backoff_overflows {W : Type} `{Clock W} (st : EmitStage W) (d : Decision) (w : W)
    (target : EmissionFn W) (targets : list (EmissionFn W))
    (Hr : 29 <= mc_retry_limit (es_config st) < u32_mod - 1)
    (Hts : mc_targets (es_config st) = target :: targets)
    (Hreject : forall w, rejected (target d w).1 = true) :
  (emit_process st d w).1 = None.
Proof.
  unfold emit_process, bindM. destruct (steady_now w) as [start w1]. rewrite Hts.
  cbn [emit_targets]. unfold bindM.
  pose proof (emit_loop_reaches_29 (mc_retry_limit (es_config st)) target d Hr Hreject
    (emit_fuel (mc_retry_limit (es_config st))) 0 w1 ltac:(lia) ltac:(unfold emit_fuel; lia)) as Hl.
  destruct (emit_loop _ _ _ _ _ w1) as [one w2]. simpl in Hl. by subst one.
Qed.

Lemma emit_backoff_overflows_witness :
  (emit_process (mkEmitStage (mkEmitConfig 10 EmitDegraded 29 [rejecting_target]) 0) sample_decision (0, 0)).1
    = None.
Proof.
  apply (emit_backoff_overflows (mkEmitStage (mkEmitConfig 10 EmitDegraded 29 [rejecting_target]) 0)
    sample_decision (0, 0) rejecting_target []).
  - simpl. unfold u32_mod. lia.
  - reflexivity.
  - intros w. reflexivity.
Defined.
