(* ===== verification/PolicyStage.v ===== *)
(** * PolicyStage: first-match and multi-decision policy evaluation

    src/stage/policy_stage.cpp.  Rule evaluation is a parameter that may throw
    (the code catches everything around it); [rule_engine] instantiates it with
    [RuleEngine::evaluate].  The registry is the pointer given to the stage. *)

From S2P Require Import Prelude CoreTypes Errors DecisionTypes RuleEngine Config Stages.

Open Scope list_scope.
Open Scope Z_scope.

(** A rule that fired in the multi-decision path. *)
Record Match : Type := mkMatch { m_type_id : string; m_priority : Z; m_result : EvaluatorResult }.

(** The stage output under construction. *)
Record policy_out : Type := mkPolicyOut {
  po_verdict : Verdict;
  po_results : list EvaluatorResult;
  po_degraded : DegradedReason
}.

Definition policy_out_new : policy_out := mkPolicyOut Pass [] Degraded.None.

(** The catch block: a skipped result; the stage verdict is left alone. *)
Definition rule_exception (mode : FailureMode) (psr : PolicyStageRule) (o : policy_out) : policy_out :=
  let degraded := mkEvaluatorResult
    (if str_empty (psr_rule_id psr) then "unknown_rule" else psr_rule_id psr)
    (if bool_decide (mode = FailClosed) then Block else Pass)
    (Some "rule_eval_exception") None true None None in
  mkPolicyOut (po_verdict o) (po_results o ++ [degraded])
    (degraded_or (po_degraded o) Degraded.EvaluatorError).

Definition fired_result (psr : PolicyStageRule) (type_id : option string) : EvaluatorResult :=
  mkEvaluatorResult (if str_empty (psr_rule_id psr) then "policy_rule" else psr_rule_id psr)
    (psr_action_verdict psr) (Some (psr_rule_id psr)) None false None type_id.

(** A match that contributes its verdict at once. *)
Definition add_fired (psr : PolicyStageRule) (o : policy_out) : policy_out :=
  mkPolicyOut (max_verdict (po_verdict o) (psr_action_verdict psr))
    (po_results o ++ [fired_result psr None]) (po_degraded o).

(** Keep the first occurrence of each type. *)
Definition dedupe_step (deduped : list Match) (m : Match) : list Match :=
  if existsb (fun existing => str_eqb (m_type_id existing) (m_type_id m)) deduped
  then deduped else deduped ++ [m].

Definition dedupe (matches : list Match) : list Match := fold_left dedupe_step matches [].

Definition fired (deduped : list Match) (type_id : string) : bool :=
  existsb (fun m => str_eqb (m_type_id m) type_id) deduped.

(** The loser an incompatible pair names, if both its types fired. *)
Definition pair_loser (registry : DecisionTypeRegistry) (deduped : list Match) (pair : IncompatiblePair)
    : option string :=
  if (negb (fired deduped (type_id_a pair)) || negb (fired deduped (type_id_b pair)))%bool then None
  else match registry_find registry (type_id_a pair), registry_find registry (type_id_b pair) with
       | Some desc_a, Some desc_b =>
           if Z.leb (dt_priority desc_a) (dt_priority desc_b)
           then Some (type_id_b pair) else Some (type_id_a pair)
       | _, _ => None
       end.

Definition losers (registry : DecisionTypeRegistry) (deduped : list Match) : list string :=
  omap (pair_loser registry deduped) (reg_incompatible registry).

(** The last loop: the matches that are no losers. *)
Definition emit_survivor (ls : list string) (o : policy_out) (m : Match) : policy_out :=
  if existsb (fun loser => str_eqb loser (m_type_id m)) ls then o
  else mkPolicyOut (max_verdict (po_verdict o) (er_verdict (m_result m)))
         (po_results o ++ [m_result m]) (po_degraded o).

Section Stage.

Context {W : Type} `{Clock W}.
Variable eval_rule : PolicyContext -> PolicyRule -> M W (outcome bool).

Fixpoint legacy_loop (mode : FailureMode) (ctx : PolicyContext) (rules : list PolicyStageRule)
    (o : policy_out) : M W policy_out :=
  match rules with
  | [] => retM o
  | psr :: rules' =>
      do matched <- eval_rule ctx (psr_rule psr);
      match matched with
      | Threw _ => legacy_loop mode ctx rules' (rule_exception mode psr o)
      | Returned true => retM (add_fired psr o)
      | Returned false => legacy_loop mode ctx rules' o
      end
  end.

Fixpoint multi_loop (mode : FailureMode) (registry : DecisionTypeRegistry) (ctx : PolicyContext)
    (rules : list PolicyStageRule) (o : policy_out) (matches : list Match)
    : M W (policy_out * list Match) :=
  match rules with
  | [] => retM (o, matches)
  | psr :: rules' =>
      do matched <- eval_rule ctx (psr_rule psr);
      match matched with
      | Threw _ => multi_loop mode registry ctx rules' (rule_exception mode psr o) matches
      | Returned false => multi_loop mode registry ctx rules' o matches
      | Returned true =>
          match psr_decision_type_id psr with
          | None => multi_loop mode registry ctx rules' (add_fired psr o) matches
          | Some type_id =>
              match registry_find registry type_id with
              | None => multi_loop mode registry ctx rules' o matches
              | Some desc =>
                  multi_loop mode registry ctx rules' o
                    (matches ++ [mkMatch type_id (dt_priority desc) (fired_result psr (Some type_id))])
              end
          end
      end
  end.

Definition use_multi (c : PolicyStageConfig) (registry : option DecisionTypeRegistry) : bool :=
  (bool_decide (is_Some registry)
   && existsb (fun psr => match psr_decision_type_id psr with Some _ => true | None => false end)
        (pcfg_rules c))%bool.

(** The multi-decision path after the loop over the rules. *)
Definition resolve_matches (registry : DecisionTypeRegistry) (o : policy_out) (matches : list Match)
    : policy_out :=
  let deduped := dedupe matches in
  fold_left (emit_survivor (losers registry deduped)) deduped o.

Definition policy_process (c : PolicyStageConfig) (registry : option DecisionTypeRegistry)
    (ctx : PolicyContext) : M W (outcome (expected StageOutput Error)) :=
  do start <- steady_now;
  do o <- match registry with
          | Some r =>
              if use_multi c registry then
                do om <- multi_loop (pcfg_failure_mode c) r ctx (pcfg_rules c) policy_out_new [];
                retM (resolve_matches r om.1 om.2)
              else legacy_loop (pcfg_failure_mode c) ctx (pcfg_rules c) policy_out_new
          | None => legacy_loop (pcfg_failure_mode c) ctx (pcfg_rules c) policy_out_new
          end;
  do stop <- steady_now;
  retM (Returned (Ok (mkStageOutput "policy" (po_verdict o) (po_results o) (po_degraded o)
    (elapsed_us_of start stop)))).

End Stage.

(** [RuleEngine::evaluate] as the stage calls it. *)
Definition rule_engine {W : Type} `{Clock W} : PolicyContext -> PolicyRule -> M W (outcome bool) :=
  fun ctx rule => do b <- evaluate ctx rule; retM (Returned b).

(** ** Specification vocabulary *)

(** Evaluations that leave the world alone: [says r] is what evaluating [r] gives. *)
Definition steady {W : Type} (eval_rule : PolicyContext -> PolicyRule -> M W (outcome bool))
    (ctx : PolicyContext) (says : PolicyRule -> outcome bool) (w : W) : Prop :=
  forall r, eval_rule ctx r w = (says r, w).

Definition matches_rule (says : PolicyRule -> outcome bool) (psr : PolicyStageRule) : bool :=
  match says (psr_rule psr) with Returned b => b | Threw _ => false end.

Definition throws_rule (says : PolicyRule -> outcome bool) (psr : PolicyStageRule) : bool :=
  match says (psr_rule psr) with Returned _ => false | Threw _ => true end.

(** The rule fired for a registered decision type. *)
Definition fires (says : PolicyRule -> outcome bool) (registry : DecisionTypeRegistry)
    (psr : PolicyStageRule) (type_id : string) : Prop :=
  matches_rule says psr = true /\ psr_decision_type_id psr = Some type_id /\
  is_Some (registry_find registry type_id).

(** The decision types of the results, with the priority of the registry. *)
Definition surviving_types (l : list EvaluatorResult) : list string := omap er_decision_type_id l.

Definition priority_of (registry : DecisionTypeRegistry) (type_id : string) : Z :=
  match registry_find registry type_id with Some d => dt_priority d | None => 0 end.

(** What one rule adds to the output outside the matches. *)
Definition step_out (mode : FailureMode) (says : PolicyRule -> outcome bool) (o : policy_out)
    (psr : PolicyStageRule) : policy_out :=
  match says (psr_rule psr) with
  | Threw _ => rule_exception mode psr o
  | Returned true => match psr_decision_type_id psr with None => add_fired psr o | Some _ => o end
  | Returned false => o
  end.

(** The match one rule adds. *)
Definition match_of (says : PolicyRule -> outcome bool) (registry : DecisionTypeRegistry)
    (psr : PolicyStageRule) : option Match :=
  if matches_rule says psr then
    match psr_decision_type_id psr with
    | None => None
    | Some t =>
        match registry_find registry t with
        | None => None
        | Some d => Some (mkMatch t (dt_priority d) (fired_result psr (Some t)))
        end
    end
  else None.

(** Sample: two incompatible types of equal priority, "a" declared first, and a
    policy in which the rule for "b" comes first. *)
Definition sample_registry : DecisionTypeRegistry :=
  mkRegistry [mkDescriptor "a" "A" 5; mkDescriptor "b" "B" 5; mkDescriptor "c" "C" 9]
    [mkPair "a" "b"].

Definition sample_policy (mode : FailureMode) : PolicyStageConfig :=
  mkPolicyConfig 20 mode
    [mkPolicyStageRule (TenantIs "acme") 1 Block "rule_b" (Some "b");
     mkPolicyStageRule (TenantIs "acme") 2 Flag "rule_a" (Some "a");
     mkPolicyStageRule (TenantIs "acme") 3 Flag "rule_c" (Some "c")].

Definition sample_context : PolicyContext :=
  mkPolicyContext (mkEvent 1 "acme" "bob" "login" 0 [] []) [].

#[local] Instance still_clock : Clock Z := {
  steady_now := fun w => (w, w);
  system_now := fun w => (w, w);
  sleep_for := fun ns w => (tt, w + ns)
}.

Definition throwing_rule : PolicyContext -> PolicyRule -> M Z (outcome bool) :=
  fun _ _ => retM (Threw "std::bad_alloc").

(** ** Lemmas: the loops under steady evaluation *)

Section StageLemmas.

Context {W : Type} `{Clock W}.
Variable eval_rule : PolicyContext -> PolicyRule -> M W (outcome bool).
Variable ctx : PolicyContext.
Variable says : PolicyRule -> outcome bool.
Variable w : W.
Hypothesis Hsteady : steady eval_rule ctx says w.

Lemma multi_loop_steady (mode : FailureMode) (registry : DecisionTypeRegistry)
    (rules : list PolicyStageRule) :
  forall o ms, multi_loop eval_rule mode registry ctx rules o ms w
    = ((fold_left (step_out mode says) rules o, ms ++ omap (match_of says registry) rules), w).
Proof.
  induction rules as [|psr rules IH]; intros o ms; cbn [multi_loop fold_left omap list_omap].
  - by rewrite app_nil_r.
  - unfold bindM. rewrite Hsteady. unfold step_out at 2, match_of at 1, matches_rule.
    destruct (says (psr_rule psr)) as [[|]|what]; rewrite ?IH; try done.
    destruct (psr_decision_type_id psr) as [t|]; [|by rewrite IH].
    destruct (registry_find registry t) as [d|]; rewrite IH; [|done].
    by rewrite <- app_assoc.
Qed.

(** In the first-match path the rules before the first match only leave their
    exceptions behind. *)
Lemma legacy_loop_steady (mode : FailureMode) (rules : list PolicyStageRule) :
  forall o,
  match find_first (matches_rule says) rules with
  | Some psr => exists l1 l2, rules = l1 ++ psr :: l2 /\
      (forall x, x ∈ l1 -> matches_rule says x = false) /\ matches_rule says psr = true /\
      legacy_loop eval_rule mode ctx rules o w
        = (add_fired psr (fold_left (step_out mode says) l1 o), w)
  | None => legacy_loop eval_rule mode ctx rules o w = (fold_left (step_out mode says) rules o, w)
  end.
Proof.
  induction rules as [|psr rules IH]; intros o; [done|].
  cbn [find_first legacy_loop fold_left]. unfold bindM. rewrite Hsteady.
  destruct (says (psr_rule psr)) as [[|]|what] eqn:Hs.
  - assert (Hm : matches_rule says psr = true) by (unfold matches_rule; by rewrite Hs).
    rewrite Hm. exists [], rules. split_and!; [done|set_solver|done|done].
  - assert (Hm : matches_rule says psr = false) by (unfold matches_rule; by rewrite Hs).
    assert (Ho : step_out mode says o psr = o) by (unfold step_out; by rewrite Hs).
    rewrite Hm. specialize (IH o). destruct (find_first _ rules) as [p|].
    + destruct IH as (l1 & l2 & -> & Hl & Hp & Heq). exists (psr :: l1), l2.
      split_and!; [done|set_solver|done|]. cbn [fold_left]. by rewrite Ho.
    + by rewrite Ho.
  - assert (Hm : matches_rule says psr = false) by (unfold matches_rule; by rewrite Hs).
    assert (Ho : step_out mode says o psr = rule_exception mode psr o) by (unfold step_out; by rewrite Hs).
    rewrite Hm, Ho. specialize (IH (rule_exception mode psr o)). destruct (find_first _ rules) as [p|]; [|done].
    destruct IH as (l1 & l2 & -> & Hl & Hp & Heq). exists (psr :: l1), l2.
    split_and!; [done|set_solver|done|]. cbn [fold_left]. by rewrite Ho.
Qed.

End StageLemmas.

(** ** Lemmas: deduplication and losers *)

Lemma fired_spec (l : list Match) (t : string) : fired l t = true <-> t ∈ map m_type_id l.
Proof.
  unfold fired. rewrite existsb_elem_of, list_elem_of_fmap. setoid_rewrite str_eqb_eq. naive_solver.
Qed.

Lemma dedupe_gen (ms : list Match) :
  forall acc, NoDup (map m_type_id acc) ->
  NoDup (map m_type_id (fold_left dedupe_step ms acc)) /\
  (forall m, m ∈ fold_left dedupe_step ms acc -> m ∈ acc \/ m ∈ ms) /\
  (forall t, t ∈ map m_type_id (fold_left dedupe_step ms acc) <->
             t ∈ map m_type_id acc \/ t ∈ map m_type_id ms).
Proof.
  induction ms as [|m ms IH]; intros acc Hnd; cbn [fold_left]; [simpl; set_solver|].
  assert (Hstep : NoDup (map m_type_id (dedupe_step acc m)) /\
    (forall x, x ∈ dedupe_step acc m -> x ∈ acc \/ x = m) /\
    (forall t, t ∈ map m_type_id (dedupe_step acc m) <-> t ∈ map m_type_id acc \/ t = m_type_id m)).
  { unfold dedupe_step. fold (fired acc (m_type_id m)). destruct (fired acc (m_type_id m)) eqn:Hf.
    - apply fired_spec in Hf. split_and!; [done|set_solver|set_solver].
    - assert (Hn : m_type_id m ∉ map m_type_id acc)
        by (intros Hin; apply fired_spec in Hin; congruence).
      rewrite map_app. split_and!; [|set_solver|simpl; set_solver].
      apply NoDup_app. split_and!; [done|set_solver|apply NoDup_singleton]. }
  destruct Hstep as (Hnd' & Hin & Ht). destruct (IH _ Hnd') as (H1 & H2 & H3).
  split_and!; [done| |].
  - intros x Hx. apply H2 in Hx as [Hx|Hx]; [apply Hin in Hx as [?| ->]|]; set_solver.
  - intros t. rewrite H3, Ht. simpl. set_solver.
Qed.

Lemma dedupe_spec (ms : list Match) :
  NoDup (map m_type_id (dedupe ms)) /\ (forall m, m ∈ dedupe ms -> m ∈ ms) /\
  (forall t, t ∈ map m_type_id (dedupe ms) <-> t ∈ map m_type_id ms).
Proof.
  destruct (dedupe_gen ms [] ltac:(constructor)) as (H1 & H2 & H3).
  split_and!; [done| |]; [intros m Hm; apply H2 in Hm; set_solver|intros t; rewrite H3; set_solver].
Qed.

Definition is_loser (ls : list string) (m : Match) : bool := existsb (fun l => str_eqb l (m_type_id m)) ls.

Lemma is_loser_spec (ls : list string) (m : Match) : is_loser ls m = true <-> m_type_id m ∈ ls.
Proof.
  unfold is_loser. rewrite existsb_elem_of. setoid_rewrite str_eqb_eq. naive_solver.
Qed.

Lemma survivors_fold (ls : list string) (ms : list Match) :
  forall o, fold_left (emit_survivor ls) ms o =
    mkPolicyOut
      (max_over (fun m => er_verdict (m_result m)) (po_verdict o) (filter (fun m => is_loser ls m = false) ms))
      (po_results o ++ map m_result (filter (fun m => is_loser ls m = false) ms)) (po_degraded o).
Proof.
  induction ms as [|m ms IH]; intros o; cbn [fold_left].
  - simpl. rewrite app_nil_r. by destruct o.
  - rewrite IH. unfold emit_survivor. fold (is_loser ls m). destruct (is_loser ls m) eqn:Hl.
    + rewrite filter_cons_False by congruence. done.
    + rewrite filter_cons_True by done. simpl. by rewrite <- app_assoc.
Qed.

(** A pair whose types both fired, both registered, has a loser of no greater
    precedence than its partner. *)
Lemma pair_loser_spec (registry : DecisionTypeRegistry) (l : list Match) (p : IncompatiblePair) (t : string) :
  pair_loser registry l p = Some t ->
  exists t', t' ∈ map m_type_id l /\ t ∈ map m_type_id l /\ priority_of registry t' <= priority_of registry t /\
    ((t = type_id_a p /\ t' = type_id_b p) \/ (t = type_id_b p /\ t' = type_id_a p)) /\
    (priority_of registry t' = priority_of registry t -> t = type_id_b p).
Proof.
  unfold pair_loser, priority_of. intros Hl.
  destruct (fired l (type_id_a p)) eqn:Ha; [|done]. destruct (fired l (type_id_b p)) eqn:Hb; [|done].
  apply fired_spec in Ha, Hb. simpl in Hl.
  destruct (registry_find registry (type_id_a p)) as [da|] eqn:Hda; [|done].
  destruct (registry_find registry (type_id_b p)) as [db|] eqn:Hdb; [|done].
  destruct (Z.leb_spec (dt_priority da) (dt_priority db)); injection Hl as <-.
  - exists (type_id_a p). rewrite Hda, Hdb. split_and!; auto.
  - exists (type_id_b p). rewrite Hda, Hdb. split_and!; [auto|auto|lia|auto|lia].
Qed.

Lemma pair_loser_fires (registry : DecisionTypeRegistry) (l : list Match) (p : IncompatiblePair) :
  type_id_a p ∈ map m_type_id l -> type_id_b p ∈ map m_type_id l ->
  is_Some (registry_find registry (type_id_a p)) -> is_Some (registry_find registry (type_id_b p)) ->
  is_Some (pair_loser registry l p).
Proof.
  intros Ha Hb [da Hda] [db Hdb]. apply fired_spec in Ha, Hb. unfold pair_loser.
  rewrite Ha, Hb, Hda, Hdb. simpl. destruct (Z.leb _ _); by eexists.
Qed.

Lemma are_incompatible_spec (registry : DecisionTypeRegistry) (a b : string) :
  are_incompatible registry a b = true <->
  exists p, p ∈ reg_incompatible registry /\
    ((type_id_a p = a /\ type_id_b p = b) \/ (type_id_a p = b /\ type_id_b p = a)).
Proof.
  unfold are_incompatible. rewrite existsb_elem_of.
  setoid_rewrite orb_true_iff. setoid_rewrite andb_true_iff. by setoid_rewrite str_eqb_eq.
Qed.

(** ** Lemmas: the output of the stage *)

(** Results carry the verdict of the stage in those that were not skipped. *)
Definition out_ok (o : policy_out) : Prop :=
  po_verdict o = max_over er_verdict Pass (filter (fun r => er_skipped r = false) (po_results o)).

Lemma max_over_app {A : Type} (f : A -> Verdict) (v : Verdict) (l1 l2 : list A) :
  max_over f v (l1 ++ l2) = max_over f (max_over f v l1) l2.
Proof. unfold max_over. by rewrite fold_left_app. Qed.

Lemma add_fired_ok (psr : PolicyStageRule) (o : policy_out) : out_ok o -> out_ok (add_fired psr o).
Proof.
  unfold out_ok. intros Ho. simpl. rewrite filter_app, max_over_app, <- Ho.
  by rewrite filter_cons_True.
Qed.

Lemma rule_exception_ok (mode : FailureMode) (psr : PolicyStageRule) (o : policy_out) :
  out_ok o -> out_ok (rule_exception mode psr o).
Proof.
  unfold out_ok. intros Ho. simpl. rewrite filter_app, max_over_app, <- Ho.
  by rewrite filter_cons_False.
Qed.

Lemma step_out_fold (mode : FailureMode) (says : PolicyRule -> outcome bool) (rules : list PolicyStageRule) :
  forall o, out_ok o -> surviving_types (po_results o) = [] ->
  out_ok (fold_left (step_out mode says) rules o) /\
  surviving_types (po_results (fold_left (step_out mode says) rules o)) = [].
Proof.
  induction rules as [|psr rules IH]; intros o Ho Hs; [done|]. cbn [fold_left]. apply IH.
  - unfold step_out. destruct (says (psr_rule psr)) as [[|]|what]; [|done|by apply rule_exception_ok].
    destruct (psr_decision_type_id psr); [done|by apply add_fired_ok].
  - unfold step_out, surviving_types in *. destruct (says (psr_rule psr)) as [[|]|what]; [|done|].
    + destruct (psr_decision_type_id psr); [done|]. simpl. by rewrite omap_app, Hs.
    + simpl. by rewrite omap_app, Hs.
Qed.

Lemma elem_of_matches (says : PolicyRule -> outcome bool) (registry : DecisionTypeRegistry)
    (rules : list PolicyStageRule) (m : Match) :
  m ∈ omap (match_of says registry) rules ->
  (exists psr, psr ∈ rules /\ fires says registry psr (m_type_id m)) /\
  er_decision_type_id (m_result m) = Some (m_type_id m) /\ er_skipped (m_result m) = false.
Proof.
  intros (psr & Hin & Hm)%list_elem_of_omap. unfold match_of in Hm.
  destruct (matches_rule says psr) eqn:Hmr; [|done].
  destruct (psr_decision_type_id psr) as [t|] eqn:Ht; [|done].
  destruct (registry_find registry t) as [d|] eqn:Hd; [|done].
  injection Hm as <-. simpl. split; [|done]. exists psr. unfold fires. rewrite Hd. eauto.
Qed.

Lemma fires_matched (says : PolicyRule -> outcome bool) (registry : DecisionTypeRegistry)
    (rules : list PolicyStageRule) (psr : PolicyStageRule) (t : string) :
  psr ∈ rules -> fires says registry psr t -> t ∈ map m_type_id (omap (match_of says registry) rules).
Proof.
  intros Hin (Hm & Ht & [d Hd]). apply list_elem_of_fmap.
  exists (mkMatch t (dt_priority d) (fired_result psr (Some t))). split; [done|].
  apply list_elem_of_omap. exists psr. split; [done|]. unfold match_of. by rewrite Hm, Ht, Hd.
Qed.

Lemma surviving_types_matches (ms : list Match) :
  (forall m, m ∈ ms -> er_decision_type_id (m_result m) = Some (m_type_id m)) ->
  surviving_types (map m_result ms) = map m_type_id ms.
Proof.
  unfold surviving_types. induction ms as [|m ms IH]; intros Hall; [done|].
  cbn [map omap list_omap]. rewrite Hall by set_solver. f_equal. apply IH. set_solver.
Qed.

(** The multi-decision output in closed form. *)
Definition survivors (registry : DecisionTypeRegistry) (ms : list Match) : list Match :=
  filter (fun m => is_loser (losers registry (dedupe ms)) m = false) (dedupe ms).

Lemma multi_types (mode : FailureMode) (registry : DecisionTypeRegistry)
    (says : PolicyRule -> outcome bool) (rules : list PolicyStageRule) :
  let ms := omap (match_of says registry) rules in
  let o := resolve_matches registry (fold_left (step_out mode says) rules policy_out_new) ms in
  surviving_types (po_results o) = map m_type_id (survivors registry ms) /\ out_ok o.
Proof.
  intros ms o. destruct (step_out_fold mode says rules policy_out_new eq_refl eq_refl) as [Hok Hst].
  assert (Hsub : forall m, m ∈ survivors registry ms ->
    er_decision_type_id (m_result m) = Some (m_type_id m) /\ er_skipped (m_result m) = false).
  { intros m Hm. apply list_elem_of_filter in Hm as [_ Hm]. apply dedupe_spec in Hm.
    apply elem_of_matches in Hm. tauto. }
  unfold o, resolve_matches. rewrite survivors_fold. fold (survivors registry ms). split.
  - simpl. unfold surviving_types in *. rewrite omap_app, Hst. simpl.
    apply surviving_types_matches. intros m Hm. by apply Hsub.
  - unfold out_ok in *. simpl. rewrite filter_app, max_over_app, <- Hok.
    assert (Hf : filter (fun r => er_skipped r = false) (map m_result (survivors registry ms))
      = map m_result (survivors registry ms)).
    { apply filter_all, Forall_forall. intros r (m & -> & Hm)%list_elem_of_fmap. by apply Hsub. }
    rewrite Hf. clear Hf Hsub. unfold max_over. generalize (po_verdict (fold_left (step_out mode says) rules policy_out_new)).
    induction (survivors registry ms) as [|m l IH]; intros v; [done|]. apply IH.
Qed.

Lemma elem_of_survivors (registry : DecisionTypeRegistry) (ms : list Match) (t : string) :
  t ∈ map m_type_id (survivors registry ms) <->
  t ∈ map m_type_id ms /\ t ∉ losers registry (dedupe ms).
Proof.
  unfold survivors. rewrite list_elem_of_fmap. setoid_rewrite list_elem_of_filter.
  rewrite <- (proj2 (proj2 (dedupe_spec ms)) t), list_elem_of_fmap. split.
  - intros (m & -> & Hl & Hm). split; [by exists m|]. intros Hin.
    apply (is_loser_spec _ m) in Hin. congruence.
  - intros [(m & -> & Hm) Hn]. exists m. split_and!; [done| |done].
    destruct (is_loser _ m) eqn:Hl; [|done]. apply is_loser_spec in Hl. done.
Qed.

Lemma elem_of_losers (registry : DecisionTypeRegistry) (ds : list Match) (t : string) :
  t ∈ losers registry ds <-> exists p, p ∈ reg_incompatible registry /\ pair_loser registry ds p = Some t.
Proof. unfold losers. by rewrite list_elem_of_omap. Qed.

Lemma policy_process_multi {W : Type} `{Clock W} eval_rule ctx says (c : PolicyStageConfig)
    (registry : DecisionTypeRegistry) (w : W) :
  steady eval_rule ctx says (steady_now w).2 -> use_multi c (Some registry) = true ->
  exists out w', policy_process eval_rule c (Some registry) ctx w = (Returned (Ok out), w') /\
    let o := resolve_matches registry
      (fold_left (step_out (pcfg_failure_mode c) says) (pcfg_rules c) policy_out_new)
      (omap (match_of says registry) (pcfg_rules c)) in
    so_evaluator_results out = po_results o /\ so_verdict out = po_verdict o.
Proof.
  intros Hs Hm. unfold policy_process, bindM, retM. destruct (steady_now w) as [start w1]. simpl in Hs.
  rewrite Hm. rewrite (multi_loop_steady eval_rule ctx says w1 Hs).
  destruct (steady_now w1) as [stop w2]. do 2 eexists. split; [done|]. done.
Qed.

(** ** Properties *)

(** C17: in the multi-decision path the surviving decision types are pairwise
    distinct and pairwise compatible, each comes from a rule that fired for a
    registered type; a fired type is missing only if an incompatible type of at
    least its precedence fired too; and the verdict is the worst of the results
    that were not skipped. *)
Theorem multi_decision_sound {W : Type} `{Clock W}
    (eval_rule : PolicyContext -> PolicyRule -> M W (outcome bool)) (ctx : PolicyContext)
    (says : PolicyRule -> outcome bool) (c : PolicyStageConfig) (registry : DecisionTypeRegistry) (w : W)
    (Hs : steady eval_rule ctx says (steady_now w).2) (Hm : use_multi c (Some registry) = true) :
  exists out w', policy_process eval_rule c (Some registry) ctx w = (Returned (Ok out), w') /\
    let types := surviving_types (so_evaluator_results out) in
    NoDup types /\
    (forall t, t ∈ types -> exists psr, psr ∈ pcfg_rules c /\ fires says registry psr t) /\
    (forall a b, a ∈ types -> b ∈ types -> are_incompatible registry a b = false) /\
    (forall psr t, psr ∈ pcfg_rules c -> fires says registry psr t -> t ∉ types ->
      exists psr' t', psr' ∈ pcfg_rules c /\ fires says registry psr' t' /\
        are_incompatible registry t t' = true /\ priority_of registry t' <= priority_of registry t) /\
    so_verdict out = max_over er_verdict Pass
      (filter (fun r => er_skipped r = false) (so_evaluator_results out)).
Proof.
  destruct (policy_process_multi eval_rule ctx says c registry w Hs Hm) as (out & w' & Heq & Hres & Hv).
  exists out, w'. split; [done|].
  destruct (multi_types (pcfg_failure_mode c) registry says (pcfg_rules c)) as [Htypes Hok].
  rewrite Hres, Hv, Htypes. set (ms := omap (match_of says registry) (pcfg_rules c)) in *.
  assert (Hfire : forall t, t ∈ map m_type_id ms -> exists psr, psr ∈ pcfg_rules c /\ fires says registry psr t).
  { intros t (m & -> & Hin)%list_elem_of_fmap. by apply elem_of_matches in Hin as [? _]. }
  split_and!; [| | | |exact Hok].
  - unfold survivors. eapply sublist_NoDup; [apply (dedupe_spec ms)|].
    apply (fmap_sublist m_type_id), sublist_filter.
  - intros t Ht. apply elem_of_survivors in Ht as [Ht _]. auto.
  - intros a b [Ha Hna]%elem_of_survivors [Hb Hnb]%elem_of_survivors.
    apply not_true_iff_false. intros (p & Hp & Hab)%are_incompatible_spec.
    destruct (Hfire a Ha) as (_ & _ & _ & _ & Hra), (Hfire b Hb) as (_ & _ & _ & _ & Hrb).
    apply (dedupe_spec ms) in Ha, Hb.
    assert (Hl : is_Some (pair_loser registry (dedupe ms) p))
      by (apply pair_loser_fires; destruct Hab as [[Ea Eb]|[Ea Eb]]; rewrite ?Ea, ?Eb; done).
    destruct Hl as [t Hl]. assert (Hin : t ∈ losers registry (dedupe ms)) by (apply elem_of_losers; eauto).
    apply pair_loser_spec in Hl as (t' & _ & _ & _ & Hcase & _).
    destruct Hab as [[<- <-]|[<- <-]], Hcase as [[-> _]|[-> _]]; done.
  - intros psr t Hin Hf Hnot. pose proof (fires_matched _ _ _ _ _ Hin Hf) as Ht.
    assert (Hl : t ∈ losers registry (dedupe ms)).
    { destruct (decide (t ∈ losers registry (dedupe ms))); [done|]. exfalso. apply Hnot.
      by apply elem_of_survivors. }
    apply elem_of_losers in Hl as (p & Hp & Hl).
    apply pair_loser_spec in Hl as (t' & Ht' & _ & Hprio & Hcase & _).
    apply (dedupe_spec ms) in Ht'. destruct (Hfire t' Ht') as (psr' & Hin' & Hf').
    exists psr', t'. split_and!; [done|done| |done].
    apply are_incompatible_spec. exists p. split; [done|]. naive_solver.
Qed.

Lemma multi_decision_sound_witness :
  exists out w', policy_process rule_engine (sample_policy FailClosed) (Some sample_registry) sample_context 0
      = (Returned (Ok out), w') /\
    forall a b, a ∈ surviving_types (so_evaluator_results out) ->
      b ∈ surviving_types (so_evaluator_results out) -> are_incompatible sample_registry a b = false.
Proof.
  destruct (multi_decision_sound rule_engine sample_context
    (fun r => (rule_engine sample_context r 0).1) (sample_policy FailClosed) sample_registry 0)
    as (out & w' & Heq & _ & _ & Hc & _).
  - intros r. unfold rule_engine, bindM, retM.
    destruct (evaluate_frozen (H := still_clock) sample_context r 0 0 eq_refl) as (b & Hb & _). simpl in *. by rewrite Hb.
  - reflexivity.
  - exists out, w'. split; [exact Heq|exact Hc].
Defined.

(** When both types of an incompatible pair fire with equal priority, the
    type named second in the pair is the one dropped, whichever rule matched
    first. *)
Theorem equal_priority_drops_second {W : Type} `{Clock W}
    (eval_rule : PolicyContext -> PolicyRule -> M W (outcome bool)) (ctx : PolicyContext)
    (says : PolicyRule -> outcome bool) (c : PolicyStageConfig) (registry : DecisionTypeRegistry) (w : W)
    (p : IncompatiblePair) (psr_a psr_b : PolicyStageRule)
    (Hs : steady eval_rule ctx says (steady_now w).2) (Hm : use_multi c (Some registry) = true)
    (Hp : p ∈ reg_incompatible registry)
    (Ha : psr_a ∈ pcfg_rules c) (Hfa : fires says registry psr_a (type_id_a p))
    (Hb : psr_b ∈ pcfg_rules c) (Hfb : fires says registry psr_b (type_id_b p))
    (Heqp : priority_of registry (type_id_a p) = priority_of registry (type_id_b p)) :
  exists out w', policy_process eval_rule c (Some registry) ctx w = (Returned (Ok out), w') /\
    type_id_b p ∉ surviving_types (so_evaluator_results out).
Proof.
  destruct (policy_process_multi eval_rule ctx says c registry w Hs Hm) as (out & w' & Heq & Hres & _).
  exists out, w'. split; [done|].
  destruct (multi_types (pcfg_failure_mode c) registry says (pcfg_rules c)) as [Htypes _].
  rewrite Hres, Htypes, elem_of_survivors. intros [_ Hn]. apply Hn, elem_of_losers.
  exists p. split; [done|].
  pose proof (fires_matched _ _ _ _ _ Ha Hfa) as Hta. pose proof (fires_matched _ _ _ _ _ Hb Hfb) as Htb.
  apply dedupe_spec, fired_spec in Hta, Htb.
  destruct Hfa as (_ & _ & [da Hda]), Hfb as (_ & _ & [db Hdb]).
  unfold pair_loser. rewrite Hta, Htb, Hda, Hdb. simpl.
  unfold priority_of in Heqp. rewrite Hda, Hdb in Heqp. by rewrite Heqp, Z.leb_refl.
Qed.

Lemma equal_priority_drops_second_witness :
  exists out w', policy_process rule_engine (sample_policy FailClosed) (Some sample_registry) sample_context 0
      = (Returned (Ok out), w') /\ "b" ∉ surviving_types (so_evaluator_results out).
Proof.
  apply (equal_priority_drops_second rule_engine sample_context
    (fun r => (rule_engine sample_context r 0).1) (sample_policy FailClosed) sample_registry 0
    (mkPair "a" "b")
    (mkPolicyStageRule (TenantIs "acme") 2 Flag "rule_a" (Some "a"))
    (mkPolicyStageRule (TenantIs "acme") 1 Block "rule_b" (Some "b"))).
  - intros r. unfold rule_engine, bindM, retM.
    destruct (evaluate_frozen (H := still_clock) sample_context r 0 0 eq_refl) as (b & Hb & _). simpl in *. by rewrite Hb.
  - reflexivity.
  - by left.
  - simpl. right. left.
  - split_and!; [reflexivity|reflexivity|by eexists].
  - by left.
  - split_and!; [reflexivity|reflexivity|by eexists].
  - reflexivity.
Defined.

(** C18: without a registry the first matching rule decides: the verdict is its
    action (Pass when none matches), and besides its result the output only
    holds the skipped results of rules that threw before it. *)
Theorem legacy_first_match_wins {W : Type} `{Clock W}
    (eval_rule : PolicyContext -> PolicyRule -> M W (outcome bool)) (ctx : PolicyContext)
    (says : PolicyRule -> outcome bool) (c : PolicyStageConfig) (w : W)
    (Hs : steady eval_rule ctx says (steady_now w).2) :
  exists out w', policy_process eval_rule c None ctx w = (Returned (Ok out), w') /\
    match find_first (matches_rule says) (pcfg_rules c) with
    | Some psr =>
        so_verdict out = psr_action_verdict psr /\
        exists skipped, so_evaluator_results out = skipped ++ [fired_result psr None] /\
          Forall (fun r => er_skipped r = true) skipped
    | None => so_verdict out = Pass /\ Forall (fun r => er_skipped r = true) (so_evaluator_results out)
    end.
Proof.
  unfold policy_process, bindM, retM. destruct (steady_now w) as [start w1]. simpl in Hs.
  pose proof (legacy_loop_steady eval_rule ctx says w1 Hs (pcfg_failure_mode c) (pcfg_rules c) policy_out_new) as Hl.
  assert (Hquiet : forall rules o, po_verdict o = Pass -> Forall (fun r => er_skipped r = true) (po_results o) ->
    (forall x, x ∈ rules -> matches_rule says x = false) ->
    po_verdict (fold_left (step_out (pcfg_failure_mode c) says) rules o) = Pass /\
    Forall (fun r => er_skipped r = true) (po_results (fold_left (step_out (pcfg_failure_mode c) says) rules o))).
  { induction rules as [|x rules IH]; intros o Ho Hr Hx; [done|]. cbn [fold_left].
    assert (Hxm : matches_rule says x = false) by (apply Hx; by left).
    assert (Hst : step_out (pcfg_failure_mode c) says o x = o \/
                  step_out (pcfg_failure_mode c) says o x = rule_exception (pcfg_failure_mode c) x o)
      by (unfold step_out, matches_rule in *; destruct (says (psr_rule x)) as [[|]|what]; auto; done).
    destruct Hst as [-> | ->]; apply IH; try done; try set_solver.
    simpl. apply Forall_app. split; [done|]. by repeat constructor. }
  destruct (find_first (matches_rule says) (pcfg_rules c)) as [psr|] eqn:Hf.
  - destruct Hl as (l1 & l2 & _ & Hx & _ & ->). destruct (steady_now w1) as [stop w2].
    destruct (Hquiet l1 policy_out_new eq_refl ltac:(constructor) Hx) as [Hv Hsk].
    do 2 eexists. split; [done|]. simpl. rewrite Hv. split; [apply max_verdict_pass_l|]. by eexists.
  - rewrite Hl. destruct (steady_now w1) as [stop w2]. do 2 eexists. split; [done|]. simpl.
    apply Hquiet; [done|constructor|]. by apply find_first_None.
Qed.

Lemma legacy_first_match_wins_witness :
  exists out w', policy_process rule_engine (sample_policy FailClosed) None sample_context 0
      = (Returned (Ok out), w') /\ so_verdict out = Block.
Proof.
  destruct (legacy_first_match_wins rule_engine sample_context
    (fun r => (rule_engine sample_context r 0).1) (sample_policy FailClosed) 0) as (out & w' & Heq & Hm).
  - intros r. unfold rule_engine, bindM, retM.
    destruct (evaluate_frozen (H := still_clock) sample_context r 0 0 eq_refl) as (b & Hb & _). simpl in *. by rewrite Hb.
  - exists out, w'. split; [exact Heq|]. exact (proj1 Hm).
Defined.

(** An exception in rule evaluation does not block the event in FailClosed
    mode: when every rule throws, each recorded result says Block but the stage
    verdict stays Pass. *)
Theorem rule_exceptions_pass {W : Type} `{Clock W}
    (eval_rule : PolicyContext -> PolicyRule -> M W (outcome bool)) (ctx : PolicyContext)
    (says : PolicyRule -> outcome bool) (c : PolicyStageConfig) (w : W)
    (Hs : steady eval_rule ctx says (steady_now w).2) (Hmode : pcfg_failure_mode c = FailClosed)
    (Hthrow : forall psr, psr ∈ pcfg_rules c -> throws_rule says psr = true) :
  exists out w', policy_process eval_rule c None ctx w = (Returned (Ok out), w') /\
    so_verdict out = Pass /\ length (so_evaluator_results out) = length (pcfg_rules c) /\
    Forall (fun r => er_verdict r = Block) (so_evaluator_results out).
Proof.
  unfold policy_process, bindM, retM. destruct (steady_now w) as [start w1]. simpl in Hs.
  assert (Hloop : forall rules o, (forall psr, psr ∈ rules -> throws_rule says psr = true) ->
    exists o', legacy_loop eval_rule (pcfg_failure_mode c) ctx rules o w1 = (o', w1) /\
      po_verdict o' = po_verdict o /\ length (po_results o') = (length (po_results o) + length rules)%nat /\
      (Forall (fun r => er_verdict r = Block) (po_results o) -> Forall (fun r => er_verdict r = Block) (po_results o'))).
  { induction rules as [|psr rules IH]; intros o Ht; cbn [legacy_loop]; unfold retM.
    - exists o. split_and!; [done|done|simpl; lia|done].
    - unfold bindM. rewrite Hs. specialize (Ht psr ltac:(by left)) as Hp. unfold throws_rule in Hp.
      destruct (says (psr_rule psr)) as [b|what]; [done|].
      destruct (IH (rule_exception (pcfg_failure_mode c) psr o)) as (o' & -> & Hv & Hl & Hb); [set_solver|].
      exists o'. split_and!; [done|done|simpl in *; rewrite length_app in Hl; simpl in Hl; lia|].
      intros Hall. apply Hb. simpl. apply Forall_app. split; [done|]. constructor; [|constructor].
      simpl. by rewrite Hmode. }
  destruct (Hloop (pcfg_rules c) policy_out_new Hthrow) as (o' & -> & Hv & Hl & Hb).
  destruct (steady_now w1) as [stop w2]. do 2 eexists. split; [done|]. simpl.
  split_and!; [done|exact Hl|]. apply Hb. constructor.
Qed.

Lemma rule_exceptions_pass_witness :
  exists out w', policy_process throwing_rule (sample_policy FailClosed) None sample_context 0
      = (Returned (Ok out), w') /\ so_verdict out = Pass.
Proof.
  destruct (rule_exceptions_pass throwing_rule sample_context (fun _ => Threw "std::bad_alloc")
    (sample_policy FailClosed) 0) as (out & w' & Heq & Hv & _).
  - intros r. reflexivity.
  - reflexivity.
  - intros psr _. reflexivity.
  - exists out, w'. split; [exact Heq|exact Hv].
Defined.
