(* ===== verification/RunEvent.v ===== *)
(** * run_event: one event through the stages

    The coroutine [Pipeline::Impl::run_event] of src/pipeline/pipeline.cpp up to
    the emission: it never suspends, so it is one action on the world.  It may
    be left by an exception of an evaluator; [RunHangs] stands for the polling
    loop of the inference stage running out of its fuel, which Stages.v
    excludes.  Logging has no effect in the model. *)

From S2P Require Import Prelude Ieee CoreTypes Errors DecisionTypes RuleEngine TenantRouter Config Stages PolicyStage.

Open Scope list_scope.
Open Scope Z_scope.

(** The stage objects [start] allocates from the configuration. *)
Record StageSet (W : Type) : Type := mkStageSet {
  ss_ingest : IngestStageConfig;
  ss_eval : option (EvalStageConfig W);
  ss_inference : option (InferenceStageConfig W);
  ss_policy : option (PolicyStageConfig * option DecisionTypeRegistry)
}.

Arguments mkStageSet {W}. Arguments ss_ingest {W}. Arguments ss_eval {W}.
Arguments ss_inference {W}. Arguments ss_policy {W}.

Definition make_stages {W : Type} (c : PipelineConfig W) : StageSet W :=
  mkStageSet (cfg_ingest c) (cfg_eval c) (cfg_inference c)
    (option_map (fun p => (p, cfg_registry c)) (cfg_policy c)).

Inductive run_result : Type :=
| Decided (d : Decision)
| ValidationRejected (d : Decision)  (** only with a sync context *)
| RunThrew (what : string)
| RunHangs.

(** The result of one stage: nothing when it hangs. *)
Definition stage_run (W : Type) : Type := M W (option (outcome (expected StageOutput Error))).

Section Run.

Context {W : Type} `{Clock W} `{Workers W} `{StdSort}.

Definition run_ingest (s : StageSet W) (event : Event) : stage_run W :=
  do r <- ingest_process (ss_ingest s) event; retM (Some r).

Definition run_eval (c : EvalStageConfig W) (event : Event) : stage_run W :=
  do r <- eval_process c event; retM (Some r).

Definition run_inference (c : InferenceStageConfig W) (event : Event) : stage_run W :=
  do r <- inference_process (await_fuel (nc_timeout c)) c event; retM (option_map Returned r).

Definition run_policy (p : PolicyStageConfig * option DecisionTypeRegistry) (ctx : PolicyContext) : stage_run W :=
  do r <- policy_process rule_engine p.1 p.2 ctx; retM (Some r).

(** [auto out = stage->process(x)], the output pushed when there is one, and the
    rest of the coroutine. *)
Definition with_stage (stage : stage_run W) (d : Decision) (k : Decision -> M W run_result) : M W run_result :=
  do r <- stage;
  match r with
  | None => retM RunHangs
  | Some (Threw what) => retM (RunThrew what)
  | Some (Returned (Ok out)) => k (push_stage_output d out)
  | Some (Returned (Unexpected _)) => k d
  end.

(** [if (stage) ...]. *)
Definition with_optional {C : Type} (c : option C) (stage : C -> stage_run W) (d : Decision)
    (k : Decision -> M W run_result) : M W run_result :=
  match c with Some c => with_stage (stage c) d k | None => k d end.

Definition new_decision (c : PipelineConfig W) (event_id decided_at : Z) (event : Event) : Decision :=
  mkDecision (cfg_pipeline_id c) (cfg_pipeline_version c) event_id (ev_tenant_id event) (ev_entity_id event)
    decided_at [] Pass Degraded.None 0 [].

Definition finish_decision (c : PipelineConfig W) (receipt_time : Z) (d : Decision) : M W run_result :=
  let d := merge_degraded_reasons (compute_final_verdict d) in
  let d := match cfg_registry c with Some r => compute_active_decisions (Some r) d | None => d end in
  do now <- steady_now;
  retM (Decided (set_elapsed_us d (elapsed_us_of receipt_time now))).

(** [run_event] up to the emission; [sync] says that a sync context was given. *)
Definition run_event (c : PipelineConfig W) (s : StageSet W) (sync : bool) (event_id : Z) (event : Event)
    : M W run_result :=
  do receipt_time <- steady_now;
  do decided_at <- system_now;
  let decision := new_decision c event_id decided_at event in
  let event := event_set_id event event_id in
  do ingest_out <- run_ingest s event;
  match ingest_out with
  | None => retM RunHangs
  | Some (Threw what) => retM (RunThrew what)
  | Some (Returned ingest_out) =>
      let validation_failed := match ingest_out with
        | Ok out => Z.eqb (so_degraded_reason out) Degraded.IngestValidationFailed
        | Unexpected _ => false
        end in
      let decision := match ingest_out with
        | Ok out => push_stage_output decision out
        | Unexpected _ => decision
        end in
      if (sync && validation_failed)%bool then retM (ValidationRejected decision)
      else
        with_optional (ss_eval s) (fun e => run_eval e event) decision (fun decision =>
        with_optional (ss_inference s) (fun n => run_inference n event) decision (fun decision =>
        with_optional (ss_policy s)
          (fun p => run_policy p (mkPolicyContext event (d_stage_outputs decision))) decision
          (fun decision => finish_decision c receipt_time decision)))
  end.

End Run.

(** ** Specification vocabulary *)

(** An evaluator function that does not throw on an event; that never throws. *)
Definition returns_on {W : Type} (fn : EvaluatorFn W) (e : Event) : Prop :=
  forall w, match (fn e w).1 with Returned _ => True | Threw _ => False end.

Definition evaluator_returns {W : Type} (fn : EvaluatorFn W) : Prop := forall e, returns_on fn e.

(** Stages whose evaluators of the first kind do not throw (those of the second
    kind run on threads of their own), with a sensible inference timeout. *)
Definition stages_ok {W : Type} (s : StageSet W) : Prop :=
  (forall e, ss_eval s = Some e -> Forall evaluator_returns (ec_evaluators e)) /\
  (forall n, ss_inference s = Some n -> 0 <= nc_timeout n).

Definition stages_ok_on {W : Type} (s : StageSet W) (event : Event) : Prop :=
  (forall e, ss_eval s = Some e -> Forall (fun fn => returns_on fn event) (ec_evaluators e)) /\
  (forall n, ss_inference s = Some n -> 0 <= nc_timeout n).

(** Ids of the stages configured, in running order. *)
Definition stage_ids {W : Type} (s : StageSet W) : list string :=
  ["ingest"] ++ (if ss_eval s then ["eval"] else []) ++ (if ss_inference s then ["inference"] else [])
  ++ (if ss_policy s then ["policy"] else []).

(** What a finished decision must be. *)
Definition decision_ok {W : Type} (c : PipelineConfig W) (s : StageSet W) (event_id : Z) (event : Event)
    (d : Decision) : Prop :=
  d_event_id d = event_id /\ d_tenant_id d = ev_tenant_id event /\ d_entity_id d = ev_entity_id event /\
  map so_stage_id (d_stage_outputs d) = stage_ids s /\
  d_final_verdict d = max_over so_verdict Pass (d_stage_outputs d) /\
  d_degraded_reason d = or_over so_degraded_reason Degraded.None (d_stage_outputs d).

(** A stage run that gives an output of the named stage. *)
Definition gives_output {W : Type} (id : string) (stage : stage_run W) : Prop :=
  forall w, exists out, (stage w).1 = Some (Returned (Ok out)) /\ so_stage_id out = id.

(** Sample: all four stages, one passing evaluator, one worker, two policy rules. *)
Definition example_config : PipelineConfig Z :=
  mkPipelineConfig "p" "1.0.0" 300 (mkShardingConfig 16 4 2) (mkRateLimitConfig 1000 500 100)
    (mkIngestConfig 30000 5)
    (Some (mkEvalConfig 10 FailOpen AnyBlock [Stages.passing_evaluator; Stages.failing_evaluator]))
    (Some (Stages.sample_inference 5))
    (Some (PolicyStage.sample_policy FailClosed))
    (mkEmitConfig 10 EmitDegraded 3 [noop_target]) (Some PolicyStage.sample_registry).

Definition example_event : Event := mkEvent 0 "acme" "bob" "login" 0 [] [].
Definition invalid_event : Event := mkEvent 0 "acme" "" "login" 0 [] [].

(** ** Lemmas *)

Section RunLemmas.

Context {W : Type} `{TimedWorkers W} `{StdSort}.

Lemma run_ingest_gives (s : StageSet W) (event : Event) : gives_output "ingest" (run_ingest s event).
Proof.
  intros w. unfold run_ingest, ingest_process, bindM, retM. destruct (steady_now w) as [start w1].
  destruct (event_is_valid event); simpl.
  - destruct (system_now w1) as [now w2]. destruct (steady_now w2) as [stop w3].
    eexists. split; [done|]. done.
  - destruct (steady_now w1) as [stop w2]. eexists. split; [done|]. done.
Qed.

Lemma run_all_returns (fns : list (EvaluatorFn W)) (event : Event) :
  Forall (fun fn => returns_on fn event) fns -> forall w, exists rs w', run_all fns event w = (Returned rs, w').
Proof.
  induction 1 as [|fn fns Hfn _ IH]; intros w; cbn [run_all]; unfold bindX, retM; [by do 2 eexists|].
  specialize (Hfn w). destruct (fn event w) as [[r|what] w1]; [|done].
  destruct (IH w1) as (rs & w2 & ->). by do 2 eexists.
Qed.

Lemma run_eval_gives (c : EvalStageConfig W) (event : Event) :
  Forall (fun fn => returns_on fn event) (ec_evaluators c) -> gives_output "eval" (run_eval c event).
Proof.
  intros Hc w. unfold run_eval, eval_process, bindM, bindX, retM. destruct (steady_now w) as [start w1].
  rewrite eval_loop_run_all.
  destruct (run_all_returns (ec_evaluators c) event Hc w1) as (rs & w2 & ->).
  destruct (steady_now w2) as [stop w3]. eexists. split; [done|]. done.
Qed.

Lemma run_inference_gives (c : InferenceStageConfig W) (event : Event) :
  0 <= nc_timeout c -> gives_output "inference" (run_inference c event).
Proof.
  intros Ht w. unfold run_inference, inference_process, bindM, retM. destruct (steady_now w) as [start w1].
  destruct (inference_loop_returns c (nc_evaluators c) event Ht 0%nat w1) as (rs & bits & Heq & _).
  destruct (inference_loop _ c 0 (nc_evaluators c) event w1) as [out w2]. simpl in Heq. subst out.
  destruct (steady_now w2) as [stop w3]. eexists. split; [done|]. done.
Qed.

Lemma run_policy_gives (p : PolicyStageConfig * option DecisionTypeRegistry) (ctx : PolicyContext) :
  gives_output "policy" (run_policy p ctx).
Proof.
  intros w. unfold run_policy, policy_process, bindM, retM. destruct (steady_now w) as [start w1].
  match goal with |- context [let '(_, _) := ?m w1 in _] => destruct (m w1) as [o w2] end.
  destruct (steady_now w2) as [stop w3]. eexists. split; [done|]. done.
Qed.

(** What holds of a decision on the way through the stages. *)
Definition partial_ok (c : PipelineConfig W) (event_id : Z) (event : Event) (ids : list string)
    (d : Decision) : Prop :=
  d_event_id d = event_id /\ d_tenant_id d = ev_tenant_id event /\ d_entity_id d = ev_entity_id event /\
  map so_stage_id (d_stage_outputs d) = ids.

Lemma partial_ok_push (c : PipelineConfig W) (i : Z) (e : Event) ids d out id :
  partial_ok c i e ids d -> so_stage_id out = id -> partial_ok c i e (ids ++ [id]) (push_stage_output d out).
Proof.
  intros (H1' & H2' & H3' & H4') Hid. split_and!; [done|done|done|].
  simpl. rewrite map_app, H4'. simpl. by rewrite Hid.
Qed.

(** The continuation decides whenever it is given a decision with one more output. *)
Lemma with_optional_decides {C : Type} (c : PipelineConfig W) (i : Z) (e : Event) (ids : list string)
    (id : string) (conf : option C) (stage : C -> stage_run W) (d : Decision) (k : Decision -> M W run_result)
    (Q : Decision -> Prop) (w : W) :
  partial_ok c i e ids d ->
  (forall x, conf = Some x -> gives_output id (stage x)) ->
  (forall d' w', partial_ok c i e (ids ++ (if conf then [id] else [])) d' ->
    exists r, (k d' w').1 = Decided r /\ Q r) ->
  exists r, (with_optional conf stage d k w).1 = Decided r /\ Q r.
Proof.
  intros Hd Hstage Hk. unfold with_optional. destruct conf as [x|].
  - unfold with_stage, bindM. destruct (Hstage x eq_refl w) as (out & Ho & Hid).
    destruct (stage x w) as [r w1]. simpl in Ho. subst r. apply Hk. by apply partial_ok_push.
  - apply Hk. by rewrite app_nil_r.
Qed.

Lemma finish_decision_ok (c : PipelineConfig W) (s : StageSet W) (t : Z) (i : Z) (e : Event) (d : Decision) (w : W) :
  partial_ok c i e (stage_ids s) d ->
  exists r, (finish_decision c t d w).1 = Decided r /\ decision_ok c s i e r /\
    d_stage_outputs r = d_stage_outputs d.
Proof.
  intros (H1' & H2' & H3' & H4'). unfold finish_decision, bindM, retM. destruct (steady_now w) as [now w1].
  eexists. split; [done|]. unfold decision_ok, compute_active_decisions.
  destruct (cfg_registry c) as [r|]; [|done].
  destruct (stage_output _ "policy") as [p|]; done.
Qed.

(** Every event of an asynchronous run, and every valid one of a synchronous
    run, gets a decision over all configured stages, unless an evaluator throws on it. *)
Lemma run_event_decides_on (c : PipelineConfig W) (s : StageSet W) (sync : bool) (i : Z) (event : Event) (w : W) :
  stages_ok_on s (event_set_id event i) -> (sync = true -> event_is_valid event = true) ->
  exists d, (run_event c s sync i event w).1 = Decided d /\ decision_ok c s i event d.
Proof.
  intros [Heval Hinf] Hsync. unfold run_event, bindM. destruct (steady_now w) as [t w1].
  destruct (system_now w1) as [at_ w2].
  destruct (run_ingest_gives s (event_set_id event i) w2) as (out & Ho & Hid).
  assert (Hv : (sync && Z.eqb (so_degraded_reason out) Degraded.IngestValidationFailed)%bool = false).
  { destruct sync; [|done]. unfold run_ingest, ingest_process, bindM, retM in Ho.
    destruct (steady_now w2) as [st w3].
    assert (Hvalid : event_is_valid (event_set_id event i) = true) by (by apply Hsync).
    rewrite Hvalid in Ho. simpl in Ho. destruct (system_now w3) as [now w4].
    destruct (steady_now w4) as [stop w5]. simpl in Ho. injection Ho as <-. done. }
  destruct (run_ingest s (event_set_id event i) w2) as [r w3]. simpl in Ho. subst r. rewrite Hv.
  apply (with_optional_decides c i event ["ingest"] "eval").
  - apply (partial_ok_push c i event []); done.
  - intros e He. apply run_eval_gives. by apply Heval.
  - intros d1 w4 Hd1. apply (with_optional_decides c i event _ "inference" _ _ _ _ _ _ Hd1).
    { intros n Hn. apply run_inference_gives. by apply Hinf. }
    intros d2 w5 Hd2. apply (with_optional_decides c i event _ "policy" _ _ _ _ _ _ Hd2).
    { intros p _. apply run_policy_gives. }
    intros d3 w6 Hd3. destruct (finish_decision_ok c s t i event d3 w6) as (r & Hr & Hok & _).
    + unfold stage_ids. by rewrite <- !app_assoc in Hd3.
    + by exists r.
Qed.

Lemma run_event_decides (c : PipelineConfig W) (s : StageSet W) (sync : bool) (i : Z) (event : Event) (w : W) :
  stages_ok s -> (sync = true -> event_is_valid event = true) ->
  exists d, (run_event c s sync i event w).1 = Decided d /\ decision_ok c s i event d.
Proof.
  intros [Heval Hinf]. apply run_event_decides_on. split; [|done]. intros e He.
  eapply Forall_impl; [by apply Heval|]. intros fn Hfn. apply Hfn.
Qed.

Lemma run_event_rejects (c : PipelineConfig W) (s : StageSet W) (i : Z) (event : Event) (w : W) :
  event_is_valid event = false ->
  exists d, (run_event c s true i event w).1 = ValidationRejected d /\
    map so_stage_id (d_stage_outputs d) = ["ingest"].
Proof.
  intros Hinv. unfold run_event, run_ingest, ingest_process, bindM, retM. destruct (steady_now w) as [t w1].
  destruct (system_now w1) as [at_ w2]. destruct (steady_now w2) as [start w3].
  assert (Hi : event_is_valid (event_set_id event i) = false) by done. rewrite Hi. simpl.
  destruct (steady_now w3) as [stop w4]. eexists. split; [done|]. done.
Qed.

End RunLemmas.

(** ** Properties *)

(** C14: an event whose evaluators do not throw is decided, or rejected, never
    lost: a synchronous run rejects an event that is not valid after the ingest
    stage; every other run ends with a decision that carries the event's identity
    and one output per configured stage in the order ingest, eval, inference,
    policy.  No output is worse than the decision's verdict, which is Pass or that
    of some output; and a degradation is in the decision exactly when it is in
    some output. *)
Theorem run_event_total {W : Type} `{TimedWorkers W} `{StdSort} (c : PipelineConfig W) (sync : bool) (i : Z)
    (event : Event) (w : W) (Hok : stages_ok (make_stages c)) :
  if (sync && negb (event_is_valid event))%bool
  then exists d, (run_event c (make_stages c) sync i event w).1 = ValidationRejected d /\
    map so_stage_id (d_stage_outputs d) = ["ingest"]
  else exists d, (run_event c (make_stages c) sync i event w).1 = Decided d /\
    d_event_id d = i /\ d_tenant_id d = ev_tenant_id event /\ d_entity_id d = ev_entity_id event /\
    map so_stage_id (d_stage_outputs d) = stage_ids (make_stages c) /\
    (forall o, o ∈ d_stage_outputs d -> verdict_le (so_verdict o) (d_final_verdict d)) /\
    (d_final_verdict d = Pass \/ exists o, o ∈ d_stage_outputs d /\ so_verdict o = d_final_verdict d) /\
    (forall k, Z.testbit (d_degraded_reason d) k = true <->
       exists o, o ∈ d_stage_outputs d /\ Z.testbit (so_degraded_reason o) k = true).
Proof.
  destruct (sync && negb (event_is_valid event))%bool eqn:Hcase.
  - apply andb_true_iff in Hcase as [-> Hinv%negb_true_iff]. by apply run_event_rejects.
  - destruct (run_event_decides c (make_stages c) sync i event w Hok) as (d & Hd & Hid & Ht & He & Hids & Hv & Hdeg).
    { intros ->. by apply negb_false_iff in Hcase. }
    exists d. split_and!; [done..| | |].
    + intros o Ho. rewrite Hv. by apply max_over_upper.
    + rewrite Hv. apply max_over_attained.
    + intros k. rewrite Hdeg, or_over_testbit, Z.bits_0, orb_false_l, existsb_elem_of. done.
Qed.

Lemma example_stages_ok : stages_ok (make_stages example_config).
Proof.
  split.
  - intros e [= <-]. repeat constructor.
  - intros n [= <-]. simpl. lia.
Qed.

Lemma run_event_total_witness :
  exists d, (run_event (H := Stages.sample_clock) (H0 := Stages.sample_workers) example_config
      (make_stages example_config) true 7 example_event 0).1 = Decided d /\
    map so_stage_id (d_stage_outputs d) = ["ingest"; "eval"; "inference"; "policy"] /\ d_event_id d = 7.
Proof.
  destruct (run_event_total (H1 := Stages.sample_timed) example_config true 7 example_event 0 example_stages_ok)
    as (d & Hd & Hid & _ & _ & Hids & _).
  exists d. split; [exact Hd|]. split; [exact Hids|exact Hid].
Defined.

(** An event without tenant or entity is handled by its caller's mode: a
    synchronous run stops at once with a validation error (no further stage
    runs, nothing is emitted), an asynchronous run still decides, marked
    IngestValidationFailed. *)
Theorem invalid_event_modes {W : Type} `{TimedWorkers W} `{StdSort} (c : PipelineConfig W) (i : Z)
    (event : Event) (w : W) (Hok : stages_ok (make_stages c)) (Hinv : event_is_valid event = false) :
  (exists d, (run_event c (make_stages c) true i event w).1 = ValidationRejected d /\
     map so_stage_id (d_stage_outputs d) = ["ingest"]) /\
  (exists d, (run_event c (make_stages c) false i event w).1 = Decided d /\
     map so_stage_id (d_stage_outputs d) = stage_ids (make_stages c)).
Proof.
  split.
  - by apply run_event_rejects.
  - destruct (run_event_decides c (make_stages c) false i event w Hok) as (d & Hd & Hall); [done|].
    exists d. split; [done|]. apply Hall.
Qed.

Lemma invalid_event_modes_witness :
  exists d, (run_event (H := Stages.sample_clock) (H0 := Stages.sample_workers) example_config
      (make_stages example_config) true 7 invalid_event 0).1 = ValidationRejected d.
Proof.
  destruct (invalid_event_modes (H1 := Stages.sample_timed) example_config 7 invalid_event 0
    example_stages_ok eq_refl) as [(d & Hd & _) _].
  exists d. exact Hd.
Defined.
