(* ===== verification/Pipeline.v ===== *)
(** * Pipeline: lifecycle, submission, draining

    The class of src/pipeline/pipeline.cpp without [submit_sync] (SyncSubmit.v).
    Threads interleave at the steps of [pipeline_step]: a submission is two
    steps (until its rate-limit check, and the rest), a coroutine spawned on a
    strand waits, takes its event id, and ends; the tasks of one strand run one
    at a time in the order they were spawned.  Stopping the thread pool abandons
    the tasks that have not begun, joining it waits for the others.  [None] is a
    call that does not return or whose behaviour is undefined. *)

From S2P Require Import Prelude Ieee CoreTypes Errors DecisionTypes RuleEngine ShuffleShard TokenBucket.
From S2P Require Import TenantRouter Config Stages EmitStage PolicyStage RunEvent.

Open Scope list_scope.
Open Scope Z_scope.

Inductive PipelineState : Type := Stopped | Starting | Running | Draining.

(** [Pipeline::Impl]; the stages other than the emit stage form [stages]. *)
Record Impl (W : Type) : Type := mkImpl {
  config : PipelineConfig W;
  state_ : PipelineState;
  next_event_id_ : Z;
  in_flight_ : Z;
  ever_started_ : bool;
  stages : option (StageSet W);
  emit : option (EmitStage W);
  router : option TenantRouter
}.

Arguments mkImpl {W}. Arguments config {W}. Arguments state_ {W}. Arguments next_event_id_ {W}.
Arguments in_flight_ {W}. Arguments ever_started_ {W}. Arguments stages {W}. Arguments emit {W}.
Arguments router {W}.

Definition impl_new {W : Type} (c : PipelineConfig W) : Impl W :=
  mkImpl c Stopped 1 0 false None None None.

Definition wrap_i64 (z : Z) : Z := (z + 2 ^ 63) mod 2 ^ 64 - 2 ^ 63.

Section Calls.

Context {W : Type} `{Clock W} `{Workers W} `{StdSort} `{StdHash}.

Definition PM (A : Type) : Type := W -> Impl W -> option (A * W * Impl W).

Definition set_state (p : Impl W) (s : PipelineState) : Impl W :=
  mkImpl (config p) s (next_event_id_ p) (in_flight_ p) (ever_started_ p) (stages p) (emit p) (router p).

Definition set_router (p : Impl W) (r : TenantRouter) : Impl W :=
  mkImpl (config p) (state_ p) (next_event_id_ p) (in_flight_ p) (ever_started_ p) (stages p) (emit p) (Some r).

Definition add_in_flight (p : Impl W) (n : Z) : Impl W :=
  mkImpl (config p) (state_ p) (next_event_id_ p) (wrap_i64 (in_flight_ p + n)) (ever_started_ p) (stages p)
    (emit p) (router p).

Definition set_emit (p : Impl W) (e : EmitStage W) : Impl W :=
  mkImpl (config p) (state_ p) (next_event_id_ p) (in_flight_ p) (ever_started_ p) (stages p) (Some e) (router p).

Definition on_event_complete (p : Impl W) : Impl W := add_in_flight p (- 1).

(** The stages and the router are allocated anew; the counters are not reset. *)
Definition start : PM (expected unit Error) := fun w p =>
  match state_ p with
  | Stopped =>
      let c := config p in
      Some (Ok tt, w,
        mkImpl c Running (next_event_id_ p) (in_flight_ p) true (Some (make_stages c))
          (Some (mkEmitStage (cfg_emit c) 0)) (Some (router_new (cfg_sharding c) (cfg_rate_limit c))))
  | _ => Some (Unexpected (ErrPipeline (mkPipelineError AlreadyRunning "pipeline is not stopped")), w, p)
  end.

Definition router_fuel (p : Impl W) : nat := assign_fuel (num_cells (cfg_sharding (config p))).

(** [submit] until the rate limit has answered. *)
Definition submit_check (event : Event) : PM (expected unit Error) := fun w p =>
  match state_ p with
  | Running =>
      match router p with
      | None => None
      | Some r =>
          match try_acquire (router_fuel p) (ev_tenant_id event) w r with
          | None => None
          | Some (Unexpected e, w1, r1) => Some (Unexpected (ErrRateLimit e), w1, set_router p r1)
          | Some (Ok _, w1, r1) => Some (Ok tt, w1, set_router p r1)
          end
      end
  | _ =>
      Some (Unexpected (ErrPipeline (mkPipelineError NotRunning "pipeline must be running to submit events")),
            w, p)
  end.

(** The rest of [submit]: the strand the coroutine is spawned on. *)
Definition submit_dispatch (event : Event) : PM Z := fun w p =>
  match router p with
  | None => None
  | Some r =>
      let p := add_in_flight p 1 in
      match cells_for (router_fuel p) (ev_tenant_id event) w r with
      | None => None
      | Some (strands, w1, r1) =>
          match strands with
          | [] => None  (* [*strands[0]] of an empty span *)
          | strand :: _ =>
              match release (ev_tenant_id event) w1 r1 with
              | None => None
              | Some (_, w2, r2) => Some (strand, w2, set_router p r2)
              end
          end
      end
  end.

(** [next_event_id_.fetch_add(1)]. *)
Definition take_event_id (p : Impl W) : Z * Impl W :=
  (next_event_id_ p,
   mkImpl (config p) (state_ p) (wrap_u64 (next_event_id_ p + 1)) (in_flight_ p) (ever_started_ p) (stages p)
     (emit p) (router p)).

(** The body of an asynchronous coroutine after it took its id: [run_event],
    the emission, [on_event_complete]; an exception skips what follows it and is
    dropped by [asio::detached].  The answer is the decision given to the emit
    stage. *)
Definition run_task (event_id : Z) (event : Event) : PM (option Decision) := fun w p =>
  match stages p, emit p with
  | Some ss, Some es =>
      match run_event (config p) ss false event_id event w with
      | (RunHangs, _) => None
      | (RunThrew _, w1) => Some (None, w1, p)
      | (ValidationRejected _, w1) => Some (None, w1, on_event_complete p)
      | (Decided d, w1) =>
          match emit_process es d w1 with
          | (None, _) => None
          | (Some (Threw _), w2) => Some (Some d, w2, p)
          | (Some (Returned (_, es')), w2) => Some (Some d, w2, on_event_complete (set_emit p es'))
          end
      end
  | _, _ => None
  end.

(** [drain] before its wait, then [router->stop()] in its two calls. *)
Definition drain_begin : PM unit := fun w p => Some (tt, w, set_state p Draining).

(** The condition the wait of [drain] ends on, or its deadline. *)
Definition drained (p : Impl W) : bool := Z.eqb (in_flight_ p) 0.

Definition drain_stop : PM unit := fun w p =>
  match router p with
  | None => None  (* [impl_->router->stop()] through a null pointer *)
  | Some r => match router_stop w r with
              | None => None
              | Some (_, w1, r1) => Some (tt, w1, set_router p r1)
              end
  end.

Definition drain_end : PM unit := fun w p => Some (tt, w, set_state p Stopped).

End Calls.

(** ** Interleavings *)

(** The pipeline with its threads and strands, and the history of what it accepted. *)
Record System (W : Type) : Type := mkSystem {
  impl : Impl W;
  submitting : list Event;               (** submissions between their two steps *)
  tasks : list (Z * Event);              (** spawned coroutines with their strand, oldest first *)
  running : list (Z * Event * Z);        (** begun coroutines with the id they took *)
  accepted : list (Z * Event);           (** history: what [submit] spawned *)
  emitted : list (Z * Event * Decision); (** history: decisions given to the emit stage *)
  abandoned : list (Z * Event)           (** history: tasks dropped by stopping the pool *)
}.

Arguments mkSystem {W}. Arguments impl {W}. Arguments submitting {W}. Arguments tasks {W}.
Arguments running {W}. Arguments accepted {W}. Arguments emitted {W}. Arguments abandoned {W}.

Definition system_new {W : Type} (c : PipelineConfig W) : System W :=
  mkSystem (impl_new c) [] [] [] [] [] [].

(** No task before the [i]th and none that runs shares its strand. *)
Definition next_on_strand {W : Type} (s : System W) (i : nat) (strand : Z) : Prop :=
  (forall j t, (j < i)%nat -> tasks s !! j = Some t -> t.1 <> strand) /\
  (forall x, x ∈ running s -> x.1.1 <> strand).

Definition pool_is_stopped {W : Type} (p : Impl W) : bool :=
  match router p with Some r => pool_stopped r | None => true end.

Section System.

Context {W : Type} `{Clock W} `{Workers W} `{StdSort} `{StdHash}.

Definition with_impl (s : System W) (p : Impl W) : System W :=
  mkSystem p (submitting s) (tasks s) (running s) (accepted s) (emitted s) (abandoned s).

(** A coroutine spawned on a stopped pool never runs. *)
Definition spawned (s : System W) (p : Impl W) (i : nat) (strand : Z) (event : Event) : System W :=
  let stopped := pool_is_stopped p in
  mkSystem p (delete i (submitting s)) (if stopped then tasks s else tasks s ++ [(strand, event)]) (running s)
    (accepted s ++ [(strand, event)]) (emitted s)
    (if stopped then abandoned s ++ [(strand, event)] else abandoned s).

Definition begun (s : System W) (i : nat) (strand : Z) (event : Event) : System W :=
  let '(event_id, p) := take_event_id (impl s) in
  mkSystem p (submitting s) (delete i (tasks s)) (running s ++ [(strand, event, event_id)]) (accepted s)
    (emitted s) (abandoned s).

Definition ended (s : System W) (p : Impl W) (i : nat) (strand : Z) (event : Event) (d : option Decision)
    : System W :=
  mkSystem p (submitting s) (tasks s) (delete i (running s)) (accepted s)
    (match d with Some d => emitted s ++ [(strand, event, d)] | None => emitted s end) (abandoned s).

Definition pool_stop (s : System W) (p : Impl W) : System W :=
  mkSystem p (submitting s) [] (running s) (accepted s) (emitted s) (abandoned s ++ tasks s).

(** ** Whole calls, with no other thread at work *)

Definition checked (s : System W) (p : Impl W) (event : Event) : System W :=
  mkSystem p (submitting s ++ [event]) (tasks s) (running s) (accepted s) (emitted s) (abandoned s).

Definition submit (event : Event) (w : W) (s : System W) : option (expected unit Error * W * System W) :=
  match submit_check event w (impl s) with
  | None => None
  | Some (Unexpected e, w1, p1) => Some (Unexpected e, w1, with_impl s p1)
  | Some (Ok _, w1, p1) =>
      match submit_dispatch event w1 p1 with
      | None => None
      | Some (strand, w2, p2) =>
          Some (Ok tt, w2, spawned (checked s p1 event) p2 (length (submitting s)) strand event)
      end
  end.

(** What waits at the deadline is dropped. *)
Definition drain (w : W) (s : System W) : option (unit * W * System W) :=
  match drain_begin w (impl s) with
  | None => None
  | Some (_, w1, p1) =>
      match drain_stop w1 p1 with
      | None => None
      | Some (_, w2, p2) =>
          match drain_end w2 p2 with
          | None => None
          | Some (_, w3, p3) => Some (tt, w3, with_impl (pool_stop s p2) p3)
          end
      end
  end.

(** [~Pipeline()]. *)
Definition destructor (w : W) (s : System W) : option (unit * W * System W) :=
  match state_ (impl s) with Running => drain w s | _ => Some (tt, w, s) end.

(** ** Steps *)

(** What a thread may do next.  [start] and [drain] are called by one thread at
    a time and not while a submission is between its steps ([start]); fewer
    than 2^31 - 1 threads submit at a time. *)
Inductive system_step : W * System W -> W * System W -> Prop :=
| step_start w s r w' p' :
    submitting s = [] -> start w (impl s) = Some (r, w', p') ->
    system_step (w, s) (w', with_impl s p')
| step_refused w s e err w' p' :
    submit_check e w (impl s) = Some (Unexpected err, w', p') ->
    system_step (w, s) (w', with_impl s p')
| step_checked w s e w' p' :
    Z.of_nat (length (submitting s)) < 2 ^ 31 - 2 ->
    submit_check e w (impl s) = Some (Ok tt, w', p') ->
    system_step (w, s) (w', checked s p' e)
| step_dispatched w s i e strand w' p' :
    submitting s !! i = Some e -> submit_dispatch e w (impl s) = Some (strand, w', p') ->
    system_step (w, s) (w', spawned s p' i strand e)
| step_begin w s i strand e :
    tasks s !! i = Some (strand, e) -> next_on_strand s i strand -> pool_is_stopped (impl s) = false ->
    system_step (w, s) (w, begun s i strand e)
| step_end w s i strand e event_id d w' p' :
    running s !! i = Some (strand, e, event_id) -> run_task event_id e w (impl s) = Some (d, w', p') ->
    system_step (w, s) (w', ended s p' i strand e d)
| step_drain_begin w s w' p' :
    drain_begin w (impl s) = Some (tt, w', p') -> system_step (w, s) (w', with_impl s p')
| step_drain_stop w s w' p' :
    state_ (impl s) = Draining -> drain_stop w (impl s) = Some (tt, w', p') ->
    system_step (w, s) (w', pool_stop s p')
| step_drain_end w s w' p' :
    state_ (impl s) = Draining -> pool_is_stopped (impl s) = true -> running s = [] ->
    drain_end w (impl s) = Some (tt, w', p') -> system_step (w, s) (w', with_impl s p').

Definition reachable (c : PipelineConfig W) (s : System W) : Prop :=
  exists w0 w, rtc system_step (w0, system_new c) (w, s).

(** ** Specification vocabulary *)

(** Nothing the pipeline calls throws or overflows. *)
Definition calls_ok (c : PipelineConfig W) : Prop :=
  stages_ok (make_stages c) /\ 0 <= mc_retry_limit (cfg_emit c) <= 28 /\ Forall no_throw (mc_targets (cfg_emit c)).

(** The entries of one strand. *)
Definition on_strand {A : Type} (strand : Z) (l : list (Z * Event * A)) : list (Z * Event) :=
  map fst (filter (fun x => x.1.1 = strand) l).

Definition waiting_on (strand : Z) (l : list (Z * Event)) : list (Z * Event) :=
  filter (fun x => x.1 = strand) l.

(** Where every accepted event is. *)
Definition whereabouts (s : System W) : list (Z * Event) :=
  map fst (emitted s) ++ map fst (running s) ++ tasks s ++ abandoned s.

Definition ids (s : System W) : list Z :=
  map (fun x => d_event_id x.2) (emitted s) ++ map snd (running s).

Definition submitters (s : System W) (tenant : string) : Z :=
  Z.of_nat (length (filter (fun e => ev_tenant_id e = tenant) (submitting s))).

(** Counters count: nothing is lost or emitted twice, ids are 1, 2, ... *)
Definition counters_ok (s : System W) : Prop :=
  accepted s ≡ₚ whereabouts s /\
  in_flight_ (impl s) = Z.of_nat (length (running s) + length (tasks s) + length (abandoned s)) /\
  next_event_id_ (impl s) = 1 + Z.of_nat (length (ids s)) /\
  ids s ≡ₚ map Z.of_nat (seq 1 (length (ids s))).

(** Strands are queues: at most one running task each, order kept. *)
Definition strands_ok (s : System W) : Prop :=
  (forall k, (length (on_strand k (running s)) <= 1)%nat) /\
  forall k, on_strand k (emitted s) ++ on_strand k (running s) ++ waiting_on k (tasks s)
    `sublist_of` waiting_on k (accepted s).

(** The decisions emitted are those [run_event] makes. *)
Definition decisions_ok (c : PipelineConfig W) (s : System W) : Prop :=
  Forall (fun x => decision_ok c (make_stages c) (d_event_id x.2) x.1.2 x.2) (emitted s).

(** The router's slots are the submissions in progress. *)
Definition router_inv (s : System W) : Prop :=
  Z.of_nat (length (submitting s)) < 2 ^ 31 - 1 /\
  forall r, router (impl s) = Some r ->
    router_ok (router_fuel (impl s)) r /\ shard_cfg r = cfg_sharding (config (impl s)) /\
    rate_cfg r = cfg_rate_limit (config (impl s)) /\ forall t, in_flight_of r t = submitters s t.

(** The strand of a tenant: its first cell. *)
Definition tenant_strand (c : PipelineConfig W) (tenant : string) : option Z :=
  match assign_cells (assign_fuel (num_cells (cfg_sharding c))) tenant (num_cells (cfg_sharding c))
      (cells_per_tenant (cfg_sharding c)) with
  | Some (idx :: _) => Some (default (-1) (map Z.of_nat (seq 0 (Z.to_nat (num_cells (cfg_sharding c)))) !! Z.to_nat idx))
  | _ => None
  end.

Definition tenants_ok (c : PipelineConfig W) (s : System W) : Prop :=
  Forall (fun x => tenant_strand c (ev_tenant_id x.2) = Some x.1) (accepted s).

(** The life of the objects [start] makes. *)
Record life_ok (c : PipelineConfig W) (s : System W) : Prop := {
  life_config : config (impl s) = c;
  life_stages : forall x, stages (impl s) = Some x -> x = make_stages c;
  life_emit : forall x, emit (impl s) = Some x -> es_config x = cfg_emit c;
  life_router : is_Some (router (impl s)) <-> ever_started_ (impl s) = true;
  life_objects : is_Some (router (impl s)) -> is_Some (stages (impl s)) /\ is_Some (emit (impl s));
  life_none : router (impl s) = None -> submitting s = [] /\ tasks s = [] /\ running s = [];
  life_stopped : state_ (impl s) = Stopped -> pool_is_stopped (impl s) = true /\ running s = [];
  life_running : state_ (impl s) = Running -> pool_is_stopped (impl s) = false;
  life_tasks : pool_is_stopped (impl s) = true -> tasks s = [];
  life_starting : state_ (impl s) <> Starting
}.

Definition system_inv (c : PipelineConfig W) (s : System W) : Prop :=
  life_ok c s /\ router_inv s /\ decisions_ok c s /\ strands_ok s /\ tenants_ok c s /\
  (Z.of_nat (length (accepted s)) < 2 ^ 62 -> counters_ok s).

End System.

(** ** Schedules *)

(** What the next thread does, for executable schedules. *)
Inductive action : Type :=
| DoStart | DoCheck (e : Event) | DoDispatch (i : nat) | DoBegin (i : nat) | DoEnd (i : nat)
| DoDrainBegin | DoDrainStop | DoDrainEnd.

Section Schedules.

Context {W : Type} `{Clock W} `{Workers W} `{StdSort} `{StdHash}.

Definition is_draining (p : Impl W) : bool := match state_ p with Draining => true | _ => false end.

Definition next_on_strand_b (s : System W) (i : nat) (strand : Z) : bool :=
  (forallb (fun t => negb (Z.eqb t.1 strand)) (take i (tasks s)) &&
   forallb (fun x => negb (Z.eqb x.1.1 strand)) (running s))%bool.

Definition exec (a : action) (x : W * System W) : option (W * System W) :=
  let '(w, s) := x in
  match a with
  | DoStart =>
      match submitting s, start w (impl s) with
      | [], Some (_, w', p') => Some (w', with_impl s p')
      | _, _ => None
      end
  | DoCheck e =>
      match submit_check e w (impl s) with
      | Some (Unexpected _, w', p') => Some (w', with_impl s p')
      | Some (Ok _, w', p') =>
          if Z.ltb (Z.of_nat (length (submitting s))) (2 ^ 31 - 2)
          then Some (w', checked s p' e) else None
      | None => None
      end
  | DoDispatch i =>
      match submitting s !! i with
      | None => None
      | Some e => match submit_dispatch e w (impl s) with
                  | Some (strand, w', p') => Some (w', spawned s p' i strand e)
                  | None => None
                  end
      end
  | DoBegin i =>
      match tasks s !! i with
      | None => None
      | Some (strand, e) =>
          if (next_on_strand_b s i strand && negb (pool_is_stopped (impl s)))%bool
          then Some (w, begun s i strand e) else None
      end
  | DoEnd i =>
      match running s !! i with
      | None => None
      | Some (strand, e, event_id) =>
          match run_task event_id e w (impl s) with
          | Some (d, w', p') => Some (w', ended s p' i strand e d)
          | None => None
          end
      end
  | DoDrainBegin => match drain_begin w (impl s) with Some (_, w', p') => Some (w', with_impl s p') | None => None end
  | DoDrainStop =>
      match is_draining (impl s), drain_stop w (impl s) with
      | true, Some (_, w', p') => Some (w', pool_stop s p')
      | _, _ => None
      end
  | DoDrainEnd =>
      match (is_draining (impl s) && pool_is_stopped (impl s))%bool, running s, drain_end w (impl s) with
      | true, [], Some (_, w', p') => Some (w', with_impl s p')
      | _, _, _ => None
      end
  end.

Fixpoint exec_all (l : list action) (x : W * System W) : option (W * System W) :=
  match l with
  | [] => Some x
  | a :: l' => match exec a x with Some y => exec_all l' y | None => None end
  end.

End Schedules.

(** One event of "acme" decided, a second one spawned, and the pipeline drained
    at once, restarted. *)
Definition example_schedule : list action :=
  [DoStart; DoCheck example_event; DoDispatch 0; DoBegin 0; DoCheck example_event; DoDispatch 0; DoEnd 0].

Definition hasty_drain : list action := example_schedule ++ [DoDrainBegin; DoDrainStop; DoDrainEnd].

Definition run_example (l : list action) : option (Z * System Z) :=
  exec_all (H := Stages.sample_clock) (H0 := Stages.sample_workers) l (0, system_new example_config).

(** ** Lemmas: what each call leaves alone *)

Lemma wrap_i64_small (z : Z) : - 2 ^ 63 <= z < 2 ^ 63 -> wrap_i64 z = z.
Proof. intros Hz. unfold wrap_i64. rewrite Z.mod_small; lia. Qed.

Section Frames.

Context {W : Type} `{Clock W} `{StdHash}.

Lemma get_or_create_pool (fuel : nat) t (w w' : W) r r' ts :
  get_or_create_tenant fuel t w r = Some (ts, w', r') -> pool_stopped r' = pool_stopped r.
Proof.
  unfold get_or_create_tenant. destruct (tenants r !! t); [by intros [= _ _ <-]|].
  destruct (assign_cells _ _ _ _); [|done]. destruct (steady_now w).
  destruct (bucket_new _ _ _); [|done]. by intros [= _ _ <-].
Qed.

Lemma try_acquire_pool (fuel : nat) t (w w' : W) r r' res :
  try_acquire fuel t w r = Some (res, w', r') -> pool_stopped r' = pool_stopped r.
Proof.
  unfold try_acquire. destruct (get_or_create_tenant _ _ _ _) as [[[ts w1] r1]|] eqn:Hg; [|done].
  apply get_or_create_pool in Hg. destruct (steady_now w1).
  destruct (try_consume _ _) as [[[] b]|]; [|..|done]; simpl; [destruct (Z.leb _ _)|]; by intros [= _ _ <-].
Qed.

Lemma cells_for_frame (fuel : nat) t (w w' : W) r r' cells :
  router_ok fuel r -> cells_for fuel t w r = Some (cells, w', r') ->
  router_ok fuel r' /\ pool_stopped r' = pool_stopped r /\ shard_cfg r' = shard_cfg r /\ rate_cfg r' = rate_cfg r /\
  is_Some (tenants r' !! t) /\ forall j, in_flight_of r' j = in_flight_of r j.
Proof.
  intros Hok. unfold cells_for.
  destruct (get_or_create_tenant _ _ _ _) as [[[ts w1] r1]|] eqn:Hg; [|done]. intros [= _ _ <-].
  pose proof (get_or_create_pool _ _ _ _ _ _ _ Hg).
  destruct (get_or_create_spec _ _ _ _ _ _ _ Hok Hg) as (Hok1 & Ht & Hin & Hsc & Hrc & Ho).
  split_and!; [done..|by eexists|]. intros j. destruct (decide (j = t)) as [->|Hj].
  - unfold in_flight_of at 1. by rewrite Ht.
  - unfold in_flight_of. by rewrite Ho.
Qed.

End Frames.

Section CallLemmas.

Context {W : Type} `{Clock W} `{Workers W} `{StdSort} `{StdHash}.

(** [submit_check] on every branch. *)
Lemma submit_check_cases (e : Event) (w w' : W) (p p' : Impl W) (res : expected unit Error) :
  submit_check e w p = Some (res, w', p') ->
  (state_ p <> Running /\ p' = p /\
    res = Unexpected (ErrPipeline (mkPipelineError NotRunning "pipeline must be running to submit events"))) \/
  (exists r r' rr, state_ p = Running /\ router p = Some r /\ p' = set_router p r' /\
    try_acquire (router_fuel p) (ev_tenant_id e) w r = Some (rr, w', r') /\
    match rr with Ok _ => res = Ok tt | Unexpected x => res = Unexpected (ErrRateLimit x) end).
Proof.
  unfold submit_check. destruct (state_ p) eqn:Hs; try (intros [= <- _ <-]; left; naive_solver).
  destruct (router p) as [r|]; [|done].
  destruct (try_acquire _ _ _ _) as [[[[[]|x] w1] r1]|] eqn:Ha; [..|done]; intros [= <- <- <-]; right;
    naive_solver.
Qed.

Lemma submit_dispatch_cases (e : Event) (w w' : W) (p p' : Impl W) (strand : Z) :
  submit_dispatch e w p = Some (strand, w', p') ->
  exists r cells w1 r1 r2, router p = Some r /\ cells_for (router_fuel p) (ev_tenant_id e) w r = Some (cells, w1, r1) /\
    head cells = Some strand /\ release (ev_tenant_id e) w1 r1 = Some (tt, w', r2) /\
    p' = set_router (add_in_flight p 1) r2.
Proof.
  unfold submit_dispatch. destruct (router p) as [r|]; [|done].
  change (router_fuel (add_in_flight p 1)) with (router_fuel p).
  destruct (cells_for _ _ _ _) as [[[cells w1] r1]|] eqn:Hc; [|done].
  destruct cells as [|k cells]; [done|].
  destruct (release _ _ _) as [[[[] w2] r2]|] eqn:Hr; [|done]. intros [= <- <- <-].
  exists r, (k :: cells), w1, r1, r2. done.
Qed.

(** Releases leave the pool alone. *)
Lemma release_pool (t : string) (w w' : W) r r' :
  release t w r = Some (tt, w', r') -> pool_stopped r' = pool_stopped r.
Proof. unfold release. destruct (tenants r !! t); by intros [= _ <-]. Qed.

End CallLemmas.

(** ** Lemmas: the invariant, part by part *)

Section Invariant.

Context {W : Type} `{TimedWorkers W} `{StdSort} `{StdHash}.

(** What a task does to the pipeline when nothing it calls throws. *)
Lemma run_task_spec (c : PipelineConfig W) (i : Z) (e : Event) (w w' : W) (p p' : Impl W) (d : option Decision) :
  calls_ok c -> config p = c -> (forall x, stages p = Some x -> x = make_stages c) ->
  (forall x, emit p = Some x -> es_config x = cfg_emit c) ->
  run_task i e w p = Some (d, w', p') ->
  exists dec es', d = Some dec /\ d_event_id dec = i /\ decision_ok c (make_stages c) i e dec /\
    es_config es' = cfg_emit c /\ p' = on_event_complete (set_emit p es').
Proof.
  intros (Hss & Hr & Ht) Hc Hs He Hrun. unfold run_task in Hrun.
  destruct (stages p) as [ss|]; [|done]. rewrite (Hs ss eq_refl) in Hrun.
  destruct (emit p) as [es|]; [|done]. specialize (He es eq_refl). rewrite Hc in Hrun.
  destruct (run_event_decides c (make_stages c) false i e w Hss) as (dec & Hdec & Hok); [done|].
  destruct (run_event c _ _ _ _ w) as [r w1]. simpl in Hdec. subst r.
  unfold emit_process, bindM, retM in Hrun. rewrite He in Hrun. destruct (steady_now w1) as [t w2].
  destruct (emit_targets_ends _ _ dec Hr Ht w2) as (rs & bits & drops & Heq & _).
  destruct (emit_targets _ _ _ dec w2) as [x w3]. simpl in Heq. subst x.
  destruct (steady_now w3) as [t' w4]. injection Hrun as <- _ <-.
  exists dec. eexists. split_and!; [done|apply Hok|done| |done]. done.
Qed.

Lemma life_new (c : PipelineConfig W) : life_ok c (system_new c).
Proof. by split; simpl. Qed.

Lemma life_set_router (c : PipelineConfig W) (s : System W) (r r' : TenantRouter) p sub tk ac em ab :
  life_ok c s -> router (impl s) = Some r -> pool_stopped r' = pool_stopped r ->
  (exists n, p = add_in_flight (impl s) n) \/ p = impl s -> (pool_stopped r = true -> tk = []) ->
  life_ok c (mkSystem (set_router p r') sub tk (running s) ac em ab).
Proof.
  intros [Hc Hss He Hr Hobj Hnone Hst Hrun Htk Hstart] Heq Hp Hcase Hnew.
  assert (Hps : pool_is_stopped (set_router p r') = pool_is_stopped (impl s))
    by (unfold pool_is_stopped; rewrite Heq; exact Hp).
  assert (Hps' : pool_is_stopped (impl s) = pool_stopped r) by (unfold pool_is_stopped; by rewrite Heq).
  rewrite Heq in *. destruct Hcase as [[n ->]| ->]; split; cbn [impl submitting tasks running] in *;
    rewrite ?Hps; simpl; try done;
    [split; intros _; [by apply Hr|by eexists]|intros _; apply Hobj; by eexists|by rewrite Hps'
    |split; intros _; [by apply Hr|by eexists]|intros _; apply Hobj; by eexists|by rewrite Hps'].
Qed.

Lemma life_begun (c : PipelineConfig W) (s : System W) i strand e :
  life_ok c s -> pool_is_stopped (impl s) = false -> life_ok c (begun s i strand e).
Proof.
  intros [Hc Hss He Hr Hobj Hnone Hst Hrun Htk Hstart] Hp. unfold begun, pool_is_stopped in *.
  split; simpl; unfold pool_is_stopped; simpl; try done.
  - intros Hn. by rewrite Hn in Hp.
  - intros Hx. destruct (Hst Hx) as [Hy _]. by rewrite Hp in Hy.
  - by rewrite Hp.
Qed.

Lemma life_ended (c : PipelineConfig W) (s : System W) es n i strand e d :
  life_ok c s -> es_config es = cfg_emit c ->
  life_ok c (ended s (add_in_flight (set_emit (impl s) es) n) i strand e d).
Proof.
  intros [Hc Hss He Hr Hobj Hnone Hst Hrun Htk Hstart] Hes.
  assert (Hdel : running s = [] -> delete i (running s) = []) by (by intros ->).
  split; simpl; unfold pool_is_stopped in *; simpl; try done.
  - by intros x [= <-].
  - intros Hx. destruct (Hobj Hx). split; [done|by eexists].
  - intros Hx. destruct (Hnone Hx) as (? & ? & ?). auto.
  - intros Hx. destruct (Hst Hx). auto.
Qed.

Lemma life_step (c : PipelineConfig W) (w w' : W) (s s' : System W) :
  calls_ok c -> life_ok c s -> router_inv s -> system_step (w, s) (w', s') -> life_ok c s'.
Proof.
  intros Hcalls Hl [Hsub Hri] Hstep.
  inversion Hstep as [? ? ? ? p' Hsb Hs|? ? e err ? p' Hs|? ? e ? p' _ Hs|? ? i e strand ? p' Hi Hs
    |? ? i strand e Hi Hn Hp|? ? i strand e id d ? p' Hi Hs|? ? ? p' Hs|? ? ? p' Hd Hs|? ? ? p' Hd Hp Hr Hs]; subst.
  - unfold start in Hs. destruct (state_ (impl s)) eqn:Hst; simplify_eq; [|destruct s; exact Hl..].
    destruct Hl as [Hc _ _ _ _ _ Hstop _ Htasks _]. destruct (Hstop Hst) as [Hp Hrun]. subst c.
    split; simpl; try done; try (by intros x [= <-]); by eauto.
  - apply submit_check_cases in Hs as [(_ & -> & _)|(r & r' & rr & _ & Hr & -> & Ha & _)].
    + by destruct s.
    + eapply life_set_router; [done|done|by eapply try_acquire_pool|by right|].
      intros Hp. eapply life_tasks; [done|]. unfold pool_is_stopped. by rewrite Hr.
  - apply submit_check_cases in Hs as [(_ & _ & ?)|(r & r' & rr & _ & Hr & -> & Ha & _)]; [done|].
    eapply life_set_router; [done|done|by eapply try_acquire_pool|by right|].
    intros Hp. eapply life_tasks; [done|]. unfold pool_is_stopped. by rewrite Hr.
  - apply submit_dispatch_cases in Hs as (r & cells & w1 & r1 & r2 & Hr & Hcells & _ & Hrel & ->).
    destruct (Hri r Hr) as (Hok & _).
    apply cells_for_frame in Hcells as (_ & Hp1 & _); [|done]. apply release_pool in Hrel.
    unfold spawned. eapply life_set_router; [done|done|congruence|by left; eexists|].
    intros Hp. unfold pool_is_stopped. simpl. rewrite Hrel, Hp1, Hp.
    eapply life_tasks; [done|]. unfold pool_is_stopped. by rewrite Hr.
  - by apply life_begun.
  - apply (run_task_spec c) in Hs as (dec & es' & -> & _ & _ & Hes & ->); [by apply life_ended|done|apply Hl..].
  - injection Hs as _ <-. destruct Hl as [Hc Hss He Hr Hobj Hnone Hst Hrun Htk Hstart]. by split.
  - unfold drain_stop, router_stop in Hs. destruct (router (impl s)) as [r|] eqn:Hr; simplify_eq.
    destruct Hl as [Hc Hss He Hr' Hobj Hnone Hst Hrun Htk Hstart]. rewrite Hr in *.
    split; simpl; try done; try (by rewrite Hd); [split; intros _; [by apply Hr'|by eexists]|].
    intros _. apply Hobj. by eexists.
  - injection Hs as _ <-. destruct Hl as [Hc Hss He Hr' Hobj Hnone Hst Hrun Htk Hstart]. by split.
Qed.

Lemma submitters_app (s : System W) (p : Impl W) l tk ru ac em ab t :
  submitters (mkSystem p (submitting s ++ l) tk ru ac em ab) t
    = submitters s t + Z.of_nat (length (filter (fun e => ev_tenant_id e = t) l)).
Proof. unfold submitters. simpl. rewrite filter_app, length_app. lia. Qed.

Lemma submitters_delete (s : System W) i e t :
  submitting s !! i = Some e ->
  submitters s t = Z.of_nat (length (filter (fun e => ev_tenant_id e = t) (delete i (submitting s))))
    + if str_eqb (ev_tenant_id e) t then 1 else 0.
Proof.
  intros Hi. unfold submitters. rewrite (delete_Permutation _ _ _ Hi) at 1. rewrite filter_cons.
  destruct (str_eqb_spec (ev_tenant_id e) t) as [Heq|Hne].
  - rewrite decide_True by done. simpl. lia.
  - rewrite decide_False by done. lia.
Qed.

Lemma submitters_bound (s : System W) t : 0 <= submitters s t <= Z.of_nat (length (submitting s)).
Proof. unfold submitters. pose proof (length_filter (fun e => ev_tenant_id e = t) (submitting s)). lia. Qed.

Lemma router_inv_frame (s s' : System W) :
  router_inv s -> router (impl s') = router (impl s) -> config (impl s') = config (impl s) ->
  submitting s' = submitting s -> router_inv s'.
Proof. unfold router_inv, router_fuel, submitters. intros ? -> -> ->. done. Qed.

(** Acquiring for one more submission, or being refused. *)
Lemma router_inv_acquire (s : System W) (e : Event) (w w' : W) r r' rr l tk ru ac em ab :
  router_inv s -> router (impl s) = Some r -> 
  try_acquire (router_fuel (impl s)) (ev_tenant_id e) w r = Some (rr, w', r') ->
  l = match rr with Ok _ => [e] | Unexpected _ => [] end ->
  Z.of_nat (length (submitting s ++ l)) < 2 ^ 31 - 1 ->
  router_inv (mkSystem (set_router (impl s) r') (submitting s ++ l) tk ru ac em ab).
Proof.
  intros [Hsub Hri] Hr Ha Hl Hlen. destruct (Hri r Hr) as (Hok & Hsc & Hrc & Hin).
  pose proof (submitters_bound s (ev_tenant_id e)).
  destruct (try_acquire_cases _ _ _ _ _ _ _ Hok Ha) as
    (ts & consumed & b & Hok' & Hts & _ & Hsc' & Hrc' & Ho & _ & Hcase); [rewrite Hin; lia|].
  split; [exact Hlen|]. simpl. intros r0 [= <-]. split_and!; [done|congruence|congruence|].
  assert (Hflow : in_flight_of r' (ev_tenant_id e) = submitters s (ev_tenant_id e) + Z.of_nat (length l)).
  { unfold in_flight_of at 1. rewrite Hts, <- Hin.
    destruct consumed; [destruct (Z.leb (rl_max_concurrent _) _)|]; destruct Hcase as [-> ->]; rewrite Hl; simpl; lia. }
  intros t. rewrite submitters_app. destruct (decide (t = ev_tenant_id e)) as [->|Hne].
  - rewrite Hflow. do 2 f_equal. destruct rr; subst l; [|done]. by rewrite filter_cons_True.
  - unfold in_flight_of at 1. rewrite (Ho t Hne). fold (in_flight_of r t). rewrite Hin.
    destruct rr; subst l; [|simpl; lia]. rewrite filter_cons_False by congruence. simpl. lia.
Qed.

Lemma router_inv_dispatch (s : System W) (i : nat) (e : Event) (w w' : W) (strand : Z) p' :
  router_inv s -> submitting s !! i = Some e -> submit_dispatch e w (impl s) = Some (strand, w', p') ->
  router_inv (spawned s p' i strand e).
Proof.
  intros [Hsub Hri] Hi Hs.
  apply submit_dispatch_cases in Hs as (r & cells & w1 & r1 & r2 & Hr & Hcells & _ & Hrel & ->).
  destruct (Hri r Hr) as (Hok & Hsc & Hrc & Hin).
  apply cells_for_frame in Hcells as (Hok1 & _ & Hsc1 & Hrc1 & [ts Hts] & Hin1); [|done].
  pose proof (submitters_bound s (ev_tenant_id e)).
  destruct (release_cases _ _ _ _ _ _ Hok1 Hrel) as (Hok2 & Hsc2 & Hrc2 & Ho & Hfl).
  { rewrite Hin1, Hin. lia. }
  split; [unfold spawned; simpl; rewrite length_delete by eauto; lia|].
  simpl. intros r0 [= <-]. split_and!; [done|congruence|congruence|].
  intros t. unfold spawned, submitters. simpl. pose proof (submitters_delete s i e t Hi) as Hsd.
  destruct (str_eqb_spec (ev_tenant_id e) t) as [Heq|Hne].
  - rewrite <- Heq in *. rewrite Hfl, Hts, Hin1, Hin. lia.
  - unfold in_flight_of at 1. rewrite (Ho t ltac:(congruence)). fold (in_flight_of r1 t).
    rewrite Hin1, Hin. lia.
Qed.

Lemma router_inv_step (c : PipelineConfig W) (w w' : W) (s s' : System W) :
  calls_ok c -> life_ok c s -> router_inv s -> system_step (w, s) (w', s') -> router_inv s'.
Proof.
  intros Hcalls Hl Hinv Hstep.
  inversion Hstep as [? ? ? ? p' Hsb Hs|? ? e err ? p' Hs|? ? e ? p' Hlt Hs|? ? i e strand ? p' Hi Hs
    |? ? i strand e Hi Hn Hp|? ? i strand e id d ? p' Hi Hs|? ? ? p' Hs|? ? ? p' Hd Hs|? ? ? p' Hd Hp Hr Hs]; subst.
  - unfold start in Hs. destruct (state_ (impl s)); simplify_eq; [|by eapply router_inv_frame..].
    destruct Hinv as [Hlen _]. split; [done|]. simpl. intros r [= <-].
    split_and!; [apply router_new_ok|done|done|]. intros t. unfold submitters, in_flight_of. simpl.
    by rewrite lookup_empty, Hsb.
  - apply submit_check_cases in Hs as [(_ & -> & _)|(r & r' & rr & _ & Hr & -> & Ha & Hrr)].
    + by eapply router_inv_frame.
    + destruct rr; [done|]. unfold with_impl. rewrite <- (app_nil_r (submitting s)).
      eapply router_inv_acquire; [done..|]. rewrite app_nil_r. by destruct Hinv.
  - apply submit_check_cases in Hs as [(_ & _ & ?)|(r & r' & rr & _ & Hr & -> & Ha & Hrr)]; [done|].
    destruct rr; [|done]. eapply router_inv_acquire; [done..|]. rewrite length_app. simpl. lia.
  - by eapply router_inv_dispatch.
  - by eapply router_inv_frame.
  - apply (run_task_spec c) in Hs as (dec & es' & -> & _ & _ & Hes & ->); [by eapply router_inv_frame|done|apply Hl..].
  - injection Hs as _ <-. by eapply router_inv_frame.
  - unfold drain_stop, router_stop in Hs. destruct (router (impl s)) as [r|] eqn:Hr; simplify_eq.
    destruct Hinv as [Hlen Hri]. split; [done|]. simpl. intros r0 [= <-]. exact (Hri r Hr).
  - injection Hs as _ <-. by eapply router_inv_frame.
Qed.

Lemma decisions_ok_step (c : PipelineConfig W) (w w' : W) (s s' : System W) :
  calls_ok c -> life_ok c s -> decisions_ok c s -> system_step (w, s) (w', s') -> decisions_ok c s'.
Proof.
  intros Hcalls Hl Hinv Hstep.
  inversion Hstep as [| | | | |? ? i strand e id d ? p' Hi Hs| | |]; subst; try exact Hinv.
  apply (run_task_spec c) in Hs as (dec & es' & -> & Hid & Hok & _); [|done|apply Hl..].
  unfold decisions_ok. simpl. apply Forall_app. split; [exact Hinv|]. constructor; [|done]. simpl. by rewrite Hid.
Qed.

(** The strand queue of a system: decided, running, waiting. *)
Definition queue (s : System W) (k : Z) : list (Z * Event) :=
  on_strand k (emitted s) ++ on_strand k (running s) ++ waiting_on k (tasks s).

Lemma strands_spawned (s : System W) (p : Impl W) i strand e : strands_ok s -> strands_ok (spawned s p i strand e).
Proof.
  intros [Hone Hq]. split; [exact Hone|]. intros k. unfold spawned. simpl.
  unfold waiting_on at 2. rewrite filter_app. destruct (pool_is_stopped p).
  - by apply sublist_inserts_r.
  - unfold waiting_on at 1. rewrite filter_app, !app_assoc. apply sublist_app; [|done].
    rewrite <- app_assoc. apply Hq.
Qed.

Lemma queue_begun (s : System W) i strand e k :
  tasks s !! i = Some (strand, e) -> next_on_strand s i strand ->
  queue (begun s i strand e) k = queue s k /\
  on_strand k (running (begun s i strand e)) =
    on_strand k (running s) ++ (if Z.eqb strand k then [(strand, e)] else []).
Proof.
  intros Hi [Hfirst _].
  assert (Hrun : on_strand k (running (begun s i strand e)) =
    on_strand k (running s) ++ if Z.eqb strand k then [(strand, e)] else []).
  { unfold begun, on_strand. simpl. rewrite filter_app, map_app. f_equal.
    destruct (Z.eqb_spec strand k); [by rewrite filter_cons_True|by rewrite filter_cons_False]. }
  split; [|exact Hrun]. unfold queue. rewrite Hrun. unfold begun. simpl. unfold waiting_on.
  destruct (Z.eqb_spec strand k) as [<-|Hne].
  - rewrite (filter_delete_first (fun x => x.1 = strand) (tasks s) i (strand, e)) by done.
    by rewrite <- !app_assoc.
  - by rewrite app_nil_r, (filter_delete_other _ _ _ _ Hi).
Qed.

Lemma strands_begun (s : System W) i strand e :
  strands_ok s -> tasks s !! i = Some (strand, e) -> next_on_strand s i strand -> strands_ok (begun s i strand e).
Proof.
  intros [Hone Hq] Hi Hn. split; intros k; destruct (queue_begun s i strand e k Hi Hn) as [Hqk Hr].
  - rewrite Hr, length_app. destruct (Z.eqb_spec strand k) as [<-|]; [|specialize (Hone k); simpl; lia].
    destruct Hn as [_ Hfree]. unfold on_strand.
    rewrite filter_none; [done|]. intros x Hx. by apply Hfree.
  - change (queue (begun s i strand e) k `sublist_of` waiting_on k (accepted s)). rewrite Hqk. apply Hq.
Qed.

Lemma strands_ended (s : System W) (p : Impl W) i strand e id d :
  strands_ok s -> running s !! i = Some (strand, e, id) -> strands_ok (ended s p i strand e (Some d)).
Proof.
  intros [Hone Hq] Hi.
  assert (Hcase : forall k, on_strand k (emitted s ++ [(strand, e, d)]) ++ on_strand k (delete i (running s))
      = on_strand k (emitted s) ++ on_strand k (running s) /\
  (length (on_strand k (delete i (running s))) <= 1)%nat).
  { intros k. specialize (Hone k). unfold on_strand in *. rewrite filter_app, map_app.
    rewrite length_map in *. destruct (decide (strand = k)) as [<-|Hne].
    - pose proof (delete_Permutation _ _ _ Hi) as Hperm.
      assert (Hlen : filter (fun x => x.1.1 = strand) (delete i (running s)) = []).
      { rewrite Hperm, filter_cons_True in Hone by done. simpl in Hone.
        apply length_zero_iff_nil. lia. }
      rewrite Hlen. split; [|simpl; lia]. rewrite filter_cons_True by done. rewrite app_nil_r. simpl. f_equal.
      rewrite Hperm, filter_cons_True in Hone by done.
      assert (Hp2 : filter (fun x => x.1.1 = strand) (running s) ≡ₚ [(strand, e, id)]).
      { rewrite Hperm at 1. rewrite filter_cons_True by done. by rewrite Hlen. }
      apply Permutation_singleton_r in Hp2. by rewrite Hp2.
    - rewrite filter_cons_False by done. rewrite (filter_delete_other _ _ _ _ Hi) by done.
      rewrite app_nil_r. done. }
  split; intros k; destruct (Hcase k) as [Hqk Hl]; [exact Hl|].
  unfold ended. simpl. rewrite app_assoc, Hqk, <- app_assoc. apply Hq.
Qed.

Lemma strands_ok_step (c : PipelineConfig W) (w w' : W) (s s' : System W) :
  calls_ok c -> life_ok c s -> strands_ok s -> system_step (w, s) (w', s') -> strands_ok s'.
Proof.
  intros Hcalls Hl Hinv Hstep.
  inversion Hstep as [| | |? ? i e strand ? p' Hi Hs|? ? i strand e Hi Hn Hp|? ? i strand e id d ? p' Hi Hs
    | |? ? ? p' Hd Hs|]; subst; try exact Hinv.
  - by apply strands_spawned.
  - by apply strands_begun.
  - apply (run_task_spec c) in Hs as (dec & es' & -> & _); [|done|apply Hl..]. by eapply strands_ended.
  - destruct Hinv as [Hone Hq]. split; [exact Hone|]. intros k. simpl.
    etrans; [|apply (Hq k)]. apply sublist_app; [done|]. apply sublist_app; [done|]. apply sublist_nil_l.
Qed.

(** The three places a task goes through. *)
Lemma whereabouts_begun (s : System W) i strand e :
  tasks s !! i = Some (strand, e) -> whereabouts (begun s i strand e) ≡ₚ whereabouts s.
Proof.
  intros Hi. unfold whereabouts, begun. simpl. rewrite (delete_Permutation _ _ _ Hi) at 2.
  rewrite map_app. simpl. solve_Permutation.
Qed.

Lemma whereabouts_ended (s : System W) p i strand e id d :
  running s !! i = Some (strand, e, id) -> whereabouts (ended s p i strand e (Some d)) ≡ₚ whereabouts s.
Proof.
  intros Hi. unfold whereabouts, ended. simpl. rewrite (delete_Permutation _ _ _ Hi) at 2.
  rewrite map_app. simpl. solve_Permutation.
Qed.

Lemma whereabouts_spawned (s : System W) p i strand e :
  whereabouts (spawned s p i strand e) ≡ₚ whereabouts s ++ [(strand, e)].
Proof. unfold whereabouts, spawned. simpl. destruct (pool_is_stopped p); solve_Permutation. Qed.

Lemma whereabouts_stopped (s : System W) p : whereabouts (pool_stop s p) ≡ₚ whereabouts s.
Proof. unfold whereabouts, pool_stop. simpl. solve_Permutation. Qed.

Lemma ids_ended (s : System W) p i strand e id d :
  running s !! i = Some (strand, e, id) -> d_event_id d = id -> ids (ended s p i strand e (Some d)) ≡ₚ ids s.
Proof.
  intros Hi Hd. unfold ids, ended. simpl. rewrite (delete_Permutation _ _ _ Hi) at 2.
  rewrite map_app. simpl. rewrite Hd. solve_Permutation.
Qed.

Lemma length_ids (s : System W) : length (ids s) = (length (emitted s) + length (running s))%nat.
Proof. unfold ids. by rewrite length_app, !length_map. Qed.

Lemma accepted_monotone (w w' : W) (s s' : System W) :
  system_step (w, s) (w', s') -> (length (accepted s) <= length (accepted s'))%nat.
Proof.
  intros Hstep. inversion Hstep; subst; simpl; try done; rewrite length_app; lia.
Qed.

(** Calls that only change the router or the state keep the counters. *)
Lemma counters_frame (s s' : System W) :
  counters_ok s -> in_flight_ (impl s') = in_flight_ (impl s) -> next_event_id_ (impl s') = next_event_id_ (impl s) ->
  accepted s' = accepted s -> emitted s' = emitted s -> running s' = running s -> tasks s' = tasks s ->
  abandoned s' = abandoned s -> counters_ok s'.
Proof. unfold counters_ok, whereabouts, ids. intros ? -> -> -> -> -> -> ->. done. Qed.

Lemma counters_bound (s : System W) :
  counters_ok s -> Z.of_nat (length (accepted s)) < 2 ^ 62 ->
  0 <= in_flight_ (impl s) < 2 ^ 62 /\ 1 <= next_event_id_ (impl s) <= 2 ^ 62.
Proof.
  intros (Hacc & Hfl & Hnext & _) Hb. apply Permutation_length in Hacc. unfold whereabouts in Hacc.
  rewrite !length_app, !length_map in Hacc. rewrite length_ids in Hnext. rewrite Hfl, Hnext. lia.
Qed.

Lemma counters_spawned (s : System W) (r : TenantRouter) i strand e :
  counters_ok s -> Z.of_nat (length (accepted s)) < 2 ^ 62 - 1 ->
  counters_ok (spawned s (set_router (add_in_flight (impl s) 1) r) i strand e).
Proof.
  intros Hinv Hb. pose proof (counters_bound s Hinv ltac:(lia)) as [Hbf _].
  destruct Hinv as (Hacc & Hfl & Hnext & Hids). split_and!; [|..].
  - rewrite whereabouts_spawned, <- Hacc. done.
  - unfold spawned. simpl. rewrite wrap_i64_small by lia. destruct (pool_is_stopped _); rewrite ?length_app; simpl; lia.
  - exact Hnext.
  - exact Hids.
Qed.

Lemma counters_begun (s : System W) i strand e :
  counters_ok s -> Z.of_nat (length (accepted s)) < 2 ^ 62 -> tasks s !! i = Some (strand, e) ->
  counters_ok (begun s i strand e).
Proof.
  intros Hinv Hb Hi. pose proof (counters_bound s Hinv Hb) as [_ Hbn].
  destruct Hinv as (Hacc & Hfl & Hnext & Hids).
  assert (Hl : ids (begun s i strand e) = ids s ++ [next_event_id_ (impl s)]).
  { unfold ids, begun. simpl. by rewrite map_app, app_assoc. }
  split_and!.
  - rewrite whereabouts_begun by done. exact Hacc.
  - unfold begun. simpl. rewrite length_app, length_delete by eauto. apply lookup_lt_Some in Hi. simpl. lia.
  - rewrite Hl, length_app. unfold begun. simpl. unfold wrap_u64, u64_mod. rewrite Z.mod_small by lia. lia.
  - rewrite Hl. rewrite length_app. simpl length. rewrite Nat.add_1_r, seq_S, map_app.
    apply Permutation_app; [exact Hids|]. simpl. rewrite Hnext. replace (1 + length (ids s))%nat with (S (length (ids s))) by lia.
    by rewrite Nat2Z.inj_succ, Z.add_1_l.
Qed.

Lemma counters_ended (s : System W) es i strand e id d :
  counters_ok s -> Z.of_nat (length (accepted s)) < 2 ^ 62 -> running s !! i = Some (strand, e, id) ->
  d_event_id d = id ->
  counters_ok (ended s (on_event_complete (set_emit (impl s) es)) i strand e (Some d)).
Proof.
  intros Hinv Hb Hi Hd. pose proof (counters_bound s Hinv Hb) as [Hbf _].
  destruct Hinv as (Hacc & Hfl & Hnext & Hids). pose proof (lookup_lt_Some _ _ _ Hi) as Hlt.
  pose proof (ids_ended s (on_event_complete (set_emit (impl s) es)) i strand e id d Hi Hd) as Hperm.
  split_and!.
  - by rewrite whereabouts_ended.
  - unfold ended. simpl. rewrite wrap_i64_small, length_delete by (eauto || lia). lia.
  - rewrite (Permutation_length Hperm). exact Hnext.
  - by rewrite (Permutation_length Hperm), Hperm.
Qed.

Lemma counters_step (c : PipelineConfig W) (w w' : W) (s s' : System W) :
  calls_ok c -> life_ok c s -> counters_ok s -> Z.of_nat (length (accepted s')) < 2 ^ 62 ->
  system_step (w, s) (w', s') -> counters_ok s'.
Proof.
  intros Hcalls Hl Hinv Hb Hstep. pose proof (accepted_monotone _ _ _ _ Hstep) as Hmono.
  inversion Hstep as [? ? ? ? p' Hsb Hs|? ? e err ? p' Hs|? ? e ? p' Hlt Hs|? ? i e strand ? p' Hi Hs
    |? ? i strand e Hi Hn Hp|? ? i strand e id d ? p' Hi Hs|? ? ? p' Hs|? ? ? p' Hd Hs|? ? ? p' Hd Hp Hr Hs]; subst.
  - unfold start in Hs. destruct (state_ (impl s)); simplify_eq; by eapply counters_frame.
  - apply submit_check_cases in Hs as [(_ & -> & _)|(r & r' & rr & _ & Hr & -> & _)]; by eapply counters_frame.
  - apply submit_check_cases in Hs as [(_ & -> & _)|(r & r' & rr & _ & Hr & -> & _)]; by eapply counters_frame.
  - apply submit_dispatch_cases in Hs as (r & cells & w1 & r1 & r2 & Hr & Hcells & _ & Hrel & ->).
    apply counters_spawned; [done|]. simpl in Hb. rewrite length_app in Hb. simpl in Hb. lia.
  - apply counters_begun; [done|lia|done].
  - apply (run_task_spec c) in Hs as (dec & es' & -> & Hid & _ & _ & ->); [|done|apply Hl..].
    eapply counters_ended; [done|lia|done|done].
  - injection Hs as _ <-. by eapply counters_frame.
  - unfold drain_stop, router_stop in Hs. destruct (router (impl s)) as [r|]; simplify_eq.
    destruct Hinv as (Hacc & Hfl & Hnext & Hids). split_and!; [|..|exact Hnext|exact Hids].
    + by rewrite whereabouts_stopped.
    + simpl. rewrite length_app. lia.
  - injection Hs as _ <-. by eapply counters_frame.
Qed.

Lemma cells_for_head (c : PipelineConfig W) (t : string) (w w' : W) r r' cells strand :
  router_ok (assign_fuel (num_cells (cfg_sharding c))) r -> shard_cfg r = cfg_sharding c ->
  cells_for (assign_fuel (num_cells (cfg_sharding c))) t w r = Some (cells, w', r') ->
  head cells = Some strand -> tenant_strand c t = Some strand.
Proof.
  intros Hok Hsc. unfold cells_for.
  destruct (get_or_create_tenant _ _ _ _) as [[[ts w1] r1]|] eqn:Hg; [|done]. intros [= <- _ _] Hh.
  destruct (get_or_create_spec _ _ _ _ _ _ _ Hok Hg) as ([Hstr Hts] & Ht & _ & Hsc1 & _).
  destruct (Hts t ts Ht) as [Hcells _]. unfold tenant_strand. rewrite Hsc1, Hsc in *. rewrite Hcells.
  destruct (cell_indices ts) as [|idx rest]; [done|]. simpl in Hh. by rewrite <- Hstr.
Qed.

Lemma tenants_ok_step (c : PipelineConfig W) (w w' : W) (s s' : System W) :
  life_ok c s -> router_inv s -> tenants_ok c s -> system_step (w, s) (w', s') -> tenants_ok c s'.
Proof.
  intros Hl [_ Hri] Hinv Hstep.
  inversion Hstep as [| | |? ? i e strand ? p' Hi Hs| | | | |]; subst; try exact Hinv.
  apply submit_dispatch_cases in Hs as (r & cells & w1 & r1 & r2 & Hr & Hcells & Hh & _).
  destruct (Hri r Hr) as (Hok & Hsc & _). unfold router_fuel in *. rewrite (life_config c s Hl) in *.
  unfold tenants_ok. simpl. apply Forall_app. split; [exact Hinv|]. constructor; [|done].
  by eapply cells_for_head.
Qed.

(** The invariant holds of every reachable system. *)
Lemma system_inv_new (c : PipelineConfig W) : system_inv c (system_new c).
Proof.
  split_and!; [apply life_new|by split|by constructor|split; [by intros k; simpl; lia|done]|by constructor|].
  intros _. split_and!; done.
Qed.

Lemma system_inv_step (c : PipelineConfig W) (w w' : W) (s s' : System W) :
  calls_ok c -> system_inv c s -> system_step (w, s) (w', s') -> system_inv c s'.
Proof.
  intros Hcalls (Hl & Hr & Hd & Hs & Ht & Hc) Hstep. split_and!.
  - by eapply life_step.
  - by eapply router_inv_step.
  - by eapply decisions_ok_step.
  - by eapply strands_ok_step.
  - by eapply tenants_ok_step.
  - intros Hb. pose proof (accepted_monotone _ _ _ _ Hstep).
    eapply counters_step; [done|done|apply Hc; lia|done|done].
Qed.

Lemma system_inv_rtc (c : PipelineConfig W) (x y : W * System W) :
  calls_ok c -> rtc system_step x y -> system_inv c x.2 -> system_inv c y.2.
Proof.
  intros Hcalls. induction 1 as [x|[w1 s1] [w2 s2] z Hstep _ IH]; [done|]. intros Hx. apply IH.
  by eapply system_inv_step.
Qed.

Lemma reachable_inv (c : PipelineConfig W) (s : System W) : calls_ok c -> reachable c s -> system_inv c s.
Proof.
  intros Hcalls (w0 & w & Hrtc). apply (system_inv_rtc _ _ _ Hcalls Hrtc), system_inv_new.
Qed.

(** Schedules are sequences of steps. *)
Lemma next_on_strand_b_true (s : System W) i strand : next_on_strand_b s i strand = true -> next_on_strand s i strand.
Proof.
  unfold next_on_strand_b. intros [Ht Hr]%andb_true_iff. split.
  - intros j t Hj Hl. rewrite forallb_forall in Ht. specialize (Ht t). apply negb_true_iff, Z.eqb_neq in Ht; [done|].
    apply list_elem_of_In, (list_elem_of_lookup_2 _ j). by rewrite lookup_take_lt.
  - intros x Hx. rewrite forallb_forall in Hr. specialize (Hr x). apply negb_true_iff, Z.eqb_neq in Hr; [done|].
    by apply list_elem_of_In.
Qed.

Lemma exec_step (a : action) (x y : W * System W) : exec a x = Some y -> system_step x y.
Proof.
  destruct x as [w s], a as [|e|i|i|i| | |]; cbn [exec]; intros Hx.
  - destruct (submitting s) eqn:Hsub; [|done]. destruct (start w (impl s)) as [[[r w'] p']|] eqn:Hs; simplify_eq.
    by econstructor.
  - destruct (submit_check e w (impl s)) as [[[[[]|err] w'] p']|] eqn:Hs; [..|done].
    + case_match eqn:Hlt; simplify_eq. apply step_checked; [by apply Z.ltb_lt|done].
    + simplify_eq. by eapply step_refused.
  - destruct (submitting s !! i) as [e|] eqn:Hi; [|done].
    destruct (submit_dispatch e w (impl s)) as [[[k w'] p']|] eqn:Hs; simplify_eq. by econstructor.
  - destruct (tasks s !! i) as [[k e]|] eqn:Hi; [|done]. case_match eqn:Hb; simplify_eq.
    apply andb_true_iff in Hb as [Hn Hp%negb_true_iff].
    apply step_begin; [done|by apply next_on_strand_b_true|done].
  - destruct (running s !! i) as [[[k e] id]|] eqn:Hi; [|done].
    destruct (run_task id e w (impl s)) as [[[d w'] p']|] eqn:Hs; simplify_eq. by econstructor.
  - simpl in Hx. simplify_eq. by econstructor.
  - unfold is_draining in Hx. destruct (state_ (impl s)) eqn:Hst; try done.
    destruct (drain_stop w (impl s)) as [[[[] w'] p']|] eqn:Hs; simplify_eq. by econstructor.
  - unfold is_draining in Hx. destruct (state_ (impl s)) eqn:Hst; try done.
    destruct (pool_is_stopped (impl s)) eqn:Hp; [|done]. destruct (running s) eqn:Hr; [|done].
    simpl in Hx. simplify_eq. by econstructor.
Qed.

Lemma exec_all_reachable (c : PipelineConfig W) (l : list action) (w0 w : W) (s : System W) :
  exec_all l (w0, system_new c) = Some (w, s) -> reachable c s.
Proof.
  intros Hall. exists w0, w. revert Hall. generalize (w0, system_new c).
  induction l as [|a l IH]; cbn [exec_all]; intros x Hx; [by simplify_eq|].
  destruct (exec a x) as [y|] eqn:Ha; [|done]. eapply rtc_l; [by apply (exec_step a)|by apply IH].
Qed.

(** Whole calls are sequences of steps. *)
Lemma submit_is_steps (e : Event) (w w' : W) (s s' : System W) (r : expected unit Error) :
  Z.of_nat (length (submitting s)) < 2 ^ 31 - 2 -> submit e w s = Some (r, w', s') ->
  rtc system_step (w, s) (w', s') /\ submitting s' = submitting s.
Proof.
  intros Hlen. unfold submit. destruct (submit_check e w (impl s)) as [[[[[]|err] w1] p1]|] eqn:Hc; [..|done].
  - destruct (submit_dispatch e w1 p1) as [[[k w2] p2]|] eqn:Hd; [|done]. intros [= _ <- <-].
    assert (Hi : (submitting s ++ [e]) !! length (submitting s) = Some e) by (by rewrite lookup_app_r, Nat.sub_diag).
    split.
    + eapply rtc_l; [by apply (step_checked w s e w1 p1)|]. apply rtc_once. by apply step_dispatched.
    + unfold spawned. simpl. rewrite delete_take_drop, take_app_length, drop_ge, app_nil_r; [done|].
      rewrite length_app. simpl. lia.
  - intros [= _ <- <-]. split; [|done]. apply rtc_once. by eapply step_refused.
Qed.

Lemma drain_is_steps (w w' : W) (s s' : System W) :
  running s = [] -> drain w s = Some (tt, w', s') -> rtc system_step (w, s) (w', s').
Proof.
  intros Hrun Hd. unfold drain, drain_begin in Hd.
  destruct (drain_stop w (set_state (impl s) Draining)) as [[[[] w2] p2]|] eqn:Hs; [|done].
  injection Hd as <- <-. eapply rtc_l; [by apply (step_drain_begin w s)|].
  eapply rtc_l; [by apply (step_drain_stop w (with_impl s (set_state (impl s) Draining)) w2 p2)|].
  apply rtc_once. unfold drain_stop, router_stop in Hs. simpl in Hs.
  destruct (router (impl s)) as [r|]; [|done]. injection Hs as <- <-. by apply step_drain_end.
Qed.

(** Consequences of the invariant. *)
Lemma on_strand_waiting {A : Type} (k : Z) (l : list (Z * Event * A)) : on_strand k l = waiting_on k (map fst l).
Proof. unfold on_strand, waiting_on. by rewrite filter_map_comm. Qed.

Lemma queue_full (s : System W) (k : Z) :
  strands_ok s -> accepted s ≡ₚ whereabouts s -> abandoned s = [] -> queue s k = waiting_on k (accepted s).
Proof.
  intros [_ Hq] Hacc Hab. apply sublist_full; [apply Hq|].
  unfold queue. rewrite !on_strand_waiting. unfold waiting_on. rewrite <- !filter_app.
  apply Nat.eq_le_incl, Permutation_length. rewrite Hacc. unfold whereabouts. by rewrite Hab, app_nil_r.
Qed.

Lemma queue_complete (c : PipelineConfig W) (s : System W) (k : Z) :
  calls_ok c -> reachable c s -> Z.of_nat (length (accepted s)) < 2 ^ 62 -> abandoned s = [] ->
  queue s k = waiting_on k (accepted s).
Proof.
  intros Hcalls Hreach Hb Hab. destruct (reachable_inv c s Hcalls Hreach) as (_ & _ & _ & Hs & _ & Hc).
  destruct (Hc Hb) as (Hacc & _). by apply queue_full.
Qed.

(** A filter by tenant may go through the tenant's strand. *)
Lemma tenant_through_strand (c : PipelineConfig W) (t : string) (k : Z) (l : list (Z * Event)) :
  Forall (fun x => tenant_strand c (ev_tenant_id x.2) = Some x.1) l -> tenant_strand c t = Some k ->
  filter (fun x => ev_tenant_id x.2 = t) (waiting_on k l) = filter (fun x => ev_tenant_id x.2 = t) l.
Proof.
  intros Hl Ht. unfold waiting_on. induction Hl as [|x l Hx _ IH]; [done|].
  rewrite !filter_cons. destruct (decide (ev_tenant_id x.2 = t)) as [Heq|Hne].
  - rewrite decide_True by congruence. rewrite filter_cons_True by done. by rewrite IH.
  - destruct (decide (x.1 = k)); [by rewrite filter_cons_False|done].
Qed.

(** When nothing was abandoned, the emitted events of a tenant come first among its accepted ones. *)
Lemma tenants_in_order (c : PipelineConfig W) (s : System W) (tenant : string) :
  strands_ok s -> tenants_ok c s -> accepted s ≡ₚ whereabouts s -> abandoned s = [] ->
  filter (fun x => ev_tenant_id x.2 = tenant) (map fst (emitted s))
    `prefix_of` filter (fun x => ev_tenant_id x.2 = tenant) (accepted s).
Proof.
  intros Hs Ht Hacc Hab. unfold tenants_ok in Ht.
  assert (Hem : Forall (fun x => tenant_strand c (ev_tenant_id x.2) = Some x.1) (map fst (emitted s))).
  { rewrite Hacc in Ht. unfold whereabouts in Ht. by apply Forall_app in Ht as [Ht _]. }
  destruct (tenant_strand c tenant) as [k|] eqn:Hk.
  - rewrite <- (tenant_through_strand c tenant k (accepted s) Ht Hk), <- (tenant_through_strand c tenant k _ Hem Hk).
    rewrite <- (queue_full s k Hs Hacc Hab). unfold queue. rewrite on_strand_waiting, filter_app.
    apply prefix_app_r. done.
  - rewrite filter_none; [apply prefix_nil|]. intros x Hx Heq. rewrite Forall_forall in Hem.
    specialize (Hem x Hx). simpl in Hem. congruence.
Qed.

Lemma abandoned_monotone (x y : W * System W) :
  rtc system_step x y -> (length (abandoned x.2) <= length (abandoned y.2))%nat.
Proof.
  induction 1 as [x|x y z Hstep _ IH]; [done|]. etrans; [|exact IH].
  inversion Hstep; subst; simpl; try done; [destruct (pool_is_stopped p')|]; rewrite ?length_app; lia.
Qed.

End Invariant.

(** ** Properties *)

(** No accepted event is lost or decided twice: in every reachable system
    (any interleaving of submissions, strands, drains and restarts, when nothing
    it calls throws) the accepted events are exactly the emitted, the running,
    the waiting and the abandoned ones, [in_flight_] counts the last three, event
    ids are distinct, each decision is the one [run_event] makes of its event,
    and when nothing is in flight every accepted event has been emitted once. *)
Theorem accepted_events_accounted {W : Type} `{TimedWorkers W} `{StdSort} `{StdHash} (c : PipelineConfig W)
    (s : System W) (Hok : calls_ok c) (Hreach : reachable c s)
    (Hbound : Z.of_nat (length (accepted s)) < 2 ^ 62) :
  accepted s ≡ₚ whereabouts s /\
  in_flight_ (impl s) = Z.of_nat (length (running s) + length (tasks s) + length (abandoned s)) /\
  NoDup (ids s) /\
  Forall (fun x => decision_ok c (make_stages c) (d_event_id x.2) x.1.2 x.2) (emitted s) /\
  (drained (impl s) = true -> accepted s ≡ₚ map fst (emitted s)).
Proof.
  destruct (reachable_inv c s Hok Hreach) as (_ & _ & Hd & _ & _ & Hc).
  destruct (Hc Hbound) as (Hacc & Hfl & _ & Hids). split_and!; [done|done| |done|].
  - rewrite Hids. apply (NoDup_fmap_2 Z.of_nat). apply NoDup_seq.
  - unfold drained. rewrite Hfl. intros Hz%Z.eqb_eq. rewrite Hacc. unfold whereabouts.
    destruct (running s), (tasks s), (abandoned s); simpl in Hz; try lia. by rewrite app_nil_r.
Qed.

Lemma example_calls_ok : calls_ok example_config.
Proof.
  split_and!; [|done|done|by repeat constructor]. split.
  - intros e [= <-]. repeat constructor.
  - intros n [= <-]. simpl. lia.
Qed.

Lemma accepted_events_accounted_witness :
  match run_example example_schedule with
  | Some (_, s) => length (accepted s) = 2%nat /\ length (emitted s) = 1%nat /\ in_flight_ (impl s) = 1 /\
      accepted s ≡ₚ whereabouts s
  | None => False
  end.
Proof.
  destruct (run_example example_schedule) as [[w s]|] eqn:Hrun; [|by vm_compute in Hrun].
  assert (Hlen : option_map (fun x => (length (accepted x.2), length (emitted x.2), in_flight_ (impl x.2)))
    (run_example example_schedule) = Some (2%nat, 1%nat, 1)) by (vm_compute; reflexivity).
  rewrite Hrun in Hlen. injection Hlen as Ha He Hi. split; [exact Ha|]. split; [exact He|]. split; [exact Hi|].
  apply (accepted_events_accounted (H1 := Stages.sample_timed) example_config s example_calls_ok).
  - exact (exec_all_reachable example_config example_schedule 0 w s Hrun).
  - simpl in Ha. rewrite Ha. reflexivity.
Defined.

(** Events of one tenant are decided in the order they were accepted: in
    every reachable system in which no task was abandoned the tenant's emitted
    events are a prefix of its accepted events, and at most one event of a
    strand is being decided. *)
Theorem tenant_order_kept {W : Type} `{TimedWorkers W} `{StdSort} `{StdHash} (c : PipelineConfig W)
    (s : System W) (tenant : string) (Hok : calls_ok c) (Hreach : reachable c s)
    (Hbound : Z.of_nat (length (accepted s)) < 2 ^ 62) (Hab : abandoned s = []) :
  filter (fun x => ev_tenant_id x.2 = tenant) (map fst (emitted s))
    `prefix_of` filter (fun x => ev_tenant_id x.2 = tenant) (accepted s) /\
  forall k, (length (on_strand k (running s)) <= 1)%nat.
Proof.
  destruct (reachable_inv c s Hok Hreach) as (_ & _ & _ & Hs & Ht & Hc).
  destruct (Hc Hbound) as (Hacc & _). split; [by eapply tenants_in_order|apply Hs].
Qed.

Lemma tenant_order_kept_witness :
  match run_example example_schedule with
  | Some (_, s) => filter (fun x => ev_tenant_id x.2 = "acme") (map fst (emitted s))
      `prefix_of` filter (fun x => ev_tenant_id x.2 = "acme") (accepted s)
  | None => False
  end.
Proof.
  destruct (run_example example_schedule) as [[w s]|] eqn:Hrun; [|by vm_compute in Hrun].
  assert (Hlen : option_map (fun x => (length (accepted x.2), length (abandoned x.2)))
    (run_example example_schedule) = Some (2%nat, 0%nat)) by (vm_compute; reflexivity).
  rewrite Hrun in Hlen. injection Hlen as Ha Hab.
  apply (tenant_order_kept (H1 := Stages.sample_timed) example_config s "acme" example_calls_ok).
  - exact (exec_all_reachable example_config example_schedule 0 w s Hrun).
  - simpl in Ha. rewrite Ha. reflexivity.
  - simpl in Hab. by destruct (abandoned s).
Defined.

(** The concurrency cap does not bound the events in flight: [submit]
    returns its slot before it returns, so in every reachable system a
    submission is refused for concurrency only when that many other
    submissions of the tenant are between their two steps, however many of its
    events are waiting or running. *)
Theorem cap_counts_submissions {W : Type} `{TimedWorkers W} `{StdSort} `{StdHash} (c : PipelineConfig W)
    (s : System W) (e : Event) (w w' : W) (p' : Impl W) (tenant : string)
    (Hok : calls_ok c) (Hreach : reachable c s)
    (Hs : submit_check e w (impl s)
      = Some (Unexpected (ErrRateLimit (mkRateLimitError ConcurrencyCapReached tenant)), w', p')) :
  rl_max_concurrent (cfg_rate_limit c) <= submitters s (ev_tenant_id e).
Proof.
  destruct (reachable_inv c s Hok Hreach) as (Hl & [Hsub Hri] & _).
  apply submit_check_cases in Hs as [(_ & _ & ?)|(r & r' & rr & Hst & Hr & -> & Ha & Hrr)]; [done|].
  destruct rr as [?|x]; [done|]. injection Hrr as <-.
  destruct (Hri r Hr) as (Hrok & _ & Hrc & Hin). pose proof (submitters_bound s (ev_tenant_id e)).
  destruct (try_acquire_cases _ _ _ _ _ _ _ Hrok Ha) as (ts & consumed & b & _ & _ & _ & _ & _ & _ & _ & Hcase);
    [rewrite Hin; lia|].
  rewrite Hrc, (life_config c s Hl), Hin in Hcase.
  destruct consumed; [destruct (Z.leb_spec (rl_max_concurrent (cfg_rate_limit c)) (submitters s (ev_tenant_id e)))|];
    destruct Hcase as [? _]; done.
Qed.

(** The hundredth-and-first of a hundred unfinished submissions. *)
Lemma cap_counts_submissions_witness :
  match run_example (DoStart :: repeat (DoCheck example_event) 100) with
  | Some (_, s) => 100 <= submitters s "acme"
  | None => False
  end.
Proof.
  destruct (run_example (DoStart :: repeat (DoCheck example_event) 100)) as [[w s]|] eqn:Hrun;
    [|by vm_compute in Hrun].
  assert (Hres : option_map (fun x => option_map (fun y => y.1.1)
      (submit_check (H := Stages.sample_clock) example_event x.1 (impl x.2)))
      (run_example (DoStart :: repeat (DoCheck example_event) 100))
    = Some (Some (Unexpected (ErrRateLimit (mkRateLimitError ConcurrencyCapReached "acme")))))
    by (vm_compute; reflexivity).
  rewrite Hrun in Hres. injection Hres as Hres. simpl in Hres.
  destruct (submit_check (H := Stages.sample_clock) example_event w (impl s)) as [[[res w'] p']|] eqn:Hs;
    [|discriminate]. injection Hres as ->.
  exact (cap_counts_submissions (H1 := Stages.sample_timed) example_config s example_event w w' p' "acme"
    example_calls_ok (exec_all_reachable example_config _ 0 w s Hrun) Hs).
Defined.

(** C33: a task abandoned by stopping the pool stays in flight for ever: once a
    drain has dropped a task, no later drain of the same pipeline, restarted or
    not, finds it drained, so each waits its whole deadline. *)
Theorem abandoned_block_drain {W : Type} `{TimedWorkers W} `{StdSort} `{StdHash} (c : PipelineConfig W)
    (s s' : System W) (w w' : W) (Hok : calls_ok c) (Hreach : reachable c s) (Hab : abandoned s <> [])
    (Hlater : rtc system_step (w, s) (w', s')) (Hbound : Z.of_nat (length (accepted s')) < 2 ^ 62) :
  drained (impl s') = false.
Proof.
  pose proof (abandoned_monotone _ _ Hlater) as Hmono. simpl in Hmono.
  pose proof (system_inv_rtc _ _ _ Hok Hlater (reachable_inv c s Hok Hreach)) as Hinv.
  simpl in Hinv.
  destruct Hinv as (_ & _ & _ & _ & _ & Hc). destruct (Hc Hbound) as (_ & Hfl & _).
  unfold drained. rewrite Hfl. apply Z.eqb_neq. destruct (abandoned s); [done|]. simpl in Hmono. lia.
Qed.

Lemma abandoned_block_drain_witness :
  match run_example hasty_drain with
  | Some (w, s) => drained (impl s) = false /\ state_ (impl s) = Stopped
  | None => False
  end.
Proof.
  destruct (run_example hasty_drain) as [[w s]|] eqn:Hrun; [|by vm_compute in Hrun].
  assert (Hlen : option_map (fun x => (length (accepted x.2), length (abandoned x.2), state_ (impl x.2)))
    (run_example hasty_drain) = Some (2%nat, 1%nat, Stopped)) by (vm_compute; reflexivity).
  rewrite Hrun in Hlen. injection Hlen as Ha Hab Hst. split; [|exact Hst].
  apply (abandoned_block_drain (H1 := Stages.sample_timed) example_config s s w w example_calls_ok).
  - exact (exec_all_reachable example_config hasty_drain 0 w s Hrun).
  - intros Hnil. simpl in Hab. rewrite Hnil in Hab. discriminate.
  - apply rtc_refl.
  - simpl in Ha. rewrite Ha. reflexivity.
Defined.

(** C34: the life cycle in every reachable system: [start] works on a stopped
    pipeline only and makes it run with new stages and a new router, keeping its
    counters; [submit] works on a running one only; [drain] has a router to stop
    exactly when the pipeline was ever started. *)
Theorem lifecycle_guards {W : Type} `{TimedWorkers W} `{StdSort} `{StdHash} (c : PipelineConfig W)
    (s : System W) (w : W) (e : Event) (Hok : calls_ok c) (Hreach : reachable c s) :
  match state_ (impl s) with
  | Stopped => exists p', start w (impl s) = Some (Ok tt, w, p') /\ state_ p' = Running /\
      router p' = Some (router_new (cfg_sharding c) (cfg_rate_limit c)) /\ stages p' = Some (make_stages c) /\
      next_event_id_ p' = next_event_id_ (impl s) /\ in_flight_ p' = in_flight_ (impl s)
  | _ => start w (impl s)
      = Some (Unexpected (ErrPipeline (mkPipelineError AlreadyRunning "pipeline is not stopped")), w, impl s)
  end /\
  match state_ (impl s) with
  | Running => is_Some (router (impl s)) /\ pool_is_stopped (impl s) = false
  | _ => submit e w s
      = Some (Unexpected (ErrPipeline (mkPipelineError NotRunning "pipeline must be running to submit events")),
              w, s)
  end /\
  (drain w s = None <-> ever_started_ (impl s) = false).
Proof.
  destruct (reachable_inv c s Hok Hreach) as (Hl & _). split_and!.
  - unfold start. rewrite <- (life_config c s Hl). destruct (state_ (impl s)); try done. eexists. split; [done|]. done.
  - unfold submit, submit_check. destruct (state_ (impl s)) eqn:Hst; try (by destruct s).
    pose proof (life_running c s Hl Hst) as Hp. split; [|done]. unfold pool_is_stopped in Hp.
    destruct (router (impl s)); [by eexists|done].
  - pose proof (life_router c s Hl) as Hr. unfold drain, drain_begin, drain_stop, drain_end, set_state, router_stop.
    simpl. destruct (router (impl s)) as [r|].
    + split; [done|]. intros Hf. destruct Hr as [Hr _]. rewrite Hr in Hf by (by eexists). done.
    + split; [|done]. intros _. destruct (ever_started_ (impl s)); [|done]. destruct Hr as [_ Hr].
      by destruct (Hr eq_refl).
Qed.

Lemma lifecycle_guards_witness :
  drain 0 (system_new example_config) = None.
Proof.
  apply (lifecycle_guards (H := Stages.sample_clock) (H0 := Stages.sample_workers) (H1 := Stages.sample_timed)
    example_config (system_new example_config) 0 example_event example_calls_ok
    (exec_all_reachable example_config [] 0 0 _ eq_refl)).
  reflexivity.
Defined.

(** The builder accepts [cells_per_tenant = 0]; a submission then indexes an
    empty span of strands. *)
Theorem zero_cells_undefined {W : Type} `{Clock W} `{StdHash} (e : Event) (w : W) (p : Impl W)
    (Hzero : cells_per_tenant (cfg_sharding (config p)) = 0)
    (Hnew : router p = Some (router_new (cfg_sharding (config p)) (cfg_rate_limit (config p)))) :
  submit_dispatch e w p = None.
Proof.
  unfold submit_dispatch. rewrite Hnew. unfold cells_for, get_or_create_tenant. cbn [tenants router_new].
  rewrite lookup_empty. cbn [shard_cfg router_new]. rewrite Hzero. unfold assign_cells.
  destruct (router_fuel (add_in_flight p 1)); [done|]. cbn [assign_loop].
  destruct (steady_now w) as [now w1]. by destruct (bucket_new _ _ _).
Qed.

Lemma zero_cells_undefined_witness :
  submit_dispatch (H := Stages.sample_clock) example_event 0
    (mkImpl (mkPipelineConfig "p" "1" 300 (mkShardingConfig 16 0 2) (mkRateLimitConfig 10 5 1) (mkIngestConfig 0 0)
       None None None default_emit None) Running 1 0 true None None
       (Some (router_new (mkShardingConfig 16 0 2) (mkRateLimitConfig 10 5 1)))) = None.
Proof. apply zero_cells_undefined; reflexivity. Defined.
