(* ===== verification/SyncSubmit.v ===== *)
(** * SyncSubmit: a submission that waits for its decision

    [Pipeline::submit_sync] and the parts of [run_event] that deal with its
    [SyncContext] (src/pipeline/pipeline.cpp), with the token of
    include/fre/pipeline/sync_submit.hpp.  One call and its coroutine interleave
    at their critical sections under the context's mutex; the caller holds the
    mutex from the moment its wait ends to the moment it has marked the context
    cancelled, so these are single steps. *)

From S2P Require Import Prelude Ieee CoreTypes Errors DecisionTypes RuleEngine TokenBucket TenantRouter.
From S2P Require Import Config Stages EmitStage PolicyStage RunEvent Pipeline.

Open Scope list_scope.
Open Scope Z_scope.

Inductive SubmitSyncError : Type :=
| SyncTimeout | SyncRateLimited | PipelineUnavailable | NotStarted | ValidationFailed | Cancelled.

Record SyncContext : Type := mkSyncContext {
  sc_decision : option Decision;
  sc_error : option SubmitSyncError;
  sc_cancelled : bool;
  sc_done : bool
}.

Definition ctx_new : SyncContext := mkSyncContext None None false false.

(** A token: nothing for the default one, else the shared [stopped] flag. *)
Definition StopToken : Type := option bool.

Definition stop_requested (t : StopToken) : bool := match t with Some b => b | None => false end.

Definition stop_possible (t : StopToken) : bool := match t with Some _ => true | None => false end.

Definition request_stop (t : StopToken) : StopToken := match t with Some _ => Some true | None => None end.

(** ** Before the wait *)

Section Entry.

Context {W : Type} `{Clock W} `{StdHash}.

(** The refusals of [submit_sync]; the submission proper is [submit_dispatch]. *)
Definition submit_sync_check (event : Event) (cancel : StopToken) : PM (W := W) (expected unit SubmitSyncError) :=
  fun w p =>
  if stop_requested cancel then Some (Unexpected Cancelled, w, p)
  else
    match state_ p with
    | Running =>
        match router p with
        | None => None
        | Some r =>
            match try_acquire (router_fuel p) (ev_tenant_id event) w r with
            | None => None
            | Some (Unexpected _, w1, r1) => Some (Unexpected SyncRateLimited, w1, set_router p r1)
            | Some (Ok _, w1, r1) => Some (Ok tt, w1, set_router p r1)
            end
        end
    | _ => Some (Unexpected (if ever_started_ p then PipelineUnavailable else NotStarted), w, p)
    end.

End Entry.

(** ** The wait *)

(** What the wait sees of the world: the context's [done] flag, the token, and
    [cv.wait_for(lk, d, done)], which answers the flag. *)
Class SyncWorld (W : Type) : Type := {
  ctx_done : W -> bool;
  token : W -> StopToken;
  cv_wait_for : Z -> M W bool
}.

Inductive wait_end : Type := WaitDone | WaitTimedOut | WaitCancelled | WaitOutOfFuel.

Definition slice_ns : Z := 5 * ns_per_ms.

Section Wait.

Context {W : Type} `{Clock W} `{SyncWorld W}.

(** [while (!ctx->done)]. *)
Fixpoint poll_done (fuel : nat) (deadline : Z) : M W wait_end :=
  match fuel with
  | O => retM WaitOutOfFuel
  | S fuel' => fun w =>
      if ctx_done w then (WaitDone, w)
      else
        let '(now, w1) := steady_now w in
        if Z.leb deadline now then (WaitTimedOut, w1)
        else if stop_requested (token w1) then (WaitCancelled, w1)
        else
          let remaining := deadline - now in
          let '(_, w2) := cv_wait_for (if Z.ltb remaining slice_ns then remaining else slice_ns) w1 in
          poll_done fuel' deadline w2
  end.

(** Rounds that always suffice: one per slice of the budget, and three. *)
Definition poll_fuel (budget_ms : Z) : nat := S (S (S (Z.to_nat (budget_ms / 5)))).

Definition await_decision (fuel : nat) (budget_ms : Z) : M W wait_end := fun w =>
  let '(now, w1) := steady_now w in
  let deadline := now + budget_ms * ns_per_ms in
  if negb (stop_possible (token w1)) then
    let '(done_flag, w2) := cv_wait_for (budget_ms * ns_per_ms) w1 in
    (if done_flag then WaitDone else WaitTimedOut, w2)
  else poll_done fuel deadline w1.

End Wait.

(** ** One call and its coroutine *)

Inductive caller_state : Type :=
| CallerWaits
| CallerGaveUp (cancelled_flag : bool)   (** past the mutex, no decision *)
| CallerReturned (r : expected Decision SubmitSyncError)
| CallerUndefined.                       (** [*ctx->decision] of an empty optional *)

Inductive coroutine_state : Type :=
| CoSpawned
| CoRejects                  (** about to report the validation failure *)
| CoDecides (d : Decision)   (** about to capture its decision *)
| CoEmits (d : Decision)
| CoEmitted (d : Decision)   (** about to set [done] *)
| CoEnded.

Record SyncCall : Type := mkSyncCall {
  caller : caller_state;
  coroutine : coroutine_state;
  ctx : SyncContext;
  cancel : StopToken;
  emissions : list Decision   (** history: decisions given to the emit stage *)
}.

Definition call_new (t : StopToken) : SyncCall := mkSyncCall CallerWaits CoSpawned ctx_new t [].

(** [run_event]: [sync_ctx->error = ValidationFailed; sync_ctx->done = true]. *)
Definition report_validation (x : SyncContext) : SyncContext :=
  mkSyncContext (sc_decision x) (Some ValidationFailed) (sc_cancelled x) true.

(** [run_event]: the critical section before the emission; [true] to emit. *)
Definition capture_decision (d : Decision) (x : SyncContext) : SyncContext * bool :=
  if sc_cancelled x then (x, false)
  else (mkSyncContext (Some d) (sc_error x) (sc_cancelled x) (sc_done x), true).

(** [run_event]: [sync_ctx->done = true] after the emission. *)
Definition set_done (x : SyncContext) : SyncContext :=
  mkSyncContext (sc_decision x) (sc_error x) (sc_cancelled x) true.

(** [submit_sync] after a wait that ended with [done]. *)
Definition finish_done (x : SyncContext) : caller_state :=
  match sc_error x with
  | Some e => CallerReturned (Unexpected e)
  | None => match sc_decision x with
            | Some d => CallerReturned (Ok d)
            | None => CallerUndefined
            end
  end.

(** [submit_sync] after a timeout or a cancellation, up to the unlock. *)
Definition finish_timed_out (cancelled_flag : bool) (x : SyncContext) : caller_state * SyncContext :=
  (match sc_decision x with
   | Some d => CallerReturned (Ok d)
   | None => CallerGaveUp cancelled_flag
   end,
   mkSyncContext (sc_decision x) (sc_error x) true (sc_done x)).

(** [submit_sync] after the unlock. *)
Definition finish_error (cancelled_flag : bool) (t : StopToken) : caller_state :=
  CallerReturned (Unexpected (if (cancelled_flag || stop_requested t)%bool then Cancelled else SyncTimeout)).

Section Call.

Context {W : Type} `{Clock W} `{Workers W} `{StdSort}.
Variable c : PipelineConfig W.
Variable event_id : Z.
Variable event : Event.

(** Where the coroutine goes after the stages; [None] when they hang. *)
Definition after_stages (r : run_result) : option coroutine_state :=
  match r with
  | RunHangs => None
  | RunThrew _ => Some CoEnded
  | ValidationRejected _ => Some CoRejects
  | Decided d => Some (CoDecides d)
  end.

(** The steps of the caller, of the coroutine, and of everyone else. *)
Inductive call_step : W * SyncCall -> W * SyncCall -> Prop :=
| call_run w w' s r next :
    coroutine s = CoSpawned -> run_event c (make_stages c) true event_id event w = (r, w') ->
    after_stages r = Some next ->
    call_step (w, s) (w', mkSyncCall (caller s) next (ctx s) (cancel s) (emissions s))
| call_abandoned w s :
    coroutine s = CoSpawned ->
    call_step (w, s) (w, mkSyncCall (caller s) CoEnded (ctx s) (cancel s) (emissions s))
| call_rejects w s :
    coroutine s = CoRejects ->
    call_step (w, s) (w, mkSyncCall (caller s) CoEnded (report_validation (ctx s)) (cancel s) (emissions s))
| call_captures w s d x go :
    coroutine s = CoDecides d -> capture_decision d (ctx s) = (x, go) ->
    call_step (w, s) (w, mkSyncCall (caller s) (if go then CoEmits d else CoEnded) x (cancel s) (emissions s))
| call_emits w w' s d es r :
    coroutine s = CoEmits d -> emit_process (W := W) es d w = (Some r, w') ->
    call_step (w, s)
      (w', mkSyncCall (caller s) (match r with Returned _ => CoEmitted d | Threw _ => CoEnded end) (ctx s)
             (cancel s) (emissions s ++ [d]))
| call_notifies w s d :
    coroutine s = CoEmitted d ->
    call_step (w, s) (w, mkSyncCall (caller s) CoEnded (set_done (ctx s)) (cancel s) (emissions s))
| call_wakes w s :
    caller s = CallerWaits -> sc_done (ctx s) = true ->
    call_step (w, s) (w, mkSyncCall (finish_done (ctx s)) (coroutine s) (ctx s) (cancel s) (emissions s))
| call_times_out w s flag who x :
    caller s = CallerWaits -> sc_done (ctx s) = false -> (flag = true -> stop_requested (cancel s) = true) ->
    finish_timed_out flag (ctx s) = (who, x) ->
    call_step (w, s) (w, mkSyncCall who (coroutine s) x (cancel s) (emissions s))
| call_fails w s flag :
    caller s = CallerGaveUp flag ->
    call_step (w, s) (w, mkSyncCall (finish_error flag (cancel s)) (coroutine s) (ctx s) (cancel s) (emissions s))
| call_stop w s :
    call_step (w, s) (w, mkSyncCall (caller s) (coroutine s) (ctx s) (request_stop (cancel s)) (emissions s))
| call_world w w' s : call_step (w, s) (w', s).

Definition call_reachable (t : StopToken) (s : SyncCall) : Prop :=
  exists w0 w, rtc call_step (w0, call_new t) (w, s).

End Call.

(** Time never runs back, [done] is never unset, and a wait that ends without
    [done] took its time. *)
Class SyncWorldLaws (W : Type) `{Clock W} `{SyncWorld W} : Type := {
  sync_time : W -> Z;
  sync_now : forall w, sync_time w <= (steady_now w).1 <= sync_time (steady_now w).2;
  sync_now_done : forall w, ctx_done w = true -> ctx_done (steady_now w).2 = true;
  sync_wait : forall d w, (cv_wait_for d w).1 = ctx_done (cv_wait_for d w).2;
  sync_wait_time : forall d w, (cv_wait_for d w).1 = false ->
    sync_time w + d <= sync_time (cv_wait_for d w).2
}.

(** Samples: a world that is a clock, in which [done] is set at 12 ms. *)
#[local] Instance wait_clock : Clock Z := {
  steady_now := fun w => (w, w);
  system_now := fun w => (w, w);
  sleep_for := fun ns w => (tt, w + ns)
}.

#[local] Instance wait_world : SyncWorld Z := {
  ctx_done := fun w => Z.leb (12 * ns_per_ms) w;
  token := fun _ => Some false;
  cv_wait_for := fun d w => (Z.leb (12 * ns_per_ms) (w + d), w + d)
}.

Example poll_finds_done : await_decision (poll_fuel 300) 300 0 = (WaitDone, 15 * ns_per_ms).
Proof. reflexivity. Qed.

Example poll_times_out : await_decision (poll_fuel 7) 7 0 = (WaitTimedOut, 7 * ns_per_ms).
Proof. reflexivity. Qed.

(** ** Lemmas *)

Section WaitLemmas.

Context {W : Type} `{SyncWorldLaws W}.

Lemma poll_done_ends (rounds : nat) (deadline : Z) :
  forall w, deadline - sync_time w <= Z.of_nat rounds * slice_ns ->
  (poll_done (S (S rounds)) deadline w).1 <> WaitOutOfFuel.
Proof.
  induction rounds as [|rounds IH]; intros w Hd; cbn [poll_done].
  - destruct (ctx_done w); [done|]. pose proof (sync_now w) as Hn. destruct (steady_now w) as [now w1].
    simpl in Hn. destruct (Z.leb_spec deadline now); [done|]. lia.
  - destruct (ctx_done w); [done|]. pose proof (sync_now w) as Hn. destruct (steady_now w) as [now w1].
    simpl in Hn. destruct (Z.leb_spec deadline now); [done|]. destruct (stop_requested (token w1)); [done|].
    set (d := if Z.ltb (deadline - now) slice_ns then deadline - now else slice_ns).
    pose proof (sync_wait d w1) as Hw. pose proof (sync_wait_time d w1) as Ht.
    destruct (cv_wait_for d w1) as [b w2]. simpl in Hw, Ht. destruct b.
    + cbn [poll_done]. by rewrite <- Hw.
    + specialize (Ht eq_refl). apply IH. unfold d in Ht. destruct (Z.ltb_spec (deadline - now) slice_ns);
        unfold slice_ns, ns_per_ms in *; lia.
Qed.

(** How the polling loop ends. *)
Lemma poll_done_reason (fuel : nat) (deadline : Z) : forall w,
  match poll_done fuel deadline w with
  | (WaitTimedOut, w') => deadline <= sync_time w'
  | _ => True
  end.
Proof.
  induction fuel as [|fuel IH]; intros w; cbn [poll_done]; [done|].
  destruct (ctx_done w); [done|]. pose proof (sync_now w) as Hn. destruct (steady_now w) as [now w1]. simpl in Hn.
  destruct (Z.leb_spec deadline now); [lia|]. destruct (stop_requested (token w1)); [done|].
  destruct (cv_wait_for _ w1) as [b w2]. apply IH.
Qed.

End WaitLemmas.

(** What the coroutine's position says of the context and of the emissions. *)
Definition coroutine_inv (s : SyncCall) : Prop :=
  let x := ctx s in
  match coroutine s with
  | CoSpawned | CoRejects | CoDecides _ =>
      sc_decision x = None /\ sc_error x = None /\ sc_done x = false /\ emissions s = []
  | CoEmits d => sc_decision x = Some d /\ sc_error x = None /\ sc_done x = false /\ emissions s = []
  | CoEmitted d => sc_decision x = Some d /\ sc_error x = None /\ sc_done x = false /\ emissions s = [d]
  | CoEnded =>
      (sc_decision x = None /\ emissions s = [] /\ (sc_done x = true -> sc_error x = Some ValidationFailed)) \/
      (exists d, sc_decision x = Some d /\ sc_error x = None /\ emissions s = [d])
  end.

(** What the caller's position says of the context. *)
Definition caller_inv (s : SyncCall) : Prop :=
  let x := ctx s in
  match caller s with
  | CallerWaits => sc_cancelled x = false
  | CallerGaveUp _ => sc_cancelled x = true /\ sc_decision x = None
  | CallerReturned (Ok d) => sc_decision x = Some d /\ (sc_cancelled x = true \/ coroutine s = CoEnded)
  | CallerReturned (Unexpected _) => sc_decision x = None /\ (sc_cancelled x = true \/ coroutine s = CoEnded)
  | CallerUndefined => False
  end.

(** The decision is the one the stages make. *)
Definition origin_inv {W : Type} (c : PipelineConfig W) (event_id : Z) (event : Event) (s : SyncCall) : Prop :=
  match coroutine s with
  | CoDecides d => decision_ok c (make_stages c) event_id event d
  | _ => forall d, sc_decision (ctx s) = Some d -> decision_ok c (make_stages c) event_id event d
  end.

Definition sync_inv {W : Type} (c : PipelineConfig W) (event_id : Z) (event : Event) (s : SyncCall) : Prop :=
  coroutine_inv s /\ caller_inv s /\ origin_inv c event_id event s.

Section CallLemmas.

Context {W : Type} `{TimedWorkers W} `{StdSort}.
Variable c : PipelineConfig W.
Variable event_id : Z.
Variable event : Event.

(** A synchronous run that decides made a faithful decision. *)
Lemma sync_run_decides (w w' : W) (d : Decision) :
  stages_ok (make_stages c) -> run_event c (make_stages c) true event_id event w = (Decided d, w') ->
  decision_ok c (make_stages c) event_id event d.
Proof.
  intros Hok Hr. destruct (event_is_valid event) eqn:Hv.
  - destruct (run_event_decides c (make_stages c) true event_id event w Hok (fun _ => Hv)) as (d' & Hd & Hall).
    rewrite Hr in Hd. by injection Hd as ->.
  - destruct (run_event_rejects c (make_stages c) event_id event w Hv) as (d' & Hd & _). by rewrite Hr in Hd.
Qed.

Lemma sync_inv_step (w w' : W) (s s' : SyncCall) :
  stages_ok (make_stages c) -> sync_inv c event_id event s -> call_step c event_id event (w, s) (w', s') ->
  sync_inv c event_id event s'.
Proof.
  intros Hok Hinv Hstep. destruct s as [who co [dec err can don] tok em].
  inversion Hstep as [? ? ? r next Hco Hr Hn|? ? Hco|? ? Hco|? ? d x go Hco Hcap|? ? ? d es r Hco He|? ? d Hco
    |? ? Hwho Hdone|? ? flag who' x Hwho Hdone Hflag Hfin|? ? flag Hwho|? ?|? ? ?]; subst; simpl in *; subst;
    unfold sync_inv, coroutine_inv, caller_inv, origin_inv in *; simpl in *;
    destruct Hinv as (Hco1 & Hwho1 & Horig).
  - destruct r as [d|d|what|]; simpl in Hn; simplify_eq; destruct Hco1 as (-> & -> & -> & ->);
      split_and!; try done; try (destruct who as [| |[]|]; naive_solver); try (by left).
    by eapply sync_run_decides.
  - destruct Hco1 as (-> & -> & -> & ->). split_and!; [by left|destruct who as [| |[]|]; naive_solver|done].
  - destruct Hco1 as (-> & -> & -> & ->). split_and!; [by left|destruct who as [| |[]|]; naive_solver|done].
  - destruct Hco1 as (-> & -> & -> & ->). unfold capture_decision in Hcap. simpl in Hcap. destruct can; simplify_eq.
    + split_and!; [by left|destruct who as [| |[]|]; naive_solver|done].
    + split_and!; [done..| |by intros ? [= <-]]. destruct who as [| |[]|]; naive_solver.
  - destruct Hco1 as (-> & -> & -> & ->). destruct r; split_and!; try done;
      (destruct who as [| |[]|]; naive_solver).
  - destruct Hco1 as (-> & -> & -> & ->). split_and!; [right; by eexists| |done].
    destruct who as [| |[]|]; naive_solver.
  - unfold finish_done. simpl. destruct co; try (by destruct Hco1 as (_ & _ & ? & _)).
    destruct Hco1 as [(-> & -> & Hv)|(d & -> & -> & ->)].
    + rewrite (Hv eq_refl). split_and!; [by left|done|by right|done].
    + split_and!; [right; by eexists|done|by right|done].
  - unfold finish_timed_out in Hfin. simpl in Hfin. simplify_eq. split_and!; [|destruct dec; split; by auto|done].
    destruct co; naive_solver.
  - destruct Hwho1 as [-> ->]. split_and!; [done|done|by left|done].
  - done.
  - done.
Qed.

Lemma sync_inv_reachable (t : StopToken) (s : SyncCall) :
  stages_ok (make_stages c) -> call_reachable c event_id event t s -> sync_inv c event_id event s.
Proof.
  intros Hok (w0 & w & Hrtc).
  assert (Hgen : forall x y, rtc (call_step c event_id event) x y -> sync_inv c event_id event x.2 ->
    sync_inv c event_id event y.2).
  { induction 1 as [x|[w1 s1] [w2 s2] z Hstep _ IH]; [done|]. intros Hx. apply IH. by eapply sync_inv_step. }
  apply (Hgen _ _ Hrtc). split_and!; done.
Qed.

Lemma returned_stable (x y : W * SyncCall) (r : expected Decision SubmitSyncError) :
  rtc (call_step c event_id event) x y -> caller x.2 = CallerReturned r -> caller y.2 = CallerReturned r.
Proof.
  induction 1 as [x|x y z Hstep _ IH]; [done|]. intros Hx. apply IH.
  inversion Hstep; subst; simpl in *; congruence.
Qed.

Lemma call_reachable_later (t : StopToken) (s s' : SyncCall) (w w' : W) (w0 : W) :
  rtc (call_step c event_id event) (w0, call_new t) (w, s) ->
  rtc (call_step c event_id event) (w, s) (w', s') -> call_reachable c event_id event t s'.
Proof. intros H1' H2'. exists w0, w'. by etrans. Qed.

End CallLemmas.

(** A call that times out before its coroutine runs, and one that gets its decision. *)
Definition timed_out_call : SyncCall :=
  mkSyncCall (CallerReturned (Unexpected SyncTimeout)) CoSpawned (mkSyncContext None None true false) None [].

Section SampleCalls.

#[local] Existing Instance Stages.sample_clock.
#[local] Existing Instance Stages.sample_workers.

Lemma timed_out_call_path :
  rtc (call_step example_config 7 example_event) (0, call_new None) (0, timed_out_call).
Proof.
  eapply rtc_l; [by eapply (call_times_out _ _ _ 0 (call_new None) false)|].
  apply rtc_once. by apply (call_fails _ _ _ 0 (mkSyncCall (CallerGaveUp false) CoSpawned _ None []) false).
Qed.

(** Woken after the emission. *)
Definition delivered_call (d : Decision) : SyncCall :=
  mkSyncCall (CallerReturned (Ok d)) CoEnded (mkSyncContext (Some d) None false true) None [d].

(** Timed out between the capture and the emission. *)
Definition boundary_call (d : Decision) : SyncCall :=
  mkSyncCall (CallerReturned (Ok d)) (CoEmits d) (mkSyncContext (Some d) None true false) None [].

Lemma captured_path : exists d w,
  rtc (call_step example_config 7 example_event) (0, call_new None)
    (w, mkSyncCall CallerWaits (CoEmits d) (mkSyncContext (Some d) None false false) None []).
Proof.
  destruct (run_event example_config (make_stages example_config) true 7 example_event 0) as [[d|d|what|] w] eqn:Hrun;
    try (by vm_compute in Hrun). exists d, w.
  eapply rtc_l; [by eapply (call_run _ _ _ 0 w (call_new None) _ _ eq_refl Hrun eq_refl)|].
  apply rtc_once. by apply (call_captures _ _ _ w (mkSyncCall CallerWaits (CoDecides d) ctx_new None []) d _ true).
Qed.

Lemma delivered_call_reached : exists d, call_reachable example_config 7 example_event None (delivered_call d).
Proof.
  destruct captured_path as (d & w & Hpath). exists d, 0.
  set (es := mkEmitStage (mkEmitConfig (W := Z) 10 EmitDegraded 0 []) 0).
  assert (He : exists out w', emit_process es d w = (Some (Returned out), w')) by (do 2 eexists; cbn; reflexivity).
  destruct He as (out & w' & He). exists w'. etrans; [exact Hpath|].
  eapply rtc_l; [by eapply (call_emits _ _ _ w w' (mkSyncCall _ _ _ _ _) d es (Returned out))|].
  eapply rtc_l; [by eapply (call_notifies _ _ _ w' (mkSyncCall _ _ _ _ _) d)|].
  apply rtc_once.
  by apply (call_wakes _ _ _ w' (mkSyncCall CallerWaits CoEnded (mkSyncContext (Some d) None false true) None [d])).
Qed.

(** The caller has its decision and no target does. *)
Lemma decision_returned_before_emission : exists d,
  call_reachable example_config 7 example_event None (boundary_call d) /\
  caller (boundary_call d) = CallerReturned (Ok d) /\ emissions (boundary_call d) = [].
Proof.
  destruct captured_path as (d & w & Hpath). exists d. split; [|done]. exists 0, w. eapply rtc_r; [exact Hpath|].
  by apply (call_times_out _ _ _ w (mkSyncCall CallerWaits (CoEmits d) (mkSyncContext (Some d) None false false) None []) false).
Qed.

End SampleCalls.

(** ** Properties *)

(** C2: a failed synchronous submission emits nothing, ever: once [submit_sync]
    has returned an error (timeout, cancellation, validation failure), no later
    step of its coroutine hands a decision to the emit stage. *)
Theorem sync_error_never_emits {W : Type} `{TimedWorkers W} `{StdSort} (c : PipelineConfig W) (event_id : Z)
    (event : Event) (t : StopToken) (w0 w w' : W) (s s' : SyncCall) (e : SubmitSyncError)
    (Hok : stages_ok (make_stages c))
    (Hs : rtc (call_step c event_id event) (w0, call_new t) (w, s))
    (He : caller s = CallerReturned (Unexpected e))
    (Hlater : rtc (call_step c event_id event) (w, s) (w', s')) :
  emissions s' = [] /\ sc_decision (ctx s') = None.
Proof.
  pose proof (returned_stable _ _ _ _ _ _ Hlater He) as He'. simpl in He'.
  destruct (sync_inv_reachable c event_id event t s' Hok (call_reachable_later _ _ _ _ _ _ _ _ _ Hs Hlater))
    as (Hco & Hwho & _).
  unfold coroutine_inv, caller_inv in *. rewrite He' in Hwho. destruct Hwho as [Hdec Hwhy].
  split; [|done]. destruct (coroutine s'); naive_solver.
Qed.

Lemma sync_error_never_emits_witness : emissions timed_out_call = [] /\ sc_decision (ctx timed_out_call) = None.
Proof.
  apply (sync_error_never_emits (H1 := Stages.sample_timed) example_config 7 example_event None 0 0 0
    timed_out_call timed_out_call SyncTimeout example_stages_ok timed_out_call_path).
  - reflexivity.
  - apply rtc_refl.
Defined.

(** C3: a decision [submit_sync] returns is the one the stages made of its event.
    A caller that was woken has it after the emit stage had it; a caller that gave
    up waiting and found a captured decision may return it while its coroutine is
    still about to emit it ([decision_returned_before_emission]).  No other caller
    is ahead of the emission, at most one decision is emitted, and the caller
    never reads an absent one. *)
Theorem sync_decision_emitted {W : Type} `{TimedWorkers W} `{StdSort} (c : PipelineConfig W) (event_id : Z)
    (event : Event) (t : StopToken) (s : SyncCall)
    (Hok : stages_ok (make_stages c)) (Hs : call_reachable c event_id event t s) :
  (length (emissions s) <= 1)%nat /\
  match caller s with
  | CallerReturned (Ok d) =>
      decision_ok c (make_stages c) event_id event d /\
      (emissions s = [d] \/ (emissions s = [] /\ coroutine s = CoEmits d /\ sc_cancelled (ctx s) = true)) /\
      (sc_cancelled (ctx s) = false -> emissions s = [d])
  | CallerUndefined => False
  | _ => True
  end.
Proof.
  destruct (sync_inv_reachable c event_id event t s Hok Hs) as (Hco & Hwho & Horig).
  unfold coroutine_inv, caller_inv, origin_inv in *. split.
  - destruct (coroutine s); try (destruct Hco as (_ & _ & _ & ->); simpl; lia).
    destruct Hco as [(_ & -> & _)|(d & _ & _ & ->)]; simpl; lia.
  - destruct (caller s) as [| |[d|e]|]; try done. destruct Hwho as [Hwho Hwhen]. destruct (coroutine s) as [| |d'|d'|d'|];
      try (by destruct Hco as (Hn & _); rewrite Hwho in Hn).
    + destruct Hco as (Hd & _ & _ & He). rewrite Hwho in Hd. injection Hd as <-. destruct Hwhen as [Hcan|?]; [|done].
      split; [by apply Horig|]. split; [by right|]. by rewrite Hcan.
    + destruct Hco as (Hd & _ & _ & He). rewrite Hwho in Hd. injection Hd as <-.
      split; [by apply Horig|]. split; [by left|done].
    + destruct Hco as [(Hn & _)|(d' & Hd & _ & He)]; [by rewrite Hwho in Hn|]. rewrite Hwho in Hd. injection Hd as <-.
      split; [by apply Horig|]. split; [by left|done].
Qed.

Lemma sync_decision_emitted_witness :
  exists d, caller (delivered_call d) = CallerReturned (Ok d) /\ emissions (delivered_call d) = [d] /\
    decision_ok example_config (make_stages example_config) 7 example_event d.
Proof.
  destruct delivered_call_reached as [d Hd]. exists d. split; [reflexivity|].
  destruct (sync_decision_emitted (H1 := Stages.sample_timed) example_config 7 example_event None (delivered_call d)
    example_stages_ok Hd) as (_ & Hok & _ & Hem). split; [exact (Hem eq_refl)|exact Hok].
Defined.

(** C38: the wait of [submit_sync] ends: with a clock that waiting advances, one
    poll per 5 ms of the latency budget (and three) suffice for the loop, whoever
    finishes or cancels; a timeout is answered only at or after the deadline. *)
Theorem sync_wait_ends {W : Type} `{SyncWorldLaws W} (budget_ms : Z) (w : W) (Hb : 0 <= budget_ms) :
  let '(r, w') := await_decision (poll_fuel budget_ms) budget_ms w in
  r <> WaitOutOfFuel /\ (r = WaitTimedOut -> sync_time w + budget_ms * ns_per_ms <= sync_time w').
Proof.
  unfold await_decision. pose proof (sync_now w) as Hn. destruct (steady_now w) as [now w1]. simpl in Hn.
  destruct (stop_possible (token w1)); cbn [negb].
  - pose proof (poll_done_ends (S (Z.to_nat (budget_ms / 5))) (now + budget_ms * ns_per_ms) w1) as Hend.
    pose proof (poll_done_reason (poll_fuel budget_ms) (now + budget_ms * ns_per_ms) w1) as Hwhy.
    unfold poll_fuel in *. destruct (poll_done _ _ w1) as [r w2]. simpl in Hend. split.
    + apply Hend. unfold slice_ns, ns_per_ms. rewrite Nat2Z.inj_succ, Z2Nat.id by (apply Z.div_pos; lia).
      pose proof (Z.div_mod budget_ms 5 ltac:(lia)). pose proof (Z.mod_pos_bound budget_ms 5 ltac:(lia)). lia.
    + intros ->. lia.
  - pose proof (sync_wait_time (budget_ms * ns_per_ms) w1) as Ht.
    destruct (cv_wait_for _ w1) as [[] w2]; simpl in *; [done|]. split; [done|]. intros _.
    specialize (Ht eq_refl). lia.
Qed.

Lemma wait_sample_now (w : Z) : w <= (steady_now w).1 <= (steady_now w).2.
Proof. simpl. lia. Qed.

Lemma wait_sample_time (d w : Z) : (cv_wait_for d w).1 = false -> w + d <= (cv_wait_for d w).2.
Proof. simpl. lia. Qed.

#[local] Instance wait_laws : SyncWorldLaws Z := {
  sync_time := fun w => w;
  sync_now := wait_sample_now;
  sync_now_done := fun w Hw => Hw;
  sync_wait := fun d w => eq_refl;
  sync_wait_time := wait_sample_time
}.

Lemma sync_wait_ends_witness : (await_decision (poll_fuel 300) 300 0).1 <> WaitOutOfFuel.
Proof.
  pose proof (sync_wait_ends 300 0 ltac:(lia)) as Hend.
  destruct (await_decision (poll_fuel 300) 300 0) as [r w']. apply Hend.
Defined.

(** Every refusal of [submit_sync] happens before anything is spawned and is
    told apart: a requested stop, a pipeline never started, one not running any
    more, an exhausted rate limit; a refusal other than the last changes nothing,
    and an accepted call changes only the router. *)
Theorem submit_sync_refusals {W : Type} `{Clock W} `{StdHash} (event : Event) (t : StopToken) (w : W) (p : Impl W) :
  match submit_sync_check event t w p with
  | None => state_ p = Running
  | Some (Unexpected Cancelled, w', p') => stop_requested t = true /\ w' = w /\ p' = p
  | Some (Unexpected NotStarted, w', p') => ever_started_ p = false /\ state_ p <> Running /\ w' = w /\ p' = p
  | Some (Unexpected PipelineUnavailable, w', p') => ever_started_ p = true /\ state_ p <> Running /\ w' = w /\ p' = p
  | Some (Unexpected SyncRateLimited, w', p') => state_ p = Running /\ exists r x, p' = set_router p r /\
      forall r0, router p = Some r0 ->
        try_acquire (router_fuel p) (ev_tenant_id event) w r0 = Some (Unexpected x, w', r)
  | Some (Unexpected _, _, _) => False
  | Some (Ok _, w', p') => state_ p = Running /\ stop_requested t = false /\ exists r, p' = set_router p r
  end.
Proof.
  unfold submit_sync_check. destruct (stop_requested t) eqn:Hstop; [done|].
  destruct (state_ p) eqn:Hst; try (by destruct (ever_started_ p) eqn:He).
  destruct (router p) as [r|]; [|done].
  destruct (try_acquire (router_fuel p) (ev_tenant_id event) w r) as [[[[[]|x] w1] r1]|] eqn:Ha; [..|done].
  - split_and!; [done|done|by eexists].
  - split; [done|]. exists r1, x. split; [done|]. by intros r0 [= <-].
Qed.
