(* ===== verification/StopToken.v ===== *)
(** * Stop sources and their tokens

    [StopSource] and [StopToken] of include/fre/pipeline/sync_submit.hpp, for
    libraries without [std::stop_token], over the states that they share.
    SyncSubmit.v gives each call a token of its own; here a program holds any
    number of sources and tokens, which its copies share and its moves empty, and
    a request reaches exactly the calls whose token came from that source. *)

From S2P Require Import Prelude Ieee CoreTypes Errors DecisionTypes RuleEngine TokenBucket TenantRouter.
From S2P Require Import Config Stages EmitStage PolicyStage RunEvent Pipeline SyncSubmit.

Open Scope list_scope.

(** [std::shared_ptr<detail::StopState>]. *)
Definition state_ptr : Type := option nat.

(** The variables of a program and the states behind them; a state that nobody
    refers to any more is kept, which nobody can see. *)
Record StopWorld : Type := mkStopWorld {
  sw_states : list bool;          (** [stopped] of each state *)
  sw_sources : list state_ptr;
  sw_tokens : list state_ptr;
  sw_requested : list nat         (** history: the states a stop was requested of *)
}.

Definition stop_world_new : StopWorld := mkStopWorld [] [] [] [].

Definition stopped (w : StopWorld) (p : state_ptr) : bool :=
  match p with Some a => default false (sw_states w !! a) | None => false end.

(** [StopToken::stop_requested] and [StopSource::stop_requested]; [StopToken::stop_possible]. *)
Definition token_stop_requested (w : StopWorld) (p : state_ptr) : bool := stopped w p.
Definition token_stop_possible (p : state_ptr) : bool := match p with Some _ => true | None => false end.

(** [StopSource()] and [StopToken()]. *)
Definition source_new (w : StopWorld) : StopWorld :=
  mkStopWorld (sw_states w ++ [false]) (sw_sources w ++ [Some (length (sw_states w))]) (sw_tokens w) (sw_requested w).

Definition token_new (w : StopWorld) : StopWorld :=
  mkStopWorld (sw_states w) (sw_sources w) (sw_tokens w ++ [None]) (sw_requested w).

(** [get_token]. *)
Definition get_token (i : nat) (w : StopWorld) : StopWorld :=
  mkStopWorld (sw_states w) (sw_sources w) (sw_tokens w ++ option_list (sw_sources w !! i)) (sw_requested w).

(** [request_stop]. *)
Definition source_request_stop (i : nat) (w : StopWorld) : StopWorld :=
  match sw_sources w !! i with
  | Some (Some a) =>
      mkStopWorld (<[a := true]> (sw_states w)) (sw_sources w) (sw_tokens w) (sw_requested w ++ [a])
  | _ => w
  end.

(** The copies and moves into a new variable, which the compiler writes. *)
Definition source_copy (i : nat) (w : StopWorld) : StopWorld :=
  mkStopWorld (sw_states w) (sw_sources w ++ option_list (sw_sources w !! i)) (sw_tokens w) (sw_requested w).

Definition source_move (i : nat) (w : StopWorld) : StopWorld :=
  mkStopWorld (sw_states w) (<[i := None]> (sw_sources w) ++ option_list (sw_sources w !! i)) (sw_tokens w) (sw_requested w).

Definition token_copy (i : nat) (w : StopWorld) : StopWorld :=
  mkStopWorld (sw_states w) (sw_sources w) (sw_tokens w ++ option_list (sw_tokens w !! i)) (sw_requested w).

Definition token_move (i : nat) (w : StopWorld) : StopWorld :=
  mkStopWorld (sw_states w) (sw_sources w) (<[i := None]> (sw_tokens w) ++ option_list (sw_tokens w !! i)) (sw_requested w).

Inductive stop_step : StopWorld -> StopWorld -> Prop :=
| stop_source_new w : stop_step w (source_new w)
| stop_token_new w : stop_step w (token_new w)
| stop_get_token w i : stop_step w (get_token i w)
| stop_request w i : stop_step w (source_request_stop i w)
| stop_source_copy w i : stop_step w (source_copy i w)
| stop_source_move w i : stop_step w (source_move i w)
| stop_token_copy w i : stop_step w (token_copy i w)
| stop_token_move w i : stop_step w (token_move i w).

Definition stop_reachable (w : StopWorld) : Prop := rtc stop_step stop_world_new w.

(** The token of a call as SyncSubmit.v has it. *)
Definition token_view (w : StopWorld) (p : state_ptr) : StopToken :=
  match p with Some _ => Some (stopped w p) | None => None end.

(** ** Lemmas *)

Definition valid_ptr (n : nat) (p : state_ptr) : Prop := match p with Some a => (a < n)%nat | None => True end.

Record stop_inv (w : StopWorld) : Prop := {
  st_sources : Forall (valid_ptr (length (sw_states w))) (sw_sources w);
  st_tokens : Forall (valid_ptr (length (sw_states w))) (sw_tokens w);
  st_stopped : forall a, sw_states w !! a = Some true <-> a ∈ sw_requested w
}.

Lemma valid_ptr_le (n m : nat) (p : state_ptr) : (n <= m)%nat -> valid_ptr n p -> valid_ptr m p.
Proof. intros Hle. destruct p as [a|]; cbn; [lia|done]. Qed.

Lemma Forall_copied {A : Type} (P : A -> Prop) (l k : list A) (i : nat) :
  Forall P l -> Forall P k -> Forall P (l ++ option_list (k !! i)).
Proof.
  intros Hl Hk. apply Forall_app. split; [exact Hl|]. destruct (k !! i) as [x|] eqn:Hi; cbn; [|constructor].
  constructor; [|constructor]. by eapply (proj1 (Forall_lookup P k) Hk).
Qed.

Lemma Forall_moved (n : nat) (l : list state_ptr) (i : nat) :
  Forall (valid_ptr n) l -> Forall (valid_ptr n) (<[i := None]> l ++ option_list (l !! i)).
Proof. intros Hl. apply Forall_copied; [by apply Forall_insert|exact Hl]. Qed.

Lemma stop_inv_step (w w' : StopWorld) : stop_step w w' -> stop_inv w -> stop_inv w'.
Proof.
  intros Hstep [Hs Ht Hst]. destruct Hstep as [w|w|w i|w i|w i|w i|w i|w i].
  - unfold source_new. split; cbn.
    + rewrite length_app. apply Forall_app. split.
      * eapply Forall_impl; [exact Hs|]. intros p. apply valid_ptr_le. lia.
      * constructor; [cbn; lia|constructor].
    + rewrite length_app. eapply Forall_impl; [exact Ht|]. intros p. apply valid_ptr_le. lia.
    + intros a. rewrite <- Hst, lookup_app_Some. split; [|by left]. intros [Ha|[_ Ha]]; [done|].
      by apply list_lookup_singleton_Some in Ha as [_ Ha].
  - split; cbn; [done| |done]. apply Forall_app. by repeat constructor.
  - split; cbn; [done|by apply Forall_copied|done].
  - unfold source_request_stop. destruct (sw_sources w !! i) as [[a|]|] eqn:Hi; [|done..].
    assert (Ha : (a < length (sw_states w))%nat) by (by apply (proj1 (Forall_lookup _ _) Hs i (Some a))).
    split; cbn; rewrite ?length_insert; [done|done|]. intros b. rewrite elem_of_app, list_elem_of_singleton, <- Hst.
    destruct (decide (a = b)) as [<-|Hne]; [rewrite list_lookup_insert_eq by done; naive_solver|].
    rewrite list_lookup_insert_ne by done. naive_solver.
  - split; cbn; [by apply Forall_copied|done|done].
  - split; cbn; [by apply Forall_moved|done|done].
  - split; cbn; [done|by apply Forall_copied|done].
  - split; cbn; [done|by apply Forall_moved|done].
Qed.

Lemma stop_reachable_inv (w : StopWorld) : stop_reachable w -> stop_inv w.
Proof.
  intros Hrun. assert (Hinit : stop_inv stop_world_new).
  { split; cbn; [constructor|constructor|]. intros a. split; intros Ha; [done|by apply elem_of_nil in Ha]. }
  revert Hinit. induction Hrun as [|x y z Hstep _ IH]; [done|]. intros Hx. by apply IH, (stop_inv_step x).
Qed.

(** A request seen by a token, whichever source it came from. *)
Lemma token_view_request (w : StopWorld) (i : nat) (p : state_ptr) :
  stop_inv w -> p ∈ sw_tokens w ->
  token_view (source_request_stop i w) p =
    if decide (sw_sources w !! i = Some p) then request_stop (token_view w p) else token_view w p.
Proof.
  intros [Hs Ht Hst] Hp. unfold source_request_stop.
  destruct (sw_sources w !! i) as [[a|]|] eqn:Hi; [|destruct p; by case_decide..].
  assert (Ha : (a < length (sw_states w))%nat) by (by apply (proj1 (Forall_lookup _ _) Hs i (Some a))).
  destruct p as [b|]; [|by case_decide]. cbn. destruct (decide (a = b)) as [<-|Hne].
  - rewrite decide_True by done. by rewrite list_lookup_insert_eq.
  - rewrite decide_False by congruence. by rewrite list_lookup_insert_ne.
Qed.

(** ** What a request reaches *)

(** A token reports a stop exactly if one was requested of the state it shares,
    and to the calls that hold the tokens a request is the [request_stop] of
    SyncSubmit.v for those whose token shares the source's state, and nothing for
    the others. *)
Theorem stop_reaches_tokens (w : StopWorld) (i : nat) (Hw : stop_reachable w) :
  (forall p, p ∈ sw_tokens w -> token_stop_requested w p = true <-> exists a, p = Some a /\ a ∈ sw_requested w) /\
  (forall p, p ∈ sw_tokens w -> stop_requested (token_view w p) = token_stop_requested w p /\
    stop_possible (token_view w p) = token_stop_possible p) /\
  map (token_view (source_request_stop i w)) (sw_tokens w) =
    map (fun p => if decide (sw_sources w !! i = Some p) then request_stop (token_view w p) else token_view w p) (sw_tokens w).
Proof.
  pose proof (stop_reachable_inv w Hw) as Hinv. split_and!.
  - intros [a|] _; cbn; [|naive_solver]. pose proof (st_stopped w Hinv a) as Hst.
    destruct (sw_states w !! a) as [[]|]; cbn; naive_solver.
  - intros [a|] _; done.
  - apply map_ext_in. intros p Hp. apply token_view_request; [done|]. by apply list_elem_of_In.
Qed.

(** A source with a token, a token without a source. *)
Definition demo_stops : StopWorld := token_new (get_token 0 (source_new stop_world_new)).

Lemma stop_reaches_tokens_witness :
  map (token_view (source_request_stop 0 demo_stops)) (sw_tokens demo_stops) = [Some true; None].
Proof.
  assert (Hw : stop_reachable demo_stops).
  { eapply rtc_l; [apply stop_source_new|]. eapply rtc_l; [apply (stop_get_token _ 0)|]. apply rtc_once. apply stop_token_new. }
  destruct (stop_reaches_tokens demo_stops 0 Hw) as (_ & _ & Hmap). rewrite Hmap. reflexivity.
Defined.
