(* ===== verification/Mixed.v ===== *)
(** * Synchronous and asynchronous submissions in one pipeline

    The whole of src/pipeline/pipeline.cpp: [submit] and [submit_sync] share the
    router, the strands, the event ids and [in_flight_].  An asynchronous
    coroutine runs in one step, as in Pipeline.v; a synchronous one takes the
    steps of SyncSubmit.v, so that its caller may time out, cancel or return
    between any two of them.  [system_of] forgets the calls and gives a system of
    Pipeline.v, whose invariants are those of the mixed system. *)

From S2P Require Import Prelude Ieee CoreTypes Errors DecisionTypes RuleEngine ShuffleShard TokenBucket.
From S2P Require Import TenantRouter Config Stages EmitStage PolicyStage RunEvent Pipeline SyncSubmit.

Open Scope list_scope.
Open Scope Z_scope.

(** A spawned coroutine: its strand, its event, and the call that waits for it. *)
Definition Job : Type := Z * Event * option nat.

Definition job_call (j : Job) : option nat := j.2.

Record Mixed (W : Type) : Type := mkMixed {
  mx_impl : Impl W;
  mx_submitting : list (Event * option StopToken);      (** [submit], or [submit_sync] with its token *)
  mx_tasks : list Job;
  mx_running : list (Job * Z);                          (** with the event id taken *)
  mx_calls : list SyncCall;                             (** the calls of [submit_sync], by number *)
  mx_accepted : list Job;                               (** history: what was spawned *)
  mx_ended : list (Job * Z * option Decision);          (** history: with the decision given to the emit stage *)
  mx_abandoned : list Job                               (** history: dropped by stopping the pool *)
}.

Arguments mkMixed {W}. Arguments mx_impl {W}. Arguments mx_submitting {W}. Arguments mx_tasks {W}.
Arguments mx_running {W}. Arguments mx_calls {W}. Arguments mx_accepted {W}. Arguments mx_ended {W}.
Arguments mx_abandoned {W}.

Definition mixed_new {W : Type} (c : PipelineConfig W) : Mixed W := mkMixed (impl_new c) [] [] [] [] [] [] [].

Section Mixed.

Context {W : Type} `{Clock W} `{Workers W} `{StdSort} `{StdHash}.

Definition mx_with_impl (m : Mixed W) (p : Impl W) : Mixed W :=
  mkMixed p (mx_submitting m) (mx_tasks m) (mx_running m) (mx_calls m) (mx_accepted m) (mx_ended m) (mx_abandoned m).

Definition mx_checked (m : Mixed W) (p : Impl W) (event : Event) (sync : option StopToken) : Mixed W :=
  mkMixed p (mx_submitting m ++ [(event, sync)]) (mx_tasks m) (mx_running m) (mx_calls m) (mx_accepted m)
    (mx_ended m) (mx_abandoned m).

(** [co_spawn]; [submit_sync] makes a context and goes on to its wait. *)
Definition mx_spawned (m : Mixed W) (p : Impl W) (i : nat) (strand : Z) (event : Event) (sync : option StopToken)
    : Mixed W :=
  let stopped := pool_is_stopped p in
  let job := (strand, event, match sync with Some _ => Some (length (mx_calls m)) | None => None end) in
  mkMixed p (delete i (mx_submitting m)) (if stopped then mx_tasks m else mx_tasks m ++ [job]) (mx_running m)
    (match sync with Some t => mx_calls m ++ [call_new t] | None => mx_calls m end)
    (mx_accepted m ++ [job]) (mx_ended m) (if stopped then mx_abandoned m ++ [job] else mx_abandoned m).

Definition mx_begun (m : Mixed W) (i : nat) (job : Job) : Mixed W :=
  let '(event_id, p) := take_event_id (mx_impl m) in
  mkMixed p (mx_submitting m) (delete i (mx_tasks m)) (mx_running m ++ [(job, event_id)]) (mx_calls m)
    (mx_accepted m) (mx_ended m) (mx_abandoned m).

Definition mx_finished (m : Mixed W) (p : Impl W) (i : nat) (job : Job) (event_id : Z) (d : option Decision) : Mixed W :=
  mkMixed p (mx_submitting m) (mx_tasks m) (delete i (mx_running m)) (mx_calls m) (mx_accepted m)
    (mx_ended m ++ [(job, event_id, d)]) (mx_abandoned m).

Definition mx_with_call (m : Mixed W) (n : nat) (s : SyncCall) : Mixed W :=
  mkMixed (mx_impl m) (mx_submitting m) (mx_tasks m) (mx_running m) (<[n := s]> (mx_calls m)) (mx_accepted m)
    (mx_ended m) (mx_abandoned m).

Definition mx_pool_stop (m : Mixed W) (p : Impl W) : Mixed W :=
  mkMixed p (mx_submitting m) [] (mx_running m) (mx_calls m) (mx_accepted m) (mx_ended m)
    (mx_abandoned m ++ mx_tasks m).

(** ** The coroutine of a synchronous call *)

Definition set_coroutine (s : SyncCall) (co : coroutine_state) : SyncCall :=
  mkSyncCall (caller s) co (ctx s) (cancel s) (emissions s).

(** The next section of [run_event], and whether the coroutine is over: the
    stages, a report, the capture of the decision, the emission, [done], and
    [on_event_complete].  An exception skips what follows it. *)
Definition coroutine_step (event_id : Z) (event : Event) (s : SyncCall) (w : W) (p : Impl W)
    : option (W * Impl W * SyncCall * bool) :=
  match coroutine s with
  | CoSpawned =>
      match stages p with
      | None => None
      | Some ss =>
          let '(r, w') := run_event (config p) ss true event_id event w in
          match after_stages r with
          | None => None
          | Some CoEnded => Some (w', p, set_coroutine s CoEnded, true)
          | Some next => Some (w', p, set_coroutine s next, false)
          end
      end
  | CoRejects => Some (w, p, mkSyncCall (caller s) CoEnded (report_validation (ctx s)) (cancel s) (emissions s), false)
  | CoDecides d =>
      let '(x, go) := capture_decision d (ctx s) in
      Some (w, p, mkSyncCall (caller s) (if go then CoEmits d else CoEnded) x (cancel s) (emissions s), false)
  | CoEmits d =>
      match emit p with
      | None => None
      | Some es =>
          match emit_process es d w with
          | (None, _) => None
          | (Some (Threw _), w') => Some (w', p, mkSyncCall (caller s) CoEnded (ctx s) (cancel s) (emissions s ++ [d]), true)
          | (Some (Returned (_, es')), w') =>
              Some (w', set_emit p es', mkSyncCall (caller s) (CoEmitted d) (ctx s) (cancel s) (emissions s ++ [d]), false)
          end
      end
  | CoEmitted d => Some (w, p, mkSyncCall (caller s) CoEnded (set_done (ctx s)) (cancel s) (emissions s), false)
  | CoEnded => Some (w, on_event_complete p, s, true)
  end.

(** ** The caller of a synchronous call *)

Inductive caller_action : Type := Wakes | TimesOut (cancelled_flag : bool) | Fails | Stops.

(** The end of its wait, what it does after the unlock, and a stop requested. *)
Definition caller_step (a : caller_action) (s : SyncCall) : option SyncCall :=
  match a, caller s with
  | Wakes, CallerWaits =>
      if sc_done (ctx s) then Some (mkSyncCall (finish_done (ctx s)) (coroutine s) (ctx s) (cancel s) (emissions s)) else None
  | TimesOut flag, CallerWaits =>
      if (sc_done (ctx s) || (flag && negb (stop_requested (cancel s))))%bool then None
      else
        let '(who, x) := finish_timed_out flag (ctx s) in
        Some (mkSyncCall who (coroutine s) x (cancel s) (emissions s))
  | Fails, CallerGaveUp flag =>
      Some (mkSyncCall (finish_error flag (cancel s)) (coroutine s) (ctx s) (cancel s) (emissions s))
  | Stops, _ => Some (mkSyncCall (caller s) (coroutine s) (ctx s) (request_stop (cancel s)) (emissions s))
  | _, _ => None
  end.

(** ** Steps *)

Definition mx_next_on_strand (m : Mixed W) (i : nat) (strand : Z) : Prop :=
  (forall j t, (j < i)%nat -> mx_tasks m !! j = Some t -> t.1.1 <> strand) /\
  (forall x, x ∈ mx_running m -> x.1.1.1 <> strand).

(** As [system_step], with the two ways to submit and the steps of the calls. *)
Inductive mixed_step : W * Mixed W -> W * Mixed W -> Prop :=
| mixed_start w m r w' p' :
    mx_submitting m = [] -> start w (mx_impl m) = Some (r, w', p') -> mixed_step (w, m) (w', mx_with_impl m p')
| mixed_refused w m e err w' p' :
    submit_check e w (mx_impl m) = Some (Unexpected err, w', p') -> mixed_step (w, m) (w', mx_with_impl m p')
| mixed_sync_refused w m e t err w' p' :
    submit_sync_check e t w (mx_impl m) = Some (Unexpected err, w', p') -> mixed_step (w, m) (w', mx_with_impl m p')
| mixed_checked w m e w' p' :
    Z.of_nat (length (mx_submitting m)) < 2 ^ 31 - 2 ->
    submit_check e w (mx_impl m) = Some (Ok tt, w', p') ->
    mixed_step (w, m) (w', mx_checked m p' e None)
| mixed_sync_checked w m e t w' p' :
    Z.of_nat (length (mx_submitting m)) < 2 ^ 31 - 2 ->
    submit_sync_check e t w (mx_impl m) = Some (Ok tt, w', p') ->
    mixed_step (w, m) (w', mx_checked m p' e (Some t))
| mixed_dispatched w m i e sync strand w' p' :
    mx_submitting m !! i = Some (e, sync) -> submit_dispatch e w (mx_impl m) = Some (strand, w', p') ->
    mixed_step (w, m) (w', mx_spawned m p' i strand e sync)
| mixed_begin w m i job :
    mx_tasks m !! i = Some job -> mx_next_on_strand m i job.1.1 -> pool_is_stopped (mx_impl m) = false ->
    mixed_step (w, m) (w, mx_begun m i job)
| mixed_async_end w m i strand e id d w' p' :
    mx_running m !! i = Some (strand, e, None, id) -> run_task id e w (mx_impl m) = Some (d, w', p') ->
    mixed_step (w, m) (w', mx_finished m p' i (strand, e, None) id d)
| mixed_coroutine w m i strand e n id s w' p' s' :
    mx_running m !! i = Some (strand, e, Some n, id) -> mx_calls m !! n = Some s ->
    coroutine_step id e s w (mx_impl m) = Some (w', p', s', false) ->
    mixed_step (w, m) (w', mx_with_call (mx_with_impl m p') n s')
| mixed_coroutine_end w m i strand e n id s w' p' s' :
    mx_running m !! i = Some (strand, e, Some n, id) -> mx_calls m !! n = Some s ->
    coroutine_step id e s w (mx_impl m) = Some (w', p', s', true) ->
    mixed_step (w, m) (w', mx_finished (mx_with_call m n s') p' i (strand, e, Some n) id (head (emissions s')))
| mixed_caller w m n s a s' :
    mx_calls m !! n = Some s -> caller_step a s = Some s' -> mixed_step (w, m) (w, mx_with_call m n s')
| mixed_drain_begin w m w' p' :
    drain_begin w (mx_impl m) = Some (tt, w', p') -> mixed_step (w, m) (w', mx_with_impl m p')
| mixed_drain_stop w m w' p' :
    state_ (mx_impl m) = Draining -> drain_stop w (mx_impl m) = Some (tt, w', p') ->
    mixed_step (w, m) (w', mx_pool_stop m p')
| mixed_drain_end w m w' p' :
    state_ (mx_impl m) = Draining -> pool_is_stopped (mx_impl m) = true -> mx_running m = [] ->
    drain_end w (mx_impl m) = Some (tt, w', p') -> mixed_step (w, m) (w', mx_with_impl m p').

Definition mixed_reachable (c : PipelineConfig W) (m : Mixed W) : Prop :=
  exists w0 w, rtc mixed_step (w0, mixed_new c) (w, m).

(** ** Specification vocabulary *)

(** The jobs that are over. *)
Definition ended_jobs (m : Mixed W) : list Job := map (fun x => x.1.1) (mx_ended m).

(** Where every accepted job is. *)
Definition mx_whereabouts (m : Mixed W) : list Job :=
  ended_jobs m ++ map fst (mx_running m) ++ mx_tasks m ++ mx_abandoned m.

Definition mx_ids (m : Mixed W) : list Z := map (fun x => x.1.2) (mx_ended m) ++ map snd (mx_running m).

(** What the caller of a call has returned, or returns when it wakes. *)
Definition told (s : SyncCall) (r : expected Decision SubmitSyncError) : Prop :=
  caller s = CallerReturned r \/
  (caller s = CallerWaits /\ sc_done (ctx s) = true /\ finish_done (ctx s) = CallerReturned r).

(** What has become of a job that is over: an asynchronous one has been decided
    and emitted; a synchronous one has been emitted and its caller is told the
    same decision, or it has not and its caller is told an error. *)
Definition job_settled (c : PipelineConfig W) (m : Mixed W) (x : Job * Z * option Decision) : Prop :=
  let '(strand, e, sync, id, d) := x in
  match sync with
  | None => exists dec, d = Some dec /\ decision_ok c (make_stages c) id e dec
  | Some n =>
      exists s, mx_calls m !! n = Some s /\ emissions s = option_list d /\
        match d with
        | Some dec => decision_ok c (make_stages c) id e dec /\ told s (Ok dec)
        | None => (exists err, told s (Unexpected err)) \/ exists flag, caller s = CallerGaveUp flag
        end
  end.

(** The same system without the calls: a job that was not emitted leaves the
    strand like one with an empty decision. *)
Definition unemitted (c : PipelineConfig W) (e : Event) (id : Z) : Decision := new_decision c id 0 e.

Definition strip (j : Job) : Z * Event := j.1.

Definition strip_ended (c : PipelineConfig W) (x : Job * Z * option Decision) : Z * Event * Decision :=
  (x.1.1.1, default (unemitted c x.1.1.1.2 x.1.2) x.2).

Definition system_of (c : PipelineConfig W) (m : Mixed W) : System W :=
  mkSystem (mx_impl m) (map fst (mx_submitting m)) (map strip (mx_tasks m)) (map (fun x => (strip x.1, x.2)) (mx_running m))
    (map strip (mx_accepted m)) (map (strip_ended c) (mx_ended m)) (map strip (mx_abandoned m)).

End Mixed.

(** ** Lemmas *)

Section CoreLemmas.

Context {W : Type} `{TimedWorkers W} `{StdSort} `{StdHash}.
Variable c : PipelineConfig W.

(** The invariants of a system that do not speak of what was decided. *)
Definition core_inv (s : System W) : Prop :=
  life_ok c s /\ router_inv s /\ strands_ok s /\ tenants_ok c s /\
  (Z.of_nat (length (accepted s)) < 2 ^ 62 -> counters_ok s).

Lemma core_step (w w' : W) (s s' : System W) :
  calls_ok c -> core_inv s -> system_step (w, s) (w', s') -> core_inv s'.
Proof.
  intros Hcalls (Hl & Hr & Hs & Ht & Hc) Hstep. split_and!.
  - by eapply life_step.
  - by eapply router_inv_step.
  - by eapply strands_ok_step.
  - by eapply tenants_ok_step.
  - intros Hb. pose proof (accepted_monotone _ _ _ _ Hstep). eapply counters_step; [done|done|apply Hc; lia|done|done].
Qed.

(** An emission replaces the emit stage. *)
Lemma core_emit (s : System W) (es : EmitStage W) :
  core_inv s -> is_Some (emit (impl s)) -> es_config es = cfg_emit c -> core_inv (with_impl s (set_emit (impl s) es)).
Proof.
  intros (Hl & Hr & Hs & Ht & Hc) Hsome Hes. split; [|split_and!; [by eapply router_inv_frame|done|done|exact Hc]].
  destruct Hl as [Hcf Hss He Hrt Hobj Hnone Hst Hrun Htk Hstart]. split; simpl; try done.
  - by intros x [= <-].
  - intros Hx. destruct (Hobj Hx). split; [done|by eexists].
Qed.

(** The end of a coroutine, with the decision it stands for. *)
Lemma core_ended (s : System W) (i : nat) (strand : Z) (e : Event) (id : Z) (es : EmitStage W) (d : Decision) :
  core_inv s -> running s !! i = Some (strand, e, id) -> es_config es = cfg_emit c -> d_event_id d = id ->
  core_inv (ended s (on_event_complete (set_emit (impl s) es)) i strand e (Some d)).
Proof.
  intros (Hl & Hr & Hs & Ht & Hc) Hi Hes Hd. split_and!.
  - by apply life_ended.
  - by eapply router_inv_frame.
  - by eapply strands_ended.
  - exact Ht.
  - intros Hb. by eapply counters_ended; [apply Hc| | |].
Qed.

Lemma core_new : core_inv (system_new c).
Proof. destruct (system_inv_new c) as (Hl & Hr & _ & Hs & Ht & Hc). by split_and!. Qed.

(** A check of [submit_sync] is a check of [submit]. *)
Lemma sync_check_refused (e : Event) (t : StopToken) (w w' : W) (p p' : Impl W) err :
  submit_sync_check e t w p = Some (Unexpected err, w', p') ->
  (w' = w /\ p' = p) \/ exists err', submit_check e w p = Some (Unexpected err', w', p').
Proof.
  unfold submit_sync_check, submit_check. destruct (stop_requested t); [intros [= _ <- <-]; by left|].
  destruct (state_ p); try (intros [= _ <- <-]; by left). destruct (router p) as [r|]; [|done].
  destruct (try_acquire _ _ w r) as [[[[[]|x] w1] r1]|]; [done| |done]. intros [= _ <- <-]. right. by eexists.
Qed.

Lemma sync_check_passed (e : Event) (t : StopToken) (w w' : W) (p p' : Impl W) :
  submit_sync_check e t w p = Some (Ok tt, w', p') -> submit_check e w p = Some (Ok tt, w', p').
Proof.
  unfold submit_sync_check, submit_check. destruct (stop_requested t); [done|].
  destruct (state_ p); try done. destruct (router p) as [r|]; [|done].
  destruct (try_acquire _ _ w r) as [[[[[]|x] w1] r1]|]; [by intros [= -> ->]|intros Hx; discriminate Hx|done].
Qed.

Lemma map_delete {A B : Type} (f : A -> B) (l : list A) (i : nat) : map f (delete i l) = delete i (map f l).
Proof. revert i. induction l as [|x l IH]; intros [|i]; simpl; [done..|]. by rewrite <- IH. Qed.

Lemma lookup_map_Some {A B : Type} (f : A -> B) (l : list A) (i : nat) (x : A) :
  l !! i = Some x -> map f l !! i = Some (f x).
Proof. intros Hi. change (map f l) with (f <$> l). by rewrite list_lookup_fmap, Hi. Qed.

Lemma system_of_spawned (m : Mixed W) (p : Impl W) (i : nat) (strand : Z) (e : Event) (sync : option StopToken) :
  system_of c (mx_spawned m p i strand e sync) = spawned (system_of c m) p i strand e.
Proof.
  unfold system_of, mx_spawned, spawned. simpl. rewrite map_delete, map_app.
  by destruct (pool_is_stopped p), sync; rewrite ?map_app.
Qed.

Lemma system_of_begun (m : Mixed W) (i : nat) (job : Job) :
  system_of c (mx_begun m i job) = begun (system_of c m) i job.1.1 job.1.2.
Proof. destruct job as [[k e] sync]. unfold system_of, mx_begun, begun. simpl. by rewrite map_delete, map_app. Qed.

Lemma system_of_finished (m : Mixed W) (p : Impl W) (i : nat) (strand : Z) (e : Event) sync (id : Z) (d : option Decision) :
  system_of c (mx_finished m p i (strand, e, sync) id d)
    = ended (system_of c m) p i strand e (Some (default (unemitted c e id) d)).
Proof. unfold system_of, mx_finished, ended. simpl. by rewrite map_delete, map_app. Qed.

Lemma system_of_checked (m : Mixed W) (p : Impl W) (e : Event) (sync : option StopToken) :
  system_of c (mx_checked m p e sync) = checked (system_of c m) p e.
Proof. unfold system_of, mx_checked, checked. simpl. by rewrite map_app. Qed.

Lemma system_of_pool_stop (m : Mixed W) (p : Impl W) : system_of c (mx_pool_stop m p) = pool_stop (system_of c m) p.
Proof. unfold system_of, mx_pool_stop, pool_stop. simpl. by rewrite map_app. Qed.

Lemma system_of_next (m : Mixed W) (i : nat) (strand : Z) :
  mx_next_on_strand m i strand -> next_on_strand (system_of c m) i strand.
Proof.
  intros [Hfirst Hfree]. split.
  - intros j t Hj Ht. unfold system_of in Ht. simpl in Ht. change (map strip (mx_tasks m)) with (strip <$> mx_tasks m) in Ht.
    apply list_lookup_fmap_Some in Ht as (x & -> & Hx). by apply (Hfirst j x).
  - intros x Hx. simpl in Hx. apply list_elem_of_fmap in Hx as (y & -> & Hy). by apply (Hfree y).
Qed.

End CoreLemmas.

(** ** Lemmas: the calls *)

Section CallStepLemmas.

Context {W : Type} `{TimedWorkers W} `{StdSort} `{StdHash}.
Variable c : PipelineConfig W.

Lemma emit_process_returns (es : EmitStage W) (d : Decision) (w w' : W) x :
  calls_ok c -> es_config es = cfg_emit c -> emit_process es d w = (Some x, w') ->
  exists o es', x = Returned (o, es') /\ es_config es' = cfg_emit c.
Proof.
  intros (_ & Hr & Ht) He Hrun. unfold emit_process, bindM, retM in Hrun. rewrite He in Hrun.
  destruct (steady_now w) as [t w2]. destruct (emit_targets_ends _ _ d Hr Ht w2) as (rs & bits & drops & Heq & _).
  destruct (emit_targets _ _ _ d w2) as [y w3]. simpl in Heq. subst y. destruct (steady_now w3) as [t' w4].
  injection Hrun as <- _. by eexists _, _.
Qed.

Lemma sync_run_no_throw (id : Z) (e : Event) (w w' : W) (r : run_result) next :
  stages_ok (make_stages c) -> run_event c (make_stages c) true id e w = (r, w') -> after_stages r = Some next ->
  next = CoRejects \/ exists d, next = CoDecides d.
Proof.
  intros Hok Hr Hn. destruct (event_is_valid e) eqn:Hv.
  - destruct (run_event_decides c (make_stages c) true id e w Hok (fun _ => Hv)) as (d & Hd & _).
    rewrite Hr in Hd. simpl in Hd. subst r. injection Hn as <-. right. by eexists.
  - destruct (run_event_rejects c (make_stages c) id e w Hv) as (d & Hd & _).
    rewrite Hr in Hd. simpl in Hd. subst r. injection Hn as <-. by left.
Qed.

(** A coroutine whose stages are over knows why. *)
Definition call_inv (id : Z) (e : Event) (s : SyncCall) : Prop :=
  sync_inv c id e s /\ (coroutine s = CoEnded -> sc_done (ctx s) = true \/ sc_cancelled (ctx s) = true).

Lemma coroutine_step_cases (id : Z) (e : Event) (s s' : SyncCall) (w w' : W) (p p' : Impl W) (over : bool) :
  calls_ok c -> config p = c -> (forall x, stages p = Some x -> x = make_stages c) ->
  (forall x, emit p = Some x -> es_config x = cfg_emit c) -> call_inv id e s ->
  coroutine_step id e s w p = Some (w', p', s', over) ->
  call_inv id e s' /\
  (if over then coroutine s = CoEnded /\ s' = s /\ p' = on_event_complete p
   else p' = p \/ exists es', is_Some (emit p) /\ es_config es' = cfg_emit c /\ p' = set_emit p es').
Proof.
  intros Hcalls Hc Hs He [Hinv Hwhy] Hstep. pose proof (proj1 Hcalls) as Hok.
  assert (Hgo : forall w1 w2 s2, call_step c id e (w1, s) (w2, s2) ->
    (coroutine s2 = CoEnded -> sc_done (ctx s2) = true \/ sc_cancelled (ctx s2) = true) -> call_inv id e s2).
  { intros w1 w2 s2 Hcall Hw. split; [by eapply sync_inv_step|done]. }
  unfold coroutine_step in Hstep. destruct (coroutine s) as [| |d|d|d|] eqn:Hco.
  - destruct (stages p) as [ss|] eqn:Hss; [|done]. rewrite (Hs ss eq_refl), Hc in Hstep.
    destruct (run_event c (make_stages c) true id e w) as [r w1] eqn:Hr.
    destruct (after_stages r) as [next|] eqn:Hn; [|done].
    pose proof (sync_run_no_throw id e w w1 r next Hok Hr Hn) as Hnext.
    assert (Hs' : (w1, p, set_coroutine s next, false) = (w', p', s', over))
      by (destruct Hnext as [->|[d ->]]; by injection Hstep as -> -> -> ->).
    injection Hs' as <- <- <- <-. split; [|by left]. eapply Hgo; [by eapply call_run|].
    simpl. by destruct Hnext as [->|[d ->]].
  - injection Hstep as <- <- <- <-. split; [|by left]. eapply (Hgo w w); [by apply call_rejects|]. intros _. by left.
  - destruct (capture_decision d (ctx s)) as [x go] eqn:Hx. injection Hstep as <- <- <- <-. split; [|by left].
    eapply (Hgo w w); [by eapply call_captures|]. simpl. unfold capture_decision in Hx.
    destruct (sc_cancelled (ctx s)) eqn:Hcan; simplify_eq; [by right|done].
  - destruct (emit p) as [es|] eqn:Hes; [|done]. destruct (emit_process es d w) as [[r|] w1] eqn:Hr; [|done].
    destruct (emit_process_returns es d w w1 r Hcalls (He es eq_refl) Hr) as (o & es' & -> & Hes').
    injection Hstep as <- <- <- <-. split; [|right; by eexists].
    eapply Hgo; [apply (call_emits c id e w w1 s d es (Returned (o, es')) Hco Hr)|done].
  - injection Hstep as <- <- <- <-. split; [|by left]. eapply (Hgo w w); [by eapply call_notifies|]. intros _. by left.
  - injection Hstep as <- <- <- <-. split; [|done]. split; [exact Hinv|intros _; by apply Hwhy].
Qed.

Lemma caller_step_call (id : Z) (e : Event) (a : caller_action) (s s' : SyncCall) (w : W) :
  caller_step a s = Some s' -> call_step c id e (w, s) (w, s') /\ coroutine s' = coroutine s /\
    emissions s' = emissions s /\ sc_decision (ctx s') = sc_decision (ctx s) /\ sc_done (ctx s') = sc_done (ctx s) /\
    (sc_cancelled (ctx s) = true -> sc_cancelled (ctx s') = true).
Proof.
  unfold caller_step. destruct a as [|flag| |], (caller s) as [|flag'|r|] eqn:Hwho; try done.
  all: try (rewrite <- Hwho; intros [= <-]; split; [by apply call_stop|done]).
  - destruct (sc_done (ctx s)) eqn:Hd; [|done]. intros [= <-]. split; [by apply call_wakes|done].
  - destruct (sc_done (ctx s)) eqn:Hd; [done|]. destruct (flag && negb (stop_requested (cancel s)))%bool eqn:Hf; [done|].
    intros [= <-]. split; [|split_and!; by try done].
    eapply (call_times_out c id e w s flag); [done|done| |reflexivity].
    intros ->. by destruct (stop_requested (cancel s)).
  - intros [= <-]. split; [by apply call_fails|done].
Qed.

Lemma call_inv_caller (id : Z) (e : Event) (a : caller_action) (s s' : SyncCall) (w : W) :
  stages_ok (make_stages c) -> caller_step a s = Some s' -> call_inv id e s -> call_inv id e s'.
Proof.
  intros Hok Ha [Hinv Hwhy]. destruct (caller_step_call id e a s s' w Ha) as (Hcall & Hco & _ & _ & Hdone & Hcan).
  split; [by eapply sync_inv_step|]. rewrite Hco, Hdone. intros He. destruct (Hwhy He); auto.
Qed.

Lemma call_inv_new (id : Z) (e : Event) (t : StopToken) : call_inv id e (call_new t).
Proof. split; [by split_and!|done]. Qed.

(** A call whose coroutine is over is settled. *)
Lemma call_settled (id : Z) (e : Event) (s : SyncCall) :
  call_inv id e s -> coroutine s = CoEnded ->
  exists d, emissions s = option_list d /\ d = head (emissions s) /\
    match d with
    | Some dec => decision_ok c (make_stages c) id e dec /\ told s (Ok dec)
    | None => (exists err, told s (Unexpected err)) \/ exists flag, caller s = CallerGaveUp flag
    end.
Proof.
  intros [(Hco & Hwho & Horig) Hwhy] Hend. specialize (Hwhy Hend).
  unfold coroutine_inv, caller_inv, origin_inv in *. rewrite Hend in *. unfold told.
  destruct Hco as [(Hd & He & Hv)|(d & Hd & Herr & He)].
  - exists None. rewrite He. split_and!; [done|done|]. destruct (caller s) as [|flag|[r|err]|] eqn:Hcl.
    + left. exists ValidationFailed. right. destruct Hwhy as [Hw|Hw]; [|congruence]. split_and!; [done|done|].
      unfold finish_done. by rewrite (Hv Hw).
    + right. by exists flag.
    + destruct Hwho. congruence.
    + left. exists err. by left.
    + done.
  - exists (Some d). rewrite He. split_and!; [done|done|by apply Horig|]. destruct (caller s) as [|flag|[r|err]|] eqn:Hcl.
    + right. destruct Hwhy as [Hw|Hw]; [|congruence]. split_and!; [done|done|]. unfold finish_done. by rewrite Herr, Hd.
    + destruct Hwho as [_ Hn]. congruence.
    + left. destruct Hwho. congruence.
    + destruct Hwho as [Hn _]. congruence.
    + done.
Qed.

End CallStepLemmas.

(** ** Lemmas: the jobs *)

Inductive place : Type := Waiting | Active (id : Z) | Over (id : Z) (d : option Decision).

Section JobLemmas.

Context {W : Type} `{TimedWorkers W} `{StdSort} `{StdHash}.
Variable c : PipelineConfig W.

Definition placed (m : Mixed W) : list (Job * place) :=
  map (fun x => (x.1.1, Over x.1.2 x.2)) (mx_ended m) ++ map (fun x => (x.1, Active x.2)) (mx_running m) ++
  map (fun j => (j, Waiting)) (mx_tasks m) ++ map (fun j => (j, Waiting)) (mx_abandoned m).

Definition placed_ok (calls : list SyncCall) (x : Job * place) : Prop :=
  match job_call x.1 with
  | None =>
      match x.2 with
      | Over id d => exists dec, d = Some dec /\ decision_ok c (make_stages c) id x.1.1.2 dec
      | _ => True
      end
  | Some n =>
      exists s, calls !! n = Some s /\
        match x.2 with
        | Waiting => coroutine s = CoSpawned /\ forall id, call_inv c id x.1.1.2 s
        | Active id => call_inv c id x.1.1.2 s
        | Over id d => call_inv c id x.1.1.2 s /\ coroutine s = CoEnded /\ d = head (emissions s)
        end
  end.

Record jobs_inv (m : Mixed W) : Prop := {
  jobs_perm : mx_accepted m ≡ₚ mx_whereabouts m;
  jobs_calls : omap job_call (mx_accepted m) = seq 0 (length (mx_calls m));
  jobs_placed : Forall (placed_ok (mx_calls m)) (placed m)
}.

Lemma placed_whereabouts (m : Mixed W) : map fst (placed m) = mx_whereabouts m.
Proof.
  unfold placed, mx_whereabouts, ended_jobs. rewrite !map_app, !map_map. cbn [fst]. by rewrite !map_id.
Qed.

Lemma placed_ok_new (calls : list SyncCall) (s : SyncCall) x : placed_ok calls x -> placed_ok (calls ++ [s]) x.
Proof.
  unfold placed_ok. destruct (job_call x.1); [|done]. intros (s0 & Hs & Hx). exists s0. split; [|done].
  by apply lookup_app_l_Some.
Qed.

Lemma placed_ok_other (calls : list SyncCall) (n : nat) (s : SyncCall) x :
  job_call x.1 <> Some n -> placed_ok calls x -> placed_ok (<[n := s]> calls) x.
Proof.
  unfold placed_ok. destruct (job_call x.1) as [k|]; [|done]. intros Hk (s0 & Hs & Hx). exists s0. split; [|done].
  rewrite list_lookup_insert_ne; [done|congruence].
Qed.

(** No two jobs have one call. *)
Lemma calls_distinct (m : Mixed W) (x : Job * place) (rest : list (Job * place)) (n : nat) :
  jobs_inv m -> placed m ≡ₚ x :: rest -> job_call x.1 = Some n -> forall y, y ∈ rest -> job_call y.1 <> Some n.
Proof.
  intros [Hperm Hcalls _] Hp Hn y Hy Hyn.
  assert (Hnd : NoDup (omap job_call (map fst (x :: rest)))).
  { assert (Hm : map fst (x :: rest) ≡ₚ mx_accepted m)
      by (by rewrite Hperm, <- placed_whereabouts, (Permutation_map fst Hp)).
    assert (Ho : omap job_call (map fst (x :: rest)) ≡ₚ omap job_call (mx_accepted m)) by (by rewrite Hm).
    rewrite Ho, Hcalls. apply NoDup_seq. }
  simpl in Hnd. rewrite Hn in Hnd. apply NoDup_cons in Hnd as [Hnot _]. apply Hnot.
  apply list_elem_of_omap. exists y.1. split; [by apply list_elem_of_fmap_2|done].
Qed.

Lemma placed_update (m : Mixed W) (x : Job * place) (rest : list (Job * place)) (n : nat) (s : SyncCall) :
  jobs_inv m -> placed m ≡ₚ x :: rest -> job_call x.1 = Some n -> Forall (placed_ok (<[n := s]> (mx_calls m))) rest.
Proof.
  intros Hinv Hp Hn. pose proof (jobs_placed m Hinv) as Hall. rewrite Hp in Hall. apply Forall_cons in Hall as [_ Hall].
  apply Forall_forall. intros y Hy. rewrite Forall_forall in Hall.
  apply placed_ok_other; [by eapply calls_distinct|by apply Hall].
Qed.

(** The jobs other than the [i]th that runs. *)
Lemma placed_running (m : Mixed W) (i : nat) (job : Job) (id : Z) :
  mx_running m !! i = Some (job, id) -> exists rest, placed m ≡ₚ (job, Active id) :: rest /\
    forall p j d, placed (mx_finished m p i job j d) ≡ₚ (job, Over j d) :: rest.
Proof.
  intros Hi. exists (map (fun x => (x.1.1, Over x.1.2 x.2)) (mx_ended m) ++ map (fun x => (x.1, Active x.2)) (delete i (mx_running m)) ++
    map (fun j => (j, Waiting)) (mx_tasks m) ++ map (fun j => (j, Waiting)) (mx_abandoned m)).
  split; [|intros p j d].
  - unfold placed. rewrite (Permutation_map _ (delete_Permutation _ _ _ Hi)). simpl. solve_Permutation.
  - unfold placed, mx_finished. simpl. rewrite map_app. simpl. solve_Permutation.
Qed.

Lemma jobs_inv_finished (m : Mixed W) (p : Impl W) (i : nat) (job : Job) (id : Z) (d : option Decision) :
  jobs_inv m -> mx_running m !! i = Some (job, id) -> placed_ok (mx_calls m) (job, Over id d) ->
  jobs_inv (mx_finished m p i job id d).
Proof.
  intros Hinv Hi Hok. destruct (placed_running m i job id Hi) as (rest & Hp & Hp').
  pose proof Hinv as [Hperm Hcalls Hall]. split; [|exact Hcalls|].
  - rewrite <- placed_whereabouts, (Permutation_map fst (Hp' p id d)). cbn [mx_finished mx_accepted].
    rewrite Hperm, <- placed_whereabouts, (Permutation_map fst Hp). done.
  - rewrite (Hp' p id d). constructor; [exact Hok|]. rewrite Hp in Hall. by apply Forall_cons in Hall as [_ Hall].
Qed.

Lemma jobs_inv_begun (m : Mixed W) (i : nat) (job : Job) :
  jobs_inv m -> mx_tasks m !! i = Some job -> jobs_inv (mx_begun m i job).
Proof.
  intros [Hperm Hcalls Hall] Hi.
  set (x := (job, Active (next_event_id_ (mx_impl m)))). set (y := (job, Waiting)).
  assert (Hp : exists rest, placed m ≡ₚ y :: rest /\ placed (mx_begun m i job) ≡ₚ x :: rest).
  { eexists. split; unfold placed, mx_begun; simpl.
    - rewrite (Permutation_map _ (delete_Permutation _ _ _ Hi)) at 1. simpl. rewrite !app_assoc, <- Permutation_middle. reflexivity.
    - rewrite map_app. simpl. rewrite <- !app_assoc. simpl. rewrite <- Permutation_middle, app_assoc, <- Permutation_middle. solve_Permutation. }
  destruct Hp as (rest & Hp & Hp'). split; [|exact Hcalls|].
  - rewrite <- placed_whereabouts, (Permutation_map fst Hp'). cbn [mx_begun take_event_id mx_accepted].
    rewrite Hperm, <- placed_whereabouts, (Permutation_map fst Hp). done.
  - rewrite Hp'. cbn [mx_begun take_event_id mx_calls]. rewrite Hp in Hall. apply Forall_cons in Hall as [Hx Hall].
    constructor; [|exact Hall]. unfold placed_ok in *. cbn [x y fst snd] in *. destruct (job_call job); [|done].
    destruct Hx as (s & Hs & _ & Hany). exists s. split; [done|apply Hany].
Qed.

Lemma jobs_inv_spawned (m : Mixed W) (p : Impl W) (i : nat) (strand : Z) (e : Event) (sync : option StopToken) :
  jobs_inv m -> jobs_inv (mx_spawned m p i strand e sync).
Proof.
  intros [Hperm Hcalls Hall].
  set (job := (strand, e, match sync with Some _ => Some (length (mx_calls m)) | None => None end)).
  assert (Hp : placed (mx_spawned m p i strand e sync) ≡ₚ (job, Waiting) :: placed m).
  { unfold placed, mx_spawned. simpl. fold job. destruct (pool_is_stopped p); rewrite map_app; simpl; solve_Permutation. }
  split.
  - rewrite <- placed_whereabouts, (Permutation_map fst Hp). cbn [mx_spawned mx_accepted map fst]. fold job.
    rewrite Hperm, <- placed_whereabouts. solve_Permutation.
  - cbn [mx_spawned mx_accepted mx_calls]. fold job. rewrite omap_app, Hcalls. subst job. destruct sync; simpl.
    + by rewrite length_app, Nat.add_1_r, seq_S.
    + by rewrite app_nil_r.
  - rewrite Hp. constructor.
    + unfold placed_ok. subst job. destruct sync as [t|]; simpl; [|done]. exists (call_new t).
      split; [by rewrite lookup_app_r, Nat.sub_diag|]. split; [done|]. intros id. apply call_inv_new.
    + cbn [mx_spawned mx_calls]. destruct sync; [|exact Hall]. eapply Forall_impl; [exact Hall|]. intros x. apply placed_ok_new.
Qed.

Lemma jobs_inv_pool_stop (m : Mixed W) (p : Impl W) : jobs_inv m -> jobs_inv (mx_pool_stop m p).
Proof.
  intros [Hperm Hcalls Hall].
  assert (Hp : placed (mx_pool_stop m p) ≡ₚ placed m)
    by (unfold placed, mx_pool_stop; simpl; rewrite map_app; solve_Permutation).
  split; [|exact Hcalls|by rewrite Hp]. rewrite <- placed_whereabouts, (Permutation_map fst Hp), placed_whereabouts. exact Hperm.
Qed.

(** A coroutine goes on. *)
Lemma jobs_inv_coroutine (m : Mixed W) (p : Impl W) (i n : nat) (strand : Z) (e : Event) (id : Z) (s : SyncCall) :
  jobs_inv m -> mx_running m !! i = Some (strand, e, Some n, id) -> is_Some (mx_calls m !! n) -> call_inv c id e s ->
  jobs_inv (mx_with_call (mx_with_impl m p) n s).
Proof.
  intros Hinv Hi Hn Hs. destruct (placed_running m i _ id Hi) as (rest & Hp & _).
  pose proof (placed_update m _ rest n s Hinv Hp eq_refl) as Hrest. destruct Hinv as [Hperm Hcalls Hall].
  split; [exact Hperm|cbn; by rewrite length_insert|].
  change (placed (mx_with_call (mx_with_impl m p) n s)) with (placed m). rewrite Hp. constructor; [|exact Hrest].
  exists s. split; [|exact Hs]. apply list_lookup_insert_eq. by apply lookup_lt_is_Some.
Qed.

(** A caller goes on, wherever its job is. *)
Lemma jobs_inv_caller (m : Mixed W) (n : nat) (a : caller_action) (s s' : SyncCall) (w : W) :
  calls_ok c -> jobs_inv m -> mx_calls m !! n = Some s -> caller_step a s = Some s' -> jobs_inv (mx_with_call m n s').
Proof.
  intros [Hok _] [Hperm Hcalls Hall] Hn Ha. split; [exact Hperm|cbn; by rewrite length_insert|].
  change (placed (mx_with_call m n s')) with (placed m). cbn [mx_with_call mx_calls].
  eapply Forall_impl; [exact Hall|]. intros x. destruct (decide (job_call x.1 = Some n)) as [Hx|Hx]; [|by apply placed_ok_other].
  unfold placed_ok. rewrite Hx. intros (s0 & Hs0 & Hpl). assert (s0 = s) as -> by congruence. exists s'.
  split; [apply list_lookup_insert_eq; by apply lookup_lt_is_Some; eexists|].
  destruct (caller_step_call c 0 x.1.1.2 a s s' w Ha) as (_ & Hco & Hem & _).
  destruct x.2 as [|id|id d]; rewrite ?Hco, ?Hem.
  - destruct Hpl as [Hsp Hany]. split; [done|]. intros id. by eapply call_inv_caller.
  - by eapply call_inv_caller.
  - destruct Hpl as (Hci & Hend & Hd). split_and!; [by eapply call_inv_caller|done|done].
Qed.

End JobLemmas.

(** ** Lemmas: the invariant *)

Section MixedInvariant.

Context {W : Type} `{TimedWorkers W} `{StdSort} `{StdHash}.
Variable c : PipelineConfig W.

Definition mixed_inv (m : Mixed W) : Prop := core_inv c (system_of c m) /\ jobs_inv c m.

Lemma mixed_inv_new : mixed_inv (mixed_new c).
Proof. split; [apply core_new|]. split; [done|done|by constructor]. Qed.

(** What the invariant says of the job that runs and of its call. *)
Lemma running_call (m : Mixed W) (i n : nat) (strand : Z) (e : Event) (id : Z) (s : SyncCall) :
  jobs_inv c m -> mx_running m !! i = Some (strand, e, Some n, id) -> mx_calls m !! n = Some s -> call_inv c id e s.
Proof.
  intros [_ _ Hall] Hi Hn. destruct (placed_running m i _ id Hi) as (rest & Hp & _). rewrite Hp in Hall.
  apply Forall_cons in Hall as [Hx _]. destruct Hx as (s0 & Hs0 & Hx). cbn in Hs0, Hx. by simplify_eq.
Qed.

Lemma mixed_jobs_step (w w' : W) (m m' : Mixed W) :
  calls_ok c -> mixed_inv m -> mixed_step (w, m) (w', m') -> jobs_inv c m'.
Proof.
  intros Hcalls [Hcore Hjobs] Hstep. pose proof (proj1 Hcore) as Hl.
  inversion Hstep as [? ? ? ? p' Hsb Hs|? ? e err ? p' Hs|? ? e t err ? p' Hs|? ? e ? p' Hlt Hs|? ? e t ? p' Hlt Hs
    |? ? i e sync strand ? p' Hi Hs|? ? i job Hi Hn Hp|? ? i strand e id d ? p' Hi Hs|? ? i strand e n id s ? p' s' Hi Hn Hs
    |? ? i strand e n id s ? p' s' Hi Hn Hs|? ? n s a s' Hn Ha|? ? ? p' Hs|? ? ? p' Hd Hs|? ? ? p' Hd Hp Hr Hs]; subst;
    try (by destruct Hjobs as [Hperm Hcl Hall]; split).
  - by apply jobs_inv_spawned.
  - by apply jobs_inv_begun.
  - destruct (run_task_spec c id e w w' (mx_impl m) p' d Hcalls) as (dec & es' & -> & _ & Hok & _);
      [apply Hl..|done|]. apply jobs_inv_finished; [done|done|]. by exists dec.
  - destruct (coroutine_step_cases c id e s s' w w' (mx_impl m) p' false Hcalls) as [Hs' _];
      [apply Hl..|by eapply running_call|done|]. eapply jobs_inv_coroutine; [done|done|by eexists|done].
  - destruct (coroutine_step_cases c id e s s' w w' (mx_impl m) p' true Hcalls) as [Hs' (Hco & -> & _)];
      [apply Hl..|by eapply running_call|done|].
    assert (Hid : mx_with_call m n s = m) by (unfold mx_with_call; rewrite list_insert_id by done; by destruct m).
    rewrite Hid. apply jobs_inv_finished; [done|done|]. exists s. cbn. done.
  - by eapply (jobs_inv_caller c m n a s s' w').
  - by apply jobs_inv_pool_stop.
Qed.

Lemma set_emit_same (p : Impl W) (es : EmitStage W) : emit p = Some es -> set_emit p es = p.
Proof. intros He. destruct p. simpl in *. by subst. Qed.

(** Every step is one of the system without calls, an emission, or the end of a
    coroutine that leaves the strand. *)
Lemma mixed_core_step (w w' : W) (m m' : Mixed W) :
  calls_ok c -> mixed_inv m -> mixed_step (w, m) (w', m') -> core_inv c (system_of c m').
Proof.
  intros Hcalls [Hcore Hjobs] Hstep. pose proof (proj1 Hcore) as Hl.
  assert (Hsame : forall s', system_step (w, system_of c m) (w', s') -> core_inv c s') by (intros s'; by apply core_step).
  inversion Hstep as [? ? ? ? p' Hsb Hs|? ? e err ? p' Hs|? ? e t err ? p' Hs|? ? e ? p' Hlt Hs|? ? e t ? p' Hlt Hs
    |? ? i e sync strand ? p' Hi Hs|? ? i job Hi Hn Hp|? ? i strand e id d ? p' Hi Hs|? ? i strand e n id s ? p' s' Hi Hn Hs
    |? ? i strand e n id s ? p' s' Hi Hn Hs|? ? n s a s' Hn Ha|? ? ? p' Hs|? ? ? p' Hd Hs|? ? ? p' Hd Hp Hr Hs]; subst.
  - apply Hsame. apply (step_start w (system_of c m) r w' p'); [|done]. by cbn; rewrite Hsb.
  - apply Hsame. by apply (step_refused w (system_of c m) e err w' p').
  - apply sync_check_refused in Hs as [[-> ->]|[err' Hs]]; [by destruct m|].
    apply Hsame. by apply (step_refused w (system_of c m) e err' w' p').
  - apply Hsame. rewrite system_of_checked. apply step_checked; [by cbn; rewrite length_map|done].
  - apply Hsame. rewrite system_of_checked. apply step_checked; [by cbn; rewrite length_map|by eapply sync_check_passed].
  - rewrite system_of_spawned. apply Hsame. apply step_dispatched; [|done]. by apply (lookup_map_Some fst) in Hi.
  - rewrite system_of_begun. apply Hsame. apply step_begin; [|by apply system_of_next|done].
    apply (lookup_map_Some strip) in Hi. cbn. rewrite Hi. by destruct job as [[]].
  - destruct (run_task_spec c id e w w' (mx_impl m) p' d Hcalls) as (dec & es' & -> & _ & Hok & _);
      [apply Hl..|done|]. rewrite system_of_finished. apply Hsame. eapply step_end; [|exact Hs].
    by apply (lookup_map_Some (fun x => (strip x.1, x.2))) in Hi.
  - destruct (coroutine_step_cases c id e s s' w w' (mx_impl m) p' false Hcalls) as [_ Hp];
      [apply Hl..|by eapply running_call|done|].
    change (core_inv c (with_impl (system_of c m) p')). destruct Hp as [->|(es' & Hsome & Hes & ->)]; [by destruct m|].
    by apply (core_emit c (system_of c m)).
  - destruct (coroutine_step_cases c id e s s' w w' (mx_impl m) p' true Hcalls) as [Hci (Hco & -> & ->)];
      [apply Hl..|by eapply running_call|done|].
    destruct (life_objects c _ Hl) as [_ [es Hes]].
    { destruct (router (mx_impl m)) eqn:Hr; [by eexists|]. destruct (life_none c _ Hl Hr) as (_ & _ & Hnil).
      cbn in Hnil. apply map_eq_nil in Hnil. by rewrite Hnil in Hi. }
    cbn in Hes. rewrite system_of_finished, <- (set_emit_same (mx_impl m) es Hes).
    change (system_of c (mx_with_call m n s)) with (system_of c m).
    apply (core_ended c (system_of c m) i strand e id es); [done|..|by apply (life_emit c _ Hl)|].
    + by apply (lookup_map_Some (fun x => (strip x.1, x.2))) in Hi.
    + destruct (call_settled c id e s Hci Hco) as (d & _ & -> & Hd). destruct (head (emissions s)); [apply Hd|done].
  - exact Hcore.
  - apply Hsame. by apply (step_drain_begin w (system_of c m) w' p').
  - rewrite system_of_pool_stop. apply Hsame. by apply step_drain_stop.
  - apply Hsame. apply (step_drain_end w (system_of c m) w' p'); [done|done|by cbn; rewrite Hr|done].
Qed.

Lemma mixed_reachable_inv (m : Mixed W) : calls_ok c -> mixed_reachable c m -> mixed_inv m.
Proof.
  intros Hcalls (w0 & w & Hrun).
  assert (Hgen : forall x y, rtc mixed_step x y -> mixed_inv x.2 -> mixed_inv y.2).
  { induction 1 as [x|[w1 m1] [w2 m2] z Hstep _ IH]; [done|]. intros Hx. apply IH.
    split; [by eapply mixed_core_step|by eapply mixed_jobs_step]. }
  apply (Hgen _ _ Hrun), mixed_inv_new.
Qed.

Lemma ended_placed (m : Mixed W) (x : Job * Z * option Decision) :
  jobs_inv c m -> x ∈ mx_ended m -> placed_ok c (mx_calls m) (x.1.1, Over x.1.2 x.2).
Proof.
  intros [_ _ Hall] Hx. rewrite Forall_forall in Hall. apply Hall. unfold placed. apply elem_of_app. left.
  apply list_elem_of_fmap. by exists x.
Qed.

Lemma all_settled (m : Mixed W) : jobs_inv c m -> Forall (job_settled c m) (mx_ended m).
Proof.
  intros Hjobs. apply Forall_forall. intros x Hx. pose proof (ended_placed m x Hjobs Hx) as Hp.
  destruct x as [[[[k e] [n|]] id] d]; [|exact Hp]. destruct Hp as (s & Hs & Hci & Hco & Hd). cbn in *.
  exists s. split; [exact Hs|]. destruct (call_settled c id e s Hci Hco) as (d' & Hem & Hd' & Hcase). subst d d'. by split.
Qed.

(** The empty decisions have the ids of their jobs. *)
Lemma system_ids (m : Mixed W) : jobs_inv c m -> ids (system_of c m) = mx_ids m.
Proof.
  intros Hjobs. unfold ids, mx_ids. cbn. rewrite !map_map. f_equal. apply map_ext_in. intros x Hx%list_elem_of_In.
  pose proof (all_settled m Hjobs) as Hall. rewrite Forall_forall in Hall. specialize (Hall x Hx).
  destruct x as [[[[k e] [n|]] id] [d|]]; try done; cbn in *.
  - destruct Hall as (s & _ & _ & Hd & _). apply Hd.
  - destruct Hall as (d' & [= ->] & Hd). apply Hd.
Qed.

End MixedInvariant.

(** ** Schedules *)

(** What the next thread does. *)
Inductive mixed_action : Type :=
| MxStart | MxSubmit (e : Event) | MxSubmitSync (e : Event) (t : StopToken) | MxDispatch (i : nat) | MxBegin (i : nat)
| MxRun (i : nat) | MxCaller (n : nat) (a : caller_action) | MxDrainBegin | MxDrainStop | MxDrainEnd.

Section MixedSchedules.

Context {W : Type} `{Clock W} `{Workers W} `{StdSort} `{StdHash}.

Definition mx_next_on_strand_b (m : Mixed W) (i : nat) (strand : Z) : bool :=
  (forallb (fun t : Job => negb (Z.eqb t.1.1 strand)) (take i (mx_tasks m)) &&
   forallb (fun x : Job * Z => negb (Z.eqb x.1.1.1 strand)) (mx_running m))%bool.

(** A check that lets a submission pass, or refuses it. *)
Definition mx_exec_check {E : Type} (m : Mixed W) (e : Event) (sync : option StopToken)
    (r : option (expected unit E * W * Impl W)) : option (W * Mixed W) :=
  match r with
  | Some (Ok _, w', p') =>
      if Z.ltb (Z.of_nat (length (mx_submitting m))) (2 ^ 31 - 2) then Some (w', mx_checked m p' e sync) else None
  | Some (Unexpected _, w', p') => Some (w', mx_with_impl m p')
  | None => None
  end.

Definition mx_exec (a : mixed_action) (x : W * Mixed W) : option (W * Mixed W) :=
  let '(w, m) := x in
  match a with
  | MxStart =>
      match mx_submitting m, start w (mx_impl m) with
      | [], Some (_, w', p') => Some (w', mx_with_impl m p')
      | _, _ => None
      end
  | MxSubmit e => mx_exec_check m e None (submit_check e w (mx_impl m))
  | MxSubmitSync e t => mx_exec_check m e (Some t) (submit_sync_check e t w (mx_impl m))
  | MxDispatch i =>
      match mx_submitting m !! i with
      | None => None
      | Some (e, sync) => match submit_dispatch e w (mx_impl m) with
                          | Some (strand, w', p') => Some (w', mx_spawned m p' i strand e sync)
                          | None => None
                          end
      end
  | MxBegin i =>
      match mx_tasks m !! i with
      | None => None
      | Some job =>
          if (mx_next_on_strand_b m i job.1.1 && negb (pool_is_stopped (mx_impl m)))%bool
          then Some (w, mx_begun m i job) else None
      end
  | MxRun i =>
      match mx_running m !! i with
      | None => None
      | Some (strand, e, None, id) =>
          match run_task id e w (mx_impl m) with
          | Some (d, w', p') => Some (w', mx_finished m p' i (strand, e, None) id d)
          | None => None
          end
      | Some (strand, e, Some n, id) =>
          match mx_calls m !! n with
          | None => None
          | Some s =>
              match coroutine_step id e s w (mx_impl m) with
              | Some (w', p', s', true) =>
                  Some (w', mx_finished (mx_with_call m n s') p' i (strand, e, Some n) id (head (emissions s')))
              | Some (w', p', s', false) => Some (w', mx_with_call (mx_with_impl m p') n s')
              | None => None
              end
          end
      end
  | MxCaller n a =>
      match mx_calls m !! n with
      | None => None
      | Some s => match caller_step a s with Some s' => Some (w, mx_with_call m n s') | None => None end
      end
  | MxDrainBegin =>
      match drain_begin w (mx_impl m) with Some (_, w', p') => Some (w', mx_with_impl m p') | None => None end
  | MxDrainStop =>
      match is_draining (mx_impl m), drain_stop w (mx_impl m) with
      | true, Some (_, w', p') => Some (w', mx_pool_stop m p')
      | _, _ => None
      end
  | MxDrainEnd =>
      match (is_draining (mx_impl m) && pool_is_stopped (mx_impl m))%bool, mx_running m, drain_end w (mx_impl m) with
      | true, [], Some (_, w', p') => Some (w', mx_with_impl m p')
      | _, _, _ => None
      end
  end.

Fixpoint mx_exec_all (l : list mixed_action) (x : W * Mixed W) : option (W * Mixed W) :=
  match l with
  | [] => Some x
  | a :: l' => match mx_exec a x with Some y => mx_exec_all l' y | None => None end
  end.

Lemma mx_next_on_strand_b_true (m : Mixed W) (i : nat) (strand : Z) :
  mx_next_on_strand_b m i strand = true -> mx_next_on_strand m i strand.
Proof.
  unfold mx_next_on_strand_b. intros [Ht Hr]%andb_true_iff. split.
  - intros j t Hj Hl. rewrite forallb_forall in Ht. specialize (Ht t). apply negb_true_iff, Z.eqb_neq in Ht; [done|].
    apply list_elem_of_In, (list_elem_of_lookup_2 _ j). by rewrite lookup_take_lt.
  - intros x Hx. rewrite forallb_forall in Hr. specialize (Hr x). apply negb_true_iff, Z.eqb_neq in Hr; [done|].
    by apply list_elem_of_In.
Qed.

Lemma mx_exec_step (a : mixed_action) (x y : W * Mixed W) : mx_exec a x = Some y -> mixed_step x y.
Proof.
  destruct x as [w m], a as [|e|e t|i|i|i|n a| | |]; cbn [mx_exec]; intros Hx.
  - destruct (mx_submitting m) eqn:Hsub; [|done]. destruct (start w (mx_impl m)) as [[[r w'] p']|] eqn:Hs; simplify_eq.
    by econstructor.
  - unfold mx_exec_check in Hx. destruct (submit_check e w (mx_impl m)) as [[[[[]|err] w'] p']|] eqn:Hs; [..|done].
    + case_match eqn:Hlt; simplify_eq. apply mixed_checked; [by apply Z.ltb_lt|done].
    + simplify_eq. by eapply mixed_refused.
  - unfold mx_exec_check in Hx. destruct (submit_sync_check e t w (mx_impl m)) as [[[[[]|err] w'] p']|] eqn:Hs; [..|done].
    + case_match eqn:Hlt; simplify_eq. apply mixed_sync_checked; [by apply Z.ltb_lt|done].
    + simplify_eq. by eapply mixed_sync_refused.
  - destruct (mx_submitting m !! i) as [[e sync]|] eqn:Hi; [|done].
    destruct (submit_dispatch e w (mx_impl m)) as [[[k w'] p']|] eqn:Hs; simplify_eq. by econstructor.
  - destruct (mx_tasks m !! i) as [job|] eqn:Hi; [|done]. case_match eqn:Hb; simplify_eq.
    apply andb_true_iff in Hb as [Hn Hp%negb_true_iff].
    apply mixed_begin; [done|by apply mx_next_on_strand_b_true|done].
  - destruct (mx_running m !! i) as [[[[k e] [n|]] id]|] eqn:Hi; [| |done].
    + destruct (mx_calls m !! n) as [s|] eqn:Hn; [|done].
      destruct (coroutine_step id e s w (mx_impl m)) as [[[[w' p'] s'] []]|] eqn:Hs; simplify_eq;
        [by eapply mixed_coroutine_end|by eapply mixed_coroutine].
    + destruct (run_task id e w (mx_impl m)) as [[[d w'] p']|] eqn:Hs; simplify_eq. by apply mixed_async_end.
  - destruct (mx_calls m !! n) as [s|] eqn:Hn; [|done]. destruct (caller_step a s) as [s'|] eqn:Ha; simplify_eq.
    by eapply mixed_caller.
  - simpl in Hx. simplify_eq. by econstructor.
  - unfold is_draining in Hx. destruct (state_ (mx_impl m)) eqn:Hst; try done.
    destruct (drain_stop w (mx_impl m)) as [[[[] w'] p']|] eqn:Hs; simplify_eq. by econstructor.
  - unfold is_draining in Hx. destruct (state_ (mx_impl m)) eqn:Hst; try done.
    destruct (pool_is_stopped (mx_impl m)) eqn:Hp; [|done]. destruct (mx_running m) eqn:Hr; [|done].
    simpl in Hx. simplify_eq. by econstructor.
Qed.

Lemma mx_exec_all_reachable (c : PipelineConfig W) (l : list mixed_action) (w0 w : W) (m : Mixed W) :
  mx_exec_all l (w0, mixed_new c) = Some (w, m) -> mixed_reachable c m.
Proof.
  intros Hall. exists w0, w. revert Hall. generalize (w0, mixed_new c).
  induction l as [|a l IH]; cbn [mx_exec_all]; intros x Hx; [by simplify_eq|].
  destruct (mx_exec a x) as [y|] eqn:Ha; [|done]. eapply rtc_l; [by apply (mx_exec_step a)|by apply IH].
Qed.

End MixedSchedules.

(** One asynchronous submission; a call that is answered; and a call that times
    out before its coroutine begins. *)
Definition mixed_schedule : list mixed_action :=
  [MxStart; MxSubmit example_event; MxDispatch 0; MxSubmitSync example_event None; MxDispatch 0;
   MxSubmitSync example_event (Some false); MxDispatch 0; MxCaller 1 (TimesOut false); MxCaller 1 Fails;
   MxBegin 0; MxRun 0;
   MxBegin 0; MxRun 0; MxRun 0; MxRun 0; MxRun 0; MxCaller 0 Wakes; MxRun 0;
   MxBegin 0; MxRun 0; MxRun 0; MxRun 0].

Definition run_mixed (l : list mixed_action) : option (Z * Mixed Z) :=
  mx_exec_all (H := Stages.sample_clock) (H0 := Stages.sample_workers) l (0, mixed_new example_config).

(** ** Properties *)

(** C1: [submit] and [submit_sync] together account for every event: in every
    reachable pipeline, whatever strands, callers, time-outs, cancellations,
    drains and restarts do (when nothing it calls throws), the accepted jobs are
    exactly those that are over, running, waiting or abandoned, each call has one
    job, [in_flight_] counts the last three, event ids are distinct, and every
    job that is over is settled: an asynchronous one was decided and emitted, a
    synchronous one was emitted and its caller is told that very decision, or was
    not emitted and its caller is told an error.  Nothing in flight means that
    every accepted job is settled. *)
Theorem submissions_accounted {W : Type} `{TimedWorkers W} `{StdSort} `{StdHash} (c : PipelineConfig W)
    (m : Mixed W) (Hok : calls_ok c) (Hreach : mixed_reachable c m)
    (Hbound : Z.of_nat (length (mx_accepted m)) < 2 ^ 62) :
  mx_accepted m ≡ₚ mx_whereabouts m /\
  omap job_call (mx_accepted m) = seq 0 (length (mx_calls m)) /\
  in_flight_ (mx_impl m) = Z.of_nat (length (mx_running m) + length (mx_tasks m) + length (mx_abandoned m)) /\
  NoDup (mx_ids m) /\
  Forall (job_settled c m) (mx_ended m) /\
  (drained (mx_impl m) = true -> mx_accepted m ≡ₚ ended_jobs m).
Proof.
  destruct (mixed_reachable_inv c m Hok Hreach) as [(_ & _ & _ & _ & Hc) Hjobs]. pose proof Hjobs as [Hperm Hcalls _].
  destruct Hc as (_ & Hfl & _ & Hids); [cbn; by rewrite length_map|]. cbn in Hfl. rewrite !length_map in Hfl.
  split_and!; [done|done|done| |by apply all_settled|].
  - rewrite <- (system_ids c m Hjobs), Hids. apply (NoDup_fmap_2 Z.of_nat), NoDup_seq.
  - unfold drained. rewrite Hfl. intros Hz%Z.eqb_eq. rewrite Hperm. unfold mx_whereabouts.
    destruct (mx_running m), (mx_tasks m), (mx_abandoned m); simpl in Hz; try lia. by rewrite app_nil_r.
Qed.

Lemma submissions_accounted_witness :
  match run_mixed mixed_schedule with
  | Some (_, m) => length (mx_accepted m) = 3%nat /\ map (fun s => length (emissions s)) (mx_calls m) = [1%nat; 0%nat] /\
      Forall (job_settled example_config m) (mx_ended m) /\ mx_accepted m ≡ₚ ended_jobs m
  | None => False
  end.
Proof.
  assert (Hv : option_map (fun x => (length (mx_accepted x.2), map (fun s => length (emissions s)) (mx_calls x.2),
      drained (mx_impl x.2))) (run_mixed mixed_schedule) = Some (3%nat, [1%nat; 0%nat], true)) by (vm_compute; reflexivity).
  destruct (run_mixed mixed_schedule) as [[w m]|] eqn:Hrun; [|discriminate Hv].
  injection Hv as Ha He Hd. split; [exact Ha|]. split; [exact He|].
  destruct (submissions_accounted (H1 := Stages.sample_timed) example_config m example_calls_ok
    (mx_exec_all_reachable example_config mixed_schedule 0 w m Hrun)) as (_ & _ & _ & _ & Hs & Hall).
  - rewrite Ha. reflexivity.
  - split; [exact Hs|exact (Hall Hd)].
Defined.

(** C13: events of one tenant are decided in the order they were accepted, whether
    they were submitted by [submit] or [submit_sync]: in every reachable pipeline
    in which no task was abandoned the tenant's jobs that are over come first,
    in order, among its accepted ones, and one job of a strand runs at a time. *)
Theorem submission_order_kept {W : Type} `{TimedWorkers W} `{StdSort} `{StdHash} (c : PipelineConfig W)
    (m : Mixed W) (tenant : string) (Hok : calls_ok c) (Hreach : mixed_reachable c m)
    (Hbound : Z.of_nat (length (mx_accepted m)) < 2 ^ 62) (Hab : mx_abandoned m = []) :
  filter (fun x => ev_tenant_id x.2 = tenant) (map strip (ended_jobs m))
    `prefix_of` filter (fun x => ev_tenant_id x.2 = tenant) (map strip (mx_accepted m)) /\
  forall k, (length (filter (fun x : Job * Z => x.1.1.1 = k) (mx_running m)) <= 1)%nat.
Proof.
  destruct (mixed_reachable_inv c m Hok Hreach) as [(_ & _ & Hs & Ht & Hc) _].
  destruct Hc as (Hacc & _); [cbn; by rewrite length_map|]. split.
  - pose proof (tenants_in_order c (system_of c m) tenant Hs Ht Hacc) as Hpre. cbn in Hpre. rewrite Hab in Hpre.
    specialize (Hpre eq_refl). unfold ended_jobs. rewrite map_map in Hpre |- *. exact Hpre.
  - intros k. destruct Hs as [Hone _]. specialize (Hone k). cbn in Hone. unfold on_strand in Hone.
    by rewrite length_map, filter_map_comm, length_map in Hone.
Qed.

Lemma submission_order_kept_witness :
  match run_mixed mixed_schedule with
  | Some (_, m) => filter (fun x => ev_tenant_id x.2 = "acme") (map strip (ended_jobs m))
      `prefix_of` filter (fun x => ev_tenant_id x.2 = "acme") (map strip (mx_accepted m))
  | None => False
  end.
Proof.
  assert (Hv : option_map (fun x => (length (mx_accepted x.2), length (mx_abandoned x.2))) (run_mixed mixed_schedule)
    = Some (3%nat, 0%nat)) by (vm_compute; reflexivity).
  destruct (run_mixed mixed_schedule) as [[w m]|] eqn:Hrun; [|discriminate Hv]. injection Hv as Ha Hab.
  apply (submission_order_kept (H1 := Stages.sample_timed) example_config m "acme" example_calls_ok
    (mx_exec_all_reachable example_config mixed_schedule 0 w m Hrun)).
  - rewrite Ha. reflexivity.
  - by apply nil_length_inv.
Defined.
