(* ===== verification/DuckDb.v ===== *)
(** * DuckDbWindowStore: the persistent window store

    include/fre/state/duckdb_window_store.hpp and
    src/state/duckdb_window_store.cpp.  The database engine and the file system
    are a class of operations on the world: preparing and executing a statement,
    which the code sends as [sql_text] with the values [sql_params] bound.  What the code relies on of them
    is the class [DuckDbLaws], the documented effect of each statement on a table
    of windows; a statement may also fail, without effect.  A call that holds a
    mutex is one action. *)

From S2P Require Import Prelude Ieee CoreTypes Errors StateStore ExternalStore.
From Stdlib Require Import Ascii.

Open Scope list_scope.
Open Scope Z_scope.

Record DuckDbConfig : Type := mkDuckDbConfig {
  db_path : string;
  parquet_archive_dir : string;
  flush_interval_ms : Z;
  window_ms : Z;
  warm_epoch_retention : Z
}.

(** ** The engine *)

Inductive sql_value : Type := VVarchar (s : string) | VUbigint (z : Z) | VDouble (f : float64).

Record sql_result : Type := mkSqlResult { sr_rows : list (list sql_value); sr_changed : Z }.

(** The connection of the hot path, the one of queries, the one of a flush. *)
Inductive connection : Type := HotConn | QueryConn | FlushConn.

(** [duckdb_value_*]: the value of a column, zero when it has another type. *)
Definition value_at (row : list sql_value) (col : nat) : sql_value := default (VUbigint 0) (row !! col).
Definition value_uint64 (v : sql_value) : Z := match v with VUbigint z => z | _ => 0 end.
Definition value_double (v : sql_value) : float64 := match v with VDouble f => f | _ => f64_zero end.
Definition value_varchar (v : sql_value) : string := match v with VVarchar s => s | _ => "" end.

(** ** Statements *)

Inductive statement : Type :=
| SetExtensions
| CreateTable
| SelectRow (k : WindowKey)
| Begin | Commit | Rollback
| InsertDefault (k : WindowKey)
| UpdateVersion (k : WindowKey) (v : WindowValue) (version : Z)
| DeleteRow (k : WindowKey)
| UpsertRow (k : WindowKey) (v : WindowValue)
| SelectAll
| SumWarm (tenant entity window : string) (lo hi : Z)
| SumCold (dir tenant entity window : string) (lo hi : Z)
| OldEpochs (cutoff : Z)
| CopyEpoch (epoch : Z) (path : string)
| DeleteEpoch (epoch : Z).

Definition sql_text (s : statement) : string :=
  match s with
  | SetExtensions => "SET autoinstall_known_extensions=1;SET autoload_known_extensions=1"
  | CreateTable =>
      "CREATE TABLE IF NOT EXISTS window_state (  tenant_id   VARCHAR  NOT NULL,"
      +:+ "  entity_id   VARCHAR  NOT NULL,  window_name VARCHAR  NOT NULL,  epoch       UBIGINT  NOT NULL,"
      +:+ "  aggregate   DOUBLE   NOT NULL DEFAULT 0.0,  version     UBIGINT  NOT NULL DEFAULT 0,"
      +:+ "  PRIMARY KEY (tenant_id, entity_id, window_name, epoch))"
  | SelectRow _ =>
      "SELECT aggregate, version FROM window_state WHERE tenant_id=$1 AND entity_id=$2 AND window_name=$3 AND epoch=$4"
  | Begin => "BEGIN"
  | Commit => "COMMIT"
  | Rollback => "ROLLBACK"
  | InsertDefault _ =>
      "INSERT INTO window_state (tenant_id, entity_id, window_name, epoch, aggregate, version)"
      +:+ " VALUES ($1, $2, $3, $4, 0.0, 0) ON CONFLICT DO NOTHING"
  | UpdateVersion _ _ _ =>
      "UPDATE window_state SET aggregate=$1, version=$2 WHERE tenant_id=$3 AND entity_id=$4 AND window_name=$5"
      +:+ "   AND epoch=$6 AND version=$7"
  | DeleteRow _ =>
      "DELETE FROM window_state WHERE tenant_id=$1 AND entity_id=$2 AND window_name=$3 AND epoch=$4"
  | UpsertRow _ _ =>
      "INSERT INTO window_state (tenant_id, entity_id, window_name, epoch, aggregate, version)"
      +:+ " VALUES ($1, $2, $3, $4, $5, $6) ON CONFLICT (tenant_id, entity_id, window_name, epoch)"
      +:+ " DO UPDATE SET aggregate=EXCLUDED.aggregate,               version=EXCLUDED.version"
  | SelectAll => "SELECT tenant_id, entity_id, window_name, epoch, aggregate, version FROM window_state"
  | SumWarm _ _ _ _ _ =>
      "SELECT COALESCE(SUM(aggregate), 0.0) FROM window_state WHERE tenant_id=$1 AND entity_id=$2 AND window_name=$3"
      +:+ "   AND epoch >= $4 AND epoch <= $5"
  | SumCold dir tenant entity window lo hi =>
      "SELECT COALESCE(SUM(aggregate), 0.0) FROM read_parquet('" +:+ dir +:+ "/epoch=*/part-*.parquet') WHERE tenant_id='"
      +:+ tenant +:+ "' AND entity_id='" +:+ entity +:+ "' AND window_name='" +:+ window +:+ "'   AND epoch >= "
      +:+ to_string_Z lo +:+ " AND epoch <= " +:+ to_string_Z hi
  | OldEpochs cutoff => "SELECT DISTINCT epoch FROM window_state WHERE epoch < " +:+ to_string_Z cutoff
  | CopyEpoch epoch path =>
      "COPY (SELECT tenant_id, entity_id, window_name, epoch, aggregate, version      FROM window_state WHERE epoch = "
      +:+ to_string_Z epoch +:+ ") TO '" +:+ path +:+ "' (FORMAT PARQUET)"
  | DeleteEpoch epoch => "DELETE FROM window_state WHERE epoch = " +:+ to_string_Z epoch
  end.

Definition key_params (k : WindowKey) : list sql_value :=
  [VVarchar (c_str (wk_tenant_id k)); VVarchar (c_str (wk_entity_id k)); VVarchar (c_str (wk_window_name k));
   VUbigint (wk_epoch k)].

Definition sql_params (s : statement) : list sql_value :=
  match s with
  | SelectRow k | InsertDefault k | DeleteRow k => key_params k
  | UpdateVersion k v version =>
      [VDouble (wv_aggregate v); VUbigint (wv_version v)] ++ key_params k ++ [VUbigint version]
  | UpsertRow k v => key_params k ++ [VDouble (wv_aggregate v); VUbigint (wv_version v)]
  | SumWarm tenant entity window lo hi =>
      [VVarchar (c_str tenant); VVarchar (c_str entity); VVarchar (c_str window); VUbigint lo; VUbigint hi]
  | _ => []
  end.

Class DuckDbEngine (W : Type) : Type := {
  duck_open : string -> M W bool;
  duck_connect : connection -> M W bool;
  duck_prepare : connection -> statement -> M W bool;
  (** [duckdb_execute_prepared], and [duckdb_query] for a text without parameters *)
  duck_execute : connection -> statement -> M W (expected sql_result string);
  create_directories : string -> M W unit;
  has_parquet : string -> M W bool;
  stop_requested : M W bool  (** of the background thread *)
}.

(** ** The store *)

Record DuckDbWindowStore : Type := mkDuckDbStore {
  dd_config : DuckDbConfig;
  dd_available : bool;       (** [available_] *)
  dd_flush_thread : bool     (** the background thread was started *)
}.

Definition duck_unavailable : StoreError := mkStoreError StoreUnavailable "DuckDB unavailable".

Section DuckDb.

Context {W : Type} `{Clock W} `{DuckDbEngine W}.

(** The constructor; each early return leaves the store unavailable. *)
Definition duck_new (config : DuckDbConfig) : M W DuckDbWindowStore :=
  let failed := retM (mkDuckDbStore config false false) in
  do opened <- duck_open (c_str (db_path config));
  if negb opened then failed else
  do hot <- duck_connect HotConn;
  if negb hot then failed else
  do query <- duck_connect QueryConn;
  if negb query then failed else
  do e1 <- duck_execute HotConn SetExtensions;
  if negb (has_value e1) then failed else
  do e2 <- duck_execute QueryConn SetExtensions;
  if negb (has_value e2) then failed else
  do ddl <- duck_execute HotConn CreateTable;
  if negb (has_value ddl) then failed else
  retM (mkDuckDbStore config true
          (negb (str_empty (parquet_archive_dir config)) && Z.ltb 0 (flush_interval_ms config))).

Definition duck_get (x : DuckDbWindowStore) (key : WindowKey) : M W (expected WindowValue StoreError) :=
  if negb (dd_available x) then retM (Unexpected duck_unavailable) else
  do ok <- duck_prepare HotConn (SelectRow key);
  if negb ok then retM (Unexpected (mkStoreError StoreUnavailable "prepare failed")) else
  do r <- duck_execute HotConn (SelectRow key);
  match r with
  | Unexpected e => retM (Unexpected (mkStoreError StoreUnavailable e))
  | Ok res =>
      match sr_rows res with
      | [] => retM (Ok WindowValue_zero)
      | row :: _ => retM (Ok (mkWindowValue (value_double (value_at row 0)) (value_uint64 (value_at row 1))))
      end
  end.

(** [ROLLBACK], whatever it answers, and the error. *)
Definition rollback_with {A : Type} (e : StoreError) : M W (expected A StoreError) :=
  do _ <- duck_execute HotConn Rollback; retM (Unexpected e).

Definition duck_compare_and_swap (x : DuckDbWindowStore) (key : WindowKey) (expected_val new_val : WindowValue)
    : M W (expected bool StoreError) :=
  if negb (dd_available x) then retM (Unexpected duck_unavailable) else
  do began <- duck_execute HotConn Begin;
  if negb (has_value began) then retM (Unexpected (mkStoreError StoreUnavailable "BEGIN failed")) else
  do ok1 <- duck_prepare HotConn (InsertDefault key);
  if negb ok1 then rollback_with (mkStoreError StoreUnavailable "prepare insert failed") else
  do ins <- duck_execute HotConn (InsertDefault key);
  match ins with
  | Unexpected e => rollback_with (mkStoreError StoreUnavailable e)
  | Ok _ =>
      let update := UpdateVersion key new_val (wv_version expected_val) in
      do ok2 <- duck_prepare HotConn update;
      if negb ok2 then rollback_with (mkStoreError StoreUnavailable "prepare update failed") else
      do upd <- duck_execute HotConn update;
      match upd with
      | Unexpected e => rollback_with (mkStoreError StoreUnavailable e)
      | Ok res =>
          do _ <- duck_execute HotConn Commit;  (* the answer is dropped *)
          retM (Ok (Z.ltb 0 (sr_changed res)))
      end
  end.

Definition duck_expire (x : DuckDbWindowStore) (key : WindowKey) : M W (expected unit StoreError) :=
  if negb (dd_available x) then retM (Unexpected duck_unavailable) else
  do ok <- duck_prepare HotConn (DeleteRow key);
  if negb ok then retM (Unexpected (mkStoreError StoreUnavailable "prepare failed")) else
  do r <- duck_execute HotConn (DeleteRow key);
  match r with
  | Unexpected e => retM (Unexpected (mkStoreError StoreUnavailable e))
  | Ok _ => retM (Ok tt)
  end.

(** The loop of [upsert_batch] up to the first failure. *)
Fixpoint upsert_rows (entries : list (WindowKey * WindowValue)) : M W (expected unit StoreError) :=
  match entries with
  | [] => retM (Ok tt)
  | (key, val) :: entries' =>
      do ok <- duck_prepare HotConn (UpsertRow key val);
      if negb ok then retM (Unexpected (mkStoreError StoreUnavailable "upsert prepare failed")) else
      do r <- duck_execute HotConn (UpsertRow key val);
      match r with
      | Unexpected e => retM (Unexpected (mkStoreError StoreUnavailable e))
      | Ok _ => upsert_rows entries'
      end
  end.

Definition upsert_batch (x : DuckDbWindowStore) (entries : list (WindowKey * WindowValue))
    : M W (expected unit StoreError) :=
  if negb (dd_available x) then retM (Unexpected duck_unavailable) else
  if Nat.eqb (length entries) 0 then retM (Ok tt) else
  do began <- duck_execute HotConn Begin;
  if negb (has_value began) then retM (Unexpected (mkStoreError StoreUnavailable "upsert_batch BEGIN failed")) else
  do rows <- upsert_rows entries;
  match rows with
  | Unexpected e => rollback_with e
  | Ok _ =>
      do committed <- duck_execute HotConn Commit;
      if has_value committed then retM (Ok tt)
      else rollback_with (mkStoreError StoreUnavailable "upsert_batch COMMIT failed")
  end.

Definition read_row (row : list sql_value) : WindowKey * WindowValue :=
  (mkWindowKey (value_varchar (value_at row 0)) (value_varchar (value_at row 1)) (value_varchar (value_at row 2))
     (value_uint64 (value_at row 3)),
   mkWindowValue (value_double (value_at row 4)) (value_uint64 (value_at row 5))).

Definition scan_warm_tier (x : DuckDbWindowStore) : M W (expected (list (WindowKey * WindowValue)) StoreError) :=
  if negb (dd_available x) then retM (Unexpected duck_unavailable) else
  do r <- duck_execute QueryConn SelectAll;
  match r with
  | Unexpected e => retM (Unexpected (mkStoreError QueryRangeError e))
  | Ok res => retM (Ok (map read_row (sr_rows res)))
  end.

(** The first column of the first row, 0.0 without rows. *)
Definition first_double (res : sql_result) : float64 :=
  match sr_rows res with [] => f64_zero | row :: _ => value_double (value_at row 0) end.

Definition cold_sum (dir tenant entity window : string) (lo hi : Z) : M W float64 :=
  if str_empty dir then retM f64_zero else
  do found <- has_parquet dir;
  if negb found then retM f64_zero else
  do r <- duck_execute QueryConn (SumCold dir tenant entity window lo hi);
  match r with
  | Ok res => retM (first_double res)
  | Unexpected _ => retM f64_zero  (* the failure is not reported *)
  end.

Definition duck_query_range (x : DuckDbWindowStore) (tenant entity window : string) (lo hi : Z)
    : M W (expected float64 StoreError) :=
  if negb (dd_available x) then retM (Unexpected duck_unavailable) else
  do ok <- duck_prepare QueryConn (SumWarm tenant entity window lo hi);
  if negb ok then retM (Unexpected (mkStoreError QueryRangeError "prepare failed")) else
  do r <- duck_execute QueryConn (SumWarm tenant entity window lo hi);
  match r with
  | Unexpected e => retM (Unexpected (mkStoreError QueryRangeError e))
  | Ok res =>
      do cold <- cold_sum (parquet_archive_dir (dd_config x)) tenant entity window lo hi;
      retM (Ok (f64_add (first_double res) cold))
  end.

Definition epoch_dir (dir : string) (epoch : Z) : string := dir +:+ "/epoch=" +:+ to_string_Z epoch.

Definition parquet_path (dir : string) (epoch : Z) : string := epoch_dir dir epoch +:+ "/part-0000.parquet".

(** One turn of the loop of [flush_old_epochs]; both answers are dropped. *)
Definition archive_epoch (dir : string) (epoch : Z) : M W unit :=
  do _ <- create_directories (epoch_dir dir epoch);
  do _ <- duck_execute FlushConn (CopyEpoch epoch (parquet_path dir epoch));
  do _ <- duck_execute FlushConn (DeleteEpoch epoch);
  retM tt.

Fixpoint archive_epochs (dir : string) (epochs : list Z) : M W unit :=
  match epochs with
  | [] => retM tt
  | e :: es => do _ <- archive_epoch dir e; archive_epochs dir es
  end.

(** [now] in nanoseconds since the epoch. *)
Definition flush_cutoff (c : DuckDbConfig) (now : Z) : option Z :=
  let now_ms := wrap_u64 (Z.quot now ns_per_ms) in
  let current := if Z.ltb 0 (window_ms c) then now_ms / window_ms c else 0 in
  if Z.ltb current (warm_epoch_retention c) then None else Some (current - warm_epoch_retention c).

Definition flush_old_epochs (x : DuckDbWindowStore) : M W unit :=
  if negb (dd_available x) then retM tt else
  do now <- system_now;
  match flush_cutoff (dd_config x) now with
  | None => retM tt
  | Some cutoff =>
      do ok <- duck_connect FlushConn;
      if negb ok then retM tt else
      do r <- duck_execute FlushConn (OldEpochs cutoff);
      match r with
      | Unexpected _ => retM tt
      | Ok res => archive_epochs (parquet_archive_dir (dd_config x)) (map (fun row => value_uint64 (value_at row 0)) (sr_rows res))
      end
  end.

(** [run_flush_loop]; [fuel] bounds its turns. *)
Fixpoint flush_loop (fuel : nat) (interval_ms : Z) (flush : M W unit) : M W unit :=
  match fuel with
  | O => retM tt
  | S fuel' =>
      do stop <- stop_requested;
      if (stop : bool) then retM tt else
      do _ <- sleep_for (interval_ms * ns_per_ms);
      do stop' <- stop_requested;
      if (stop' : bool) then retM tt else
      do _ <- flush;
      flush_loop fuel' interval_ms flush
  end.

Definition duck_flush_loop (fuel : nat) (x : DuckDbWindowStore) : M W unit :=
  flush_loop fuel (flush_interval_ms (dd_config x)) (flush_old_epochs x).

Definition as_backend (x : DuckDbWindowStore) : ExternalStoreBackend W :=
  mkBackend (Some (duck_get x)) (Some (duck_compare_and_swap x)) (Some (duck_expire x)) (Some (retM (dd_available x))).

End DuckDb.

(** ** What the engine promises *)

Notation window_table := (gmap WindowKey WindowValue).

(** The key a statement sees. *)
Definition bound_key (k : WindowKey) : WindowKey :=
  mkWindowKey (c_str (wk_tenant_id k)) (c_str (wk_entity_id k)) (c_str (wk_window_name k)) (wk_epoch k).

(** The table, the table to go back to while a transaction is open, and the rows
    changed after a statement that succeeds. *)
Definition table_after (s : statement) (t : window_table) (saved : option window_table)
    : window_table * option window_table * Z :=
  match s with
  | Begin => (t, Some t, 0)
  | Commit => (t, None, 0)
  | Rollback => (default t saved, None, 0)
  | InsertDefault k =>
      match t !! bound_key k with
      | Some _ => (t, saved, 0)
      | None => (<[bound_key k := WindowValue_zero]> t, saved, 1)
      end
  | UpdateVersion k v version =>
      match t !! bound_key k with
      | Some cur => if Z.eqb (wv_version cur) version then (<[bound_key k := v]> t, saved, 1) else (t, saved, 0)
      | None => (t, saved, 0)
      end
  | DeleteRow k => (delete (bound_key k) t, saved, match t !! bound_key k with Some _ => 1 | None => 0 end)
  | UpsertRow k v => (<[bound_key k := v]> t, saved, 1)
  | DeleteEpoch e => (filter (fun kv => wk_epoch kv.1 <> e) t, saved, 0)
  | _ => (t, saved, 0)
  end.

Definition row_of (kv : WindowKey * WindowValue) : list sql_value :=
  [VVarchar (wk_tenant_id kv.1); VVarchar (wk_entity_id kv.1); VVarchar (wk_window_name kv.1);
   VUbigint (wk_epoch kv.1); VDouble (wv_aggregate kv.2); VUbigint (wv_version kv.2)].

Definition in_range (tenant entity window : string) (lo hi : Z) (k : WindowKey) : Prop :=
  wk_tenant_id k = tenant /\ wk_entity_id k = entity /\ wk_window_name k = window /\ lo <= wk_epoch k <= hi.

#[export] Instance in_range_dec tenant entity window lo hi k : base.Decision (in_range tenant entity window lo hi k).
Proof. unfold in_range. apply _. Defined.

(** A sum of doubles, added in some order and grouping. *)
Inductive float_sum : list float64 -> float64 -> Prop :=
| sum_none : float_sum [] f64_zero
| sum_one x : float_sum [x] x
| sum_both l1 l2 x1 x2 : float_sum l1 x1 -> float_sum l2 x2 -> float_sum (l1 ++ l2) (f64_add x1 x2)
| sum_order l l' x : l ≡ₚ l' -> float_sum l x -> float_sum l' x.

(** The rows of the files a glob matches. *)
Definition files_rows (glob : string -> bool) (files : gmap string (list (WindowKey * WindowValue)))
    : list (WindowKey * WindowValue) :=
  flat_map snd (filter (fun pl => glob pl.1 = true) (map_to_list files)).

(** The rows a statement that succeeds gives on a table. *)
Definition rows_of (s : statement) (t : window_table) (rows : list (list sql_value)) : Prop :=
  match s with
  | SelectRow k =>
      rows = match t !! bound_key k with
             | Some v => [[VDouble (wv_aggregate v); VUbigint (wv_version v)]]
             | None => []
             end
  | SelectAll => rows ≡ₚ map row_of (map_to_list t)
  | OldEpochs cutoff =>
      exists es, rows = map (fun e => [VUbigint e]) es /\ NoDup es /\
        forall e, e ∈ es <-> e < cutoff /\ exists k v, t !! k = Some v /\ wk_epoch k = e
  | SumWarm tenant entity window lo hi =>
      exists x, rows = [[VDouble x]] /\
        float_sum (map (fun kv => wv_aggregate kv.2)
          (filter (fun kv => in_range (c_str tenant) (c_str entity) (c_str window) lo hi kv.1) (map_to_list t))) x
  | _ => True
  end.

(** Transactions belong to the hot connection and do not nest; the flush of old
    epochs is followed between them. *)
Definition allowed (s : statement) (saved : option window_table) : Prop :=
  match s with
  | Begin | OldEpochs _ | CopyEpoch _ _ | DeleteEpoch _ => saved = None
  | Commit => is_Some saved
  | _ => True
  end.

Class DuckDbLaws (W : Type) `{Clock W} `{DuckDbEngine W} : Type := {
  db_table : W -> window_table;                 (** what the hot connection sees *)
  db_saved : W -> option window_table;          (** the table before its transaction *)
  db_files : W -> gmap string (list (WindowKey * WindowValue));  (** parquet files *)
  db_reliable : W -> Prop;                      (** nothing fails from here on *)
  db_same : W -> W -> Prop := fun w w' =>
    db_table w' = db_table w /\ db_saved w' = db_saved w /\ db_files w' = db_files w /\
    (db_reliable w -> db_reliable w');
  db_visible : connection -> W -> window_table := fun c w =>
    match c with HotConn => db_table w | _ => default (db_table w) (db_saved w) end;
  law_connect : forall c w, db_same w (duck_connect c w).2 /\ (db_reliable w -> (duck_connect c w).1 = true);
  law_directories : forall d w, db_same w (create_directories d w).2;
  law_has_parquet : forall d w, db_same w (has_parquet d w).2;
  law_prepare : forall c s w, db_same w (duck_prepare c s w).2 /\ (db_reliable w -> (duck_prepare c s w).1 = true);
  law_system_now : forall w, db_same w (system_now w).2;
  law_begin_nested : forall c w, is_Some (db_saved w) ->
    has_value (duck_execute c Begin w).1 = false /\ db_same w (duck_execute c Begin w).2;
  law_execute : forall c s w, allowed s (db_saved w) ->
    let '(r, w') := duck_execute c s w in
    (db_reliable w -> has_value r = true /\ db_reliable w') /\
    (forall p, match s with CopyEpoch _ path => p <> path | _ => True end -> db_files w' !! p = db_files w !! p) /\
    match r with
    | Ok res =>
        rows_of s (db_visible c w) (sr_rows res) /\
        (db_table w', db_saved w', sr_changed res) = table_after s (db_table w) (db_saved w) /\
        match s with
        | CopyEpoch e path => exists l, db_files w' !! path = Some l /\
            l ≡ₚ filter (fun kv => wk_epoch kv.1 = e) (map_to_list (db_table w))
        | _ => True
        end
    | Unexpected _ =>
        match s with
        | Commit => (db_table w' = db_table w /\ db_saved w' = db_saved w) \/
                    (Some (db_table w') = db_saved w /\ db_saved w' = None)
        | Rollback => (db_table w' = db_table w /\ db_saved w' = db_saved w) \/
                      (Some (db_table w') = db_saved w /\ db_saved w' = None)
        | _ => db_table w' = db_table w /\ db_saved w' = db_saved w
        end
    end
}.

(** What is stored for good. *)
Definition committed {W : Type} `{DuckDbLaws W} (w : W) : window_table := default (db_table w) (db_saved w).
#[global] Arguments committed : simpl never.

(** Keys that reach the database unchanged. *)
Definition sql_key (k : WindowKey) : Prop := bound_key k = k.

Section Store.

Context {W : Type} `{DuckDbLaws W}.

(** The operations as a store object over the world. *)
#[export] Instance duck_store : StateStore (W * DuckDbWindowStore) := {
  store_get := fun k '(w, x) => let '(r, w') := duck_get x k w in (r, (w', x));
  store_cas := fun k e n '(w, x) => let '(r, w') := duck_compare_and_swap x k e n w in (r, (w', x));
  store_expire := fun k '(w, x) => let '(r, w') := duck_expire x k w in (r, (w', x));
  store_available := fun '(_, x) => dd_available x
}.

(** A store whose database does not fail, between calls. *)
Definition duck_ok (wx : W * DuckDbWindowStore) : Prop :=
  dd_available wx.2 = true /\ db_reliable wx.1 /\ db_saved wx.1 = None.

Definition duck_view (wx : W * DuckDbWindowStore) (k : WindowKey) : WindowValue :=
  map_value (db_table wx.1) k.

End Store.

(** Sample engine: a table in memory, with the statements that are to fail. *)
Record sample_db : Type := mkSampleDb {
  sd_table : window_table;
  sd_saved : option window_table;
  sd_files : gmap string (list (WindowKey * WindowValue));
  sd_fails : statement -> bool
}.

Definition sample_sum (tenant entity window : string) (lo hi : Z) (rows : list (WindowKey * WindowValue)) : float64 :=
  fold_left f64_add (map (fun kv => wv_aggregate kv.2) (filter (fun kv => in_range tenant entity window lo hi kv.1) rows)) f64_zero.

(** Whatever is below the directory. *)
Definition sample_glob (dir path : string) : bool := String.prefix dir path.

Definition sample_rows (s : statement) (t : window_table) (files : gmap string (list (WindowKey * WindowValue))) : list (list sql_value) :=
  match s with
  | SelectRow k =>
      match t !! bound_key k with
      | Some v => [[VDouble (wv_aggregate v); VUbigint (wv_version v)]]
      | None => []
      end
  | SelectAll => map row_of (map_to_list t)
  | OldEpochs cutoff =>
      map (fun e => [VUbigint e]) (remove_dups (filter (fun e => e < cutoff) (map (fun kv => wk_epoch kv.1) (map_to_list t))))
  | SumWarm tenant entity window lo hi =>
      [[VDouble (sample_sum (c_str tenant) (c_str entity) (c_str window) lo hi (map_to_list t))]]
  | SumCold dir tenant entity window lo hi =>
      [[VDouble (sample_sum tenant entity window lo hi (files_rows (sample_glob dir) files))]]
  | _ => []
  end.

Definition nested_begin (s : statement) (saved : option window_table) : bool :=
  match s, saved with Begin, Some _ => true | _, _ => false end.

Definition sample_visible (c : connection) (w : sample_db) : window_table :=
  match c with HotConn => sd_table w | _ => default (sd_table w) (sd_saved w) end.

Definition sample_execute (c : connection) (s : statement) : M sample_db (expected sql_result string) := fun w =>
  if (sd_fails w s || nested_begin s (sd_saved w))%bool then (Unexpected "failed", w)
  else
    let '(t, saved, n) := table_after s (sd_table w) (sd_saved w) in
    let files := match s with
      | CopyEpoch e path => <[path := filter (fun kv => wk_epoch kv.1 = e) (map_to_list (sd_table w))]> (sd_files w)
      | _ => sd_files w
      end in
    (Ok (mkSqlResult (sample_rows s (sample_visible c w) (sd_files w)) n), mkSampleDb t saved files (sd_fails w)).

#[export] Instance sample_db_clock : Clock sample_db := {
  steady_now := fun w => (600000 * ns_per_ms, w);
  system_now := fun w => (600000 * ns_per_ms, w);
  sleep_for := fun _ w => (tt, w)
}.

#[export] Instance sample_engine : DuckDbEngine sample_db := {
  duck_open := fun _ w => (true, w);
  duck_connect := fun _ w => (true, w);
  duck_prepare := fun _ _ w => (true, w);
  duck_execute := sample_execute;
  create_directories := fun _ w => (tt, w);
  has_parquet := fun _ w => (true, w);
  stop_requested := fun w => (true, w)
}.

(** An archive in "/a", windows of a minute, three epochs kept. *)
Definition sample_duck_config : DuckDbConfig := mkDuckDbConfig "state.duckdb" "/a" 60000 60000 3.
Definition sample_duck : DuckDbWindowStore := mkDuckDbStore sample_duck_config true true.
Definition old_key : WindowKey := mkWindowKey "acme" "bob" "w" 2.
Definition live_key : WindowKey := mkWindowKey "acme" "bob" "w" 9.
Definition sample_world (fails : statement -> bool) : sample_db :=
  mkSampleDb (<[live_key := mkWindowValue f64_one 1]> {[ old_key := mkWindowValue f64_one 4 ]}) None ∅ fails.

Definition never (s : statement) : bool := false.
Definition fails_commit (s : statement) : bool := match s with Commit => true | _ => false end.
Definition fails_copy (s : statement) : bool := match s with CopyEpoch _ _ => true | _ => false end.
