(* ===== verification/DuckDbStore.v ===== *)
(** * DuckDbWindowStore: what holds of the persistent store

    Over a database that does not fail the store of DuckDb.v is a lawful store,
    also behind an [ExternalWindowStore]; on one that may fail its transactions
    are all or nothing; the flush of old epochs moves rows to the archive, and
    what a failed COPY or a late row does to that archive. *)

From S2P Require Import Prelude Ieee CoreTypes Errors StateStore ExternalStore DuckDb.

Open Scope list_scope.
Open Scope Z_scope.

(** ** Lemmas *)

Section Lemmas.

Context {W : Type} `{DuckDbLaws W}.

(** A statement of a reliable world succeeds with its documented effect. *)
Lemma execute_reliable (c : connection) (s : statement) (w : W) :
  db_reliable w -> allowed s (db_saved w) -> exists res w',
    duck_execute c s w = (Ok res, w') /\ db_reliable w' /\
    rows_of s (db_visible c w) (sr_rows res) /\
    (db_table w', db_saved w', sr_changed res) = table_after s (db_table w) (db_saved w).
Proof.
  intros Hrel Hall. pose proof (law_execute c s w Hall) as Hlaw.
  destruct (duck_execute c s w) as [[res|e] w'].
  - destruct Hlaw as (Hr & _ & Hrows & Htab & _). exists res, w'. naive_solver.
  - destruct Hlaw as (Hr & _). by destruct (Hr Hrel).
Qed.

Lemma prepare_reliable (c : connection) (s : statement) (w : W) :
  db_reliable w -> exists w', duck_prepare c s w = (true, w') /\ db_reliable w' /\
    db_table w' = db_table w /\ db_saved w' = db_saved w.
Proof.
  intros Hrel. destruct (law_prepare c s w) as [(Ht & Hs & _ & Hr) Hok].
  destruct (duck_prepare c s w) as [ok w']. simpl in *. exists w'. rewrite (Hok Hrel). auto.
Qed.

Lemma duck_law_get (k : WindowKey) (wx : W * DuckDbWindowStore) :
  duck_ok wx -> sql_key k -> exists wx',
    store_get k wx = (Ok (duck_view wx k), wx') /\ duck_ok wx' /\
    forall j, sql_key j -> duck_view wx' j = duck_view wx j.
Proof.
  destruct wx as [w x]. intros (Hav & Hrel & Hsv) Hk. simpl in *. unfold duck_get, bindM, retM. rewrite Hav. simpl.
  destruct (prepare_reliable HotConn (SelectRow k) w Hrel) as (w1 & -> & Hrel1 & Ht1 & Hs1). simpl.
  destruct (execute_reliable HotConn (SelectRow k) w1 Hrel1) as (res & w2 & -> & Hrel2 & Hrows & Htab); [done|].
  simpl in Hrows, Htab. injection Htab as Ht2 Hs2 _. rewrite Hk in Hrows.
  exists (w2, x). unfold duck_view, duck_ok, map_value. simpl. rewrite Hrows, Ht2, Ht1, Hs2, Hs1.
  split; [by destruct (db_table w !! k) as [[]|]|]. split_and!; done.
Qed.

Lemma duck_law_cas (k : WindowKey) (e n : WindowValue) (wx : W * DuckDbWindowStore) :
  duck_ok wx -> sql_key k -> exists wx',
    store_cas k e n wx = (Ok (Z.eqb (wv_version (duck_view wx k)) (wv_version e)), wx') /\ duck_ok wx' /\
    forall j, sql_key j -> duck_view wx' j =
      if (bool_decide (j = k) && Z.eqb (wv_version (duck_view wx k)) (wv_version e))%bool
      then n else duck_view wx j.
Proof.
  destruct wx as [w x]. intros (Hav & Hrel & Hsv) Hk. simpl in *.
  unfold duck_compare_and_swap, bindM, retM. rewrite Hav. simpl.
  destruct (execute_reliable HotConn Begin w Hrel) as (res0 & w0 & -> & Hrel0 & _ & Htab); [done|].
  simpl in Htab. injection Htab as Ht0 Hs0 _. simpl.
  destruct (prepare_reliable HotConn (InsertDefault k) w0 Hrel0) as (w1 & -> & Hrel1 & Ht1 & Hs1). simpl.
  destruct (execute_reliable HotConn (InsertDefault k) w1 Hrel1 I) as (res2 & w2 & -> & Hrel2 & _ & Htab).
  assert (Hmid : db_table w2 !! k = Some (map_value (db_table w) k) /\ db_saved w2 = Some (db_table w) /\
    forall j, map_value (db_table w2) j = map_value (db_table w) j).
  { simpl in Htab. rewrite Hk, Ht1, Ht0, Hs1, Hs0 in Htab. unfold map_value.
    destruct (db_table w !! k) as [v|] eqn:Hv; injection Htab as -> -> _; [by rewrite Hv|].
    rewrite lookup_insert_eq. split_and!; [done|done|]. intros j. destruct (decide (j = k)) as [->|Hne].
    - by rewrite lookup_insert_eq, Hv.
    - by rewrite lookup_insert_ne. }
  destruct Hmid as (Hcur & Hs2 & Hmap).
  set (upd := UpdateVersion k n (wv_version e)).
  destruct (prepare_reliable HotConn upd w2 Hrel2) as (w3 & -> & Hrel3 & Ht3 & Hs3). simpl.
  destruct (execute_reliable HotConn upd w3 Hrel3 I) as (res4 & w4 & -> & Hrel4 & _ & Htab4).
  simpl in Htab4. rewrite Hk, Ht3, Hcur, Hs3, Hs2 in Htab4.
  assert (Hsv4 : db_saved w4 = Some (db_table w)) by (destruct (Z.eqb _ _); by injection Htab4).
  destruct (execute_reliable HotConn Commit w4 Hrel4) as (res5 & w5 & -> & Hrel5 & _ & Htab5);
    [simpl; rewrite Hsv4; by eexists|].
  simpl in Htab5. injection Htab5 as Ht5 Hs5 _.
  exists (w5, x). unfold duck_ok, duck_view. simpl. rewrite Ht5.
  destruct (Z.eqb (wv_version (map_value (db_table w) k)) (wv_version e)); injection Htab4 as Ht4 _ ->;
    rewrite Ht4; split; [done| |done|]; (split; [done|]); intros j Hj.
  - rewrite andb_true_r. unfold map_value at 1. case_bool_decide as Hjk.
    + subst. by rewrite lookup_insert_eq.
    + rewrite lookup_insert_ne by done. apply Hmap.
  - rewrite andb_false_r. apply Hmap.
Qed.

Lemma duck_law_expire (k : WindowKey) (wx : W * DuckDbWindowStore) :
  duck_ok wx -> sql_key k -> exists wx',
    store_expire k wx = (Ok tt, wx') /\ duck_ok wx' /\
    forall j, sql_key j -> duck_view wx' j = if bool_decide (j = k) then WindowValue_zero else duck_view wx j.
Proof.
  destruct wx as [w x]. intros (Hav & Hrel & Hsv) Hk. simpl in *. unfold duck_expire, bindM, retM. rewrite Hav. simpl.
  destruct (prepare_reliable HotConn (DeleteRow k) w Hrel) as (w1 & -> & Hrel1 & Ht1 & Hs1). simpl.
  destruct (execute_reliable HotConn (DeleteRow k) w1 Hrel1 I) as (res & w2 & -> & Hrel2 & _ & Htab).
  simpl in Htab. injection Htab as Ht2 Hs2 _. rewrite Hk, Ht1 in Ht2.
  exists (w2, x). unfold duck_ok, duck_view, map_value. simpl. rewrite Ht2, Hs2, Hs1.
  split; [done|]. split; [done|]. intros j Hj. case_bool_decide as Hjk.
  - subst. by rewrite lookup_delete_eq.
  - by rewrite lookup_delete_ne.
Qed.

(** A DuckDB store that does not fail is a lawful store. *)
#[export] Instance duck_laws : StateStoreLaws (W * DuckDbWindowStore) := {
  store_ok := duck_ok;
  store_key := sql_key;
  store_view := duck_view;
  law_get := duck_law_get;
  law_cas := duck_law_cas;
  law_expire := duck_law_expire
}.

End Lemmas.

Lemma float_sum_fold (l : list float64) (x : float64) : forall l0, float_sum l0 x -> float_sum (l0 ++ l) (fold_left f64_add l x).
Proof.
  revert x. induction l as [|y l IH]; intros x l0 Hl; [by rewrite app_nil_r|]. simpl.
  change (l0 ++ y :: l) with (l0 ++ [y] ++ l). rewrite app_assoc. apply IH. by apply sum_both; [|apply sum_one].
Qed.

Lemma sample_sum_ok (tenant entity window : string) (lo hi : Z) (rows : list (WindowKey * WindowValue)) :
  float_sum (map (fun kv => wv_aggregate kv.2) (filter (fun kv => in_range tenant entity window lo hi kv.1) rows))
    (sample_sum tenant entity window lo hi rows).
Proof. apply (float_sum_fold _ f64_zero []), sum_none. Qed.

(** The sample engine keeps its promises. *)
Lemma sample_law_execute (c : connection) (s : statement) (w : sample_db) :
  allowed s (sd_saved w) ->
  let '(r, w') := duck_execute c s w in
  ((forall s', sd_fails w s' = false) -> has_value r = true /\ forall s', sd_fails w' s' = false) /\
  (forall p, match s with CopyEpoch _ path => p <> path | _ => True end -> sd_files w' !! p = sd_files w !! p) /\
  match r with
  | Ok res =>
      rows_of s (sample_visible c w) (sr_rows res) /\
      (sd_table w', sd_saved w', sr_changed res) = table_after s (sd_table w) (sd_saved w) /\
      match s with
      | CopyEpoch e path => exists l, sd_files w' !! path = Some l /\
          l ≡ₚ filter (fun kv => wk_epoch kv.1 = e) (map_to_list (sd_table w))
      | _ => True
      end
  | Unexpected _ =>
      match s with
      | Commit | Rollback => (sd_table w' = sd_table w /\ sd_saved w' = sd_saved w) \/
                  (Some (sd_table w') = sd_saved w /\ sd_saved w' = None)
      | _ => sd_table w' = sd_table w /\ sd_saved w' = sd_saved w
      end
  end.
Proof.
  intros Hall. simpl. unfold sample_execute. destruct (nested_begin s (sd_saved w)) eqn:Hn.
  { destruct s; try done. simpl in Hall, Hn. by rewrite Hall in Hn. }
  rewrite orb_false_r. destruct (sd_fails w s) eqn:Hf.
  - split; [intros Hrel; by rewrite Hrel in Hf|]. split; [done|]. destruct s; try done; by left.
  - destruct (table_after s (sd_table w) (sd_saved w)) as [[t saved] n] eqn:Ht. simpl.
    split; [done|]. split.
    { intros p Hp. destruct s; try done. by rewrite lookup_insert_ne. }
    split; [|split; [done|destruct s; try done; eexists; split; [by rewrite lookup_insert_eq|done]]].
    destruct s; simpl; try done.
    + eexists. split; [done|]. apply sample_sum_ok.
    + eexists. split; [done|]. split; [apply NoDup_remove_dups|]. intros e.
      rewrite elem_of_remove_dups, list_elem_of_filter, list_elem_of_fmap. split.
      * intros [Hlt ([k v] & -> & Hin)]. split; [done|]. exists k, v. by rewrite <- elem_of_map_to_list.
      * intros [Hlt (k & v & Hin & <-)]. split; [done|]. exists (k, v). by rewrite elem_of_map_to_list.
Qed.

#[export] Instance sample_duck_laws : DuckDbLaws sample_db.
Proof.
  refine {| db_table := sd_table; db_saved := sd_saved; db_files := sd_files;
            db_reliable := fun w => forall s, sd_fails w s = false |}.
  - by intros c w.
  - by intros d w.
  - by intros d w.
  - by intros c s w.
  - by intros w.
  - intros c w [t Ht]. simpl. unfold sample_execute. simpl. rewrite Ht, orb_true_r. by split.
  - intros c s w Hall. pose proof (sample_law_execute c s w Hall) as Hlaw.
    destruct (duck_execute c s w) as [[res|e] w']; destruct s; exact Hlaw.
Defined.

(** ** Lemmas: calls on a database that may fail *)

Section Failures.

Context {W : Type} `{DuckDbLaws W}.

Lemma prepare_same (c : connection) (s : statement) (w : W) :
  let w' := (duck_prepare c s w).2 in db_table w' = db_table w /\ db_saved w' = db_saved w.
Proof. destruct (law_prepare c s w) as [(Ht & Hs & _) _]. done. Qed.

Lemma rollback_committed {A : Type} (e : StoreError) (w : W) :
  let '(r, w') := rollback_with (A := A) e w in r = Unexpected e /\ committed w' = committed w.
Proof.
  unfold rollback_with, bindM, retM. pose proof (law_execute HotConn Rollback w I) as Hlaw.
  destruct (duck_execute HotConn Rollback w) as [[res|err] w']; split; try done; unfold committed.
  - destruct Hlaw as (_ & _ & _ & Htab & _). simpl in Htab. by injection Htab as -> -> _.
  - destruct Hlaw as (_ & _ & [[-> ->]|[Ht ->]]); [done|]. by rewrite <- Ht.
Qed.

(** Rows written before the commit. *)
Definition put_row (t : window_table) (kv : WindowKey * WindowValue) : window_table :=
  <[bound_key kv.1 := kv.2]> t.

Lemma upsert_rows_spec (entries : list (WindowKey * WindowValue)) : forall (w : W) t0,
  db_saved w = Some t0 ->
  let '(r, w') := upsert_rows entries w in
  db_saved w' = Some t0 /\
  match r with Ok _ => db_table w' = fold_left put_row entries (db_table w) | Unexpected _ => True end.
Proof.
  induction entries as [|[k v] entries IH]; intros w t0 Hs; cbn [upsert_rows]; unfold bindM, retM; [done|].
  pose proof (prepare_same HotConn (UpsertRow k v) w) as Hp.
  destruct (duck_prepare HotConn (UpsertRow k v) w) as [[] w1]; simpl in Hp; destruct Hp as [Ht1 Hs1]; simpl;
    [|by rewrite Hs1].
  pose proof (law_execute HotConn (UpsertRow k v) w1 I) as Hlaw.
  destruct (duck_execute HotConn (UpsertRow k v) w1) as [[res|err] w2].
  - destruct Hlaw as (_ & _ & _ & Htab & _). simpl in Htab. injection Htab as Ht2 Hs2 _.
    specialize (IH w2 t0 ltac:(congruence)). destruct (upsert_rows entries w2) as [r w3].
    destruct IH as [Hs3 Ht3]. split; [done|]. destruct r; [|done]. by rewrite Ht3, Ht2, Ht1.
  - destruct Hlaw as (_ & _ & Ht2 & Hs2). split; [congruence|done].
Qed.

(** The loop of the flush, on a database that does not fail. *)
Definition archived (dir : string) (e : Z) (t : window_table) (files : gmap string (list (WindowKey * WindowValue))) : Prop :=
  exists l, files !! parquet_path dir e = Some l /\ l ≡ₚ filter (fun kv => wk_epoch kv.1 = e) (map_to_list t).

Lemma parquet_path_inj (dir : string) (e e' : Z) :
  0 <= e -> 0 <= e' -> parquet_path dir e = parquet_path dir e' -> e = e'.
Proof.
  intros He He' Heq. unfold parquet_path, epoch_dir in Heq. rewrite !append_assoc in Heq.
  apply append_inj_l, append_inj_l, append_inj_r in Heq. unfold to_string_Z in Heq. apply (inj pretty) in Heq. lia.
Qed.

Lemma archived_other (dir : string) (e e' : Z) (t : window_table) files :
  e' <> e -> archived dir e' (filter (fun kv => wk_epoch kv.1 <> e) t) files -> archived dir e' t files.
Proof.
  intros Hne (l & Hl & Hperm). exists l. split; [done|]. rewrite Hperm.
  apply NoDup_Permutation; [apply NoDup_filter, NoDup_map_to_list..|].
  intros [k v]. rewrite !list_elem_of_filter, !elem_of_map_to_list, map_lookup_filter_Some. simpl. naive_solver.
Qed.

Lemma filter_epoch_lookup (e : Z) (t : window_table) (k : WindowKey) :
  filter (fun kv => wk_epoch kv.1 <> e) t !! k = if decide (wk_epoch k = e) then None else t !! k.
Proof.
  destruct (decide (wk_epoch k = e)) as [Heq|Hne].
  - apply map_lookup_filter_None_2. right. intros v _ Hk. by apply Hk.
  - destruct (t !! k) as [v|] eqn:Hv.
    + by apply map_lookup_filter_Some_2.
    + apply map_lookup_filter_None_2. by left.
Qed.

(** One epoch leaves the table for its file. *)
Lemma archive_epoch_spec (dir : string) (e : Z) (w : W) :
  db_reliable w -> db_saved w = None ->
  let w' := (archive_epoch dir e w).2 in
  db_reliable w' /\ db_saved w' = None /\ db_table w' = filter (fun kv => wk_epoch kv.1 <> e) (db_table w) /\
  archived dir e (db_table w) (db_files w') /\
  (forall p, p <> parquet_path dir e -> db_files w' !! p = db_files w !! p).
Proof.
  intros Hrel Hs. unfold archive_epoch, bindM, retM.
  destruct (law_directories (epoch_dir dir e) w) as (Ht1 & Hs1 & Hf1 & Hr1).
  destruct (create_directories _ w) as [[] w1]. simpl in *. specialize (Hr1 Hrel).
  pose proof (law_execute FlushConn (CopyEpoch e (parquet_path dir e)) w1) as Hcopy.
  specialize (Hcopy (eq_trans Hs1 Hs)).
  destruct (duck_execute FlushConn (CopyEpoch e (parquet_path dir e)) w1) as [[res2|err] w2];
    [|by destruct Hcopy as (Hr & _); destruct (Hr Hr1)].
  destruct Hcopy as (Hr2 & Hf2 & _ & Htab2 & Hfile). destruct (Hr2 Hr1) as [_ Hrel2].
  simpl in Htab2. injection Htab2 as Ht2 Hs2 _.
  pose proof (law_execute FlushConn (DeleteEpoch e) w2) as Hdel.
  specialize (Hdel (eq_trans Hs2 (eq_trans Hs1 Hs))).
  destruct (duck_execute FlushConn (DeleteEpoch e) w2) as [[res3|err] w3];
    [|by destruct Hdel as (Hr & _); destruct (Hr Hrel2)].
  destruct Hdel as (Hr3 & Hf3 & _ & Htab3 & _). destruct (Hr3 Hrel2) as [_ Hrel3].
  simpl in Htab3. injection Htab3 as Ht3 Hs3 _. simpl. split_and!.
  - done.
  - congruence.
  - by rewrite Ht3, Ht2, Ht1.
  - destruct Hfile as (l & Hl & Hperm). exists l. rewrite Hf3 by done. by rewrite <- Ht1.
  - intros p Hp. rewrite Hf3, Hf2 by done. by rewrite Hf1.
Qed.

(** Epochs archived one after another leave the table and fill their files. *)
Lemma archive_epochs_spec (dir : string) (es : list Z) : forall (w : W),
  db_reliable w -> db_saved w = None -> NoDup es -> Forall (fun e => 0 <= e) es ->
  let w' := (archive_epochs dir es w).2 in
  db_saved w' = None /\
  (forall k, db_table w' !! k = if decide (wk_epoch k ∈ es) then None else db_table w !! k) /\
  (forall e, e ∈ es -> archived dir e (db_table w) (db_files w')) /\
  (forall p, (forall e, e ∈ es -> p <> parquet_path dir e) -> db_files w' !! p = db_files w !! p).
Proof.
  induction es as [|e es IH]; intros w Hrel Hs Hnd Hpos; cbn [archive_epochs].
  - simpl. split_and!; [done|done|by intros e ?%not_elem_of_nil|done].
  - apply NoDup_cons in Hnd as [Hnotin Hnd]. apply Forall_cons in Hpos as [Hpe Hpos].
    unfold bindM. destruct (archive_epoch_spec dir e w Hrel Hs) as (Hrel1 & Hs1 & Ht1 & Ha1 & Hf1).
    destruct (archive_epoch dir e w) as [[] w1]. simpl in *.
    destruct (IH w1 Hrel1 Hs1 Hnd Hpos) as (Hs4 & Ht4 & Ha4 & Hf4).
    assert (Hother : forall e', e' ∈ es -> parquet_path dir e <> parquet_path dir e').
    { intros e' Hin Heq. apply parquet_path_inj in Heq; [by subst|done|]. rewrite Forall_forall in Hpos. by apply Hpos. }
    split_and!; [done|..].
    + intros k. rewrite Ht4, Ht1, filter_epoch_lookup.
      repeat case_decide; try done; set_solver.
    + intros e' [->|Hin]%elem_of_cons.
      * destruct Ha1 as (l & Hl & Hperm). exists l. by rewrite Hf4 by apply Hother.
      * apply (archived_other dir e); [by intros ->|]. rewrite <- Ht1. by apply Ha4.
    + intros p Hp. rewrite Hf4 by (intros e' Hin; apply Hp; by right). apply Hf1, Hp. left.
Qed.

(** A transaction of the hot path: one that fails leaves what is stored for good. *)
Lemma insert_default_view (k : WindowKey) (t t' : window_table) saved saved' n j :
  table_after (InsertDefault k) t saved = (t', saved', n) -> map_value t' j = map_value t j.
Proof.
  simpl. unfold map_value. destruct (t !! bound_key k) eqn:Hk; intros Heq; injection Heq as <- _ _; [done|].
  destruct (decide (j = bound_key k)) as [->|Hne].
  - by rewrite lookup_insert_eq, Hk.
  - by rewrite lookup_insert_ne.
Qed.

Lemma execute_in_transaction (c : connection) (s : statement) (w : W) t0 :
  db_saved w = Some t0 -> match s with InsertDefault _ | UpdateVersion _ _ _ | UpsertRow _ _ => True | _ => False end ->
  let '(r, w') := duck_execute c s w in
  db_saved w' = Some t0 /\
  match r with
  | Ok res => table_after s (db_table w) (Some t0) = (db_table w', Some t0, sr_changed res)
  | Unexpected _ => db_table w' = db_table w
  end.
Proof.
  intros Hs Hst. pose proof (law_execute c s w) as Hlaw.
  destruct s; try done; specialize (Hlaw I); destruct (duck_execute c _ w) as [[res|err] w']; rewrite Hs in Hlaw.
  all: try (by destruct Hlaw as (_ & _ & -> & ->)).
  all: destruct Hlaw as (_ & _ & _ & Htab & _); assert (Hsv : db_saved w' = Some t0);
    [simpl in Htab; repeat case_match; by injection Htab|by rewrite <- Htab, Hsv].
Qed.

Lemma commit_outcome (c : connection) (w : W) t0 :
  db_saved w = Some t0 ->
  let '(r, w') := duck_execute c Commit w in
  match r with
  | Ok _ => committed w' = db_table w /\ db_saved w' = None
  | Unexpected _ => committed w' = t0
  end.
Proof.
  intros Hs. pose proof (law_execute c Commit w (ex_intro _ t0 Hs)) as Hlaw. unfold committed.
  destruct (duck_execute c Commit w) as [[res|err] w'].
  - destruct Hlaw as (_ & _ & _ & Htab & _). simpl in Htab. by injection Htab as -> -> _.
  - destruct Hlaw as (_ & _ & [[-> ->]|[Ht ->]]); [by rewrite Hs|]. rewrite Hs in Ht. by injection Ht.
Qed.

Lemma begin_outcome (c : connection) (w : W) :
  let '(r, w') := duck_execute c Begin w in
  match r with
  | Ok _ => db_table w' = committed w /\ db_saved w' = Some (committed w)
  | Unexpected _ => db_table w' = db_table w /\ db_saved w' = db_saved w
  end.
Proof.
  unfold committed. destruct (db_saved w) as [t|] eqn:Hs.
  - destruct (law_begin_nested c w) as [Hr (Ht & Hs' & _)]; [by rewrite Hs|].
    destruct (duck_execute c Begin w) as [[res|err] w']; [done|]. by rewrite <- Hs.
  - pose proof (law_execute c Begin w Hs) as Hlaw.
    destruct (duck_execute c Begin w) as [[res|err] w'].
    + destruct Hlaw as (_ & _ & _ & Htab & _). simpl in Htab. by injection Htab as -> -> _.
    + destruct Hlaw as (_ & _ & -> & ->). done.
Qed.

Lemma rollback_of {A : Type} (e : StoreError) (w : W) t0 :
  db_saved w = Some t0 ->
  let '(r, w') := rollback_with (A := A) e w in r = Unexpected e /\ committed w' = t0.
Proof.
  intros Hs. pose proof (rollback_committed (A := A) e w) as Hr. destruct (rollback_with e w) as [r w'].
  destruct Hr as [-> ->]. unfold committed. by rewrite Hs.
Qed.

End Failures.

(** Rows put one after another, one per key. *)
Lemma put_rows_lookup (f : WindowKey -> WindowValue) (keys : list WindowKey) : forall (t : window_table) j,
  Forall sql_key keys ->
  fold_left put_row (map (fun k => (k, f k)) keys) t !! j = if decide (j ∈ keys) then Some (f j) else t !! j.
Proof.
  induction keys as [|k keys IH]; intros t j Hks; [done|].
  apply Forall_cons in Hks as [Hk Hks]. simpl. rewrite IH by done. unfold put_row at 1. simpl. rewrite Hk.
  destruct (decide (j ∈ keys)) as [Hin|Hni].
  - by rewrite decide_True by (by right).
  - destruct (decide (j = k)) as [->|Hne].
    + rewrite lookup_insert_eq, decide_True; [done|left].
    + rewrite lookup_insert_ne, decide_False by set_solver. done.
Qed.

Section Durable.

Context {W : Type} `{DuckDbLaws W}.

(** Deleting a key touches no other key. *)
Lemma duck_expire_committed (x : DuckDbWindowStore) (k j : WindowKey) (w : W) :
  let w' := (duck_expire x k w).2 in
  committed w' !! j = committed w !! j \/ (j = bound_key k /\ committed w' !! j = None).
Proof.
  unfold duck_expire. destruct (dd_available x); simpl; [|by left]. unfold bindM, retM.
  destruct (prepare_same HotConn (DeleteRow k) w) as [Ht1 Hs1].
  destruct (duck_prepare HotConn (DeleteRow k) w) as [[] w1]; simpl in *;
    [|left; unfold committed; by rewrite Ht1, Hs1].
  pose proof (law_execute HotConn (DeleteRow k) w1 I) as Hlaw. unfold committed. rewrite <- Ht1, <- Hs1.
  destruct (duck_execute HotConn (DeleteRow k) w1) as [[res|err] w2]; simpl.
  - destruct Hlaw as (_ & _ & _ & Htab & _). simpl in Htab. injection Htab as -> -> _.
    destruct (db_saved w1); simpl; [by left|].
    destruct (decide (j = bound_key k)) as [->|Hne]; [right; by rewrite lookup_delete_eq|left; by rewrite lookup_delete_ne].
  - destruct Hlaw as (_ & _ & -> & ->). by left.
Qed.

Lemma duck_expire_reliable (x : DuckDbWindowStore) (k : WindowKey) (w : W) :
  dd_available x = true -> db_reliable w -> db_saved w = None -> sql_key k ->
  let w' := (duck_expire x k w).2 in
  db_reliable w' /\ db_saved w' = None /\ db_table w' = delete k (db_table w).
Proof.
  intros Hav Hrel Hsv Hk. unfold duck_expire, bindM, retM. rewrite Hav. simpl.
  destruct (prepare_reliable HotConn (DeleteRow k) w Hrel) as (w1 & -> & Hrel1 & Ht1 & Hs1). simpl.
  destruct (execute_reliable HotConn (DeleteRow k) w1 Hrel1 I) as (res & w2 & -> & Hrel2 & _ & Htab).
  simpl in Htab. injection Htab as Ht2 Hs2 _. simpl. by rewrite Ht2, Hs2, Hs1, Ht1, Hk.
Qed.

Lemma execute_query_same (s : statement) (w : W) :
  match s with SelectAll | SumWarm _ _ _ _ _ | SumCold _ _ _ _ _ _ => True | _ => False end ->
  let w' := (duck_execute QueryConn s w).2 in db_table w' = db_table w /\ db_saved w' = db_saved w.
Proof.
  intros Hst. pose proof (law_execute QueryConn s w) as Hlaw.
  destruct s; try done; specialize (Hlaw I); destruct (duck_execute QueryConn _ w) as [[res|err] w']; simpl.
  all: first [by destruct Hlaw as (_ & _ & -> & ->)
             |destruct Hlaw as (_ & _ & _ & Htab & _); simpl in Htab; by injection Htab].
Qed.

(** A range query stores nothing. *)
Lemma duck_query_range_committed (x : DuckDbWindowStore) (tenant entity window : string) (lo hi : Z) (w : W) :
  let w' := (duck_query_range x tenant entity window lo hi w).2 in
  db_table w' = db_table w /\ db_saved w' = db_saved w.
Proof.
  unfold duck_query_range. destruct (dd_available x); simpl; [|done]. unfold bindM, retM.
  destruct (prepare_same QueryConn (SumWarm tenant entity window lo hi) w) as [Ht1 Hs1].
  destruct (duck_prepare QueryConn _ w) as [[] w1]; simpl in *; [|done].
  destruct (execute_query_same (SumWarm tenant entity window lo hi) w1 I) as [Ht2 Hs2].
  destruct (duck_execute QueryConn _ w1) as [[res|err] w2]; simpl in *; [|split; congruence].
  unfold cold_sum. destruct (str_empty _); simpl; [split; congruence|]. unfold bindM, retM.
  destruct (law_has_parquet (parquet_archive_dir (dd_config x)) w2) as (Ht3 & Hs3 & _).
  destruct (has_parquet _ w2) as [[] w3]; simpl in *; [|split; congruence].
  destruct (execute_query_same (SumCold (parquet_archive_dir (dd_config x)) tenant entity window lo hi) w3 I) as [Ht4 Hs4].
  destruct (duck_execute QueryConn _ w3) as [[res4|err4] w4]; simpl in *; split; congruence.
Qed.

(** The rows of the table, in some order. *)
Lemma scan_warm_tier_reliable (x : DuckDbWindowStore) (w : W) :
  dd_available x = true -> db_reliable w -> db_saved w = None ->
  exists rows w', scan_warm_tier x w = (Ok rows, w') /\ rows ≡ₚ map_to_list (db_table w) /\
    db_table w' = db_table w /\ db_saved w' = None /\ db_reliable w'.
Proof.
  intros Hav Hrel Hs. unfold scan_warm_tier, bindM, retM. rewrite Hav. simpl.
  destruct (execute_reliable QueryConn SelectAll w Hrel I) as (res & w1 & -> & Hrel1 & Hrows & Htab).
  simpl in Hrows, Htab. injection Htab as Ht1 Hs1 _. rewrite Hs in Hrows, Hs1. simpl in Hrows.
  exists (map read_row (sr_rows res)), w1. split_and!; try done.
  rewrite Hrows, map_map, (map_ext _ id), map_id; [done|]. by intros [[] []].
Qed.

Lemma upsert_rows_reliable (entries : list (WindowKey * WindowValue)) : forall (w : W),
  db_reliable w -> exists w',
    upsert_rows entries w = (Ok tt, w') /\ db_reliable w' /\ db_saved w' = db_saved w /\
    db_table w' = fold_left put_row entries (db_table w).
Proof.
  induction entries as [|[k v] entries IH]; intros w Hrel; cbn [upsert_rows]; [by exists w|]. unfold bindM, retM.
  destruct (prepare_reliable HotConn (UpsertRow k v) w Hrel) as (w1 & -> & Hrel1 & Ht1 & Hs1). cbn [negb].
  destruct (execute_reliable HotConn (UpsertRow k v) w1 Hrel1 I) as (res & w2 & -> & Hrel2 & _ & Htab).
  simpl in Htab. injection Htab as Ht2 Hs2 _. destruct (IH w2 Hrel2) as (w3 & -> & Hrel3 & Hs3 & Ht3).
  exists w3. split_and!; [done|done|congruence|]. by rewrite Ht3, Ht2, Ht1.
Qed.

Lemma upsert_batch_reliable (x : DuckDbWindowStore) (entries : list (WindowKey * WindowValue)) (w : W) :
  dd_available x = true -> db_reliable w -> db_saved w = None -> exists w',
    upsert_batch x entries w = (Ok tt, w') /\ db_reliable w' /\ db_saved w' = None /\
    db_table w' = fold_left put_row entries (db_table w).
Proof.
  intros Hav Hrel Hs. unfold upsert_batch. rewrite Hav. destruct entries as [|kv entries]; [by exists w|].
  cbn [negb length Nat.eqb]. generalize (kv :: entries). intros rows. unfold bindM, retM.
  destruct (execute_reliable HotConn Begin w Hrel Hs) as (res & w1 & -> & Hrel1 & _ & Htab). cbn [negb has_value].
  simpl in Htab. injection Htab as Ht1 Hs1 _.
  destruct (upsert_rows_reliable rows w1 Hrel1) as (w2 & -> & Hrel2 & Hs2 & Ht2).
  destruct (execute_reliable HotConn Commit w2 Hrel2) as (res3 & w3 & -> & Hrel3 & _ & Htab3);
    [simpl; rewrite Hs2, Hs1; by eexists|].
  simpl in Htab3. injection Htab3 as Ht3 Hs3 _. exists w3. split_and!; [done..|]. by rewrite Ht3, Ht2, Ht1.
Qed.

End Durable.

(** An [ExternalWindowStore] over this backend does what the backend does. *)
Lemma external_over_duckdb {W : Type} `{DuckDbLaws W} `{StdHash} (d : DuckDbWindowStore) (o : store_op)
    (w : W) (x : ExternalWindowStore W) :
  dd_available d = true -> ext_backend x = as_backend d ->
  external_op o (w, x) =
    (reply_of (run_op o (w, d)).1, ((run_op o (w, d)).2.1, set_using_fallback x false)) /\
  (run_op o (w, d)).2.2 = d.
Proof.
  intros Hav Hx. destruct o as [k|k e n|k]; simpl;
    unfold external_get, external_cas, external_expire, external_is_available, bindM, retM, mark_using_fallback;
    rewrite Hx; simpl; rewrite Hav; simpl; rewrite Hx; simpl.
  - destruct (duck_get d k w) as [r w']. done.
  - destruct (duck_compare_and_swap d k e n w) as [r w']. done.
  - destruct (duck_expire d k w) as [r w']. done.
Qed.

Lemma external_ops_over_duckdb {W : Type} `{DuckDbLaws W} `{StdHash} (d : DuckDbWindowStore) (os : list store_op) :
  dd_available d = true ->
  forall (w : W) (x : ExternalWindowStore W), ext_backend x = as_backend d ->
  let '(rs, (w', x')) := external_ops os (w, x) in
  rs = map reply_of (run_ops os (w, d)).1 /\ w' = (run_ops os (w, d)).2.1 /\
  ext_fallback x' = ext_fallback x /\ (run_ops os (w, d)).2.2 = d.
Proof.
  intros Hav. induction os as [|o os IH]; intros w x Hx; [done|]. simpl. unfold bindM, retM.
  destruct (external_over_duckdb d o w x Hav Hx) as [-> Hd]. destruct (run_op o (w, d)) as [r [w1 d1]].
  simpl in *. subst d1. specialize (IH w1 (set_using_fallback x false) Hx).
  destruct (external_ops os _) as [rs [w2 x2]], (run_ops os (w1, d)) as [rs' [w2' d2]]. simpl in *. naive_solver.
Qed.

(** ** Properties *)

(** C22: over a database that does not fail from now on, and for keys whose
    identifiers hold no NUL, an [ExternalWindowStore] on the backend of a
    [DuckDbWindowStore] answers every sequence of operations like one map that
    starts as the table; the table that is then stored for good is the map at its
    end, so a restarted process goes on from it; and the in-memory fallback is
    never used.  (When a commit fails: [cas_answers_true_uncommitted].) *)
Theorem duckdb_refines_map {W : Type} `{DuckDbLaws W} `{StdHash} (d : DuckDbWindowStore) (os : list store_op)
    (fallback : InProcessWindowStore) (w : W)
    (Hav : dd_available d = true) (Hrel : db_reliable w) (Hsv : db_saved w = None)
    (Hks : Forall (fun o => sql_key (op_key o)) os) :
  let '(rs, (w', x')) := external_ops os (w, external_new (as_backend d) fallback) in
  rs = map reply_of (spec_ops os (db_table w)).1 /\
  (forall k, sql_key k -> map_value (committed w') k = map_value (spec_ops os (db_table w)).2 k) /\
  ext_fallback x' = fallback.
Proof.
  pose proof (external_ops_over_duckdb d os Hav w (external_new (as_backend d) fallback) eq_refl) as Hext.
  destruct (external_ops os _) as [rs [w' x']]. destruct Hext as (-> & -> & -> & _).
  pose proof (run_ops_refines (S := W * DuckDbWindowStore) os (w, d) (db_table w)) as (Hr & Hok & Hv); [done..|].
  rewrite Hr. split_and!; [done| |done]. intros k Hk. destruct Hok as (_ & _ & Hs). unfold committed. rewrite Hs.
  by apply (Hv k).
Qed.

Lemma duckdb_refines_map_witness :
  (external_ops [OpCas old_key (mkWindowValue f64_zero 4) (mkWindowValue f64_one 5); OpGet old_key]
    (sample_world never, external_new (as_backend sample_duck) (inprocess_new 4))).1
  = [XCas (Returned (Ok true)); XGet (Returned (Ok (mkWindowValue f64_one 5)))].
Proof.
  pose proof (duckdb_refines_map sample_duck
    [OpCas old_key (mkWindowValue f64_zero 4) (mkWindowValue f64_one 5); OpGet old_key] (inprocess_new 4)
    (sample_world never) eq_refl (fun _ => eq_refl) eq_refl) as Hspec.
  destruct (external_ops _ _) as [rs [w' x']]. destruct Hspec as [-> _].
  - repeat constructor.
  - vm_compute. reflexivity.
Defined.

(** C24: [upsert_batch] is all or nothing, whatever the database does: when it
    reports success exactly the rows of the batch are stored for good, later
    ones over earlier ones; when it reports an error nothing is. *)
Theorem upsert_batch_atomic {W : Type} `{DuckDbLaws W} (x : DuckDbWindowStore)
    (entries : list (WindowKey * WindowValue)) (w : W) :
  let '(r, w') := upsert_batch x entries w in
  committed w' = if has_value r then fold_left put_row entries (committed w) else committed w.
Proof.
  unfold upsert_batch. destruct (dd_available x); simpl; [|done].
  destruct entries as [|kv entries]; [done|].
  cbn [length Nat.eqb]. generalize (kv :: entries). intros rows. unfold bindM, retM.
  pose proof (begin_outcome HotConn w) as Hb.
  destruct (duck_execute HotConn Begin w) as [[res|err] w1]; destruct Hb as [Ht1 Hs1]; simpl;
    [|unfold committed; by rewrite Hs1, Ht1].
  pose proof (upsert_rows_spec rows w1 _ Hs1) as Hrows. destruct (upsert_rows rows w1) as [[[]|e] w2].
  - destruct Hrows as [Hs2 Ht2]. pose proof (commit_outcome HotConn w2 _ Hs2) as Hc.
    destruct (duck_execute HotConn Commit w2) as [[res2|err] w3]; simpl.
    + destruct Hc as [-> _]. by rewrite Ht2, Ht1.
    + pose proof (rollback_committed (A := unit) (mkStoreError StoreUnavailable "upsert_batch COMMIT failed") w3) as Hr.
      destruct (rollback_with _ w3) as [r w4]. destruct Hr as [-> Hw]. simpl. congruence.
  - destruct Hrows as [Hs2 _]. pose proof (rollback_of (A := unit) e w2 _ Hs2) as Hr.
    destruct (rollback_with e w2) as [r w3]. by destruct Hr as [-> ->].
Qed.

Lemma upsert_batch_atomic_witness :
  let '(r, w') := upsert_batch sample_duck [(old_key, WindowValue_zero)] (sample_world fails_commit) in
  has_value r = false /\ committed w' = sd_table (sample_world fails_commit).
Proof.
  pose proof (upsert_batch_atomic sample_duck [(old_key, WindowValue_zero)] (sample_world fails_commit)) as Hc.
  assert (Hr : has_value (upsert_batch sample_duck [(old_key, WindowValue_zero)] (sample_world fails_commit)).1 = false)
    by (vm_compute; reflexivity).
  destruct (upsert_batch _ _ _) as [r w']. simpl in Hr. rewrite Hr in Hc. split; [exact Hr|exact Hc].
Defined.

(** The conditional update of [compare_and_swap] and its COMMIT. *)
Lemma update_and_commit {W : Type} `{DuckDbLaws W} (key : WindowKey) (n : WindowValue) (version : Z) (w : W)
    (t0 : window_table) :
  db_saved w = Some t0 -> (forall j, map_value (db_table w) j = map_value t0 j) ->
  let '(upd, w1) := duck_execute HotConn (UpdateVersion key n version) w in
  match upd with
  | Unexpected _ => db_saved w1 = Some t0
  | Ok res =>
      let '(_, w2) := duck_execute HotConn Commit w1 in
      if Z.ltb 0 (sr_changed res)
      then wv_version (map_value t0 (bound_key key)) = version /\
        ((forall j, map_value (committed w2) j = if decide (j = bound_key key) then n else map_value t0 j) \/
         committed w2 = t0)
      else forall j, map_value (committed w2) j = map_value t0 j
  end.
Proof.
  intros Hs Hmap. pose proof (execute_in_transaction HotConn (UpdateVersion key n version) w t0 Hs I) as Hu.
  destruct (duck_execute HotConn _ w) as [[res|err] w1]; [|apply Hu]. destruct Hu as [Hs1 Htab].
  pose proof (commit_outcome HotConn w1 t0 Hs1) as Hc. destruct (duck_execute HotConn Commit w1) as [c w2].
  assert (Hcases : committed w2 = db_table w1 \/ committed w2 = t0) by (destruct c; [left; apply Hc|by right]).
  assert (Hupd : (db_table w1 = <[bound_key key := n]> (db_table w) /\ sr_changed res = 1 /\
      wv_version (map_value (db_table w) (bound_key key)) = version) \/ (db_table w1 = db_table w /\ sr_changed res = 0)).
  { simpl in Htab. unfold map_value. destruct (db_table w !! bound_key key) as [cur|]; [|right; by injection Htab].
    destruct (Z.eqb_spec (wv_version cur) version); [left|right]; by injection Htab. }
  destruct Hupd as [(Ht & -> & Hv)|[Ht ->]]; simpl.
  - split; [by rewrite <- Hmap|]. destruct Hcases as [-> | ->]; [left|by right]. intros j. rewrite Ht.
    case_decide as Hj; [subst; unfold map_value; by rewrite lookup_insert_eq|].
    rewrite <- Hmap. unfold map_value. by rewrite lookup_insert_ne.
  - intros j. destruct Hcases as [-> | ->]; [by rewrite Ht|done].
Qed.

(** What [rollback_with] leaves of a failed transaction. *)
Lemma cas_rolled_back {W : Type} `{DuckDbLaws W} (err : StoreError) (w : W) (t0 : window_table) :
  db_saved w = Some t0 ->
  let '(r, w') := rollback_with (A := bool) err w in
  (exists e, r = Unexpected e) /\ forall j, map_value (committed w') j = map_value t0 j.
Proof.
  intros Hs. pose proof (rollback_of (A := bool) err w _ Hs) as Hr.
  destruct (rollback_with err w) as [r w']. destruct Hr as [-> ->]. split; [by eexists|done].
Qed.

Ltac rolled_back w :=
  match goal with
  | |- context [rollback_with ?err w] =>
      pose proof (cas_rolled_back err w _ ltac:(eassumption)) as Hr;
      destruct (rollback_with err w) as [? ?]; destruct Hr as [[? ->] Hafter]
  end.

(** A [compare_and_swap] that reports an error, or that the version did not
    match, leaves every stored value as it was, whatever the database does; one
    that reports success stores the new value under that key alone, or nothing
    when the COMMIT failed, whose answer the code drops. *)
Theorem duck_cas_atomic {W : Type} `{DuckDbLaws W} (x : DuckDbWindowStore) (key : WindowKey) (e n : WindowValue)
    (w : W) :
  let '(r, w') := duck_compare_and_swap x key e n w in
  match r with
  | Ok true => wv_version (map_value (committed w) (bound_key key)) = wv_version e /\
      ((forall j, map_value (committed w') j = if decide (j = bound_key key) then n else map_value (committed w) j) \/
       committed w' = committed w)
  | _ => forall j, map_value (committed w') j = map_value (committed w) j
  end.
Proof.
  unfold duck_compare_and_swap. destruct (dd_available x); simpl; [|done].
  unfold bindM, retM. pose proof (begin_outcome HotConn w) as Hb.
  destruct (duck_execute HotConn Begin w) as [[res|err] w1]; destruct Hb as [Ht1 Hs1]; simpl;
    [|unfold committed; by rewrite Hs1, Ht1].
  destruct (prepare_same HotConn (InsertDefault key) w1) as [Ht2 Hs2]. rewrite Hs1 in Hs2.
  destruct (duck_prepare HotConn (InsertDefault key) w1) as [[] w2]; simpl in *; [|by rolled_back w2].
  pose proof (execute_in_transaction HotConn (InsertDefault key) w2 _ Hs2 I) as Hins.
  destruct (duck_execute HotConn (InsertDefault key) w2) as [[res2|err2] w3]; destruct Hins as [Hs3 Htab];
    [|by rolled_back w3].
  assert (Hmap : forall j, map_value (db_table w3) j = map_value (committed w) j).
  { intros j. rewrite (insert_default_view _ _ _ _ _ _ j Htab). congruence. }
  destruct (prepare_same HotConn (UpdateVersion key n (wv_version e)) w3) as [Ht4 Hs4]. rewrite Hs3 in Hs4.
  destruct (duck_prepare HotConn (UpdateVersion _ _ _) w3) as [[] w4]; simpl in *; [|by rolled_back w4].
  rewrite <- Ht4 in Hmap. pose proof (update_and_commit key n (wv_version e) w4 _ Hs4 Hmap) as Hu.
  destruct (duck_execute HotConn (UpdateVersion _ _ _) w4) as [[res5|err5] w5]; [|by rolled_back w5].
  destruct (duck_execute HotConn Commit w5) as [c w6]. destruct (Z.ltb 0 (sr_changed res5)); exact Hu.
Qed.

Lemma duck_cas_atomic_witness :
  let '(r, w') := duck_compare_and_swap sample_duck old_key (mkWindowValue f64_zero 4) (mkWindowValue f64_one 5)
    (sample_world never) in
  r = Ok true /\ wv_version (map_value (sd_table (sample_world never)) old_key) = 4.
Proof.
  pose proof (duck_cas_atomic sample_duck old_key (mkWindowValue f64_zero 4) (mkWindowValue f64_one 5)
    (sample_world never)) as Hc.
  assert (Hr : (duck_compare_and_swap sample_duck old_key (mkWindowValue f64_zero 4) (mkWindowValue f64_one 5)
    (sample_world never)).1 = Ok true) by (vm_compute; reflexivity).
  destruct (duck_compare_and_swap _ _ _ _ _) as [r w']. simpl in Hr. subst r. split; [reflexivity|apply Hc].
Defined.

(** The answer is [true] although nothing was stored. *)
Lemma cas_answers_true_uncommitted :
  let '(r, w') := duck_compare_and_swap sample_duck live_key (mkWindowValue f64_one 1) (mkWindowValue f64_zero 2)
    (sample_world fails_commit) in
  r = Ok true /\ committed w' !! live_key = Some (mkWindowValue f64_one 1).
Proof. vm_compute. split; reflexivity. Qed.

(** The epochs a flush finds. *)
Lemma old_epochs_found {W : Type} `{DuckDbLaws W} (cutoff : Z) (w : W) :
  db_reliable w -> db_saved w = None ->
  exists es res w',
    duck_execute FlushConn (OldEpochs cutoff) w = (Ok res, w') /\
    map (fun row => value_uint64 (value_at row 0)) (sr_rows res) = es /\ NoDup es /\
    (forall e, e ∈ es <-> e < cutoff /\ exists k v, db_table w !! k = Some v /\ wk_epoch k = e) /\
    db_reliable w' /\ db_saved w' = None /\ db_table w' = db_table w /\
    (forall p, db_files w' !! p = db_files w !! p).
Proof.
  intros Hrel Hs. pose proof (law_execute FlushConn (OldEpochs cutoff) w Hs) as Hlaw.
  destruct (duck_execute FlushConn (OldEpochs cutoff) w) as [[res|err] w'];
    [|by destruct Hlaw as (Hr & _); destruct (Hr Hrel)].
  destruct Hlaw as (Hr & Hf & (es & Hes & Hnd & Hin) & Htab & _). destruct (Hr Hrel) as [_ Hrel'].
  unfold db_visible in Hin. rewrite Hs in Hin. simpl in Hin.
  simpl in Htab. injection Htab as Ht Hs' _. exists es, res, w'. rewrite Hes, map_map. simpl.
  split_and!; [done|apply map_id|done|done|done|congruence|done|]. intros p. by apply Hf.
Qed.

(** On a database that does not fail, a flush moves every row older than
    the retention to the file of its epoch and leaves the other rows, and the
    files of other epochs, alone; before the retention has passed it does nothing. *)
Theorem flush_old_epochs_archives {W : Type} `{DuckDbLaws W} (x : DuckDbWindowStore) (w : W)
    (Hav : dd_available x = true) (Hrel : db_reliable w) (Hsv : db_saved w = None)
    (Hpos : forall k v, db_table w !! k = Some v -> 0 <= wk_epoch k) :
  let dir := parquet_archive_dir (dd_config x) in
  let w' := (flush_old_epochs x w).2 in
  match flush_cutoff (dd_config x) (system_now w).1 with
  | None => db_table w' = db_table w /\ db_files w' = db_files w
  | Some cutoff =>
      (forall k, db_table w' !! k = if decide (wk_epoch k < cutoff) then None else db_table w !! k) /\
      (forall k v, db_table w !! k = Some v -> wk_epoch k < cutoff ->
        archived dir (wk_epoch k) (db_table w) (db_files w')) /\
      (forall p, (forall e, 0 <= e < cutoff -> p <> parquet_path dir e) -> db_files w' !! p = db_files w !! p)
  end.
Proof.
  unfold flush_old_epochs, bindM, retM. rewrite Hav. cbn [negb].
  destruct (law_system_now w) as (Ht1 & Hs1 & Hf1 & Hr1). destruct (system_now w) as [now w1]. simpl in *.
  destruct (flush_cutoff (dd_config x) now) as [cutoff|]; [|done].
  destruct (law_connect FlushConn w1) as [(Ht2 & Hs2 & Hf2 & Hr2) Hc].
  rewrite (surjective_pairing (duck_connect FlushConn w1)), (Hc (Hr1 Hrel)). cbn [negb].
  destruct (duck_connect FlushConn w1) as [ok w2]. simpl in *.
  destruct (old_epochs_found cutoff w2 (Hr2 (Hr1 Hrel)) (eq_trans Hs2 (eq_trans Hs1 Hsv)))
    as (es & res & w3 & -> & -> & Hnd & Hin & Hrel3 & Hs3 & Ht3 & Hf3).
  rewrite Ht2, Ht1 in Hin, Ht3. rewrite Hf2, Hf1 in Hf3.
  assert (Hes : Forall (fun e => 0 <= e) es).
  { apply Forall_forall. intros e He. apply Hin in He as [_ (k & v & Hk & <-)]. by apply (Hpos k v). }
  destruct (archive_epochs_spec (parquet_archive_dir (dd_config x)) es w3 Hrel3 Hs3 Hnd Hes) as (_ & Ht4 & Ha4 & Hf4).
  split_and!.
  - intros k. rewrite Ht4, Ht3. destruct (decide (wk_epoch k ∈ es)) as [Hi|Hi], (decide (wk_epoch k < cutoff)) as [Hlt|Hlt];
      try done; rewrite Hin in Hi.
    + by destruct Hi.
    + destruct (db_table w !! k) as [v|] eqn:Hk; [|done]. destruct Hi. eauto.
  - intros k v Hk Hlt. rewrite <- Ht3. apply Ha4, Hin. eauto.
  - intros p Hp. rewrite <- Hf3. apply Hf4. intros e He. apply Hp. rewrite Forall_forall in Hes.
    split; [by apply Hes|]. by apply Hin in He as [? _].
Qed.

Lemma flush_old_epochs_archives_witness :
  let w' := (flush_old_epochs sample_duck (sample_world never)).2 in
  sd_table w' !! old_key = None /\ sd_table w' !! live_key = Some (mkWindowValue f64_one 1).
Proof.
  pose proof (flush_old_epochs_archives sample_duck (sample_world never) eq_refl (fun _ => eq_refl) eq_refl) as Hf.
  destruct Hf as (Ht & _).
  - intros k v Hk. simpl in Hk. apply lookup_insert_Some in Hk as [[<- _]|[_ Hk]]; [done|].
    apply lookup_singleton_Some in Hk as [<- _]. done.
  - split; [refine (eq_trans (Ht old_key) _)|refine (eq_trans (Ht live_key) _)]; vm_compute; reflexivity.
Defined.

(** The cold part of a range query changes nothing. *)
Lemma cold_sum_reads {W : Type} `{DuckDbLaws W} (dir tenant entity window : string) (lo hi : Z) (w : W) :
  db_reliable w -> db_saved w = None ->
  let '(cold, w') := cold_sum dir tenant entity window lo hi w in
  (dir = "" -> cold = f64_zero) /\ db_table w' = db_table w /\ db_saved w' = None /\ db_reliable w'.
Proof.
  intros Hrel Hs. unfold cold_sum. destruct dir as [|c dir]; simpl; [done|]. unfold bindM, retM.
  destruct (law_has_parquet (String c dir) w) as (Ht1 & Hs1 & _ & Hr1).
  destruct (has_parquet (String c dir) w) as [[] w1]; simpl in *; [|split_and!; auto; congruence].
  rewrite Hs in Hs1.
  destruct (execute_reliable QueryConn (SumCold (String c dir) tenant entity window lo hi) w1 (Hr1 Hrel) I)
    as (res & w2 & -> & Hr2 & _ & Htab).
  simpl in Htab. injection Htab as Ht2 Hs2 _. split_and!; [done|congruence..|done].
Qed.

(** A range query on a database that does not fail answers the sum, in some
    order, of the aggregates of the stored rows of that tenant, entity and window
    whose epoch lies in the closed range, plus the sum over the archive, which is
    zero when no archive is configured; it changes no row. *)
Theorem duck_query_range_sums {W : Type} `{DuckDbLaws W} (x : DuckDbWindowStore) (tenant entity window : string)
    (lo hi : Z) (w : W) (Hav : dd_available x = true) (Hrel : db_reliable w) (Hsv : db_saved w = None) :
  let '(r, w') := duck_query_range x tenant entity window lo hi w in
  db_table w' = db_table w /\
  exists warm cold, r = Ok (f64_add warm cold) /\
    float_sum (map (fun kv => wv_aggregate kv.2)
      (filter (fun kv => in_range (c_str tenant) (c_str entity) (c_str window) lo hi kv.1) (map_to_list (db_table w)))) warm /\
    (parquet_archive_dir (dd_config x) = "" -> cold = f64_zero).
Proof.
  unfold duck_query_range, bindM, retM. rewrite Hav. cbn [negb].
  set (stmt := SumWarm tenant entity window lo hi).
  destruct (prepare_reliable QueryConn stmt w Hrel) as (w1 & -> & Hrel1 & Ht1 & Hs1). cbn [negb]. rewrite Hsv in Hs1.
  destruct (execute_reliable QueryConn stmt w1 Hrel1 I) as (res & w2 & -> & Hrel2 & (warm & Hrows & Hsum) & Htab).
  unfold db_visible in Hsum. rewrite Hs1, Ht1 in Hsum. simpl in Hsum, Htab. injection Htab as Ht2 Hs2 _. rewrite Hs1 in Hs2.
  pose proof (cold_sum_reads (parquet_archive_dir (dd_config x)) tenant entity window lo hi w2 Hrel2 Hs2) as Hcold.
  destruct (cold_sum _ _ _ _ _ _ w2) as [cold w3]. destruct Hcold as (Hz & Ht3 & _).
  split; [congruence|]. exists warm, cold. unfold first_double. rewrite Hrows. by simpl.
Qed.

(** Windows 0 to 8, without an archive. *)
Definition sample_duck_plain : DuckDbWindowStore :=
  mkDuckDbStore (mkDuckDbConfig "state.duckdb" "" 0 60000 3) true false.

Lemma duck_query_range_sums_witness :
  (duck_query_range sample_duck_plain "acme" "bob" "w" 0 8 (sample_world never)).1 = Ok f64_one.
Proof.
  pose proof (duck_query_range_sums sample_duck_plain "acme" "bob" "w" 0 8 (sample_world never) eq_refl
    (fun _ => eq_refl) eq_refl) as Hq.
  assert (Hr : (duck_query_range sample_duck_plain "acme" "bob" "w" 0 8 (sample_world never)).1 = Ok f64_one)
    by (vm_compute; reflexivity).
  destruct (duck_query_range _ _ _ _ _ _ _) as [r w']. destruct Hq as [_ (warm & cold & -> & _)]. exact Hr.
Defined.

(** A failed COPY does not keep the rows: the DELETE follows all the same. *)
Lemma failed_copy_loses_rows :
  let w' := (flush_old_epochs sample_duck (sample_world fails_copy)).2 in
  sd_table w' !! old_key = None /\ sd_files w' = ∅.
Proof. vm_compute. split; reflexivity. Qed.

(** A row that arrives for an archived epoch replaces the file of that epoch at
    the next flush: the rows archived before are gone. *)
Definition late_key : WindowKey := mkWindowKey "acme" "eve" "w" 2.

Lemma archive_overwrites :
  let w1 := (flush_old_epochs sample_duck (sample_world never)).2 in
  let w2 := (upsert_batch sample_duck [(late_key, mkWindowValue f64_one 1)] w1).2 in
  let w3 := (flush_old_epochs sample_duck w2).2 in
  option_map (map fst) (sd_files w1 !! parquet_path "/a" 2) = Some [old_key] /\
  option_map (map fst) (sd_files w3 !! parquet_path "/a" 2) = Some [late_key] /\
  sd_table w3 !! old_key = None.
Proof. vm_compute. split_and!; reflexivity. Qed.
