(* ===== verification/Archive.v ===== *)
(** * The archive of a DuckDB store

    What range queries and flushes of src/state/duckdb_window_store.cpp make of
    the parquet files together: moving old epochs to the archive changes no sum.
    [ArchiveLaws] adds to the laws of the engine what reading the archive's glob
    gives. *)

From S2P Require Import Prelude Ieee CoreTypes Errors StateStore ExternalStore DuckDb DuckDbStore.
From Stdlib Require Import Ascii.

Open Scope list_scope.
Open Scope Z_scope.

Definition lacks (bad s : string) : bool :=
  forallb (fun c => negb (existsb (Ascii.eqb c) (String.list_ascii_of_string bad))) (String.list_ascii_of_string s).

(** Texts that mean themselves within a quoted SQL text, directories that also
    mean themselves within a glob. *)
Definition sql_plain (s : string) : Prop := lacks (String Ascii.zero "'") s = true.
Definition plain_dir (s : string) : Prop := lacks (String Ascii.zero "'*?[{\") s = true.

Class ArchiveLaws (W : Type) `{DuckDbLaws W} : Type := {
  (** the files of [dir/epoch=*/part-*.parquet] *)
  archive_glob : string -> string -> bool;
  law_glob : forall dir e, plain_dir dir -> 0 <= e -> archive_glob dir (parquet_path dir e) = true;
  law_parquet_found : forall dir p l w, plain_dir dir -> db_files w !! p = Some l -> archive_glob dir p = true ->
    (has_parquet dir w).1 = true;
  law_sum_cold : forall c dir tenant entity window lo hi w,
    plain_dir dir -> Forall sql_plain [tenant; entity; window] ->
    match (duck_execute c (SumCold dir tenant entity window lo hi) w).1 with
    | Ok res => exists x, sr_rows res = [[VDouble x]] /\
        float_sum (map (fun kv => wv_aggregate kv.2)
          (filter (fun kv => in_range tenant entity window lo hi kv.1) (files_rows (archive_glob dir) (db_files w)))) x
    | Unexpected _ => True
    end
}.

(** All rows: the table and the archive. *)
Definition all_rows {W : Type} `{ArchiveLaws W} (dir : string) (w : W) : list (WindowKey * WindowValue) :=
  map_to_list (db_table w) ++ files_rows (archive_glob dir) (db_files w).

(** ** Lemmas *)

Lemma c_str_plain (s : string) : sql_plain s -> c_str s = s.
Proof.
  unfold sql_plain, lacks. induction s as [|c s IH]; [done|]. simpl. intros [Hc Hs]%andb_true_iff.
  destruct (Ascii.eqb c Ascii.zero); [done|]. by rewrite IH.
Qed.

Lemma files_rows_insert (glob : string -> bool) files (p : string) (l : list (WindowKey * WindowValue)) :
  files !! p = None -> glob p = true -> files_rows glob (<[p := l]> files) ≡ₚ l ++ files_rows glob files.
Proof.
  intros Hp Hg. unfold files_rows. rewrite map_to_list_insert by done. by rewrite filter_cons_True.
Qed.

Lemma files_rows_none (glob : string -> bool) (files : gmap string (list (WindowKey * WindowValue))) :
  (forall p l, files !! p = Some l -> glob p = false) -> files_rows glob files = [].
Proof.
  intros Hno. unfold files_rows. rewrite filter_none; [done|]. intros [p l] Hin Hg. simpl in Hg.
  apply elem_of_map_to_list in Hin. apply Hno in Hin. by rewrite Hin in Hg.
Qed.

Lemma filter_epoch_split (e : Z) (t : window_table) :
  map_to_list (filter (fun kv => wk_epoch kv.1 <> e) t) ++ filter (fun kv => wk_epoch kv.1 = e) (map_to_list t)
  ≡ₚ map_to_list t.
Proof.
  apply NoDup_Permutation.
  - apply NoDup_app. split_and!; [apply NoDup_map_to_list| |apply NoDup_filter, NoDup_map_to_list].
    intros [k v] Hin [Heq _]%list_elem_of_filter. apply elem_of_map_to_list, map_lookup_filter_Some in Hin as [_ Hne]. done.
  - apply NoDup_map_to_list.
  - intros [k v]. rewrite elem_of_app, list_elem_of_filter, !elem_of_map_to_list, map_lookup_filter_Some. simpl.
    destruct (decide (wk_epoch k = e)); naive_solver.
Qed.

Section Archive.

Context {W : Type} `{ArchiveLaws W}.

(** One epoch moves, no row is lost. *)
Lemma archive_epoch_conserves (dir : string) (e : Z) (w : W) :
  db_reliable w -> db_saved w = None -> plain_dir dir -> 0 <= e -> db_files w !! parquet_path dir e = None ->
  all_rows dir (archive_epoch dir e w).2 ≡ₚ all_rows dir w.
Proof.
  intros Hrel Hs Hdir He Hfresh. destruct (archive_epoch_spec dir e w Hrel Hs) as (_ & _ & Ht & (l & Hl & Hperm) & Hf).
  destruct (archive_epoch dir e w) as [[] w1]. simpl in *. unfold all_rows. rewrite Ht.
  assert (Hfiles : db_files w1 = <[parquet_path dir e := l]> (db_files w)).
  { apply map_eq. intros p. destruct (decide (p = parquet_path dir e)) as [->|Hne].
    - by rewrite lookup_insert_eq.
    - rewrite lookup_insert_ne by done. by apply Hf. }
  rewrite Hfiles, files_rows_insert by (done || by apply law_glob).
  rewrite app_assoc, Hperm. by rewrite filter_epoch_split.
Qed.

Lemma archive_epochs_conserve (dir : string) (es : list Z) : forall (w : W),
  db_reliable w -> db_saved w = None -> plain_dir dir -> NoDup es -> Forall (fun e => 0 <= e) es ->
  (forall e, e ∈ es -> db_files w !! parquet_path dir e = None) ->
  let w' := (archive_epochs dir es w).2 in
  db_reliable w' /\ db_saved w' = None /\ all_rows dir w' ≡ₚ all_rows dir w.
Proof.
  induction es as [|e es IH]; intros w Hrel Hs Hdir Hnd Hpos Hfresh; cbn [archive_epochs]; [done|].
  apply NoDup_cons in Hnd as [Hnotin Hnd]. apply Forall_cons in Hpos as [Hpe Hpos].
  unfold bindM. pose proof (archive_epoch_conserves dir e w Hrel Hs Hdir Hpe (Hfresh e ltac:(by left))) as Hrows.
  destruct (archive_epoch_spec dir e w Hrel Hs) as (Hrel1 & Hs1 & _ & _ & Hf1).
  destruct (archive_epoch dir e w) as [[] w1]. simpl in *.
  destruct (IH w1 Hrel1 Hs1 Hdir Hnd Hpos) as (Hrel2 & Hs2 & Hrows2).
  - intros e' Hin. rewrite Hf1; [apply Hfresh; by right|]. intros Heq. rewrite Forall_forall in Hpos.
    apply parquet_path_inj in Heq; [by subst|by apply Hpos|done].
  - split_and!; [done|done|]. by rewrite Hrows2.
Qed.

(** A flush loses no row, unless an epoch was archived before. *)
Lemma flush_conserves (x : DuckDbWindowStore) (w : W) :
  dd_available x = true -> db_reliable w -> db_saved w = None -> plain_dir (parquet_archive_dir (dd_config x)) ->
  (forall k v, db_table w !! k = Some v -> 0 <= wk_epoch k /\
    db_files w !! parquet_path (parquet_archive_dir (dd_config x)) (wk_epoch k) = None) ->
  let w' := (flush_old_epochs x w).2 in
  db_reliable w' /\ db_saved w' = None /\
  all_rows (parquet_archive_dir (dd_config x)) w' ≡ₚ all_rows (parquet_archive_dir (dd_config x)) w.
Proof.
  intros Hav Hrel Hsv Hdir Hrows. unfold flush_old_epochs, bindM, retM. rewrite Hav. cbn [negb].
  destruct (law_system_now w) as (Ht1 & Hs1 & Hf1 & Hr1). destruct (system_now w) as [now w1]. simpl in *.
  assert (Hall1 : all_rows (parquet_archive_dir (dd_config x)) w1 = all_rows (parquet_archive_dir (dd_config x)) w)
    by (unfold all_rows; by rewrite Ht1, Hf1).
  destruct (flush_cutoff (dd_config x) now) as [cutoff|]; [|simpl; split_and!; [auto|congruence|by rewrite Hall1]].
  destruct (law_connect FlushConn w1) as [(Ht2 & Hs2 & Hf2 & Hr2) Hc].
  rewrite (surjective_pairing (duck_connect FlushConn w1)), (Hc (Hr1 Hrel)). cbn [negb].
  destruct (duck_connect FlushConn w1) as [ok w2]. simpl in *.
  destruct (old_epochs_found cutoff w2 (Hr2 (Hr1 Hrel)) (eq_trans Hs2 (eq_trans Hs1 Hsv)))
    as (es & res & w3 & -> & -> & Hnd & Hin & Hrel3 & Hs3 & Ht3 & Hf3).
  assert (Hfiles : db_files w3 = db_files w) by (apply map_eq; intros p; by rewrite Hf3, Hf2, Hf1).
  rewrite Ht2, Ht1 in Hin, Ht3.
  destruct (archive_epochs_conserve (parquet_archive_dir (dd_config x)) es w3 Hrel3 Hs3 Hdir Hnd) as (Hrel4 & Hs4 & Hall4).
  - apply Forall_forall. intros e He. apply Hin in He as [_ (k & v & Hk & <-)]. by destruct (Hrows k v Hk).
  - intros e He. apply Hin in He as [_ (k & v & Hk & <-)]. rewrite Hfiles. by destruct (Hrows k v Hk).
  - split_and!; [done|done|]. rewrite Hall4. unfold all_rows. by rewrite Ht3, Hfiles.
Qed.

(** What a query adds up. *)
Lemma query_sums_all (x : DuckDbWindowStore) (tenant entity window : string) (lo hi : Z) (w : W) :
  dd_available x = true -> db_reliable w -> db_saved w = None ->
  parquet_archive_dir (dd_config x) <> "" -> plain_dir (parquet_archive_dir (dd_config x)) ->
  Forall sql_plain [tenant; entity; window] ->
  exists s, (duck_query_range x tenant entity window lo hi w).1 = Ok s /\
    float_sum (map (fun kv => wv_aggregate kv.2)
      (filter (fun kv => in_range tenant entity window lo hi kv.1) (all_rows (parquet_archive_dir (dd_config x)) w))) s.
Proof.
  intros Hav Hrel Hsv Hne Hdir Hids. unfold duck_query_range, bindM, retM. rewrite Hav. cbn [negb].
  set (stmt := SumWarm tenant entity window lo hi). set (dir := parquet_archive_dir (dd_config x)) in *.
  destruct (law_prepare QueryConn stmt w) as [(Ht1 & Hs1 & Hf1 & Hr1) Hp].
  destruct (duck_prepare QueryConn stmt w) as [ok w1]. simpl in *. rewrite (Hp Hrel). cbn [negb].
  pose proof (law_execute QueryConn stmt w1 I) as Hwarm.
  destruct (duck_execute QueryConn stmt w1) as [[res|err] w2]; destruct Hwarm as (Hr2 & Hf2 & Hwarm);
    [|by destruct (Hr2 (Hr1 Hrel))].
  destruct (Hr2 (Hr1 Hrel)) as [_ Hrel2]. destruct Hwarm as ((warm & Hrows & Hsum) & Htab & _).
  simpl in Htab. injection Htab as Ht2 Hs2 _. unfold db_visible in Hsum. rewrite Hs1, Hsv in Hsum. simpl in Hsum.
  assert (Hfiles : db_files w2 = db_files w) by (apply map_eq; intros p; rewrite Hf2 by done; by rewrite Hf1).
  rewrite !Forall_cons in Hids. destruct Hids as (Hi1 & Hi2 & Hi3 & _). rewrite !c_str_plain, Ht1 in Hsum by done.
  unfold cold_sum, bindM, retM. destruct (str_empty dir) eqn:Hde; [by destruct dir|].
  pose proof (law_parquet_found dir) as Hfound. destruct (law_has_parquet dir w2) as (Ht3 & Hs3 & Hf3 & Hr3).
  specialize (fun p l => Hfound p l w2 Hdir). destruct (has_parquet dir w2) as [[] w3]; simpl in *.
  - pose proof (law_sum_cold QueryConn dir tenant entity window lo hi w3 Hdir ltac:(by repeat constructor)) as Hcold.
    pose proof (law_execute QueryConn (SumCold dir tenant entity window lo hi) w3 I) as Hok.
    destruct (duck_execute QueryConn (SumCold dir tenant entity window lo hi) w3) as [[res'|err] w4];
      [|by destruct Hok as [Hok _]; destruct (Hok (Hr3 Hrel2))].
    destruct Hcold as (cold & Hrows' & Hsum'). rewrite Hf3, Hfiles in Hsum'. eexists. split; [done|].
    unfold first_double. rewrite Hrows, Hrows'. simpl. unfold all_rows. rewrite filter_app, map_app. by apply sum_both.
  - eexists. split; [done|]. unfold first_double. rewrite Hrows. simpl. unfold all_rows.
    rewrite files_rows_none, app_nil_r.
    + rewrite <- (app_nil_r (map _ _)). by apply sum_both; [|apply sum_none].
    + intros p l Hl. rewrite <- Hfiles in Hl. destruct (archive_glob dir p) eqn:Hg; [|done]. by specialize (Hfound p l Hl Hg).
Qed.

End Archive.

(** ** Properties *)

(** C32: archiving changes no sum, over a database that does not fail, for an
    archive directory and identifiers that need no quoting, and as long as no epoch
    with rows in the table has an archive file already (such a file is overwritten:
    [archive_overwrites]): a range query after a flush adds up, in some order and
    grouping, exactly the rows in its range that were in the table and in the
    archive before the flush. *)
Theorem archiving_conserves_sums {W : Type} `{ArchiveLaws W} (x : DuckDbWindowStore) (tenant entity window : string)
    (lo hi : Z) (w : W) (Hav : dd_available x = true) (Hrel : db_reliable w) (Hsv : db_saved w = None)
    (Hne : parquet_archive_dir (dd_config x) <> "") (Hdir : plain_dir (parquet_archive_dir (dd_config x)))
    (Hids : Forall sql_plain [tenant; entity; window])
    (Hfresh : forall k v, db_table w !! k = Some v -> 0 <= wk_epoch k /\
      db_files w !! parquet_path (parquet_archive_dir (dd_config x)) (wk_epoch k) = None) :
  exists s, (duck_query_range x tenant entity window lo hi (flush_old_epochs x w).2).1 = Ok s /\
    float_sum (map (fun kv => wv_aggregate kv.2)
      (filter (fun kv => in_range tenant entity window lo hi kv.1) (all_rows (parquet_archive_dir (dd_config x)) w))) s.
Proof.
  destruct (flush_conserves x w Hav Hrel Hsv Hdir Hfresh) as (Hrel' & Hsv' & Hperm).
  destruct (query_sums_all x tenant entity window lo hi _ Hav Hrel' Hsv' Hne Hdir Hids) as (s & Hq & Hs).
  exists s. split; [exact Hq|]. eapply sum_order; [|exact Hs]. by rewrite Hperm.
Qed.

Lemma prefix_app (a b : string) : String.prefix a (a +:+ b) = true.
Proof. induction a as [|c a IH]; [by destruct b|]. simpl. by destruct (ascii_dec c c). Qed.

#[export] Instance sample_archive_laws : ArchiveLaws sample_db.
Proof.
  refine {| archive_glob := sample_glob |}; [|done|].
  - intros dir e _ _. unfold sample_glob, parquet_path, epoch_dir. rewrite append_assoc. apply prefix_app.
  - intros c dir tenant entity window lo hi w _ _. simpl. unfold sample_execute. simpl.
    destruct (sd_fails w _ || _)%bool; [done|]. simpl. eexists. split; [done|]. apply sample_sum_ok.
Defined.

Lemma archiving_conserves_sums_witness :
  (duck_query_range sample_duck "acme" "bob" "w" 0 9 (flush_old_epochs sample_duck (sample_world never)).2).1
  = Ok (f64_of_Z 2).
Proof.
  destruct (archiving_conserves_sums sample_duck "acme" "bob" "w" 0 9 (sample_world never)) as (s & Hs & _).
  1-4: done. 1-2: reflexivity || (repeat constructor).
  - intros k v Hk. split; [|reflexivity]. simpl in Hk. apply lookup_insert_Some in Hk as [[<- _]|[_ Hk]]; [done|].
    apply lookup_singleton_Some in Hk as [<- _]. done.
  - vm_compute. reflexivity.
Defined.
