(* ===== verification/Handles.v ===== *)
(** * The handles of the DuckDB store

    The owners of the C library's handles in src/state/duckdb_window_store.cpp
    ([DbHandle], [ConnHandle], [StmtHandle], [ResultHandle]) and the operations of
    the store with the scopes of these owners.  DuckDb.v leaves handles out; here
    every operation also keeps the list of open handles, where the use of a
    handle that is not open, and a release out of order or of one that is not
    open, have no result.  [implements] relates the two, with a rule per kind of
    scope. *)

From S2P Require Import Prelude Ieee CoreTypes Errors StateStore ExternalStore DuckDb.

Open Scope list_scope.
Open Scope Z_scope.

(** ** Handles *)

(** [duckdb_database], [duckdb_connection], [duckdb_prepared_statement],
    [duckdb_result], and the strings of [duckdb_value_varchar]. *)
Inductive handle_kind : Type := Database | Connection | Prepared | Result | Text.

#[export] Instance handle_kind_eq : EqDecision handle_kind.
Proof. solve_decision. Defined.

(** A handle; 0 is [nullptr]. *)
Definition handle : Type := handle_kind * Z.

Record Handles : Type := mkHandles {
  hd_next : Z;            (** the pointer the library gives out next *)
  hd_open : list handle   (** newest first *)
}.

Definition no_handles : Handles := mkHandles 1 [].

Section Ownership.

Context {W : Type}.

Definition HM (A : Type) : Type := W * Handles -> option (A * (W * Handles)).

Definition own_ret {A : Type} (a : A) : HM A := fun s => Some (a, s).

Definition own_bind {A B : Type} (m : HM A) (k : A -> HM B) : HM B := fun s =>
  match m s with None => None | Some (a, s') => k a s' end.

Definition lift {A : Type} (f : M W A) : HM A := fun '(w, h) => let '(a, w') := f w in Some (a, (w', h)).

(** A call of the library that hands out a pointer. *)
Definition acquire (k : handle_kind) : HM Z := fun '(w, h) =>
  Some (hd_next h, (w, mkHandles (hd_next h + 1) ((k, hd_next h) :: hd_open h))).

(** [duckdb_close], [duckdb_disconnect], [duckdb_destroy_prepare],
    [duckdb_destroy_result], [duckdb_free]; the order is stricter than the
    library's. *)
Definition release (x : handle) : HM unit := fun '(w, h) =>
  match hd_open h with
  | y :: rest => if decide (x = y) then Some (tt, (w, mkHandles (hd_next h) rest)) else None
  | [] => None
  end.

(** A call of the library with a handle as an argument. *)
Definition use (x : handle) : HM unit := fun '(w, h) =>
  if decide (x ∈ hd_open h) then Some (tt, (w, h)) else None.

(** The destructors: nothing for a null pointer. *)
Definition destroy (k : handle_kind) (p : Z) : HM unit := if Z.eqb p 0 then own_ret tt else release (k, p).

End Ownership.

Arguments HM : clear implicits.

Notation "'own' x <- m ; k" := (own_bind m (fun x => k))
  (at level 200, x name, m at level 100, k at level 200, only parsing) : fre_scope.
Notation "'own' '_' <- m ; k" := (own_bind m (fun _ => k))
  (at level 200, m at level 100, k at level 200, only parsing) : fre_scope.
Open Scope fre_scope.

(** ** The owners as scopes *)

Section Store.

Context {W : Type} `{Clock W} `{DuckDbEngine W}.

(** Whether a preparation that fails gives a handle to destroy. *)
Variable failed_handle : statement -> bool.

(** [StmtHandle sh; duckdb_prepare(conn, text, &sh.stmt)], up to the end of the scope of [sh]. *)
Definition with_stmt {A : Type} (c : connection) (conn : Z) (s : statement) (body : bool -> Z -> HM W A) : HM W A :=
  own _ <- use (Connection, conn);
  own ok <- lift (duck_prepare c s);
  own p <- (if (ok || failed_handle s)%bool then acquire Prepared else own_ret 0);
  own a <- body ok p;
  own _ <- destroy Prepared p;
  own_ret a.

(** [ResultHandle rh; duckdb_execute_prepared(stmt, &rh.result)]; [valid] is set either way. *)
Definition execute_prepared {A : Type} (c : connection) (stmt : Z) (s : statement)
    (body : expected sql_result string -> HM W A) : HM W A :=
  own _ <- use (Prepared, stmt);
  own r <- lift (duck_execute c s);
  own p <- acquire Result;
  own a <- body r;
  own _ <- destroy Result p;
  own_ret a.

(** [ResultHandle rh; duckdb_query(conn, text, &rh.result)]. *)
Definition query {A : Type} (c : connection) (conn : Z) (s : statement)
    (body : expected sql_result string -> HM W A) : HM W A :=
  own _ <- use (Connection, conn);
  own r <- lift (duck_execute c s);
  own p <- acquire Result;
  own a <- body r;
  own _ <- destroy Result p;
  own_ret a.

(** [duckdb_query(conn, text, nullptr)]. *)
Definition query_null (c : connection) (conn : Z) (s : statement) : HM W (expected sql_result string) :=
  own _ <- use (Connection, conn);
  lift (duck_execute c s).

(** [ConnHandle c; duckdb_connect(db, &c.conn)]. *)
Definition with_conn {A : Type} (c : connection) (db : Z) (body : bool -> Z -> HM W A) : HM W A :=
  own _ <- use (Database, db);
  own ok <- lift (duck_connect c);
  own p <- (if (ok : bool) then acquire Connection else own_ret 0);
  own a <- body ok p;
  own _ <- destroy Connection p;
  own_ret a.

Definition exec_sql (c : connection) (conn : Z) (s : statement) : HM W (expected sql_result string) :=
  query c conn s (fun r => own_ret r).

Definition read_varchar (v : sql_value) : HM W string :=
  match v with
  | VVarchar s => own p <- acquire Text; own _ <- release (Text, p); own_ret s
  | _ => own_ret EmptyString
  end.

(** ** The store *)

(** [DuckDbWindowStore::Impl] with its members [db], [conn] and [query_conn]. *)
Record Impl : Type := mkImpl { im_store : DuckDbWindowStore; im_db : Z; im_conn : Z; im_query_conn : Z }.

(** A member that is connected, or left null. *)
Definition connect_member (c : connection) (db : Z) : HM W Z :=
  own _ <- use (Database, db);
  own ok <- lift (duck_connect c);
  if (ok : bool) then acquire Connection else own_ret 0.

Definition impl_new (config : DuckDbConfig) : HM W Impl :=
  let failed := mkDuckDbStore config false false in
  own opened <- lift (duck_open (c_str (db_path config)));
  if negb opened then own_ret (mkImpl failed 0 0 0) else
  own db <- acquire Database;
  own conn <- connect_member HotConn db;
  if Z.eqb conn 0 then own_ret (mkImpl failed db 0 0) else
  own query_conn <- connect_member QueryConn db;
  if Z.eqb query_conn 0 then own_ret (mkImpl failed db conn 0) else
  own e1 <- exec_sql HotConn conn SetExtensions;
  if negb (has_value e1) then own_ret (mkImpl failed db conn query_conn) else
  own e2 <- exec_sql QueryConn query_conn SetExtensions;
  if negb (has_value e2) then own_ret (mkImpl failed db conn query_conn) else
  own ddl <- exec_sql HotConn conn CreateTable;
  if negb (has_value ddl) then own_ret (mkImpl failed db conn query_conn) else
  own_ret (mkImpl (mkDuckDbStore config true
      (negb (str_empty (parquet_archive_dir config)) && Z.ltb 0 (flush_interval_ms config))) db conn query_conn).

(** [~Impl()]: the members in reverse, once the thread has been joined. *)
Definition impl_delete (x : Impl) : HM W unit :=
  own _ <- destroy Connection (im_query_conn x);
  own _ <- destroy Connection (im_conn x);
  destroy Database (im_db x).

Definition get (x : Impl) (key : WindowKey) : HM W (expected WindowValue StoreError) :=
  if negb (dd_available (im_store x)) then own_ret (Unexpected duck_unavailable) else
  with_stmt HotConn (im_conn x) (SelectRow key) (fun ok sh =>
    if negb ok then own_ret (Unexpected (mkStoreError StoreUnavailable "prepare failed")) else
    execute_prepared HotConn sh (SelectRow key) (fun r =>
      match r with
      | Unexpected e => own_ret (Unexpected (mkStoreError StoreUnavailable e))
      | Ok res =>
          match sr_rows res with
          | [] => own_ret (Ok WindowValue_zero)
          | row :: _ => own_ret (Ok (mkWindowValue (value_double (value_at row 0)) (value_uint64 (value_at row 1))))
          end
      end)).

(** [duckdb_query(conn, "ROLLBACK", nullptr)] and the return of an error. *)
Definition rolled_back {A : Type} (conn : Z) (e : StoreError) : HM W (expected A StoreError) :=
  own _ <- query_null HotConn conn Rollback; own_ret (Unexpected e).

Definition compare_and_swap (x : Impl) (key : WindowKey) (expected_val new_val : WindowValue)
    : HM W (expected bool StoreError) :=
  let conn := im_conn x in
  if negb (dd_available (im_store x)) then own_ret (Unexpected duck_unavailable) else
  query HotConn conn Begin (fun began =>
    if negb (has_value began) then own_ret (Unexpected (mkStoreError StoreUnavailable "BEGIN failed")) else
    with_stmt HotConn conn (InsertDefault key) (fun ok1 insert_sh =>
      if negb ok1 then rolled_back conn (mkStoreError StoreUnavailable "prepare insert failed") else
      execute_prepared HotConn insert_sh (InsertDefault key) (fun ins =>
        match ins with
        | Unexpected e => rolled_back conn (mkStoreError StoreUnavailable e)
        | Ok _ =>
            let update := UpdateVersion key new_val (wv_version expected_val) in
            with_stmt HotConn conn update (fun ok2 upd_sh =>
              if negb ok2 then rolled_back conn (mkStoreError StoreUnavailable "prepare update failed") else
              execute_prepared HotConn upd_sh update (fun upd =>
                match upd with
                | Unexpected e => rolled_back conn (mkStoreError StoreUnavailable e)
                | Ok res => own _ <- query_null HotConn conn Commit; own_ret (Ok (Z.ltb 0 (sr_changed res)))
                end))
        end))).

Definition expire (x : Impl) (key : WindowKey) : HM W (expected unit StoreError) :=
  if negb (dd_available (im_store x)) then own_ret (Unexpected duck_unavailable) else
  with_stmt HotConn (im_conn x) (DeleteRow key) (fun ok sh =>
    if negb ok then own_ret (Unexpected (mkStoreError StoreUnavailable "prepare failed")) else
    execute_prepared HotConn sh (DeleteRow key) (fun r =>
      match r with
      | Unexpected e => own_ret (Unexpected (mkStoreError StoreUnavailable e))
      | Ok _ => own_ret (Ok tt)
      end)).

(** The loop of [upsert_batch]; a turn that fails rolls back and returns. *)
Fixpoint upsert_entries (conn : Z) (entries : list (WindowKey * WindowValue)) : HM W (expected unit StoreError) :=
  match entries with
  | [] => own_ret (Ok tt)
  | (key, val) :: entries' =>
      own turn <- with_stmt HotConn conn (UpsertRow key val) (fun ok sh =>
        if negb ok then rolled_back conn (mkStoreError StoreUnavailable "upsert prepare failed") else
        execute_prepared HotConn sh (UpsertRow key val) (fun r =>
          match r with
          | Unexpected e => rolled_back conn (mkStoreError StoreUnavailable e)
          | Ok _ => own_ret (Ok tt)
          end));
      match turn with
      | Unexpected e => own_ret (Unexpected e)
      | Ok _ => upsert_entries conn entries'
      end
  end.

Definition upsert_batch (x : Impl) (entries : list (WindowKey * WindowValue)) : HM W (expected unit StoreError) :=
  let conn := im_conn x in
  if negb (dd_available (im_store x)) then own_ret (Unexpected duck_unavailable) else
  if Nat.eqb (length entries) 0 then own_ret (Ok tt) else
  query HotConn conn Begin (fun began =>
    if negb (has_value began) then own_ret (Unexpected (mkStoreError StoreUnavailable "upsert_batch BEGIN failed")) else
    own rows <- upsert_entries conn entries;
    match rows with
    | Unexpected e => own_ret (Unexpected e)
    | Ok _ =>
        query HotConn conn Commit (fun committed =>
          if has_value committed then own_ret (Ok tt)
          else rolled_back conn (mkStoreError StoreUnavailable "upsert_batch COMMIT failed"))
    end).

(** The loop of [scan_warm_tier]. *)
Fixpoint read_rows (rows : list (list sql_value)) : HM W (list (WindowKey * WindowValue)) :=
  match rows with
  | [] => own_ret []
  | row :: rows' =>
      own tenant <- read_varchar (value_at row 0);
      own entity <- read_varchar (value_at row 1);
      own window <- read_varchar (value_at row 2);
      own out <- read_rows rows';
      own_ret ((mkWindowKey tenant entity window (value_uint64 (value_at row 3)),
                mkWindowValue (value_double (value_at row 4)) (value_uint64 (value_at row 5))) :: out)
  end.

Definition scan_warm_tier (x : Impl) : HM W (expected (list (WindowKey * WindowValue)) StoreError) :=
  if negb (dd_available (im_store x)) then own_ret (Unexpected duck_unavailable) else
  query QueryConn (im_query_conn x) SelectAll (fun r =>
    match r with
    | Unexpected e => own_ret (Unexpected (mkStoreError QueryRangeError e))
    | Ok res => own out <- read_rows (sr_rows res); own_ret (Ok out)
    end).

(** The part of [query_range] about the archive. *)
Definition query_archive (conn : Z) (dir tenant entity window : string) (lo hi : Z) : HM W float64 :=
  if str_empty dir then own_ret f64_zero else
  own found <- lift (has_parquet dir);
  if negb found then own_ret f64_zero else
  query QueryConn conn (SumCold dir tenant entity window lo hi) (fun r =>
    match r with
    | Ok res => own_ret (first_double res)
    | Unexpected _ => own_ret f64_zero
    end).

(** [sh] and [rh] live until the function returns. *)
Definition query_range (x : Impl) (tenant entity window : string) (lo hi : Z) : HM W (expected float64 StoreError) :=
  let conn := im_query_conn x in
  if negb (dd_available (im_store x)) then own_ret (Unexpected duck_unavailable) else
  with_stmt QueryConn conn (SumWarm tenant entity window lo hi) (fun ok sh =>
    if negb ok then own_ret (Unexpected (mkStoreError QueryRangeError "prepare failed")) else
    execute_prepared QueryConn sh (SumWarm tenant entity window lo hi) (fun r =>
      match r with
      | Unexpected e => own_ret (Unexpected (mkStoreError QueryRangeError e))
      | Ok res =>
          own cold <- query_archive conn (parquet_archive_dir (dd_config (im_store x))) tenant entity window lo hi;
          own_ret (Ok (f64_add (first_double res) cold))
      end)).

Fixpoint archive_each (conn : Z) (dir : string) (epochs : list Z) : HM W unit :=
  match epochs with
  | [] => own_ret tt
  | epoch :: epochs' =>
      own _ <- lift (create_directories (epoch_dir dir epoch));
      own _ <- exec_sql FlushConn conn (CopyEpoch epoch (parquet_path dir epoch));
      own _ <- exec_sql FlushConn conn (DeleteEpoch epoch);
      archive_each conn dir epochs'
  end.

Definition flush_epochs (x : Impl) : HM W unit :=
  let config := dd_config (im_store x) in
  if negb (dd_available (im_store x)) then own_ret tt else
  own now <- lift system_now;
  match flush_cutoff config now with
  | None => own_ret tt
  | Some cutoff =>
      with_conn FlushConn (im_db x) (fun ok flush_conn =>
        if negb ok then own_ret tt else
        query FlushConn flush_conn (OldEpochs cutoff) (fun r =>
          match r with
          | Unexpected _ => own_ret tt
          | Ok res =>
              archive_each flush_conn (parquet_archive_dir config)
                (map (fun row => value_uint64 (value_at row 0)) (sr_rows res))
          end))
  end.

End Store.

(** ** Rules *)

(** The pointers given out are below the next one. *)
Definition fresh (h : Handles) : Prop := 0 < hd_next h /\ Forall (fun x => 0 < x.2 < hd_next h) (hd_open h).

(** An operation that may use the handles [l]: it has a result, does to the world
    what [f] does, and leaves open what was open. *)
Definition implements {W A : Type} (l : list handle) (m : HM W A) (f : M W A) : Prop :=
  forall w h, fresh h -> l ⊆ hd_open h ->
    exists h', m (w, h) = Some ((f w).1, ((f w).2, h')) /\ fresh h' /\ hd_open h' = hd_open h.

Section Rules.

Context {W : Type}.

Lemma implements_ret {A : Type} (l : list handle) (a : A) : implements l (own_ret a) (retM (W := W) a).
Proof. intros w h Hf Hl. by exists h. Qed.

Lemma implements_lift {A : Type} (l : list handle) (f : M W A) : implements l (lift f) f.
Proof. intros w h Hf Hl. exists h. unfold lift. by destruct (f w). Qed.

Lemma implements_bind {A B : Type} (l : list handle) (m : HM W A) (f : M W A) (k : A -> HM W B) (g : A -> M W B) :
  implements l m f -> (forall a, implements l (k a) (g a)) -> implements l (own_bind m k) (bindM f g).
Proof.
  intros Hm Hk w h Hf Hl. destruct (Hm w h Hf Hl) as (h1 & Hm1 & Hf1 & Ho1). unfold own_bind, bindM. rewrite Hm1.
  destruct (f w) as [a w1]. cbn [fst snd] in *. rewrite <- Ho1 in Hl.
  destruct (Hk a w1 h1 Hf1 Hl) as (h2 & -> & Hf2 & Ho2). exists h2. split_and!; [done|done|congruence].
Qed.

(** The same with a function that agrees. *)
Lemma implements_as {A : Type} (l : list handle) (m : HM W A) (f g : M W A) :
  (forall w, f w = g w) -> implements l m f -> implements l m g.
Proof. intros Heq Hm w h Hf Hl. rewrite <- Heq. by apply Hm. Qed.

Lemma implements_weaken {A : Type} (l l' : list handle) (m : HM W A) (f : M W A) :
  l ⊆ l' -> implements l m f -> implements l' m f.
Proof. intros Hsub Hm w h Hf Hl. apply Hm; [done|]. by etrans. Qed.

Lemma implements_use {A : Type} (l : list handle) (x : handle) (m : HM W A) (f : M W A) :
  x ∈ l -> implements l m f -> implements l (own_bind (use x) (fun _ => m)) f.
Proof.
  intros Hx Hm w h Hf Hl. unfold own_bind, use. rewrite decide_True by set_solver. by apply Hm.
Qed.

(** The scope of an owner: its handle is open in the body and released behind it. *)
Lemma implements_scope {A : Type} (l : list handle) (k : handle_kind) (body : Z -> HM W A) (f : M W A) :
  (forall p, implements ((k, p) :: l) (body p) f) ->
  implements l (own p <- acquire k; own a <- body p; own _ <- destroy k p; own_ret a) f.
Proof.
  intros Hb w h [Hn Hf] Hl. unfold own_bind at 1, acquire. cbn.
  set (h1 := mkHandles (hd_next h + 1) ((k, hd_next h) :: hd_open h)).
  assert (Hf1 : fresh h1).
  { split; cbn; [lia|]. constructor; cbn; [lia|]. eapply Forall_impl; [exact Hf|]. intros x Hx. cbn in *. lia. }
  destruct (Hb (hd_next h) w h1 Hf1) as (h2 & Hb2 & [Hn2 Hf2] & Ho2); [cbn; set_solver|].
  unfold own_bind. rewrite Hb2. unfold destroy. destruct (Z.eqb_spec (hd_next h) 0); [lia|].
  unfold release. rewrite Ho2. cbn. rewrite decide_True by done. eexists. split; [reflexivity|]. cbn. split; [|done].
  split; cbn; [done|]. rewrite Ho2 in Hf2. by apply Forall_cons in Hf2 as [_ Hf2].
Qed.

(** An owner that stays null. *)
Lemma implements_null {A : Type} (l : list handle) (k : handle_kind) (body : Z -> HM W A) (f : M W A) :
  implements l (body 0) f ->
  implements l (own p <- own_ret 0; own a <- body p; own _ <- destroy k p; own_ret a) f.
Proof.
  intros Hb w h Hf Hl. destruct (Hb w h Hf Hl) as (h1 & Hb1 & Hf1 & Ho1). unfold own_bind, own_ret, destroy. rewrite Hb1.
  by exists h1.
Qed.

Context `{Clock W} `{DuckDbEngine W}.
Variable failed_handle : statement -> bool.

Lemma implements_stmt {A : Type} (l : list handle) (c : connection) (conn : Z) (s : statement)
    (body : bool -> Z -> HM W A) (g : bool -> M W A) :
  (Connection, conn) ∈ l -> implements l (body false 0) (g false) ->
  (forall ok p, implements ((Prepared, p) :: l) (body ok p) (g ok)) ->
  implements l (with_stmt failed_handle c conn s body) (bindM (duck_prepare c s) g).
Proof.
  intros Hc Hnull Hb. unfold with_stmt. apply implements_use; [done|]. apply implements_bind; [apply implements_lift|].
  intros ok. destruct (ok || failed_handle s)%bool eqn:Hok.
  - apply (implements_scope l Prepared (body ok)). intros p. apply Hb.
  - apply orb_false_iff in Hok as [-> _]. by apply (implements_null l Prepared (body false)).
Qed.

Lemma implements_execute {A : Type} (l : list handle) (c : connection) (stmt : Z) (s : statement)
    (body : expected sql_result string -> HM W A) (g : expected sql_result string -> M W A) :
  (Prepared, stmt) ∈ l -> (forall r p, implements ((Result, p) :: l) (body r) (g r)) ->
  implements l (execute_prepared c stmt s body) (bindM (duck_execute c s) g).
Proof.
  intros Hc Hb. unfold execute_prepared. apply implements_use; [done|]. apply implements_bind; [apply implements_lift|].
  intros r. apply (implements_scope l Result (fun _ => body r)). intros p. apply Hb.
Qed.

Lemma implements_query {A : Type} (l : list handle) (c : connection) (conn : Z) (s : statement)
    (body : expected sql_result string -> HM W A) (g : expected sql_result string -> M W A) :
  (Connection, conn) ∈ l -> (forall r p, implements ((Result, p) :: l) (body r) (g r)) ->
  implements l (query c conn s body) (bindM (duck_execute c s) g).
Proof.
  intros Hc Hb. unfold query. apply implements_use; [done|]. apply implements_bind; [apply implements_lift|].
  intros r. apply (implements_scope l Result (fun _ => body r)). intros p. apply Hb.
Qed.

Lemma implements_query_null (l : list handle) (c : connection) (conn : Z) (s : statement) :
  (Connection, conn) ∈ l -> implements l (query_null c conn s) (duck_execute c s).
Proof. intros Hc. unfold query_null. apply implements_use; [done|]. apply implements_lift. Qed.

Lemma implements_exec_sql (l : list handle) (c : connection) (conn : Z) (s : statement) :
  (Connection, conn) ∈ l -> implements l (exec_sql c conn s) (duck_execute c s).
Proof.
  intros Hc. eapply implements_as; [|apply (implements_query l c conn s _ (fun r => retM r) Hc)].
  - intros w. unfold bindM, retM. by destruct (duck_execute c s w).
  - intros r p. apply implements_ret.
Qed.

Lemma implements_rolled_back {A : Type} (l : list handle) (conn : Z) (e : StoreError) :
  (Connection, conn) ∈ l -> implements l (rolled_back (A := A) conn e) (rollback_with e).
Proof.
  intros Hc. apply implements_bind; [by apply implements_query_null|]. intros _. apply implements_ret.
Qed.

Lemma implements_conn {A : Type} (l : list handle) (c : connection) (db : Z) (body : bool -> Z -> HM W A) (g : bool -> M W A) :
  (Database, db) ∈ l -> implements l (body false 0) (g false) ->
  (forall p, implements ((Connection, p) :: l) (body true p) (g true)) ->
  implements l (with_conn c db body) (bindM (duck_connect c) g).
Proof.
  intros Hc Hnull Hb. unfold with_conn. apply implements_use; [done|]. apply implements_bind; [apply implements_lift|].
  intros [].
  - apply (implements_scope l Connection (body true)). intros p. apply Hb.
  - by apply (implements_null l Connection (body false)).
Qed.

Lemma implements_read_varchar (l : list handle) (v : sql_value) :
  implements l (read_varchar v) (retM (W := W) (value_varchar v)).
Proof.
  destruct v as [s| |]; [|apply implements_ret..]. intros w h [Hn Hf] Hl. unfold read_varchar, own_bind, acquire, release. cbn.
  rewrite decide_True by done. eexists. split; [reflexivity|]. split; [|done]. split; cbn; [lia|].
  eapply Forall_impl; [exact Hf|]. intros x Hx. cbn in *. lia.
Qed.

End Rules.

Create HintDb handles discriminated.
#[export] Hint Resolve implements_ret implements_lift implements_query_null implements_exec_sql implements_rolled_back
  implements_read_varchar : handles.
#[export] Hint Extern 1 (_ ∈ _) => set_solver : handles.

(** One rule per step, by the shape of the program. *)
Ltac implements_step :=
  first
    [ solve [eauto with handles]
    | apply implements_stmt; [set_solver|cbn [negb]|intros ? ?]
    | apply implements_execute; [set_solver|intros ? ?]
    | apply implements_query; [set_solver|intros ? ?]
    | apply implements_conn; [set_solver|cbn [negb]|intros ?; cbn [negb]]
    | apply implements_bind; [|intros ?]
    | match goal with |- implements _ (if negb ?b then _ else _) _ => destruct b; cbn [negb] end
    | match goal with |- implements _ (if ?b then _ else _) _ => destruct b end
    | match goal with |- implements _ (match ?r with Ok _ => _ | Unexpected _ => _ end) _ => destruct r end
    | match goal with |- implements _ (match ?l with [] => _ | _ :: _ => _ end) _ => destruct l end ].

Ltac implements_tac := repeat implements_step.

(** ** The operations implement those of DuckDb.v *)

(** The handles of the members of a store that connected. *)
Definition members (x : Impl) : list handle :=
  [(Connection, im_query_conn x); (Connection, im_conn x); (Database, im_db x)].

Section Operations.

Context {W : Type} `{Clock W} `{DuckDbEngine W}.
Variable failed_handle : statement -> bool.
Variable x : Impl.

Lemma get_implements (key : WindowKey) :
  implements (members x) (get failed_handle x key) (duck_get (im_store x) key).
Proof. unfold get, duck_get, members. implements_tac. Qed.

Lemma compare_and_swap_implements (key : WindowKey) (expected_val new_val : WindowValue) :
  implements (members x) (compare_and_swap failed_handle x key expected_val new_val)
    (duck_compare_and_swap (im_store x) key expected_val new_val).
Proof. unfold compare_and_swap, duck_compare_and_swap, members. cbn zeta. implements_tac. Qed.

Lemma expire_implements (key : WindowKey) :
  implements (members x) (expire failed_handle x key) (duck_expire (im_store x) key).
Proof. unfold expire, duck_expire, members. implements_tac. Qed.

(** The loop with its roll-back inside, and DuckDb.v's with the roll-back behind it. *)
Lemma upsert_entries_implements (l : list handle) (conn : Z) (entries : list (WindowKey * WindowValue)) :
  (Connection, conn) ∈ l ->
  implements l (upsert_entries failed_handle conn entries)
    (do r <- upsert_rows entries; match r with Unexpected e => rollback_with e | Ok _ => retM (Ok tt) end).
Proof.
  intros Hc. induction entries as [|[key val] entries IH]; cbn [upsert_entries upsert_rows].
  - eapply implements_as; [|apply implements_ret]. done.
  - eapply (implements_as l _ (do turn <- (do ok <- duck_prepare HotConn (UpsertRow key val);
        if negb ok then rollback_with (mkStoreError StoreUnavailable "upsert prepare failed") else
        do r <- duck_execute HotConn (UpsertRow key val);
        match r with
        | Unexpected e => rollback_with (mkStoreError StoreUnavailable e)
        | Ok _ => retM (Ok tt)
        end);
      match turn with
      | Unexpected e => retM (Unexpected e)
      | Ok _ => do r <- upsert_rows entries; match r with Unexpected e => rollback_with e | Ok _ => retM (Ok tt) end
      end)).
    + intros w. unfold rollback_with, bindM, retM. destruct (duck_prepare HotConn (UpsertRow key val) w) as [[] w1]; cbn [negb].
      * destruct (duck_execute HotConn (UpsertRow key val) w1) as [[r|e] w2]; [by destruct (upsert_rows entries w2)|].
        by destruct (duck_execute HotConn Rollback w2).
      * by destruct (duck_execute HotConn Rollback w1).
    + implements_tac.
Qed.

Lemma upsert_batch_implements (entries : list (WindowKey * WindowValue)) :
  implements (members x) (upsert_batch failed_handle x entries) (DuckDb.upsert_batch (im_store x) entries).
Proof.
  unfold upsert_batch, DuckDb.upsert_batch. cbn zeta.
  destruct (negb (dd_available (im_store x))); [implements_tac|]. destruct (Nat.eqb (length entries) 0); [implements_tac|].
  apply implements_query; [unfold members; set_solver|]. intros began p. destruct (negb (has_value began)); [implements_tac|].
  eapply (implements_as _ _ (do rows <- (do r <- upsert_rows entries; match r with Unexpected e => rollback_with e | Ok _ => retM (Ok tt) end);
    match rows with
    | Unexpected e => retM (Unexpected e)
    | Ok _ => do committed <- duck_execute HotConn Commit;
        if has_value committed then retM (Ok tt) else rollback_with (mkStoreError StoreUnavailable "upsert_batch COMMIT failed")
    end)).
  - intros w. unfold rollback_with, bindM, retM. destruct (upsert_rows entries w) as [[[]|e] w1]; [done|].
    by destruct (duck_execute HotConn Rollback w1).
  - apply implements_bind; [apply upsert_entries_implements; unfold members; set_solver|]. intros [[]|e]; unfold members; implements_tac.
Qed.

Lemma read_rows_implements (l : list handle) (rows : list (list sql_value)) :
  implements l (read_rows rows) (retM (W := W) (map read_row rows)).
Proof.
  induction rows as [|row rows IH]; cbn [read_rows map]; [apply implements_ret|].
  eapply (implements_as l _ (do tenant <- retM (value_varchar (value_at row 0)); do entity <- retM (value_varchar (value_at row 1));
    do window <- retM (value_varchar (value_at row 2)); do out <- retM (map read_row rows);
    retM ((mkWindowKey tenant entity window (value_uint64 (value_at row 3)),
           mkWindowValue (value_double (value_at row 4)) (value_uint64 (value_at row 5))) :: out))); [done|].
  implements_tac.
Qed.

Lemma scan_warm_tier_implements :
  implements (members x) (scan_warm_tier x) (DuckDb.scan_warm_tier (im_store x)).
Proof.
  unfold scan_warm_tier, DuckDb.scan_warm_tier, members. destruct (negb (dd_available (im_store x))); [implements_tac|].
  apply implements_query; [set_solver|]. intros [res|e] p; [|implements_tac].
  eapply (implements_as _ _ (do out <- retM (map read_row (sr_rows res)); retM (Ok out))); [done|].
  apply implements_bind; [apply read_rows_implements|]. intros out. apply implements_ret.
Qed.

Lemma query_archive_implements (l : list handle) (conn : Z) (dir tenant entity window : string) (lo hi : Z) :
  (Connection, conn) ∈ l ->
  implements l (query_archive conn dir tenant entity window lo hi) (cold_sum dir tenant entity window lo hi).
Proof. intros Hc. unfold query_archive, cold_sum. implements_tac. Qed.

Lemma query_range_implements (tenant entity window : string) (lo hi : Z) :
  implements (members x) (query_range failed_handle x tenant entity window lo hi)
    (duck_query_range (im_store x) tenant entity window lo hi).
Proof.
  unfold query_range, duck_query_range, members. cbn zeta. implements_tac. apply query_archive_implements. set_solver.
Qed.

Lemma archive_each_implements (l : list handle) (conn : Z) (dir : string) (epochs : list Z) :
  (Connection, conn) ∈ l -> implements l (archive_each conn dir epochs) (archive_epochs dir epochs).
Proof.
  intros Hc. induction epochs as [|epoch epochs IH]; cbn [archive_each archive_epochs]; [apply implements_ret|].
  eapply (implements_as l _ (do _ <- create_directories (epoch_dir dir epoch);
    do _ <- duck_execute FlushConn (CopyEpoch epoch (parquet_path dir epoch));
    do _ <- duck_execute FlushConn (DeleteEpoch epoch); archive_epochs dir epochs)); [|implements_tac].
  intros w. unfold archive_epoch, bindM, retM. destruct (create_directories _ w) as [? w1].
  destruct (duck_execute FlushConn (CopyEpoch epoch _) w1) as [? w2]. by destruct (duck_execute FlushConn (DeleteEpoch epoch) w2).
Qed.

Lemma flush_epochs_implements : implements (members x) (flush_epochs x) (flush_old_epochs (im_store x)).
Proof.
  unfold flush_epochs, flush_old_epochs, members. cbn zeta. destruct (negb (dd_available (im_store x))); [implements_tac|].
  apply implements_bind; [apply implements_lift|]. intros now. destruct (flush_cutoff _ now); [|implements_tac].
  implements_tac. apply archive_each_implements. set_solver.
Qed.

End Operations.

(** ** Construction and destruction *)

(** The open handles of a store, whatever became of its construction. *)
Definition owned (x : Impl) : list handle := filter (fun m => m.2 <> 0) (members x).

(** An open handle is put in front, none for a null pointer. *)
Definition owner (k : handle_kind) (p : Z) : list handle := if Z.eqb p 0 then [] else [(k, p)].

Lemma owned_owners (x : Impl) :
  owned x = owner Connection (im_query_conn x) ++ owner Connection (im_conn x) ++ owner Database (im_db x).
Proof.
  unfold owned, members, owner. destruct x as [s db conn query_conn]. cbn [im_db im_conn im_query_conn].
  rewrite !filter_cons, filter_nil. cbn [snd].
  destruct (Z.eqb_spec query_conn 0), (Z.eqb_spec conn 0), (Z.eqb_spec db 0); subst; by repeat case_decide.
Qed.

Section Lifetime.

Context {W : Type} `{Clock W} `{DuckDbEngine W}.
Variable failed_handle : statement -> bool.

Lemma destroy_owner (k : handle_kind) (p : Z) (w : W) (h : Handles) (rest : list handle) :
  hd_open h = owner k p ++ rest -> destroy k p (w, h) = Some (tt, (w, mkHandles (hd_next h) rest)).
Proof.
  unfold destroy, owner, release, own_ret. destruct (Z.eqb p 0); cbn; intros Ho.
  - destruct h as [n o]. cbn in *. by subst.
  - rewrite Ho. by rewrite decide_True.
Qed.

Lemma impl_delete_owned (x : Impl) (w : W) (h : Handles) (rest : list handle) :
  hd_open h = owned x ++ rest -> impl_delete x (w, h) = Some (tt, (w, mkHandles (hd_next h) rest)).
Proof.
  intros Ho. rewrite owned_owners, <- !app_assoc in Ho. unfold impl_delete, own_bind.
  rewrite (destroy_owner _ _ w h _ Ho). erewrite destroy_owner by reflexivity. by erewrite destroy_owner by reflexivity.
Qed.

Lemma fresh_acquire (k : handle_kind) (h : Handles) :
  fresh h -> fresh (mkHandles (hd_next h + 1) ((k, hd_next h) :: hd_open h)).
Proof.
  intros [Hn Hf]. split; cbn; [lia|]. constructor; cbn; [lia|]. eapply Forall_impl; [exact Hf|]. intros y Hy. cbn in *. lia.
Qed.

Lemma connect_member_spec (c : connection) (db : Z) (w : W) (h : Handles) :
  fresh h -> (Database, db) ∈ hd_open h ->
  exists p h', connect_member c db (w, h) = Some (p, ((duck_connect c w).2, h')) /\ fresh h' /\
    Z.eqb p 0 = negb (duck_connect c w).1 /\ hd_open h' = owner Connection p ++ hd_open h.
Proof.
  intros Hf Hdb. unfold connect_member, own_bind, use, lift. rewrite decide_True by done.
  destruct (duck_connect c w) as [[] w1]; cbn [fst snd negb].
  - exists (hd_next h). eexists. split; [reflexivity|]. split; [by apply fresh_acquire|]. destruct Hf as [Hn _].
    unfold owner. destruct (Z.eqb_spec (hd_next h) 0); [lia|]. done.
  - exists 0, h. by split_and!.
Qed.

(** What [impl_new] leaves open; the store is available with every member connected. *)
Definition constructed (h : Handles) (w : W) (m : option (Impl * (W * Handles))) (s : DuckDbWindowStore * W) : Prop :=
  exists x h', m = Some (x, (s.2, h')) /\ im_store x = s.1 /\ fresh h' /\ hd_open h' = owned x ++ hd_open h /\
    (dd_available s.1 = true -> owned x = members x).

Lemma constructed_exec (c : connection) (conn : Z) (s : statement) (k : expected sql_result string -> HM W Impl)
    (g : expected sql_result string -> M W DuckDbWindowStore) (w : W) (h h1 : Handles) :
  fresh h1 -> (Connection, conn) ∈ hd_open h1 ->
  (forall r w' h', fresh h' -> hd_open h' = hd_open h1 -> constructed h w' (k r (w', h')) (g r w')) ->
  constructed h w (own_bind (exec_sql c conn s) k (w, h1)) (bindM (duck_execute c s) g w).
Proof.
  intros Hf Hc Hk. destruct (implements_exec_sql [(Connection, conn)] c conn s ltac:(set_solver) w h1 Hf ltac:(set_solver))
    as (h2 & He & Hf2 & Ho2). unfold own_bind, bindM. rewrite He. destruct (duck_execute c s w) as [r w1].
  by apply (Hk r w1 h2).
Qed.

Lemma constructed_ret (st : DuckDbWindowStore) (db conn query_conn : Z) (w : W) (h h' : Handles) :
  fresh h' ->
  hd_open h' = owner Connection query_conn ++ owner Connection conn ++ owner Database db ++ hd_open h ->
  (dd_available st = true -> db <> 0 /\ conn <> 0 /\ query_conn <> 0) ->
  constructed h w (own_ret (mkImpl st db conn query_conn) (w, h')) (retM st w).
Proof.
  intros Hf Ho Ha. exists (mkImpl st db conn query_conn), h'. rewrite owned_owners, <- !app_assoc. split_and!; [done..|].
  cbn. intros Hav. destruct (Ha Hav) as (Hdb & Hconn & Hquery). unfold owner, members. apply Z.eqb_neq in Hdb, Hconn, Hquery.
  by rewrite Hdb, Hconn, Hquery.
Qed.

Lemma constructed_connect (c : connection) (db : Z) (k : Z -> HM W Impl) (g : bool -> M W DuckDbWindowStore) (w : W)
    (h h1 : Handles) :
  fresh h1 -> (Database, db) ∈ hd_open h1 ->
  (forall p w' h', fresh h' -> hd_open h' = owner Connection p ++ hd_open h1 ->
    constructed h w' (k p (w', h')) (g (negb (Z.eqb p 0)) w')) ->
  constructed h w (own_bind (connect_member c db) k (w, h1)) (bindM (duck_connect c) g w).
Proof.
  intros Hf Hdb Hk. destruct (connect_member_spec c db w h1 Hf Hdb) as (p & h2 & Hm & Hf2 & Hp & Ho2).
  unfold own_bind, bindM. rewrite Hm. destruct (duck_connect c w) as [ok w1]. cbn [fst snd] in *.
  replace ok with (negb (Z.eqb p 0)) by (rewrite Hp; apply negb_involutive). by apply Hk.
Qed.

Lemma impl_new_constructed (config : DuckDbConfig) (w : W) (h : Handles) :
  fresh h -> constructed h w (impl_new config (w, h)) (duck_new config w).
Proof.
  intros Hf. unfold impl_new, duck_new. cbn zeta. unfold own_bind at 1, lift, bindM at 1.
  destruct (duck_open (c_str (db_path config)) w) as [[] w1]; cbn [negb]; [|by apply constructed_ret].
  unfold own_bind at 1, acquire. pose proof (fresh_acquire Database h Hf) as Hf1. destruct Hf as [Hn _].
  remember (mkHandles _ _) as h1 eqn:Hh1. remember (hd_next h) as db eqn:Hdb.
  assert (Ho1 : hd_open h1 = (Database, db) :: hd_open h) by by subst. clear Hh1.
  assert (Hdb0 : db <> 0) by lia. assert (Hodb : owner Database db = [(Database, db)]).
  { unfold owner. by rewrite (proj2 (Z.eqb_neq _ _) Hdb0). }
  apply constructed_connect; [done|rewrite Ho1; set_solver|]. intros conn w2 h2 Hf2 Ho2. rewrite Ho1 in Ho2. rewrite negb_involutive.
  destruct (Z.eqb_spec conn 0) as [->|Hconn0]; [apply constructed_ret; [done|by rewrite Hodb, Ho2|done]|].
  assert (Hoc : owner Connection conn = [(Connection, conn)]). { unfold owner. by rewrite (proj2 (Z.eqb_neq _ _) Hconn0). }
  rewrite Hoc in Ho2.
  apply constructed_connect; [done|rewrite Ho2; set_solver|]. intros query_conn w3 h3 Hf3 Ho3. rewrite Ho2 in Ho3.
  rewrite negb_involutive.
  destruct (Z.eqb_spec query_conn 0) as [->|Hquery0];
    [apply constructed_ret; [done|by rewrite Hodb, Hoc, Ho3|done]|].
  assert (Hoq : owner Connection query_conn = [(Connection, query_conn)]).
  { unfold owner. by rewrite (proj2 (Z.eqb_neq _ _) Hquery0). }
  rewrite Hoq in Ho3.
  apply constructed_exec; [done|rewrite Ho3; set_solver|]. intros e1 w4 h4 Hf4 Ho4.
  assert (Hret : forall st w' h', fresh h' -> hd_open h' = hd_open h3 ->
    constructed h w' (own_ret (mkImpl st db conn query_conn) (w', h')) (retM st w')).
  { intros st w' h' Hf' Ho'. apply constructed_ret; [done|by rewrite Hodb, Hoc, Hoq, Ho', Ho3|done]. }
  destruct (has_value e1); cbn [negb]; [|by apply Hret].
  apply constructed_exec; [done|rewrite Ho4, Ho3; set_solver|]. intros e2 w5 h5 Hf5 Ho5. rewrite Ho4 in Ho5.
  destruct (has_value e2); cbn [negb]; [|by apply Hret].
  apply constructed_exec; [done|rewrite Ho5, Ho3; set_solver|]. intros ddl w6 h6 Hf6 Ho6. rewrite Ho5 in Ho6.
  destruct (has_value ddl); cbn [negb]; by apply Hret.
Qed.

(** ** The life of a store *)

(** A call of a member function, or a flush of the background thread; the two
    mutexes are held through a call. *)
Inductive duck_call : Type :=
| CallGet (key : WindowKey)
| CallCompareAndSwap (key : WindowKey) (expected_val new_val : WindowValue)
| CallExpire (key : WindowKey)
| CallUpsertBatch (entries : list (WindowKey * WindowValue))
| CallScanWarmTier
| CallQueryRange (tenant entity window : string) (lo hi : Z)
| CallFlush.

Inductive duck_answer : Type :=
| AnswerValue (r : expected WindowValue StoreError)
| AnswerSwap (r : expected bool StoreError)
| AnswerUnit (r : expected unit StoreError)
| AnswerRows (r : expected (list (WindowKey * WindowValue)) StoreError)
| AnswerSum (r : expected float64 StoreError)
| AnswerFlush.

Definition store_call (x : DuckDbWindowStore) (c : duck_call) : M W duck_answer :=
  match c with
  | CallGet key => do r <- duck_get x key; retM (AnswerValue r)
  | CallCompareAndSwap key e n => do r <- duck_compare_and_swap x key e n; retM (AnswerSwap r)
  | CallExpire key => do r <- duck_expire x key; retM (AnswerUnit r)
  | CallUpsertBatch entries => do r <- DuckDb.upsert_batch x entries; retM (AnswerUnit r)
  | CallScanWarmTier => do r <- DuckDb.scan_warm_tier x; retM (AnswerRows r)
  | CallQueryRange tenant entity window lo hi => do r <- duck_query_range x tenant entity window lo hi; retM (AnswerSum r)
  | CallFlush => do _ <- flush_old_epochs x; retM AnswerFlush
  end.

Definition impl_call (x : Impl) (c : duck_call) : HM W duck_answer :=
  match c with
  | CallGet key => own r <- get failed_handle x key; own_ret (AnswerValue r)
  | CallCompareAndSwap key e n => own r <- compare_and_swap failed_handle x key e n; own_ret (AnswerSwap r)
  | CallExpire key => own r <- expire failed_handle x key; own_ret (AnswerUnit r)
  | CallUpsertBatch entries => own r <- upsert_batch failed_handle x entries; own_ret (AnswerUnit r)
  | CallScanWarmTier => own r <- scan_warm_tier x; own_ret (AnswerRows r)
  | CallQueryRange tenant entity window lo hi =>
      own r <- query_range failed_handle x tenant entity window lo hi; own_ret (AnswerSum r)
  | CallFlush => own _ <- flush_epochs x; own_ret AnswerFlush
  end.

Fixpoint store_calls (x : DuckDbWindowStore) (cs : list duck_call) : M W (list duck_answer) :=
  match cs with
  | [] => retM []
  | c :: cs' => do a <- store_call x c; do answers <- store_calls x cs'; retM (a :: answers)
  end.

Fixpoint impl_calls (x : Impl) (cs : list duck_call) : HM W (list duck_answer) :=
  match cs with
  | [] => own_ret []
  | c :: cs' => own a <- impl_call x c; own answers <- impl_calls x cs'; own_ret (a :: answers)
  end.

(** A store that is constructed, called and destroyed, without handles and with them. *)
Definition store_life (config : DuckDbConfig) (cs : list duck_call) : M W (list duck_answer) :=
  do x <- duck_new config; store_calls x cs.

Definition impl_life (config : DuckDbConfig) (cs : list duck_call) : HM W (list duck_answer) :=
  own x <- impl_new config;
  own answers <- impl_calls x cs;
  own _ <- impl_delete x;
  own_ret answers.

#[local] Hint Resolve get_implements compare_and_swap_implements expire_implements upsert_batch_implements
  scan_warm_tier_implements query_range_implements flush_epochs_implements : handles.

Lemma impl_call_members (x : Impl) (c : duck_call) :
  implements (members x) (impl_call x c) (store_call (im_store x) c).
Proof. destruct c; apply implements_bind; eauto with handles. Qed.

(** A store that is not available uses no handle. *)
Lemma impl_call_unavailable (x : Impl) (c : duck_call) :
  dd_available (im_store x) = false -> implements [] (impl_call x c) (store_call (im_store x) c).
Proof.
  intros Hav. destruct c; apply implements_bind; try (intros; apply implements_ret).
  - unfold get, duck_get. rewrite Hav. apply implements_ret.
  - unfold compare_and_swap, duck_compare_and_swap. rewrite Hav. apply implements_ret.
  - unfold expire, duck_expire. rewrite Hav. apply implements_ret.
  - unfold upsert_batch, DuckDb.upsert_batch. rewrite Hav. apply implements_ret.
  - unfold scan_warm_tier, DuckDb.scan_warm_tier. rewrite Hav. apply implements_ret.
  - unfold query_range, duck_query_range. rewrite Hav. apply implements_ret.
  - unfold flush_epochs, flush_old_epochs. cbn zeta. rewrite Hav. apply implements_ret.
Qed.

Lemma impl_calls_implement (x : Impl) (cs : list duck_call) :
  (dd_available (im_store x) = true -> owned x = members x) ->
  implements (owned x) (impl_calls x cs) (store_calls (im_store x) cs).
Proof.
  intros Hx. assert (Hcall : forall c, implements (owned x) (impl_call x c) (store_call (im_store x) c)).
  { intros c. destruct (dd_available (im_store x)) eqn:Hav.
    - rewrite Hx by done. apply impl_call_members.
    - apply (implements_weaken []); [set_solver|]. by apply impl_call_unavailable. }
  induction cs as [|c cs IH]; cbn [impl_calls store_calls]; [apply implements_ret|].
  apply implements_bind; [apply Hcall|]. intros a. apply implements_bind; [apply IH|]. intros answers. apply implements_ret.
Qed.

(** C23: the store with the owners of its handles refines the store without them.
    However its construction ends and whatever is called, no handle is used that
    is not open and none is released twice or out of order, the answers and the
    effects on the database are those of DuckDb.v, and nothing is left open when
    the store is gone. *)
Theorem handles_refine_store (config : DuckDbConfig) (cs : list duck_call) (w : W) :
  exists last, impl_life config cs (w, no_handles) =
    Some ((store_life config cs w).1, ((store_life config cs w).2, mkHandles last [])).
Proof.
  destruct (impl_new_constructed config w no_handles) as (x & h & Hnew & Hst & Hf & Ho & Hx).
  { split; [done|apply Forall_nil_2]. }
  unfold impl_life, store_life, own_bind, bindM. rewrite Hnew. destruct (duck_new config w) as [s w1]. cbn [fst snd] in *. subst s.
  cbn in Ho. rewrite app_nil_r in Ho.
  destruct (impl_calls_implement x cs Hx w1 h Hf) as (h1 & Hcalls & _ & Ho1); [by rewrite Ho|].
  rewrite Hcalls. rewrite (impl_delete_owned x _ h1 []) by (by rewrite Ho1, Ho, app_nil_r). by exists (hd_next h1).
Qed.

End Lifetime.
