(* ===== verification/WriteBack.v ===== *)
(** * WriteBackWindowStore: the in-process store with DuckDB behind it

    include/fre/state/write_back_window_store.hpp and
    src/state/write_back_window_store.cpp.  Calls answer from the in-process
    store and mark keys; a flush takes the marked keys, reads their current
    values and writes them to the database; the constructor reads the database
    back.  The operations here are calls that run alone; WriteBackFlush.v has
    the steps of a flush that interleave with calls. *)

From S2P Require Import Prelude Ieee CoreTypes Errors StateStore Evaluators DuckDb DuckDbStore.

Open Scope list_scope.
Open Scope Z_scope.

(** The order a [std::unordered_set] is walked in. *)
Class UnorderedSet : Type := {
  set_order : gset WindowKey -> list WindowKey;
  set_order_perm : forall X, set_order X ≡ₚ elements X
}.

#[export] Instance elements_order : UnorderedSet := { set_order := elements; set_order_perm := fun _ => reflexivity _ }.

Record WriteBackConfig : Type := mkWriteBackConfig { wb_flush_interval_ms : Z }.

Record WriteBackWindowStore : Type := mkWriteBack {
  wb_primary : InProcessWindowStore;
  wb_warm : DuckDbWindowStore;
  wb_config : WriteBackConfig;
  wb_dirty : gset WindowKey;      (** keys written since the last flush *)
  wb_expired : gset WindowKey;    (** keys expired since the last flush *)
  wb_flush_thread : bool          (** the background thread was started *)
}.

Definition set_primary (x : WriteBackWindowStore) (p : InProcessWindowStore) : WriteBackWindowStore :=
  mkWriteBack p (wb_warm x) (wb_config x) (wb_dirty x) (wb_expired x) (wb_flush_thread x).

Definition set_marks (x : WriteBackWindowStore) (dirty expired : gset WindowKey) : WriteBackWindowStore :=
  mkWriteBack (wb_primary x) (wb_warm x) (wb_config x) dirty expired (wb_flush_thread x).

(** [dirty_set_.insert(key)], for each key of a set. *)
Definition mark_dirty (keys : gset WindowKey) (x : WriteBackWindowStore) : WriteBackWindowStore :=
  set_marks x (keys ∪ wb_dirty x) (wb_expired x).

(** [dirty_set_.erase(key); expired_set_.insert(key)]. *)
Definition mark_expired (key : WindowKey) (x : WriteBackWindowStore) : WriteBackWindowStore :=
  set_marks x (wb_dirty x ∖ {[ key ]}) ({[ key ]} ∪ wb_expired x).

(** Both sets swapped with empty ones. *)
Definition clear_marks (x : WriteBackWindowStore) : WriteBackWindowStore := set_marks x ∅ ∅.

Section WriteBack.

Context {W : Type} `{Clock W} `{DuckDbEngine W} `{StdHash} `{UnorderedSet}.

(** Calls act on the world and the store object. *)
Definition WBM (A : Type) : Type := M (W * WriteBackWindowStore) A.

Definition on_primary {A : Type} (m : M InProcessWindowStore A) : WBM A := fun '(w, x) =>
  let '(a, p) := m (wb_primary x) in (a, (w, set_primary x p)).

Definition on_warm {A : Type} (m : DuckDbWindowStore -> M W A) : WBM A := fun '(w, x) =>
  let '(a, w') := m (wb_warm x) w in (a, (w', x)).

(** Under [dirty_mu_]. *)
Definition on_marks (f : WriteBackWindowStore -> WriteBackWindowStore) : WBM unit := fun '(w, x) => (tt, (w, f x)).

Definition wb_get (key : WindowKey) : WBM (expected WindowValue StoreError) := on_primary (inprocess_get key).

Definition wb_compare_and_swap (key : WindowKey) (expected_val new_val : WindowValue)
    : WBM (expected bool StoreError) :=
  do result <- on_primary (inprocess_cas key expected_val new_val);
  match result with
  | Ok true => do _ <- on_marks (mark_dirty {[ key ]}); retM result
  | _ => retM result
  end.

Definition wb_expire (key : WindowKey) : WBM (expected unit StoreError) :=
  do result <- on_primary (inprocess_expire key);
  match result with
  | Ok _ => do _ <- on_marks (mark_expired key); retM result
  | Unexpected _ => retM result
  end.

(** [is_available()]: always. *)
Definition wb_available (x : WriteBackWindowStore) : bool := true.

Definition wb_tick (now : Z) : WBM unit := fun '(w, x) => (tt, (w, set_primary x (inprocess_tick now (wb_primary x)))).

Definition wb_register_expiry_callback : WBM unit := fun '(w, x) =>
  (tt, (w, set_primary x (register_expiry_callback (wb_primary x)))).

(** The current values of the keys of a flush. *)
Fixpoint read_batch (keys : list WindowKey) : WBM (list (WindowKey * WindowValue)) :=
  match keys with
  | [] => retM []
  | key :: keys' =>
      do val <- on_primary (inprocess_get key);
      do batch <- read_batch keys';
      match val with
      | Ok v => retM ((key, v) :: batch)
      | Unexpected _ => retM batch
      end
  end.

Definition flush_dirty (dirty_snap : gset WindowKey) : WBM unit := fun s =>
  if decide (dirty_snap = ∅) then (tt, s)
  else if dd_available (wb_warm s.2) then
    (do batch <- read_batch (set_order dirty_snap);
     do upsert_result <- on_warm (fun d => upsert_batch d batch);
     if has_value upsert_result then retM tt else on_marks (mark_dirty dirty_snap)) s
  else on_marks (mark_dirty dirty_snap) s.

Fixpoint flush_expired (keys : list WindowKey) : WBM unit :=
  match keys with
  | [] => retM tt
  | key :: keys' => do _ <- on_warm (fun d => duck_expire d key); flush_expired keys'
  end.

Definition do_flush (dirty_snap expired_snap : gset WindowKey) : WBM unit :=
  do _ <- flush_dirty dirty_snap;
  flush_expired (set_order expired_snap).

Definition flush_sync : WBM unit := fun '(w, x) =>
  do_flush (wb_dirty x) (wb_expired x) (w, clear_marks x).

Definition wb_query_range (tenant entity window : string) (lo hi : Z) : WBM (expected float64 StoreError) := fun s =>
  if negb (dd_available (wb_warm s.2)) then (Unexpected duck_unavailable, s)
  else (do _ <- flush_sync; on_warm (fun d => duck_query_range d tenant entity window lo hi)) s.

(** Each row of the database seeds the in-process store by a compare_and_swap
    from [WindowValue{}]. *)
Fixpoint seed_rows (rows : list (WindowKey * WindowValue)) : M InProcessWindowStore unit :=
  match rows with
  | [] => retM tt
  | (key, val) :: rows' => do _ <- inprocess_cas key WindowValue_zero val; seed_rows rows'
  end.

Definition load_warm_tier : WBM unit :=
  do rows <- on_warm scan_warm_tier;
  match rows with
  | Unexpected _ => retM tt
  | Ok rows => on_primary (seed_rows rows)
  end.

Definition wb_new (primary : InProcessWindowStore) (warm : DuckDbWindowStore) (config : WriteBackConfig)
    : M W WriteBackWindowStore := fun w =>
  let x := mkWriteBack primary warm config ∅ ∅ (Z.ltb 0 (wb_flush_interval_ms config)) in
  let '(_, (w', x')) := (if dd_available warm then load_warm_tier else retM tt) (w, x) in (x', w').

(** The destructor; the background thread has ended. *)
Definition wb_delete : WBM unit := flush_sync.

(** [run_flush_loop]; [fuel] bounds its turns. *)
Fixpoint wb_flush_loop (fuel : nat) : WBM unit :=
  match fuel with
  | O => retM tt
  | S fuel' =>
      do stop <- on_warm (fun _ => stop_requested);
      if (stop : bool) then retM tt else
      do _ <- (fun s => on_warm (fun _ => sleep_for (wb_flush_interval_ms (wb_config s.2) * ns_per_ms)) s);
      do stop' <- on_warm (fun _ => stop_requested);
      if (stop' : bool) then retM tt else
      do _ <- flush_sync;
      wb_flush_loop fuel'
  end.

(** The store as a [StateStore] and as a [RangeQueryStore]. *)
#[export] Instance wb_store : StateStore (W * WriteBackWindowStore) := {
  store_get := wb_get;
  store_cas := wb_compare_and_swap;
  store_expire := wb_expire;
  store_available := fun s => wb_available s.2
}.

#[export] Instance wb_range : Historical.RangeQueryStore (W * WriteBackWindowStore) := {
  Historical.query_range := wb_query_range
}.

End WriteBack.

(** ** Specification vocabulary *)

Section Vocabulary.

Context {W : Type} `{DuckDbLaws W} `{StdHash} `{UnorderedSet}.

(** Keys that neither the in-process store nor the database confuses. *)
Definition wb_key (k : WindowKey) : Prop := plain_key k /\ sql_key k.

(** The current value of a key, and the one stored for good. *)
Definition wb_view (wx : W * WriteBackWindowStore) (k : WindowKey) : WindowValue := inprocess_view (wb_primary wx.2) k.
Definition stored (wx : W * WriteBackWindowStore) (k : WindowKey) : WindowValue := map_value (committed wx.1) k.

(** Calls of clients and of the background thread. *)
Inductive wb_call : Type :=
| WbOp (o : store_op)
| WbFlush
| WbQuery (tenant entity window : string) (lo hi : Z)
| WbTick (now : Z)
| WbRegister.

(** The replies of the operations among the calls. *)
Definition run_call (c : wb_call) : WBM (list store_reply) :=
  match c with
  | WbOp o => do r <- run_op o; retM [r]
  | WbFlush => do _ <- flush_sync; retM []
  | WbQuery tenant entity window lo hi => do _ <- wb_query_range tenant entity window lo hi; retM []
  | WbTick now => do _ <- wb_tick now; retM []
  | WbRegister => do _ <- wb_register_expiry_callback; retM []
  end.

Fixpoint run_calls (cs : list wb_call) : WBM (list store_reply) :=
  match cs with
  | [] => retM []
  | c :: cs' => do r <- run_call c; do rs <- run_calls cs'; retM (r ++ rs)
  end.

Definition op_of (c : wb_call) : list store_op := match c with WbOp o => [o] | _ => [] end.

Definition call_ok (c : wb_call) : Prop :=
  match c with WbOp o => wb_key (op_key o) | _ => True end.

(** The call does not expire [k]. *)
Definition keeps (k : WindowKey) (c : wb_call) : Prop :=
  match c with WbOp (OpExpire j) => j <> k | _ => True end.

(** Between calls: marks and rows are of good keys, and a key that was not
    expired is marked or stored. *)
Definition wb_inv (alive : WindowKey -> Prop) (wx : W * WriteBackWindowStore) : Prop :=
  inprocess_ok (wb_primary wx.2) /\
  (forall k, k ∈ wb_dirty wx.2 \/ k ∈ wb_expired wx.2 \/ is_Some (committed wx.1 !! k) -> wb_key k) /\
  (forall k, wb_key k -> alive k ->
     k ∉ wb_expired wx.2 /\ (k ∉ wb_dirty wx.2 -> stored wx k = wb_view wx k)).

End Vocabulary.

(** Sample: the live row of the sample database, written once more. *)
Definition sample_wb_config : WriteBackConfig := mkWriteBackConfig 500.
Definition sample_db_live : sample_db := mkSampleDb {[ live_key := mkWindowValue f64_one 1 ]} None ∅ never.
Definition sample_value : WindowValue := mkWindowValue (f64_of_Z 2) 2.
Definition sample_calls : list wb_call :=
  [WbOp (OpCas live_key (mkWindowValue f64_one 1) sample_value); WbFlush; WbOp (OpGet live_key)].
(** The row is expired, then written again before the next flush. *)
Definition revive_calls : list wb_call :=
  [WbOp (OpExpire live_key); WbOp (OpCas live_key WindowValue_zero sample_value); WbOp (OpGet live_key)].

(** ** Lemmas *)

Section Lemmas.

Context {W : Type} `{DuckDbLaws W} `{StdHash} `{UnorderedSet}.

Lemma set_primary_same (x : WriteBackWindowStore) : set_primary x (wb_primary x) = x.
Proof. by destruct x. Qed.

Lemma on_primary_get (k : WindowKey) (wx : W * WriteBackWindowStore) :
  on_primary (inprocess_get k) wx = (Ok (wb_view wx k), wx).
Proof. destruct wx as [w x]. simpl. by rewrite inprocess_get_spec, set_primary_same. Qed.

Lemma read_batch_spec (keys : list WindowKey) (wx : W * WriteBackWindowStore) :
  read_batch keys wx = (map (fun k => (k, wb_view wx k)) keys, wx).
Proof.
  induction keys as [|k keys IH]; [done|]. cbn [read_batch]. unfold bindM. rewrite on_primary_get, IH. done.
Qed.

(** The dirty half of a flush, whatever the database does: all marked keys are
    stored and unmarked, or none is and they stay marked. *)
Lemma flush_dirty_spec (snap : gset WindowKey) (wx : W * WriteBackWindowStore) :
  (forall k, k ∈ snap -> wb_key k) ->
  let wx' := (flush_dirty snap wx).2 in
  wb_primary wx'.2 = wb_primary wx.2 /\ wb_warm wx'.2 = wb_warm wx.2 /\ wb_expired wx'.2 = wb_expired wx.2 /\
  ((wb_dirty wx'.2 = wb_dirty wx.2 /\
    forall j, committed wx'.1 !! j = if decide (j ∈ snap) then Some (wb_view wx j) else committed wx.1 !! j) \/
   (wb_dirty wx'.2 = snap ∪ wb_dirty wx.2 /\ committed wx'.1 = committed wx.1)).
Proof.
  intros Hsnap. unfold flush_dirty. case_decide as He.
  { simpl. split_and!; [done..|]. left. split; [done|]. intros j. by rewrite decide_False by set_solver. }
  destruct wx as [w x]. simpl. destruct (dd_available (wb_warm x)); [|simpl; split_and!; [done..|]; by right].
  unfold bindM. rewrite read_batch_spec. simpl.
  pose proof (upsert_batch_atomic (wb_warm x) (map (fun k => (k, wb_view (w, x) k)) (set_order snap)) w) as Hup.
  destruct (upsert_batch _ _ w) as [[[]|err] w1]; simpl in *; (split_and!; [done..|]); [left|by right].
  split; [done|]. intros j. rewrite Hup, put_rows_lookup.
  - destruct (decide (j ∈ set_order snap)) as [Hi|Hi]; rewrite set_order_perm, elem_of_elements in Hi.
    + by rewrite decide_True.
    + by rewrite decide_False.
  - apply Forall_forall. intros k. rewrite set_order_perm, elem_of_elements. intros Hk. by apply Hsnap.
Qed.

(** The expired half: other keys keep their rows. *)
Lemma flush_expired_spec (keys : list WindowKey) : forall (wx : W * WriteBackWindowStore),
  Forall sql_key keys ->
  let wx' := (flush_expired keys wx).2 in
  wx'.2 = wx.2 /\
  forall j, committed wx'.1 !! j = committed wx.1 !! j \/ (j ∈ keys /\ committed wx'.1 !! j = None).
Proof.
  induction keys as [|k keys IH]; intros [w x] Hks; [by split; [|left]|].
  apply Forall_cons in Hks as [Hk Hks]. cbn [flush_expired]. unfold bindM, on_warm. simpl.
  pose proof (fun j => duck_expire_committed (wb_warm x) k j w) as He. rewrite Hk in He.
  destruct (duck_expire (wb_warm x) k w) as [r w1]. simpl in *.
  destruct (IH (w1, x) Hks) as [-> Hj]. split; [done|]. intros j. destruct (Hj j) as [->|[Hin ->]]; simpl.
  - destruct (He j) as [->|[-> ->]]; [by left|right]. split; [left|done].
  - right. split; [by right|done].
Qed.

(** A whole flush. *)
Lemma flush_sync_spec (wx : W * WriteBackWindowStore) :
  (forall k, k ∈ wb_dirty wx.2 \/ k ∈ wb_expired wx.2 -> wb_key k) ->
  let wx' := (flush_sync wx).2 in
  wb_primary wx'.2 = wb_primary wx.2 /\ wb_warm wx'.2 = wb_warm wx.2 /\ wb_expired wx'.2 = ∅ /\
  exists rows : window_table,
    ((wb_dirty wx'.2 = ∅ /\
      forall j, rows !! j = if decide (j ∈ wb_dirty wx.2) then Some (wb_view wx j) else committed wx.1 !! j) \/
     (wb_dirty wx'.2 = wb_dirty wx.2 /\ rows = committed wx.1)) /\
    forall j, committed wx'.1 !! j = rows !! j \/ (j ∈ wb_expired wx.2 /\ committed wx'.1 !! j = None).
Proof.
  destruct wx as [w x]. simpl. intros Hkeys. unfold do_flush, bindM.
  pose proof (flush_dirty_spec (wb_dirty x) (w, clear_marks x) (fun k Hk => Hkeys k (or_introl Hk))) as Hd.
  destruct (flush_dirty (wb_dirty x) (w, clear_marks x)) as [[] wx1]. simpl in Hd. destruct Hd as (Hp & Hwm & He & Hd).
  assert (Hsql : Forall sql_key (set_order (wb_expired x))).
  { apply Forall_forall. intros k. rewrite set_order_perm, elem_of_elements. intros Hk.
    apply (Hkeys k). by right. }
  destruct (flush_expired_spec _ wx1 Hsql) as [-> Hj]. rewrite Hp, Hwm, He. split_and!; [done..|].
  exists (committed wx1.1). split.
  - destruct Hd as [[Hd1 Hd2]|[Hd1 Hd2]]; [left|right]; split; [done|done| |done].
    rewrite Hd1. set_solver.
  - intros j. destruct (Hj j) as [Hc|[Hin Hc]]; [by left|right]. split; [|done].
    by rewrite set_order_perm, elem_of_elements in Hin.
Qed.

Lemma flush_sync_inv (alive : WindowKey -> Prop) (wx : W * WriteBackWindowStore) :
  wb_inv alive wx -> wb_inv alive (flush_sync wx).2.
Proof.
  intros (Hok & Hkeys & Halive).
  destruct (flush_sync_spec wx) as (Hp & _ & He & rows & Hrows & Hc); [intros k [?|?]; apply Hkeys; auto|].
  unfold wb_inv, stored, wb_view in *. rewrite Hp, He. split_and!; [done| |].
  - intros k Hk. destruct Hk as [Hk|[Hk|Hk]].
    + destruct Hrows as [[Hd _]|[Hd _]]; rewrite Hd in Hk; [set_solver|auto].
    + set_solver.
    + destruct (Hc k) as [Heq|[_ Hn]]; [|by rewrite Hn in Hk; destruct Hk]. rewrite Heq in Hk.
      destruct Hrows as [[_ Hr]|[_ ->]]; [|auto]. rewrite Hr in Hk. case_decide; auto.
  - intros k Hk Ha. destruct (Halive k Hk Ha) as [Hne Hst]. split; [set_solver|]. intros Hnd.
    assert (Heq : committed (flush_sync wx).2.1 !! k = rows !! k) by (destruct (Hc k) as [?|[? _]]; [done|set_solver]).
    unfold map_value. rewrite Heq. destruct Hrows as [[_ Hr]|[Hd ->]].
    + rewrite Hr. case_decide; [done|]. by apply Hst.
    + apply Hst. by rewrite <- Hd.
Qed.

(** What an operation does to the in-process store and to the marks. *)
Lemma run_op_spec (o : store_op) (wx : W * WriteBackWindowStore) :
  inprocess_ok (wb_primary wx.2) -> plain_key (op_key o) ->
  let wx' := (run_op o wx).2 in
  (run_op o wx).1 = (run_op o (wb_primary wx.2)).1 /\ wb_primary wx'.2 = (run_op o (wb_primary wx.2)).2 /\
  wx'.1 = wx.1 /\ wb_warm wx'.2 = wb_warm wx.2 /\
  match o with
  | OpGet _ => wb_dirty wx'.2 = wb_dirty wx.2 /\ wb_expired wx'.2 = wb_expired wx.2
  | OpCas k e n => wb_expired wx'.2 = wb_expired wx.2 /\
      wb_dirty wx'.2 = (if Z.eqb (wv_version (wb_view wx k)) (wv_version e) then {[ k ]} else ∅) ∪ wb_dirty wx.2
  | OpExpire k => wb_dirty wx'.2 = wb_dirty wx.2 ∖ {[ k ]} /\ wb_expired wx'.2 = {[ k ]} ∪ wb_expired wx.2
  end.
Proof.
  destruct wx as [w x]. intros Hok Hk. unfold wb_view.
  destruct o as [k|k e n|k]; simpl in *; unfold wb_get, wb_compare_and_swap, wb_expire, bindM, retM; simpl.
  - by rewrite inprocess_get_spec.
  - destruct (inprocess_cas_spec k e n (wb_primary x) Hok Hk) as (p & -> & _). simpl.
    destruct (Z.eqb _ _); simpl; split_and!; try done. set_solver.
  - destruct (inprocess_expire_spec k (wb_primary x) Hok Hk) as (p & -> & _). by simpl.
Qed.

Lemma run_op_view (o : store_op) (p : InProcessWindowStore) :
  inprocess_ok p -> plain_key (op_key o) ->
  let p' := (run_op o p).2 in
  inprocess_ok p' /\ forall j, plain_key j -> inprocess_view p' j =
    match o with
    | OpGet _ => inprocess_view p j
    | OpCas k e n =>
        if (bool_decide (j = k) && Z.eqb (wv_version (inprocess_view p k)) (wv_version e))%bool then n else inprocess_view p j
    | OpExpire k => if bool_decide (j = k) then WindowValue_zero else inprocess_view p j
    end.
Proof.
  intros Hok Hk. destruct o as [k|k e n|k]; simpl in *; unfold bindM, retM.
  - by rewrite inprocess_get_spec.
  - by destruct (inprocess_cas_spec k e n p Hok Hk) as (p' & -> & ? & ?).
  - by destruct (inprocess_expire_spec k p Hok Hk) as (p' & -> & ? & ?).
Qed.

Lemma run_op_inv (alive : WindowKey -> Prop) (o : store_op) (wx : W * WriteBackWindowStore) :
  wb_key (op_key o) -> (forall k, alive k -> keeps k (WbOp o)) -> wb_inv alive wx -> wb_inv alive (run_op o wx).2.
Proof.
  intros [Hk Hsql] Hkeep (Hok & Hkeys & Halive).
  destruct (run_op_spec o wx Hok Hk) as (_ & Hp & Hw & _ & Hmarks).
  destruct (run_op_view o (wb_primary wx.2) Hok Hk) as [Hok' Hview].
  unfold wb_inv, stored, wb_view in *. rewrite Hp, Hw. split_and!; [done| |].
  - intros k Hin. destruct (decide (k = op_key o)) as [->|Hne]; [done|]. apply Hkeys.
    destruct o as [j|j e n|j]; simpl in *; destruct Hmarks as [Hm1 Hm2]; rewrite Hm1, Hm2 in Hin; [done| |set_solver].
    destruct (Z.eqb _ _); set_solver.
  - intros k Hkk Ha. destruct (Halive k Hkk Ha) as [Hne Hst]. rewrite Hview by apply Hkk. specialize (Hkeep k Ha).
    destruct o as [j|j e n|j]; simpl in *; destruct Hmarks as [Hm1 Hm2]; rewrite Hm1, Hm2; [done| |].
    + split; [done|]. intros Hnd. destruct (Z.eqb _ _); rewrite ?andb_true_r, ?andb_false_r.
      * rewrite bool_decide_eq_false_2 by set_solver. apply Hst. set_solver.
      * apply Hst. set_solver.
    + split; [set_solver|]. intros Hnd. rewrite bool_decide_eq_false_2 by done. apply Hst. set_solver.
Qed.

Lemma run_call_inv (alive : WindowKey -> Prop) (c : wb_call) (wx : W * WriteBackWindowStore) :
  call_ok c -> (forall k, alive k -> keeps k c) -> wb_inv alive wx -> wb_inv alive (run_call c wx).2.
Proof.
  intros Hc Hkeep Hinv. destruct c as [o| |t e n lo hi|now|]; simpl.
  - pose proof (run_op_inv alive o wx Hc Hkeep Hinv) as Ho. unfold bindM, retM. by destruct (run_op o wx) as [r wx'].
  - unfold bindM, retM. pose proof (flush_sync_inv alive wx Hinv) as Hf. by destruct (flush_sync wx) as [[] wx'].
  - unfold bindM, wb_query_range. destruct (negb _); [done|]. unfold bindM.
    pose proof (flush_sync_inv alive wx Hinv) as Hf. destruct (flush_sync wx) as [[] [w1 x1]]. simpl.
    pose proof (duck_query_range_committed (wb_warm x1) t e n lo hi w1) as [Ht Hs].
    destruct (duck_query_range (wb_warm x1) t e n lo hi w1) as [r w2]. simpl in *.
    unfold wb_inv, stored, committed in *. simpl in *. by rewrite Ht, Hs.
  - destruct wx as [w x]. unfold bindM, retM, wb_tick. simpl. unfold inprocess_tick. by rewrite set_primary_same.
  - destruct wx as [w x]. exact Hinv.
Qed.

Lemma run_calls_inv (alive : WindowKey -> Prop) (cs : list wb_call) : forall (wx : W * WriteBackWindowStore),
  Forall call_ok cs -> (forall k, alive k -> Forall (keeps k) cs) -> wb_inv alive wx -> wb_inv alive (run_calls cs wx).2.
Proof.
  induction cs as [|c cs IH]; intros wx Hcs Hkeep Hinv; [done|]. apply Forall_cons in Hcs as [Hc Hcs].
  cbn [run_calls]. unfold bindM, retM. pose proof (run_call_inv alive c wx Hc) as Hstep.
  destruct (run_call c wx) as [r wx1]. specialize (IH wx1 Hcs).
  destruct (run_calls cs wx1) as [rs wx2]. apply IH.
  - intros k Ha. by apply Hkeep, Forall_cons in Ha as [_ ?].
  - apply Hstep; [|done]. intros k Ha. by apply Hkeep, Forall_cons in Ha as [? _].
Qed.

(** No call but an operation changes the in-process store. *)
Lemma run_call_primary (c : wb_call) (alive : WindowKey -> Prop) (wx : W * WriteBackWindowStore) :
  call_ok c -> wb_inv alive wx ->
  (forall m : window_table, (forall k, plain_key k -> wb_view wx k = map_value m k) ->
    (run_call c wx).1 = (spec_ops (op_of c) m).1 /\
    forall k, plain_key k -> wb_view (run_call c wx).2 k = map_value (spec_ops (op_of c) m).2 k).
Proof.
  intros Hc (Hok & Hkeys & _) m Hm. unfold wb_view in *. destruct c as [o| |t e n lo hi|now|]; simpl.
  - destruct Hc as [Hk _]. unfold bindM, retM.
    destruct (run_op_spec o wx Hok Hk) as (Hr & Hp & _).
    pose proof (run_op_refines o (wb_primary wx.2) m) as Href. destruct (Href Hok Hk Hm) as (Hr' & _ & Hv).
    destruct (run_op o wx) as [r wx']. simpl in *. rewrite Hp, Hr, Hr'. by destruct (spec_op o m).
  - unfold bindM, retM. destruct (flush_sync_spec wx) as (Hp & _); [intros k [?|?]; apply Hkeys; auto|].
    destruct (flush_sync wx) as [[] wx']. simpl in *. by rewrite Hp.
  - unfold bindM, retM, wb_query_range. destruct (negb _); [done|]. unfold bindM.
    destruct (flush_sync_spec wx) as (Hp & _); [intros k [?|?]; apply Hkeys; auto|].
    destruct (flush_sync wx) as [[] [w1 x1]]. simpl in *.
    destruct (duck_query_range (wb_warm x1) t e n lo hi w1) as [r w2]. simpl. by rewrite Hp.
  - by destruct wx.
  - by destruct wx.
Qed.

Lemma run_calls_spec (alive : WindowKey -> Prop) (cs : list wb_call) :
  forall (wx : W * WriteBackWindowStore) (m : window_table),
  Forall call_ok cs -> (forall k, alive k -> Forall (keeps k) cs) -> wb_inv alive wx ->
  (forall k, plain_key k -> wb_view wx k = map_value m k) ->
  (run_calls cs wx).1 = (spec_ops (flat_map op_of cs) m).1 /\
  forall k, plain_key k -> wb_view (run_calls cs wx).2 k = map_value (spec_ops (flat_map op_of cs) m).2 k.
Proof.
  induction cs as [|c cs IH]; intros wx m Hcs Hkeep Hinv Hm; [done|]. apply Forall_cons in Hcs as [Hc Hcs].
  destruct (run_call_primary c alive wx Hc Hinv m Hm) as [Hr Hv].
  assert (Hinv' : wb_inv alive (run_call c wx).2).
  { apply run_call_inv; [done| |done]. intros k Ha. by apply Hkeep, Forall_cons in Ha as [? _]. }
  cbn [run_calls]. unfold bindM, retM. destruct (run_call c wx) as [r wx1]. simpl in Hr, Hv, Hinv'.
  assert (Hkeep2 : forall k, alive k -> Forall (keeps k) cs).
  { intros k Ha. apply Hkeep in Ha. by apply Forall_cons in Ha as [_ Ha]. }
  destruct (IH wx1 _ Hcs Hkeep2 Hinv' Hv) as [Hrs Hv2].
  destruct (run_calls cs wx1) as [rs wx2]. simpl in *. subst r rs.
  destruct c as [o| | | |]; simpl in *; try done.
  destruct (spec_op o m) as [r1 m1]. simpl in *. by destruct (spec_ops (flat_map op_of cs) m1).
Qed.

(** Seeding an in-process store whose entries for the rows are empty. *)
Lemma seed_rows_spec (rows : list (WindowKey * WindowValue)) : forall (p : InProcessWindowStore),
  inprocess_ok p -> NoDup rows.*1 -> Forall plain_key rows.*1 ->
  (forall k, k ∈ rows.*1 -> inprocess_view p k = WindowValue_zero) ->
  let p' := (seed_rows rows p).2 in
  inprocess_ok p' /\ forall j, plain_key j ->
    (forall v, (j, v) ∈ rows -> inprocess_view p' j = v) /\ (j ∉ rows.*1 -> inprocess_view p' j = inprocess_view p j).
Proof.
  induction rows as [|[k v] rows IH]; intros p Hok Hnd Hpl Hz; cbn [seed_rows].
  { split; [done|]. intros j _. split; [by intros v ?%not_elem_of_nil|done]. }
  simpl in *. apply NoDup_cons in Hnd as [Hni Hnd]. apply Forall_cons in Hpl as [Hk Hpl]. unfold bindM.
  destruct (inprocess_cas_spec k WindowValue_zero v p Hok Hk) as (p1 & -> & Hok1 & Hv1).
  rewrite (Hz k) in Hv1 by left. simpl in Hv1.
  destruct (IH p1 Hok1 Hnd Hpl) as [Hok2 Hv2].
  { intros j Hj. rewrite Hv1 by (rewrite Forall_forall in Hpl; by apply Hpl). rewrite bool_decide_eq_false_2; simpl.
    - apply Hz. by right.
    - by intros ->. }
  split; [done|]. intros j Hj. destruct (Hv2 j Hj) as [Hin Hout]. split.
  - intros v' [[= -> ->]|Hin']%elem_of_cons; [|by apply Hin].
    rewrite Hout by done. rewrite Hv1 by done. by rewrite bool_decide_eq_true_2.
  - intros Hni'. apply not_elem_of_cons in Hni' as [Hne Hni']. rewrite Hout, Hv1 by done.
    by rewrite bool_decide_eq_false_2.
Qed.

(** A store over a database that does not fail starts with its rows. *)
Lemma wb_new_spec (n : Z) (warm : DuckDbWindowStore) (config : WriteBackConfig) (w : W) :
  0 < n -> dd_available warm = true -> db_reliable w -> db_saved w = None ->
  (forall k, is_Some (db_table w !! k) -> wb_key k) ->
  let '(x, w') := wb_new (inprocess_new n) warm config w in
  wb_inv (fun _ => True) (w', x) /\ wb_warm x = warm /\ db_reliable w' /\ db_saved w' = None /\
  db_table w' = db_table w /\ wb_dirty x = ∅ /\ wb_expired x = ∅ /\
  forall k, plain_key k -> wb_view (w', x) k = map_value (db_table w) k.
Proof.
  intros Hn Hav Hrel Hs Hkeys. unfold wb_new, load_warm_tier, bindM, retM, on_warm, on_primary. rewrite Hav. simpl.
  destruct (scan_warm_tier_reliable warm w Hav Hrel Hs) as (rows & w1 & -> & Hperm & Ht & Hs1 & Hrel1). simpl.
  assert (Hrow : forall k v, (k, v) ∈ rows <-> db_table w !! k = Some v).
  { intros k v. by rewrite Hperm, elem_of_map_to_list. }
  assert (Hnd : NoDup rows.*1) by (rewrite Hperm; apply NoDup_fst_map_to_list).
  destruct (seed_rows_spec rows (inprocess_new n) (inprocess_new_ok n Hn) Hnd) as [Hok Hview].
  { apply Forall_forall. intros k Hk. apply list_elem_of_fmap in Hk as ([k' v] & -> & Hin).
    apply Hrow in Hin. by destruct (Hkeys k' ltac:(by eexists)). }
  { intros k _. apply inprocess_new_view. }
  destruct (seed_rows rows (inprocess_new n)) as [[] p]. simpl in *.
  assert (Hv : forall k, plain_key k -> inprocess_view p k = map_value (db_table w) k).
  { intros k Hk. destruct (Hview k Hk) as [Hin Hout]. unfold map_value. destruct (db_table w !! k) as [v|] eqn:Hl.
    - by apply Hin, Hrow.
    - rewrite Hout; [apply inprocess_new_view|]. intros Hk'. apply list_elem_of_fmap in Hk' as ([k' v] & -> & Hin').
      apply Hrow in Hin'. simpl in Hl. congruence. }
  split_and!; try done. unfold wb_inv, stored, wb_view, committed. simpl. rewrite Hs1. simpl. rewrite Ht. split_and!.
  - done.
  - intros k [Hk|[Hk|Hk]]; [set_solver|set_solver|by apply Hkeys].
  - intros k [Hk _] _. split; [set_solver|]. intros _. symmetry. by apply Hv.
Qed.

(** The expired half of a flush on a database that does not fail. *)
Lemma flush_expired_reliable (keys : list WindowKey) : forall (w : W) (x : WriteBackWindowStore),
  dd_available (wb_warm x) = true -> db_reliable w -> db_saved w = None -> Forall sql_key keys ->
  let '(_, (w', x')) := flush_expired keys (w, x) in
  x' = x /\ db_reliable w' /\ db_saved w' = None /\
  forall j, db_table w' !! j = if decide (j ∈ keys) then None else db_table w !! j.
Proof.
  induction keys as [|k keys IH]; intros w x Hav Hrel Hs Hks; [done|]. apply Forall_cons in Hks as [Hk Hks].
  cbn [flush_expired]. unfold bindM, on_warm.
  destruct (duck_expire_reliable (wb_warm x) k w Hav Hrel Hs Hk) as (Hrel1 & Hs1 & Ht1).
  destruct (duck_expire (wb_warm x) k w) as [r w1]. simpl in *. specialize (IH w1 x Hav Hrel1 Hs1 Hks).
  destruct (flush_expired keys (w1, x)) as [[] [w2 x2]]. destruct IH as (-> & Hrel2 & Hs2 & Ht2).
  split_and!; [done..|]. intros j. rewrite Ht2, Ht1. destruct (decide (j ∈ keys)) as [Hin|Hni].
  - by rewrite decide_True by (by right).
  - destruct (decide (j = k)) as [->|Hne]; [by rewrite lookup_delete_eq, decide_True by left|].
    by rewrite lookup_delete_ne, decide_False by set_solver.
Qed.

(** A flush on a database that does not fail. *)
Lemma flush_sync_reliable (w : W) (x : WriteBackWindowStore) :
  dd_available (wb_warm x) = true -> db_reliable w -> db_saved w = None ->
  (forall k, k ∈ wb_dirty x \/ k ∈ wb_expired x -> wb_key k) ->
  let '(_, (w', x')) := flush_sync (w, x) in
  x' = clear_marks x /\ db_reliable w' /\ db_saved w' = None /\
  forall j, db_table w' !! j =
    if decide (j ∈ wb_expired x) then None
    else if decide (j ∈ wb_dirty x) then Some (wb_view (w, x) j) else db_table w !! j.
Proof.
  intros Hav Hrel Hs Hkeys. unfold flush_sync, do_flush, bindM.
  assert (Hsql : forall X : gset WindowKey, (forall k, k ∈ X -> wb_key k) -> Forall sql_key (set_order X)).
  { intros X HX. apply Forall_forall. intros k. rewrite set_order_perm, elem_of_elements. intros Hk. by apply HX. }
  assert (Hd : exists w1, flush_dirty (wb_dirty x) (w, clear_marks x) = (tt, (w1, clear_marks x)) /\ db_reliable w1 /\
    db_saved w1 = None /\ forall j, db_table w1 !! j = if decide (j ∈ wb_dirty x) then Some (wb_view (w, x) j) else db_table w !! j).
  { unfold flush_dirty. case_decide as He.
    { exists w. split_and!; [done..|]. intros j. by rewrite decide_False by set_solver. }
    simpl. rewrite Hav. unfold bindM. rewrite read_batch_spec. simpl.
    set (f := wb_view (w, clear_marks x)).
    destruct (upsert_batch_reliable (wb_warm x) (map (fun k => (k, f k)) (set_order (wb_dirty x))) w Hav Hrel Hs)
      as (w1 & -> & Hrel1 & Hs1 & Ht1). exists w1. split_and!; [done..|]. intros j.
    rewrite Ht1, put_rows_lookup by (apply Hsql; auto).
    destruct (decide (j ∈ set_order (wb_dirty x))) as [Hi|Hi]; rewrite set_order_perm, elem_of_elements in Hi.
    - by rewrite decide_True.
    - by rewrite decide_False. }
  destruct Hd as (w1 & -> & Hrel1 & Hs1 & Ht1).
  pose proof (flush_expired_reliable (set_order (wb_expired x)) w1 (clear_marks x) Hav Hrel1 Hs1) as Hx.
  destruct (flush_expired _ _) as [[] [w2 x2]]. destruct Hx as (-> & Hrel2 & Hs2 & Ht2); [apply Hsql; auto|].
  split_and!; [done..|]. intros j. rewrite Ht2, Ht1.
  destruct (decide (j ∈ set_order (wb_expired x))) as [Hi|Hi]; rewrite set_order_perm, elem_of_elements in Hi.
  - by rewrite decide_True.
  - by rewrite (decide_False (P := j ∈ wb_expired x)).
Qed.

Lemma wb_law_get (k : WindowKey) (wx : W * WriteBackWindowStore) :
  inprocess_ok (wb_primary wx.2) -> plain_key k -> exists wx',
    store_get k wx = (Ok (wb_view wx k), wx') /\ inprocess_ok (wb_primary wx'.2) /\
    forall j, plain_key j -> wb_view wx' j = wb_view wx j.
Proof. intros Hok _. exists wx. simpl. unfold wb_get. by rewrite on_primary_get. Qed.

Lemma wb_law_cas (k : WindowKey) (e n : WindowValue) (wx : W * WriteBackWindowStore) :
  inprocess_ok (wb_primary wx.2) -> plain_key k -> exists wx',
    store_cas k e n wx = (Ok (Z.eqb (wv_version (wb_view wx k)) (wv_version e)), wx') /\
    inprocess_ok (wb_primary wx'.2) /\
    forall j, plain_key j -> wb_view wx' j =
      if (bool_decide (j = k) && Z.eqb (wv_version (wb_view wx k)) (wv_version e))%bool then n else wb_view wx j.
Proof.
  destruct wx as [w x]. intros Hok Hk. simpl in *. unfold wb_compare_and_swap, wb_view, bindM, retM. simpl.
  destruct (inprocess_cas_spec k e n (wb_primary x) Hok Hk) as (p & -> & Hp & Hv). simpl.
  destruct (Z.eqb _ _); simpl; by eexists.
Qed.

Lemma wb_law_expire (k : WindowKey) (wx : W * WriteBackWindowStore) :
  inprocess_ok (wb_primary wx.2) -> plain_key k -> exists wx',
    store_expire k wx = (Ok tt, wx') /\ inprocess_ok (wb_primary wx'.2) /\
    forall j, plain_key j -> wb_view wx' j = if bool_decide (j = k) then WindowValue_zero else wb_view wx j.
Proof.
  destruct wx as [w x]. intros Hok Hk. simpl in *. unfold wb_expire, wb_view, bindM, retM. simpl.
  destruct (inprocess_expire_spec k (wb_primary x) Hok Hk) as (p & -> & Hp & Hv). simpl. by eexists.
Qed.

(** The store is lawful whatever the database does. *)
#[export] Instance wb_laws : StateStoreLaws (W * WriteBackWindowStore) := {
  store_ok := fun wx => inprocess_ok (wb_primary wx.2);
  store_key := plain_key;
  store_view := wb_view;
  law_get := wb_law_get;
  law_cas := wb_law_cas;
  law_expire := wb_law_expire
}.

Lemma run_call_warm (alive : WindowKey -> Prop) (c : wb_call) (wx : W * WriteBackWindowStore) :
  call_ok c -> wb_inv alive wx -> wb_warm (run_call c wx).2.2 = wb_warm wx.2.
Proof.
  intros Hc (Hok & Hkeys & _). destruct c as [o| |t e n lo hi|now|]; simpl; unfold bindM, retM.
  - destruct Hc as [Hk _]. destruct (run_op_spec o wx Hok Hk) as (_ & _ & _ & Hw & _). by destruct (run_op o wx).
  - destruct (flush_sync_spec wx) as (_ & Hw & _); [intros k [?|?]; apply Hkeys; auto|]. by destruct (flush_sync wx).
  - unfold wb_query_range. destruct (negb _); [done|]. unfold bindM.
    destruct (flush_sync_spec wx) as (_ & Hw & _); [intros k [?|?]; apply Hkeys; auto|].
    destruct (flush_sync wx) as [[] [w1 x1]]. simpl in *. by destruct (duck_query_range (wb_warm x1) t e n lo hi w1).
  - by destruct wx.
  - by destruct wx.
Qed.

Lemma run_calls_warm (alive : WindowKey -> Prop) (cs : list wb_call) : forall (wx : W * WriteBackWindowStore),
  Forall call_ok cs -> (forall k, alive k -> Forall (keeps k) cs) -> wb_inv alive wx ->
  wb_warm (run_calls cs wx).2.2 = wb_warm wx.2.
Proof.
  induction cs as [|c cs IH]; intros wx Hcs Hkeep Hinv; [done|]. apply Forall_cons in Hcs as [Hc Hcs].
  pose proof (run_call_warm alive c wx Hc Hinv) as Hw.
  assert (Hk : forall k, alive k -> keeps k c /\ Forall (keeps k) cs).
  { intros k Ha. apply Hkeep in Ha. by apply Forall_cons in Ha. }
  pose proof (run_call_inv alive c wx Hc (fun k Ha => proj1 (Hk k Ha)) Hinv) as Hinv'.
  cbn [run_calls]. unfold bindM, retM. destruct (run_call c wx) as [r wx1]. simpl in *.
  specialize (IH wx1 Hcs (fun k Ha => proj2 (Hk k Ha)) Hinv'). destruct (run_calls cs wx1) as [rs wx2]. simpl in *.
  congruence.
Qed.

(** The invariant depends on what is stored, not on how the database fares. *)
Lemma wb_inv_world (alive alive' : WindowKey -> Prop) (w w' : W) (x : WriteBackWindowStore) :
  committed w' = committed w -> (forall k, alive' k -> alive k) -> wb_inv alive (w, x) -> wb_inv alive' (w', x).
Proof.
  intros Hc Hsub (Hok & Hkeys & Ha). unfold wb_inv, stored, wb_view in *. simpl in *. rewrite Hc. split_and!; auto.
Qed.

End Lemmas.

#[local] Arguments flush_sync : simpl never.
#[local] Arguments wb_delete : simpl never.

(** ** Properties *)

(** C21: a write-back store that was loaded from a database answers every
    operation like one map that starts as the stored rows, whatever flushes, range
    queries and ticks happen in between and however the database fails from then
    on: it is never asked on the calling path.  The database must be available and
    not fail while the store is constructed, and the keys, those of the rows and
    those of the calls, be ones the store tells apart and can write ([wb_key]: no
    colon, no NUL, an epoch in 64 bits). *)
Theorem write_back_refines_map {W : Type} `{DuckDbLaws W} `{StdHash} `{UnorderedSet} (n : Z)
    (warm : DuckDbWindowStore) (config : WriteBackConfig) (w : W) (cs : list wb_call)
    (Hn : 0 < n) (Hav : dd_available warm = true) (Hrel : db_reliable w) (Hs : db_saved w = None)
    (Hkeys : forall k, is_Some (db_table w !! k) -> wb_key k) (Hcs : Forall call_ok cs) :
  let '(x, w1) := wb_new (inprocess_new n) warm config w in
  forall w2, committed w2 = committed w1 ->
    (run_calls cs (w2, x)).1 = (spec_ops (flat_map op_of cs) (db_table w)).1.
Proof.
  pose proof (wb_new_spec n warm config w Hn Hav Hrel Hs Hkeys) as Hnew.
  destruct (wb_new _ warm config w) as [x w1]. destruct Hnew as (Hinv & _ & _ & _ & _ & _ & _ & Hview).
  intros w2 Hw2. apply (run_calls_spec (fun _ => False)); [done|done| |exact Hview].
  by apply (wb_inv_world (fun _ => True) _ w1).
Qed.

Lemma sample_live_keys (k : WindowKey) : is_Some (db_table sample_db_live !! k) -> wb_key k.
Proof.
  intros [v Hv]. simpl in Hv. apply lookup_singleton_Some in Hv as [<- _].
  split; [split_and!; vm_compute; congruence|reflexivity].
Qed.

Lemma live_key_good : wb_key live_key.
Proof. split; [split_and!; vm_compute; congruence|reflexivity]. Qed.

Lemma write_back_refines_map_witness :
  let '(x, w1) := wb_new (inprocess_new 4) sample_duck sample_wb_config sample_db_live in
  (run_calls sample_calls (w1, x)).1 = [RCas (Ok true); RGet (Ok sample_value)].
Proof.
  pose proof (write_back_refines_map 4 sample_duck sample_wb_config sample_db_live sample_calls ltac:(lia) eq_refl
    (fun _ => eq_refl) eq_refl sample_live_keys) as Hr.
  destruct (wb_new _ _ _ _) as [x w1]. rewrite Hr; [vm_compute; reflexivity| |reflexivity].
  repeat constructor; apply live_key_good.
Defined.

(** C12: values survive a restart, for the keys that no call expired.  The
    database is available and does not fail while the store is constructed, may
    fail in any way during the calls, and does not fail while the store is
    deleted; then a new store over it starts, for every key that no call expired,
    with the value the calls left: writes that could not be stored in between were
    stored by the last flush.  Keys as in C21. *)
Theorem write_back_restart {W : Type} `{DuckDbLaws W} `{StdHash} `{UnorderedSet} (n n' : Z)
    (warm : DuckDbWindowStore) (config : WriteBackConfig) (w : W) (cs : list wb_call)
    (Hn : 0 < n) (Hn' : 0 < n') (Hav : dd_available warm = true) (Hrel : db_reliable w) (Hs : db_saved w = None)
    (Hkeys : forall k, is_Some (db_table w !! k) -> wb_key k) (Hcs : Forall call_ok cs) :
  let '(x, w1) := wb_new (inprocess_new n) warm config w in
  forall w2, committed w2 = committed w1 ->
  let '(_, (w3, x3)) := run_calls cs (w2, x) in
  db_reliable w3 -> db_saved w3 = None ->
  let '(_, (w4, _)) := wb_delete (w3, x3) in
  let '(y, w5) := wb_new (inprocess_new n') warm config w4 in
  forall k, wb_key k -> Forall (keeps k) cs ->
    wb_view (w5, y) k = map_value (spec_ops (flat_map op_of cs) (db_table w)).2 k.
Proof.
  pose proof (wb_new_spec n warm config w Hn Hav Hrel Hs Hkeys) as Hnew.
  destruct (wb_new _ warm config w) as [x w1]. destruct Hnew as (Hinv & Hwarm & _ & _ & _ & _ & _ & Hview).
  intros w2 Hw2. set (alive := fun k => Forall (keeps k) cs).
  assert (Hinv2 : wb_inv alive (w2, x)) by (by apply (wb_inv_world (fun _ => True) _ w1)).
  pose proof (run_calls_inv alive cs (w2, x) Hcs (fun k Hk => Hk) Hinv2) as (Hok3 & Hkeys3 & Halive3).
  destruct (run_calls_spec alive cs (w2, x) _ Hcs (fun k Hk => Hk) Hinv2 Hview) as [_ Hview3].
  pose proof (run_calls_warm alive cs (w2, x) Hcs (fun k Hk => Hk) Hinv2) as Hwarm3.
  destruct (run_calls cs (w2, x)) as [rs [w3 x3]]. simpl in *. intros Hrel3 Hs3. unfold wb_delete.
  pose proof (flush_sync_reliable w3 x3) as Hfl. rewrite Hwarm3, Hwarm in Hfl.
  specialize (Hfl Hav Hrel3 Hs3 (fun k Hk => Hkeys3 k ltac:(tauto))).
  destruct (flush_sync (w3, x3)) as [[] [w4 x4]]. destruct Hfl as (_ & Hrel4 & Hs4 & Ht4).
  unfold stored, committed in *. simpl in *. rewrite Hs3 in *. simpl in *.
  pose proof (wb_new_spec n' warm config w4 Hn' Hav Hrel4 Hs4) as Hnew5.
  destruct (wb_new _ warm config w4) as [y w5]. destruct Hnew5 as (_ & _ & _ & _ & _ & _ & _ & Hview5).
  { intros k [v Hk]. rewrite Ht4 in Hk. apply Hkeys3. repeat case_decide; [done|auto|]. right. right. by exists v. }
  intros k Hk Ha. rewrite Hview5 by apply Hk. rewrite <- Hview3 by apply Hk.
  destruct (Halive3 k Hk Ha) as [Hne Hst]. unfold map_value at 1. rewrite Ht4, decide_False by done.
  destruct (decide (k ∈ wb_dirty x3)); [done|]. by apply Hst.
Qed.

Lemma write_back_restart_witness :
  let '(x, w1) := wb_new (inprocess_new 4) sample_duck sample_wb_config sample_db_live in
  let '(_, (w3, x3)) := run_calls sample_calls (w1, x) in
  let '(_, (w4, _)) := wb_delete (w3, x3) in
  let '(y, w5) := wb_new (inprocess_new 8) sample_duck sample_wb_config w4 in
  wb_view (w5, y) live_key = sample_value.
Proof.
  pose proof (write_back_restart 4 8 sample_duck sample_wb_config sample_db_live sample_calls ltac:(lia) ltac:(lia)
    eq_refl (fun _ => eq_refl) eq_refl sample_live_keys ltac:(repeat constructor; apply live_key_good)) as Hr.
  assert (Hw : let '(x, w1) := wb_new (inprocess_new 4) sample_duck sample_wb_config sample_db_live in
    sd_fails (run_calls sample_calls (w1, x)).2.1 = never /\ sd_saved (run_calls sample_calls (w1, x)).2.1 = None)
    by (vm_compute; split; reflexivity).
  destruct (wb_new _ _ _ _) as [x w1]. specialize (Hr w1 eq_refl).
  destruct (run_calls sample_calls (w1, x)) as [rs [w3 x3]]. simpl in Hw. destruct Hw as [Hrel Hs].
  specialize (Hr (fun s => f_equal (fun f => f s) Hrel) Hs).
  destruct (wb_delete (w3, x3)) as [u [w4 x4]]. destruct (wb_new _ _ _ w4) as [y w5].
  rewrite Hr; [vm_compute; reflexivity|apply live_key_good|repeat constructor].
Defined.

(** What a flush leaves in a database that does not fail: a key that was
    expired since the last flush has no row, even when it was written again
    afterwards; any other marked key has the current value; the other rows are
    as before; no mark is left and the in-process store is unchanged. *)
Theorem flush_stores_marks {W : Type} `{DuckDbLaws W} `{StdHash} `{UnorderedSet} (w : W) (x : WriteBackWindowStore)
    (Hav : dd_available (wb_warm x) = true) (Hrel : db_reliable w) (Hs : db_saved w = None)
    (Hkeys : forall k, k ∈ wb_dirty x \/ k ∈ wb_expired x -> wb_key k) :
  let '(_, (w', x')) := flush_sync (w, x) in
  x' = clear_marks x /\
  forall j, db_table w' !! j =
    if decide (j ∈ wb_expired x) then None
    else if decide (j ∈ wb_dirty x) then Some (wb_view (w, x) j) else db_table w !! j.
Proof.
  pose proof (flush_sync_reliable w x Hav Hrel Hs Hkeys) as Hf. destruct (flush_sync (w, x)) as [[] [w' x']].
  by destruct Hf as (? & _ & _ & ?).
Qed.

(** A store with one row to write and one to delete. *)
Definition sample_marked : WriteBackWindowStore :=
  mkWriteBack (inprocess_cas live_key WindowValue_zero sample_value (inprocess_new 4)).2 sample_duck sample_wb_config
    {[ live_key ]} {[ old_key ]} true.

Lemma sample_marked_keys (k : WindowKey) : k ∈ wb_dirty sample_marked \/ k ∈ wb_expired sample_marked -> wb_key k.
Proof.
  simpl. intros [->%elem_of_singleton| ->%elem_of_singleton]; [apply live_key_good|].
  split; [split_and!; vm_compute; congruence|reflexivity].
Qed.

Lemma flush_stores_marks_witness :
  let '(_, (w', x')) := flush_sync (sample_world never, sample_marked) in
  sd_table w' !! live_key = Some sample_value /\ sd_table w' !! old_key = None.
Proof.
  pose proof (flush_stores_marks (sample_world never) sample_marked eq_refl (fun _ => eq_refl) eq_refl sample_marked_keys) as Hf.
  destruct (flush_sync (sample_world never, sample_marked)) as [u [w' x']]. destruct Hf as [_ Ht].
  split; [refine (eq_trans (Ht live_key) _)|refine (eq_trans (Ht old_key) _)]; vm_compute; reflexivity.
Defined.

(** An entry that was expired and then written again is gone after a restart,
    although the write was answered with success and was marked for the flush. *)
Lemma revived_key_lost :
  let '(x, w1) := wb_new (inprocess_new 4) sample_duck sample_wb_config sample_db_live in
  let '(rs, (w3, x3)) := run_calls revive_calls (w1, x) in
  let '(_, (w4, _)) := wb_delete (w3, x3) in
  let '(y, w5) := wb_new (inprocess_new 4) sample_duck sample_wb_config w4 in
  rs = [RExpire (Ok tt); RCas (Ok true); RGet (Ok sample_value)] /\ wb_view (w5, y) live_key = WindowValue_zero.
Proof. vm_compute. split; reflexivity. Qed.

(** A DELETE that fails is not tried again: the expired entry is back after a restart. *)
Definition fails_delete (s : statement) : bool := match s with DeleteRow _ => true | _ => false end.

Lemma failed_expire_forgotten :
  let db := mkSampleDb {[ live_key := mkWindowValue f64_one 1 ]} None ∅ fails_delete in
  let '(x, w1) := wb_new (inprocess_new 4) sample_duck sample_wb_config db in
  let '(rs, (w3, x3)) := run_calls [WbOp (OpExpire live_key); WbFlush; WbFlush; WbOp (OpGet live_key)] (w1, x) in
  let '(y, w5) := wb_new (inprocess_new 4) sample_duck sample_wb_config w3 in
  rs = [RExpire (Ok tt); RGet (Ok WindowValue_zero)] /\ wb_expired x3 = ∅ /\
  wb_view (w5, y) live_key = mkWindowValue f64_one 1.
Proof. vm_compute. split_and!; reflexivity. Qed.

(** A range query on a write-back store over a database that does not fail
    first stores every marked key: it answers the sum, in some order, over rows in
    which each key written since the last flush has its current value, plus the
    archive. *)
Theorem write_back_query_counts_writes {W : Type} `{DuckDbLaws W} `{StdHash} `{UnorderedSet}
    (w : W) (x : WriteBackWindowStore) (tenant entity window : string) (lo hi : Z)
    (Hav : dd_available (wb_warm x) = true) (Hrel : db_reliable w) (Hs : db_saved w = None)
    (Hkeys : forall k, k ∈ wb_dirty x \/ k ∈ wb_expired x -> wb_key k) :
  let '(r, (w', x')) := wb_query_range tenant entity window lo hi (w, x) in
  exists rows warm cold, r = Ok (f64_add warm cold) /\
    float_sum (map (fun kv => wv_aggregate kv.2)
      (filter (fun kv => in_range (c_str tenant) (c_str entity) (c_str window) lo hi kv.1) (map_to_list rows))) warm /\
    (parquet_archive_dir (dd_config (wb_warm x)) = "" -> cold = f64_zero) /\
    forall j, rows !! j =
      if decide (j ∈ wb_expired x) then None
      else if decide (j ∈ wb_dirty x) then Some (wb_view (w, x) j) else db_table w !! j.
Proof.
  unfold wb_query_range. simpl. rewrite Hav. simpl. unfold bindM.
  pose proof (flush_sync_reliable w x Hav Hrel Hs Hkeys) as Hf. destruct (flush_sync (w, x)) as [[] [w1 x1]].
  destruct Hf as (-> & Hrel1 & Hs1 & Ht1). unfold on_warm. simpl.
  pose proof (duck_query_range_sums (wb_warm x) tenant entity window lo hi w1 Hav Hrel1 Hs1) as Hq.
  destruct (duck_query_range _ _ _ _ _ _ w1) as [r w2]. destruct Hq as (_ & warm & cold & -> & Hsum & Hcold).
  by exists (db_table w1), warm, cold.
Qed.

Lemma write_back_query_counts_writes_witness :
  (wb_query_range "acme" "bob" "w" 5 9 (sample_world never, sample_marked)).1 = Ok (f64_of_Z 2).
Proof.
  pose proof (write_back_query_counts_writes (sample_world never) sample_marked "acme" "bob" "w" 5 9 eq_refl
    (fun _ => eq_refl) eq_refl sample_marked_keys) as Hq.
  assert (Hr : (wb_query_range "acme" "bob" "w" 5 9 (sample_world never, sample_marked)).1 = Ok (f64_of_Z 2))
    by (vm_compute; reflexivity).
  destruct (wb_query_range _ _ _ _ _ _) as [r [w' x']]. destruct Hq as (rows & warm & cold & -> & _). exact Hr.
Defined.
