(* ===== verification/WriteBackFlush.v ===== *)
(** * WriteBackWindowStore: flushes that interleave with calls

    [compare_and_swap], [expire] and [flush_sync] of
    src/state/write_back_window_store.cpp as sequences of critical sections: the
    shard lock of the in-process store, [dirty_mu_], the locks of the DuckDB
    store.  [flush_step] is one such section of a flush, [sys_step] interleaves
    callers and flushes.  One flush at a time never loses a write; the background
    flush and the flush of a range query together can. *)

From S2P Require Import Prelude Ieee CoreTypes Errors StateStore DuckDb DuckDbStore WriteBack.

Open Scope list_scope.
Open Scope Z_scope.

(** Where a flush stands. *)
Inductive flush_stage : Type :=
| FlushIdle
| FlushReading (dirty expired : gset WindowKey) (todo : list WindowKey) (batch : list (WindowKey * WindowValue))
| FlushRequeue (dirty expired : gset WindowKey)
| FlushDeleting (todo : list WindowKey).

(** A caller between its change of the in-process store and its marks. *)
Inductive pending_mark : Type := PendDirty (k : WindowKey) | PendExpired (k : WindowKey).

Definition apply_mark (m : pending_mark) : WriteBackWindowStore -> WriteBackWindowStore :=
  match m with PendDirty k => mark_dirty {[ k ]} | PendExpired k => mark_expired k end.

Section Flush.

Context {W : Type} `{DuckDbLaws W} `{StdHash} `{UnorderedSet}.

(** One critical section of a flush. *)
Definition flush_step (f : flush_stage) : WBM flush_stage := fun '(w, x) =>
  match f with
  | FlushIdle => (FlushReading (wb_dirty x) (wb_expired x) (set_order (wb_dirty x)) [], (w, clear_marks x))
  | FlushReading dirty expired todo batch =>
      if decide (dirty = ∅) then (FlushDeleting (set_order expired), (w, x))
      else if dd_available (wb_warm x) then
        match todo with
        | key :: todo' =>
            let '(val, p) := inprocess_get key (wb_primary x) in
            (FlushReading dirty expired todo' (match val with Ok v => batch ++ [(key, v)] | Unexpected _ => batch end),
             (w, set_primary x p))
        | [] =>
            let '(r, w') := upsert_batch (wb_warm x) batch w in
            (if has_value r then FlushDeleting (set_order expired) else FlushRequeue dirty expired, (w', x))
        end
      else (FlushRequeue dirty expired, (w, x))
  | FlushRequeue dirty expired => (FlushDeleting (set_order expired), (w, mark_dirty dirty x))
  | FlushDeleting (key :: todo') => let '(_, w') := duck_expire (wb_warm x) key w in (FlushDeleting todo', (w', x))
  | FlushDeleting [] => (FlushIdle, (w, x))
  end.

(** [n] sections in a row. *)
Fixpoint flush_steps (n : nat) (f : flush_stage) : WBM flush_stage :=
  match n with O => retM f | S n' => do f' <- flush_step f; flush_steps n' f' end.

(** The system: world and store, callers with marks to set, flushes. *)
Record flush_sys : Type := mkFlushSys {
  fs_state : W * WriteBackWindowStore;
  fs_pending : list pending_mark;
  fs_flushes : list flush_stage
}.

Variable alive : WindowKey -> Prop.   (** keys that no caller expires *)

Inductive sys_step : flush_sys -> flush_sys -> Prop :=
| StepCas k e n w x pend fl p :
    wb_key k -> inprocess_cas k e n (wb_primary x) = (Ok true, p) ->
    sys_step (mkFlushSys (w, x) pend fl) (mkFlushSys (w, set_primary x p) (PendDirty k :: pend) fl)
| StepExpire k w x pend fl p :
    wb_key k -> ~ alive k -> inprocess_expire k (wb_primary x) = (Ok tt, p) ->
    sys_step (mkFlushSys (w, x) pend fl) (mkFlushSys (w, set_primary x p) (PendExpired k :: pend) fl)
| StepMark m w x pend1 pend2 fl :
    sys_step (mkFlushSys (w, x) (pend1 ++ m :: pend2) fl) (mkFlushSys (w, apply_mark m x) (pend1 ++ pend2) fl)
| StepFlush i f s pend fl :
    fl !! i = Some f ->
    sys_step (mkFlushSys s pend fl) (mkFlushSys (flush_step f s).2 pend (<[i := (flush_step f s).1]> fl))
| StepWorld w w' x pend fl :
    committed w' = committed w ->
    sys_step (mkFlushSys (w, x) pend fl) (mkFlushSys (w', x) pend fl).

(** ** The invariant of one flush at a time *)

(** What a batch would store under [k]. *)
Definition written (batch : list (WindowKey * WindowValue)) (k : WindowKey) : option WindowValue :=
  fold_left put_row batch ∅ !! k.

(** Keys a flush is concerned with. *)
Definition stage_key (f : flush_stage) (k : WindowKey) : Prop :=
  match f with
  | FlushIdle => False
  | FlushReading dirty expired _ _ | FlushRequeue dirty expired => k ∈ dirty \/ k ∈ expired
  | FlushDeleting todo => k ∈ todo
  end.

Definition stage_deletes (f : flush_stage) (k : WindowKey) : Prop :=
  match f with
  | FlushIdle => False
  | FlushReading _ expired _ _ | FlushRequeue _ expired => k ∈ expired
  | FlushDeleting todo => k ∈ todo
  end.

(** The keys of a batch are keys of its snapshot. *)
Definition stage_ok (f : flush_stage) : Prop :=
  match f with
  | FlushReading dirty _ todo batch => forall k, k ∈ todo \/ k ∈ batch.*1 -> k ∈ dirty
  | _ => True
  end.

(** The current value of [k] is stored, or this flush is going to store it, or
    to mark it again. *)
Definition stage_safe (f : flush_stage) (wx : W * WriteBackWindowStore) (k : WindowKey) : Prop :=
  match f with
  | FlushIdle | FlushDeleting _ => stored wx k = wb_view wx k
  | FlushReading dirty _ todo batch =>
      k ∈ todo \/ written batch k = Some (wb_view wx k) \/ (k ∉ dirty /\ stored wx k = wb_view wx k)
  | FlushRequeue dirty _ => k ∈ dirty \/ stored wx k = wb_view wx k
  end.

Record single_inv (f : flush_stage) (wx : W * WriteBackWindowStore) (pend : list pending_mark) : Prop := {
  si_primary : inprocess_ok (wb_primary wx.2);
  si_stage : stage_ok f;
  si_keys : forall k, k ∈ wb_dirty wx.2 \/ k ∈ wb_expired wx.2 \/ stage_key f k \/
    PendDirty k ∈ pend \/ PendExpired k ∈ pend -> wb_key k;
  si_alive : forall k, wb_key k -> alive k ->
    k ∉ wb_expired wx.2 /\ ~ stage_deletes f k /\ PendExpired k ∉ pend;
  si_safe : forall k, wb_key k -> alive k ->
    k ∈ wb_dirty wx.2 \/ PendDirty k ∈ pend \/ stage_safe f wx k
}.

Lemma written_app (batch : list (WindowKey * WindowValue)) (k j : WindowKey) (v : WindowValue) :
  sql_key k -> written (batch ++ [(k, v)]) j = if decide (j = k) then Some v else written batch j.
Proof.
  intros Hk. unfold written. rewrite fold_left_app. simpl. unfold put_row at 1. simpl. rewrite Hk.
  case_decide as Hd; [subst; by rewrite lookup_insert_eq|by rewrite lookup_insert_ne].
Qed.

Lemma fold_put_row (batch : list (WindowKey * WindowValue)) (t : window_table) (k : WindowKey) :
  fold_left put_row batch t !! k = match written batch k with Some v => Some v | None => t !! k end.
Proof.
  unfold written. induction batch as [|[j v] batch IH] using rev_ind; [done|].
  rewrite !fold_left_app. simpl. unfold put_row at 1 3. simpl.
  destruct (decide (k = bound_key j)) as [->|Hne]; [by rewrite !lookup_insert_eq|by rewrite !lookup_insert_ne].
Qed.

Lemma written_in (batch : list (WindowKey * WindowValue)) (k : WindowKey) (v : WindowValue) :
  Forall sql_key batch.*1 -> written batch k = Some v -> k ∈ batch.*1.
Proof.
  induction batch as [|[j u] batch IH] using rev_ind; intros Hks; [done|].
  rewrite fmap_app, Forall_app in Hks. destruct Hks as [Hks Hj]. simpl in Hj. apply Forall_cons in Hj as [Hj _].
  rewrite written_app by done. rewrite fmap_app. case_decide as Hd; [subst; set_solver|]. intros Hw. apply elem_of_app. left. by apply IH.
Qed.

(** The sections of a flush, one lemma each. *)
Lemma start_inv (w : W) (x : WriteBackWindowStore) (pend : list pending_mark) :
  single_inv FlushIdle (w, x) pend ->
  single_inv (FlushReading (wb_dirty x) (wb_expired x) (set_order (wb_dirty x)) []) (w, clear_marks x) pend.
Proof.
  intros [Hp Hst Hk Ha Hs]. simpl in *. split; simpl.
  - done.
  - intros k [Hi|Hi]; [by rewrite set_order_perm, elem_of_elements in Hi|set_solver].
  - intros k Hin. apply Hk. set_solver.
  - intros k Hkk Hal. destruct (Ha k Hkk Hal) as (He & _ & Hpe). set_solver.
  - intros k Hkk Hal. destruct (Hs k Hkk Hal) as [Hd|[Hd|Hd]]; [|by right; left|].
    + right. right. left. by rewrite set_order_perm, elem_of_elements.
    + right. right. destruct (decide (k ∈ wb_dirty x)) as [Hin|Hni]; [|by right; right].
      left. by rewrite set_order_perm, elem_of_elements.
Qed.

Lemma read_inv dirty expired key todo batch (wx : W * WriteBackWindowStore) (pend : list pending_mark) :
  single_inv (FlushReading dirty expired (key :: todo) batch) wx pend ->
  single_inv (FlushReading dirty expired todo (batch ++ [(key, wb_view wx key)])) wx pend.
Proof.
  intros [Hp Hst Hk Ha Hs]. simpl in *.
  assert (Hkey : key ∈ dirty) by (apply Hst; left; left).
  assert (Hsql : sql_key key) by (apply Hk; auto).
  split; simpl; [done| |done|done|].
  - intros k [Hi|Hi]; [apply Hst; left; by right|]. rewrite fmap_app in Hi. apply elem_of_app in Hi as [Hi|Hi]; [by apply Hst; right|].
    simpl in Hi. apply list_elem_of_singleton in Hi. by subst.
  - intros k Hkk Hal. rewrite written_app by done. destruct (Hs k Hkk Hal) as [Hd|[Hd|Hd]]; [by left|by right; left|].
    right. right. case_decide as Hdk; [subst; by right; left|].
    destruct Hd as [[->|Hd]%elem_of_cons|Hd]; [done|by left|by right].
Qed.

Lemma skip_inv dirty expired todo batch (wx : W * WriteBackWindowStore) (pend : list pending_mark) :
  dirty = ∅ -> single_inv (FlushReading dirty expired todo batch) wx pend ->
  single_inv (FlushDeleting (set_order expired)) wx pend.
Proof.
  intros -> [Hp Hst Hk Ha Hs]. simpl in *. split; simpl; [done|done| | |].
  - intros k Hin. apply Hk. rewrite set_order_perm, elem_of_elements in Hin. set_solver.
  - intros k Hkk Hal. rewrite set_order_perm, elem_of_elements. by apply Ha.
  - intros k Hkk Hal. destruct (Hs k Hkk Hal) as [Hd|[Hd|Hd]]; [by left|by right; left|]. right. right.
    assert (Hno : forall j, ~ (j ∈ todo \/ j ∈ batch.*1)) by (intros j Hj; apply Hst in Hj; set_solver).
    destruct Hd as [Hd|[Hd|[_ Hd]]]; [by destruct (Hno k); left| |done].
    apply written_in in Hd; [by destruct (Hno k); right|].
    apply Forall_forall. intros j Hj. by destruct (Hno j); right.
Qed.

(** The keys of a batch reach the database unchanged. *)
Lemma batch_sql dirty expired todo batch (wx : W * WriteBackWindowStore) (pend : list pending_mark) :
  single_inv (FlushReading dirty expired todo batch) wx pend -> Forall sql_key batch.*1.
Proof.
  intros [_ Hst Hk _ _]. apply Forall_forall. intros j Hj. apply Hk. right. right. left. left. apply Hst. by right.
Qed.

Lemma requeue_stage_inv dirty expired todo batch (wx wx' : W * WriteBackWindowStore) (pend : list pending_mark) :
  wx'.2 = wx.2 -> committed wx'.1 = committed wx.1 ->
  single_inv (FlushReading dirty expired todo batch) wx pend -> single_inv (FlushRequeue dirty expired) wx' pend.
Proof.
  intros Hx Hc Hinv. pose proof (batch_sql _ _ _ _ _ _ Hinv) as Hsql. destruct Hinv as [Hp Hst Hk Ha Hs].
  destruct wx as [w x], wx' as [w' x']. simpl in *. subst x'. split; simpl; [done|done|done|done|].
  intros k Hkk Hal. unfold stored, wb_view in *. simpl in *. rewrite Hc.
  destruct (Hs k Hkk Hal) as [Hd|[Hd|Hd]]; [by left|by right; left|]. right. right.
  destruct Hd as [Hd|[Hd|[_ Hd]]]; [left; by apply Hst; left| |by right].
  left. apply Hst. right. by eapply written_in.
Qed.

Lemma write_inv dirty expired batch (w w' : W) (x : WriteBackWindowStore) (pend : list pending_mark) :
  committed w' = fold_left put_row batch (committed w) ->
  single_inv (FlushReading dirty expired [] batch) (w, x) pend ->
  single_inv (FlushDeleting (set_order expired)) (w', x) pend.
Proof.
  intros Hc Hinv. pose proof (batch_sql _ _ _ _ _ _ Hinv) as Hsql. destruct Hinv as [Hp Hst Hk Ha Hs].
  simpl in *. split; simpl; [done|done| | |].
  - intros k Hin. apply Hk. rewrite set_order_perm, elem_of_elements in Hin. set_solver.
  - intros k Hkk Hal. rewrite set_order_perm, elem_of_elements. by apply Ha.
  - intros k Hkk Hal. unfold stored, wb_view, map_value in *. simpl in *. rewrite Hc, fold_put_row.
    destruct (Hs k Hkk Hal) as [Hd|[Hd|Hd]]; [by left|by right; left|]. right. right.
    destruct Hd as [Hd|[->|[Hni Hd]]]; [set_solver|done|]. destruct (written batch k) eqn:Hw; [|done].
    destruct Hni. apply Hst. right. by eapply written_in.
Qed.

Lemma requeue_inv dirty expired (w : W) (x : WriteBackWindowStore) (pend : list pending_mark) :
  single_inv (FlushRequeue dirty expired) (w, x) pend ->
  single_inv (FlushDeleting (set_order expired)) (w, mark_dirty dirty x) pend.
Proof.
  intros [Hp Hst Hk Ha Hs]. simpl in *. split; simpl; [done|done| | |].
  - intros k Hin. apply Hk. rewrite set_order_perm, elem_of_elements in Hin. set_solver.
  - intros k Hkk Hal. rewrite set_order_perm, elem_of_elements. by apply Ha.
  - intros k Hkk Hal. destruct (Hs k Hkk Hal) as [Hd|[Hd|[Hd|Hd]]]; [set_solver|by right; left|set_solver|by right; right].
Qed.

Lemma delete_inv key todo (w w' : W) (x : WriteBackWindowStore) (pend : list pending_mark) :
  (forall j, j <> key -> committed w' !! j = committed w !! j) ->
  single_inv (FlushDeleting (key :: todo)) (w, x) pend -> single_inv (FlushDeleting todo) (w', x) pend.
Proof.
  intros Hc [Hp Hst Hk Ha Hs]. simpl in *. split; simpl; [done|done| | |].
  - intros k Hin. apply Hk. set_solver.
  - intros k Hkk Hal. destruct (Ha k Hkk Hal). set_solver.
  - intros k Hkk Hal. unfold stored, wb_view, map_value in *. simpl in *.
    destruct (Ha k Hkk Hal) as (_ & Hni & _). rewrite Hc by set_solver. by apply Hs.
Qed.

Lemma finish_inv (wx : W * WriteBackWindowStore) (pend : list pending_mark) :
  single_inv (FlushDeleting []) wx pend -> single_inv FlushIdle wx pend.
Proof.
  intros [Hp Hst Hk Ha Hs]. simpl in *. split; simpl; [done|done| | |done].
  - intros k Hin. apply Hk. set_solver.
  - intros k Hkk Hal. destruct (Ha k Hkk Hal). set_solver.
Qed.

Lemma flush_step_inv (f : flush_stage) (wx : W * WriteBackWindowStore) (pend : list pending_mark) :
  single_inv f wx pend -> single_inv (flush_step f wx).1 (flush_step f wx).2 pend.
Proof.
  intros Hinv. destruct wx as [w x], f as [|dirty expired todo batch|dirty expired|[|key todo]]; cbn [flush_step].
  - by apply start_inv.
  - case_decide as He; [by eapply skip_inv|]. destruct (dd_available (wb_warm x)).
    + destruct todo as [|key todo].
      * pose proof (upsert_batch_atomic (wb_warm x) batch w) as Hup. destruct (upsert_batch _ batch w) as [[[]|e] w'];
          simpl in *; [by eapply write_inv|by eapply requeue_stage_inv; [..|exact Hinv]].
      * rewrite inprocess_get_spec, set_primary_same. by apply (read_inv dirty expired key todo batch (w, x) pend).
    + simpl. by eapply requeue_stage_inv; [..|exact Hinv].
  - by apply requeue_inv.
  - simpl. by apply finish_inv.
  - assert (Hk : sql_key key) by (apply (si_keys _ _ _ Hinv); simpl; right; right; left; left).
    pose proof (fun j => duck_expire_committed (wb_warm x) key j w) as He. rewrite Hk in He.
    destruct (duck_expire (wb_warm x) key w) as [r w']. simpl in *. apply (delete_inv key todo w); [|done].
    intros j Hj. destruct (He j) as [?|[? _]]; done.
Qed.

Definition sys_inv (s : flush_sys) : Prop :=
  exists f, fs_flushes s = [f] /\ single_inv f (fs_state s) (fs_pending s).

Lemma cas_step_inv k e n (f : flush_stage) (w : W) (x : WriteBackWindowStore) pend p :
  wb_key k -> inprocess_cas k e n (wb_primary x) = (Ok true, p) ->
  single_inv f (w, x) pend -> single_inv f (w, set_primary x p) (PendDirty k :: pend).
Proof.
  intros Hkk Hcas [Hp Hst Hk Ha Hs]. simpl in *.
  destruct (inprocess_cas_spec k e n (wb_primary x) Hp (proj1 Hkk)) as (p' & Heq & Hp' & Hv).
  rewrite Hcas in Heq. injection Heq as Hver <-.
  split; simpl; [done|done| | |].
  - intros j Hj. destruct (decide (j = k)) as [->|Hne]; [done|]. apply Hk. set_solver.
  - intros j Hjk Hal. destruct (Ha j Hjk Hal) as (? & ? & ?). set_solver.
  - intros j Hjk Hal. destruct (decide (j = k)) as [->|Hne]; [right; left; left|].
    destruct (Hs j Hjk Hal) as [Hd|[Hd|Hd]]; [by left|by right; left; right|]. right. right.
    assert (Hview : wb_view (w, set_primary x p) j = wb_view (w, x) j).
    { unfold wb_view. simpl. rewrite Hv by apply Hjk. by rewrite bool_decide_eq_false_2. }
    unfold stage_safe, stored in *. simpl in *. destruct f; by rewrite ?Hview.
Qed.

Lemma expire_step_inv k (f : flush_stage) (w : W) (x : WriteBackWindowStore) pend p :
  wb_key k -> ~ alive k -> inprocess_expire k (wb_primary x) = (Ok tt, p) ->
  single_inv f (w, x) pend -> single_inv f (w, set_primary x p) (PendExpired k :: pend).
Proof.
  intros Hkk Hna Hex [Hp Hst Hk Ha Hs]. simpl in *.
  destruct (inprocess_expire_spec k (wb_primary x) Hp (proj1 Hkk)) as (p' & Heq & Hp' & Hv).
  rewrite Hex in Heq. injection Heq as <-.
  split; simpl; [done|done| | |].
  - intros j Hj. destruct (decide (j = k)) as [->|Hne]; [done|]. apply Hk. set_solver.
  - intros j Hjk Hal. destruct (Ha j Hjk Hal) as (? & ? & ?). split_and!; [done|done|].
    intros [[= ->]|?]%elem_of_cons; done.
  - intros j Hjk Hal. assert (Hne : j <> k) by (by intros ->).
    destruct (Hs j Hjk Hal) as [Hd|[Hd|Hd]]; [by left|by right; left; right|]. right. right.
    assert (Hview : wb_view (w, set_primary x p) j = wb_view (w, x) j).
    { unfold wb_view. simpl. rewrite Hv by apply Hjk. by rewrite bool_decide_eq_false_2. }
    unfold stage_safe, stored in *. simpl in *. destruct f; by rewrite ?Hview.
Qed.

Lemma mark_step_inv m (f : flush_stage) (w : W) (x : WriteBackWindowStore) pend1 pend2 :
  single_inv f (w, x) (pend1 ++ m :: pend2) -> single_inv f (w, apply_mark m x) (pend1 ++ pend2).
Proof.
  intros [Hp Hst Hk Ha Hs]. simpl in *. destruct m as [k|k]; split; simpl; try done.
  - intros j Hj. apply Hk. set_solver.
  - intros j Hjk Hal. destruct (Ha j Hjk Hal) as (? & ? & ?). set_solver.
  - intros j Hjk Hal. destruct (Hs j Hjk Hal) as [Hd|[Hd|Hd]]; [set_solver| |by right; right].
    apply elem_of_app in Hd as [Hd|[[= ->]|Hd]%elem_of_cons]; [right; left; set_solver|left; set_solver|right; left; set_solver].
  - intros j Hj. apply Hk. set_solver.
  - intros j Hjk Hal. destruct (Ha j Hjk Hal) as (? & ? & Hpe). set_solver.
  - intros j Hjk Hal. assert (Hne : j <> k) by (intros ->; destruct (Ha k Hjk Hal) as (_ & _ & Hpe); set_solver).
    destruct (Hs j Hjk Hal) as [Hd|[Hd|Hd]]; [left; set_solver| |by right; right].
    right. left. apply elem_of_app in Hd as [Hd|[?|Hd]%elem_of_cons]; [set_solver|done|set_solver].
Qed.

Lemma world_step_inv (f : flush_stage) (w w' : W) (x : WriteBackWindowStore) pend :
  committed w' = committed w -> single_inv f (w, x) pend -> single_inv f (w', x) pend.
Proof.
  intros Hc [Hp Hst Hk Ha Hs]. split; simpl in *; try done. intros k Hkk Hal.
  destruct (Hs k Hkk Hal) as [Hd|[Hd|Hd]]; [by left|by right; left|]. right. right.
  unfold stage_safe, stored, wb_view in *. simpl in *. destruct f; by rewrite ?Hc.
Qed.

Lemma sys_step_inv (s s' : flush_sys) : sys_step s s' -> sys_inv s -> sys_inv s'.
Proof.
  intros Hstep (f & Hf & Hinv). destruct Hstep as [| | |i f' st pend fl Hi|]; simpl in *; subst; unfold sys_inv; simpl.
  - exists f. split; [done|]. by eapply cas_step_inv.
  - exists f. split; [done|]. by eapply expire_step_inv.
  - exists f. split; [done|]. by apply mark_step_inv.
  - destruct i; [|done]. injection Hi as <-. simpl. eexists. split; [done|]. by apply flush_step_inv.
  - exists f. split; [done|]. by eapply world_step_inv.
Qed.

Lemma sys_inv_rtc (s s' : flush_sys) : rtc sys_step s s' -> sys_inv s -> sys_inv s'.
Proof. intros Hrtc. induction Hrtc; [done|]. intros Hinv. apply IHHrtc. by eapply sys_step_inv. Qed.

(** ** A flush alone is [flush_sync] *)

Lemma flush_steps_add (n m : nat) (f : flush_stage) (wx : W * WriteBackWindowStore) :
  flush_steps (n + m) f wx = flush_steps m (flush_steps n f wx).1 (flush_steps n f wx).2.
Proof.
  revert f wx. induction n as [|n IH]; intros f wx; [done|]. simpl. unfold bindM.
  destruct (flush_step f wx) as [f' wx']. apply IH.
Qed.

Lemma reading_steps dirty expired (todo : list WindowKey) : forall batch (wx : W * WriteBackWindowStore),
  dirty <> ∅ -> dd_available (wb_warm wx.2) = true ->
  flush_steps (length todo) (FlushReading dirty expired todo batch) wx =
    (FlushReading dirty expired [] (batch ++ map (fun k => (k, wb_view wx k)) todo), wx).
Proof.
  induction todo as [|key todo IH]; intros batch [w x] Hd Hav; [by rewrite app_nil_r|].
  cbn [length flush_steps]. unfold bindM. cbn [flush_step]. simpl in Hav. rewrite decide_False, Hav by done.
  rewrite inprocess_get_spec, set_primary_same. rewrite IH by done. by rewrite <- app_assoc.
Qed.

Lemma deleting_steps (todo : list WindowKey) : forall (wx : W * WriteBackWindowStore),
  flush_steps (S (length todo)) (FlushDeleting todo) wx = (FlushIdle, (flush_expired todo wx).2).
Proof.
  induction todo as [|key todo IH]; intros [w x]; [done|].
  cbn [length]. remember (S (length todo)) as n. cbn [flush_steps flush_expired]. unfold bindM, on_warm.
  cbn [flush_step]. destruct (duck_expire (wb_warm x) key w) as [r w']. apply IH.
Qed.

Lemma dirty_steps dirty expired (wx : W * WriteBackWindowStore) : exists n,
  flush_steps n (FlushReading dirty expired (set_order dirty) []) wx =
    (FlushDeleting (set_order expired), (flush_dirty dirty wx).2).
Proof.
  destruct wx as [w x]. unfold flush_dirty. destruct (decide (dirty = ∅)) as [He|He].
  { exists 1%nat. cbn [flush_steps]. unfold bindM. cbn [flush_step]. by rewrite decide_True. }
  simpl. destruct (dd_available (wb_warm x)) eqn:Hav.
  - pose proof (reading_steps dirty expired (set_order dirty) [] (w, x) He Hav) as Hr.
    unfold bindM. rewrite read_batch_spec. simpl in *. set (batch := map _ _) in *.
    destruct (upsert_batch (wb_warm x) batch w) as [[[]|e] w'] eqn:Hup; simpl.
    + exists (length (set_order dirty) + 1)%nat. rewrite flush_steps_add, Hr.
      cbn [flush_steps fst snd]. unfold bindM, retM. cbn [flush_step].
      by rewrite decide_False, Hav, Hup.
    + exists (length (set_order dirty) + 2)%nat. rewrite flush_steps_add, Hr.
      cbn [flush_steps fst snd]. unfold bindM, retM. cbn [flush_step].
      by rewrite decide_False, Hav, Hup.
  - exists 2%nat. cbn [flush_steps]. unfold bindM. cbn [flush_step]. by rewrite decide_False, Hav.
Qed.

End Flush.

#[local] Arguments flush_step : simpl never.

(** ** Schedules *)

Inductive action : Type := ActCas (k : WindowKey) (e n : WindowValue) | ActMark | ActFlush (i : nat).

Section Schedules.

Context {W : Type} `{DuckDbLaws W} `{StdHash} `{UnorderedSet}.

Definition act (a : action) (s : flush_sys (W := W)) : option flush_sys :=
  let '(w, x) := fs_state s in
  match a with
  | ActCas k e n =>
      match inprocess_cas k e n (wb_primary x) with
      | (Ok true, p) => Some (mkFlushSys (w, set_primary x p) (PendDirty k :: fs_pending s) (fs_flushes s))
      | _ => None
      end
  | ActMark =>
      match fs_pending s with
      | m :: pend => Some (mkFlushSys (w, apply_mark m x) pend (fs_flushes s))
      | [] => None
      end
  | ActFlush i =>
      match fs_flushes s !! i with
      | Some f => Some (mkFlushSys (flush_step f (w, x)).2 (fs_pending s) (<[i := (flush_step f (w, x)).1]> (fs_flushes s)))
      | None => None
      end
  end.

Fixpoint acts (l : list action) (s : flush_sys) : option flush_sys :=
  match l with [] => Some s | a :: l' => act a s ≫= acts l' end.

Lemma acts_reachable (alive : WindowKey -> Prop) (l : list action) : forall (s s' : flush_sys (W := W)),
  Forall (fun a => match a with ActCas k _ _ => wb_key k | _ => True end) l ->
  acts l s = Some s' -> rtc (sys_step alive) s s'.
Proof.
  induction l as [|a l IH]; intros s s' Hl Hr; [injection Hr as ->; done|].
  apply Forall_cons in Hl as [Ha Hl]. simpl in Hr. apply bind_Some in Hr as (s1 & Hs1 & Hr).
  apply (rtc_l _ _ s1); [|by apply IH]. destruct s as [[w x] pend fl]. unfold act in Hs1. simpl in Hs1.
  destruct a as [k e n| |i].
  - destruct (inprocess_cas k e n (wb_primary x)) as [[[]|] p] eqn:Hc; try done. injection Hs1 as <-. by eapply StepCas.
  - destruct pend as [|m pend]; [done|]. injection Hs1 as <-. apply (StepMark alive m w x [] pend fl).
  - destruct (fl !! i) as [f|] eqn:Hf; [|done]. injection Hs1 as <-. by apply StepFlush.
Qed.

End Schedules.

(** ** Properties *)

(** Taken alone, the critical sections of a flush do what [flush_sync] does. *)
Theorem flush_alone {W : Type} `{DuckDbLaws W} `{StdHash} `{UnorderedSet} (wx : W * WriteBackWindowStore) :
  exists n, flush_steps n FlushIdle wx = (FlushIdle, (flush_sync wx).2).
Proof.
  destruct wx as [w x]. destruct (dirty_steps (wb_dirty x) (wb_expired x) (w, clear_marks x)) as [n Hn].
  pose proof (deleting_steps (set_order (wb_expired x)) (flush_dirty (wb_dirty x) (w, clear_marks x)).2) as Hd.
  exists (1 + (n + S (length (set_order (wb_expired x)))))%nat. rewrite (flush_steps_add 1).
  change (flush_steps 1 FlushIdle (w, x)) with
    (FlushReading (wb_dirty x) (wb_expired x) (set_order (wb_dirty x)) [], (w, clear_marks x)).
  cbn [fst snd]. rewrite flush_steps_add, Hn. cbn [fst snd]. rewrite Hd.
  unfold flush_sync, do_flush, bindM. by destruct (flush_dirty _ _) as [[] wx1].
Qed.

(** C11: with one flush at a time, no write is lost: from a store just started,
    under every interleaving of compare_and_swap and expire calls, the sections of
    the flush, and database failures, whenever the flush is idle and no caller is
    about to mark a key, every key that no caller expires is marked dirty or its
    stored value is the current one. *)
Theorem single_flush_keeps_writes {W : Type} `{DuckDbLaws W} `{StdHash} `{UnorderedSet}
    (alive : WindowKey -> Prop) (wx : W * WriteBackWindowStore) (s : flush_sys) (k : WindowKey)
    (Hinv : wb_inv alive wx) (Hreach : rtc (sys_step alive) (mkFlushSys wx [] [FlushIdle]) s)
    (Hk : wb_key k) (Ha : alive k) :
  fs_flushes s = [FlushIdle] -> fs_pending s = [] ->
  k ∈ wb_dirty (fs_state s).2 \/ stored (fs_state s) k = wb_view (fs_state s) k.
Proof.
  intros Hidle Hpend. destruct Hinv as (Hok & Hkeys & Halive).
  assert (Hs : sys_inv alive s).
  { apply (sys_inv_rtc _ _ _ Hreach). exists FlushIdle. split; [done|]. split; simpl; [done|done| | |].
    - intros j [?|[?|[[]|[?|?]]]]; [auto|auto|set_solver..].
    - intros j Hj Hal. destruct (Halive j Hj Hal). set_solver.
    - intros j Hj Hal. destruct (Halive j Hj Hal) as [_ Hst].
      destruct (decide (j ∈ wb_dirty wx.2)); [by left|right; right; by apply Hst]. }
  destruct Hs as (f & Hf & [_ _ _ _ Hsafe]). rewrite Hidle in Hf. injection Hf as <-.
  rewrite Hpend in Hsafe. destruct (Hsafe k Hk Ha) as [?|[?|?]]; [by left|set_solver|by right].
Qed.

(** Sample: an empty database and two flushes; a write falls between their reads. *)
Definition sample_value_1 : WindowValue := mkWindowValue f64_one 1.

Definition sample_fresh : sample_db * WriteBackWindowStore :=
  (mkSampleDb ∅ None ∅ never, mkWriteBack (inprocess_new 4) sample_duck sample_wb_config ∅ ∅ true).

Definition lost_update_schedule : list action :=
  [ActCas live_key WindowValue_zero sample_value_1; ActMark; ActFlush 0; ActFlush 0;
   ActCas live_key sample_value_1 sample_value; ActMark; ActFlush 1; ActFlush 1; ActFlush 1; ActFlush 1;
   ActFlush 0; ActFlush 0].

Definition one_flush_schedule : list action :=
  [ActCas live_key WindowValue_zero sample_value_1; ActMark; ActFlush 0; ActFlush 0;
   ActCas live_key sample_value_1 sample_value; ActMark; ActFlush 0; ActFlush 0].

Lemma schedule_keys (l : list action) :
  Forall (fun a => match a with ActCas k _ _ => k = live_key | _ => True end) l ->
  Forall (fun a => match a with ActCas k _ _ => wb_key k | _ => True end) l.
Proof. intros Hl. eapply Forall_impl; [exact Hl|]. intros [k e n| |i]; [intros ->; apply live_key_good|done..]. Qed.

Lemma sample_fresh_inv : wb_inv (fun _ => True) sample_fresh.
Proof.
  split_and!; [by apply (inprocess_new_ok 4)|..].
  - intros k [?|[?|[v Hv]]]; [set_solver..|].
    change (committed sample_fresh.1) with (∅ : window_table) in Hv. by rewrite lookup_empty in Hv.
  - intros k Hk _. split; [set_solver|]. intros _. unfold stored, wb_view. simpl. by rewrite inprocess_new_view.
Qed.

Lemma single_flush_keeps_writes_witness : exists s,
  acts one_flush_schedule (mkFlushSys sample_fresh [] [FlushIdle]) = Some s /\
  (live_key ∈ wb_dirty (fs_state s).2 \/ stored (fs_state s) live_key = wb_view (fs_state s) live_key).
Proof.
  destruct (acts one_flush_schedule (mkFlushSys sample_fresh [] [FlushIdle])) as [s|] eqn:Hs;
    [|vm_compute in Hs; discriminate].
  assert (Hend : option_map (fun s => (fs_flushes s, fs_pending s))
    (acts one_flush_schedule (mkFlushSys sample_fresh [] [FlushIdle])) = Some ([FlushIdle], [])) by (vm_compute; reflexivity).
  rewrite Hs in Hend. injection Hend as Hidle Hpend. exists s. split; [reflexivity|].
  apply (single_flush_keeps_writes (fun _ => True) sample_fresh s live_key sample_fresh_inv).
  - eapply acts_reachable; [|exact Hs]. apply schedule_keys. repeat constructor.
  - apply live_key_good.
  - exact I.
  - exact Hidle.
  - exact Hpend.
Defined.

(** Two flushes at a time, as of the background thread and of a range query,
    can lose a write: some interleaving without any expire ends with both flushes
    idle, nothing marked and no caller at work, and an older value stored than the
    current one. *)
Theorem two_flushes_lose_write : exists s,
  rtc (sys_step (fun _ => True)) (mkFlushSys sample_fresh [] [FlushIdle; FlushIdle]) s /\
  fs_flushes s = [FlushIdle; FlushIdle] /\ fs_pending s = [] /\ wb_dirty (fs_state s).2 = ∅ /\
  wb_view (fs_state s) live_key = sample_value /\ stored (fs_state s) live_key = sample_value_1.
Proof.
  destruct (acts lost_update_schedule (mkFlushSys sample_fresh [] [FlushIdle; FlushIdle])) as [s|] eqn:Hs;
    [|vm_compute in Hs; discriminate].
  assert (Hend : option_map (fun s => (fs_flushes s, fs_pending s, bool_decide (wb_dirty (fs_state s).2 = ∅),
      wb_view (fs_state s) live_key, stored (fs_state s) live_key))
    (acts lost_update_schedule (mkFlushSys sample_fresh [] [FlushIdle; FlushIdle]))
    = Some ([FlushIdle; FlushIdle], [], true, sample_value, sample_value_1)) by (vm_compute; reflexivity).
  rewrite Hs in Hend. injection Hend as Hidle Hpend Hd Hv Hst. exists s.
  split; [eapply acts_reachable; [|exact Hs]; apply schedule_keys; repeat constructor|].
  split_and!; [done|done|by apply bool_decide_eq_true in Hd|done|done].
Qed.
