(* ===== verification/Json.v ===== *)
(** * The JSON library

    nlohmann/json as the serializer and the service use it: a class of
    operations, and in [JsonLaws] the documented behaviour the clients rely on.
    A sample library on finite trees keeps the laws. *)

From S2P Require Import Prelude Ieee.
From Stdlib Require Import SpecFloat Ascii.

Open Scope list_scope.
Open Scope Z_scope.

(** [json::parse_error], and the other classes of [json::exception]. *)
Inductive json_error : Type := ParseError (what : string) | OtherJsonError (what : string).

Definition json_what (e : json_error) : string := match e with ParseError what | OtherJsonError what => what end.

Class JsonLibrary (J : Type) : Type := {
  json_null : J;                                     (** [json{}] *)
  json_of_string : string -> J;
  json_of_int : Z -> J;                              (** of either signedness *)
  json_of_bool : bool -> J;
  json_of_double : float64 -> J;
  json_array : list J -> J;                          (** [json::array()] and [push_back] *)
  json_set : J -> string -> J -> J;                  (** [j[key] = v] *)
  (** the member of an object: [None] for a value that is no object *)
  json_find : J -> string -> option (option J);
  json_elements : J -> list J;                       (** what a range-for visits *)
  json_as_string : J -> expected string json_error;  (** [get<std::string>()] *)
  json_as_uint64 : J -> expected Z json_error;
  json_as_uint32 : J -> expected Z json_error;
  json_no_object : json_error;                       (** [value] on a value that is no object *)
  json_dump : J -> expected string json_error;
  json_parse : string -> expected J json_error
}.

Section Access.

Context {J : Type} `{JsonLibrary J}.

Definition json_contains (j : J) (key : string) : bool :=
  match json_find j key with Some (Some _) => true | _ => false end.

(** [j.value(key, default)]. *)
Definition json_value {A : Type} (as_type : J -> expected A json_error) (j : J) (key : string) (default_value : A)
    : expected A json_error :=
  match json_find j key with
  | None => Unexpected json_no_object
  | Some None => Ok default_value
  | Some (Some v) => as_type v
  end.

(** The elements of [j[key]]. *)
Definition json_member_elements (j : J) (key : string) : list J :=
  match json_find j key with Some (Some v) => json_elements v | _ => [] end.

End Access.

(** Finite doubles: the others are written as null. *)
Definition f64_finite (x : float64) : bool :=
  match x with S754_zero _ | S754_finite _ _ _ => true | _ => false end.

Class JsonLaws (J : Type) `{JsonLibrary J} : Type := {
  utf8 : string -> Prop;       (** well-formed UTF-8 *)
  json_object : J -> Prop;     (** null, or an object *)
  json_plain : J -> Prop;      (** can be written and read back *)
  law_null : json_object json_null;
  law_set_object : forall j k v, json_object j -> json_object (json_set j k v);
  law_find_null_set : forall k v k',
    json_find (json_set json_null k v) k' = Some (if decide (k' = k) then Some v else None);
  law_find_set : forall j k v k1 v1 k', json_object j ->
    json_find (json_set (json_set j k v) k1 v1) k'
    = if decide (k' = k1) then Some (Some v1) else json_find (json_set j k v) k';
  law_elements_array : forall l, json_elements (json_array l) = l;
  law_as_string : forall s, json_as_string (json_of_string s) = Ok s;
  law_as_uint64 : forall z, 0 <= z < u64_mod -> json_as_uint64 (json_of_int z) = Ok z;
  law_as_uint32 : forall z, 0 <= z < u32_mod -> json_as_uint32 (json_of_int z) = Ok z;
  law_plain_null : json_plain json_null;
  law_plain_string : forall s, utf8 s -> json_plain (json_of_string s);
  law_plain_int : forall z, - 2 ^ 63 <= z < u64_mod -> json_plain (json_of_int z);
  law_plain_bool : forall b, json_plain (json_of_bool b);
  law_plain_double : forall x, f64_finite x = true -> json_plain (json_of_double x);
  law_plain_array : forall l, Forall json_plain l -> json_plain (json_array l);
  law_plain_set : forall j k v, json_object j -> json_plain j -> utf8 k -> json_plain v -> json_plain (json_set j k v);
  (** ASCII text *)
  law_utf8_ascii : forall s, (forall c, c ∈ String.list_ascii_of_string s -> (N_of_ascii c < 128)%N) -> utf8 s;
  law_round_trip : forall j, json_plain j -> exists s, json_dump j = Ok s /\ json_parse s = Ok j
}.

(** ** A sample library: trees, written as the bits of their code *)

Definition json_leaf : Type := string + (Z + (bool + float64)).

#[export] Instance spec_float_eq_dec : EqDecision spec_float.
Proof. solve_decision. Defined.

#[export] Instance spec_float_countable : Countable spec_float.
Proof.
  refine (inj_countable'
    (fun x => match x with
      | S754_zero s => inl s | S754_infinity s => inr (inl s) | S754_nan => inr (inr None)
      | S754_finite s m e => inr (inr (Some (s, m, e))) end)
    (fun y : bool + (bool + option (bool * positive * Z)) => match y with
      | inl s => S754_zero s | inr (inl s) => S754_infinity s | inr (inr None) => S754_nan
      | inr (inr (Some (s, m, e))) => S754_finite s m e end) _).
  by intros [].
Defined.

Definition json_tree : Type := gen_tree json_leaf.

(** Nodes: 0 null, 1 an array, 2 an object whose members are nodes of key and value. *)
Definition member_key (m : json_tree) : string :=
  match m with GenNode _ (GenLeaf (inl k) :: _) => k | _ => "" end.
Definition member_value (m : json_tree) : json_tree :=
  match m with GenNode _ [_; v] => v | _ => GenNode 0 [] end.
Definition tree_members (t : json_tree) : list json_tree := match t with GenNode 2 l => l | _ => [] end.

Definition tree_find (t : json_tree) (key : string) : option (option json_tree) :=
  match t with
  | GenNode 2 l => Some (option_map member_value (find_first (fun m => String.eqb (member_key m) key) l))
  | _ => None
  end.

(** The newest member first. *)
Definition tree_set (t : json_tree) (key : string) (v : json_tree) : json_tree :=
  GenNode 2 (GenNode 3 [GenLeaf (inl key); v] :: tree_members t).

Definition tree_elements (t : json_tree) : list json_tree :=
  match t with GenNode 1 l => l | GenNode 2 l => map member_value l | GenNode _ _ => [] | GenLeaf _ => [t] end.

Fixpoint bits_of (p : positive) : string :=
  match p with xH => EmptyString | xO p' => String "0" (bits_of p') | xI p' => String "1" (bits_of p') end.

Fixpoint of_bits (s : string) : positive :=
  match s with EmptyString => xH | String c s' => if Ascii.eqb c "0" then xO (of_bits s') else xI (of_bits s') end.

Lemma of_bits_of (p : positive) : of_bits (bits_of p) = p.
Proof. induction p; simpl; congruence. Qed.

#[export] Instance tree_library : JsonLibrary json_tree := {
  json_null := GenNode 0 [];
  json_of_string := fun s => GenLeaf (inl s);
  json_of_int := fun z => GenLeaf (inr (inl z));
  json_of_bool := fun b => GenLeaf (inr (inr (inl b)));
  json_of_double := fun x => GenLeaf (inr (inr (inr x)));
  json_array := GenNode 1;
  json_set := tree_set;
  json_find := tree_find;
  json_elements := tree_elements;
  json_as_string := fun t => match t with GenLeaf (inl s) => Ok s | _ => Unexpected (OtherJsonError "type_error") end;
  json_as_uint64 := fun t => match t with GenLeaf (inr (inl z)) => Ok (wrap_u64 z) | _ => Unexpected (OtherJsonError "type_error") end;
  json_as_uint32 := fun t => match t with GenLeaf (inr (inl z)) => Ok (wrap_u32 z) | _ => Unexpected (OtherJsonError "type_error") end;
  json_no_object := OtherJsonError "type_error";
  json_dump := fun t => Ok (bits_of (encode t));
  json_parse := fun s => match decode (of_bits s) with Some t => Ok t | None => Unexpected (ParseError "parse_error") end
}.

#[export] Instance tree_laws : JsonLaws json_tree.
Proof.
  refine {| utf8 := fun _ => True; json_plain := fun _ => True;
            json_object := fun t => t = GenNode 0 [] \/ exists l, t = GenNode 2 l |}; try done.
  - by left.
  - intros j k v _. right. by eexists.
  - intros k v k'. simpl. unfold tree_find. simpl. destruct (String.eqb_spec k k') as [->|Hne]; simpl.
    + by rewrite decide_True.
    + by rewrite decide_False.
  - intros j k v k1 v1 k' _. simpl. destruct (String.eqb_spec k1 k') as [->|Hne]; simpl.
    + by rewrite decide_True.
    + by rewrite decide_False.
  - intros z Hz. simpl. unfold wrap_u64. by rewrite Z.mod_small.
  - intros z Hz. simpl. unfold wrap_u32. by rewrite Z.mod_small.
  - intros j _. eexists. split; [done|]. simpl. by rewrite of_bits_of, decode_encode.
Defined.
