(* ===== verification/Serializer.v ===== *)
(** * DecisionSerializer: decisions as JSON text

    include/fre/service/decision_serializer.hpp and
    src/service/decision_serializer.cpp, over the JSON library of Json.v. *)

From S2P Require Import Prelude Ieee CoreTypes Errors Json.
From Stdlib Require Import SpecFloat Ascii.

Open Scope list_scope.
Open Scope Z_scope.

Definition verdict_to_str (v : Verdict) : string :=
  match v with Pass => "pass" | Flag => "flag" | Block => "block" end.

Definition str_to_verdict (s : string) : Verdict :=
  if str_eqb s "flag" then Flag else if str_eqb s "block" then Block else Pass.

(** A [float] as the [double] it equals. *)
Definition f64_of_f32 (x : float32) : float64 :=
  match x with
  | S754_finite s m e => binary_normalize prec64 emax64 (if s then Zneg m else Zpos m) e s
  | _ => x
  end.

Section Serializer.

Context {J : Type} `{JsonLibrary J}.

(** [j[key] = value] for each pair in turn. *)
Definition json_assign (j : J) (fields : list (string * J)) : J :=
  fold_left (fun j kv => json_set j kv.1 kv.2) fields j.

Definition json_fields (fields : list (string * J)) : J := json_assign json_null fields.

(** A field that is assigned only when it has a value. *)
Definition optional_field {A : Type} (key : string) (f : A -> J) (v : option A) : list (string * J) :=
  match v with Some a => [(key, f a)] | None => [] end.

Definition evaluator_result_to_json (r : EvaluatorResult) : J :=
  json_fields (
    [("evaluator_id", json_of_string (er_evaluator_id r));
     ("verdict", json_of_string (verdict_to_str (er_verdict r)))]
    ++ optional_field "reason_code" json_of_string (er_reason_code r)
    ++ [("skipped", json_of_bool (er_skipped r))]
    ++ optional_field "score" (fun x => json_of_double (f64_of_f32 x)) (er_score r)).

Definition stage_output_to_json (so : StageOutput) : J :=
  json_fields
    [("stage_id", json_of_string (so_stage_id so));
     ("verdict", json_of_string (verdict_to_str (so_verdict so)));
     ("elapsed_us", json_of_int (so_elapsed_us so));
     ("degraded", json_of_int (so_degraded_reason so));
     ("evaluator_results", json_array (map evaluator_result_to_json (so_evaluator_results so)))].

Definition active_decision_to_json (ad : ActiveDecision) : J :=
  json_fields
    [("decision_type_id", json_of_string (ad_decision_type_id ad));
     ("rule_id", json_of_string (ad_rule_id ad));
     ("priority", json_of_int (ad_priority ad))].

(** The value that is dumped. *)
Definition decision_to_json (d : Decision) : J :=
  json_fields (
    [("pipeline_id", json_of_string (d_pipeline_id d));
     ("pipeline_version", json_of_string (d_pipeline_version d));
     ("event_id", json_of_int (d_event_id d));
     ("tenant_id", json_of_string (d_tenant_id d));
     ("entity_id", json_of_string (d_entity_id d));
     ("final_verdict", json_of_string (verdict_to_str (d_final_verdict d)));
     ("elapsed_us", json_of_int (d_elapsed_us d));
     ("degraded_reason", json_of_int (d_degraded_reason d));
     ("decided_at_us", json_of_int (Z.quot (d_decided_at d) ns_per_us));
     ("stage_outputs", json_array (map stage_output_to_json (d_stage_outputs d)))]
    ++ match d_active_decisions d with
       | [] => []
       | l => [("active_decisions", json_array (map active_decision_to_json l))]
       end).

(** [to_json]: [dump] may throw. *)
Definition to_json (d : Decision) : expected string json_error := json_dump (decision_to_json d).

(** Calls that may throw, in order. *)
Definition try {A B : Type} (x : expected A json_error) (k : A -> expected B json_error) : expected B json_error :=
  match x with Ok a => k a | Unexpected e => Unexpected e end.

Fixpoint try_map {A B : Type} (f : A -> expected B json_error) (l : list A) : expected (list B) json_error :=
  match l with
  | [] => Ok []
  | a :: l' => try (f a) (fun b => try (try_map f l') (fun bs => Ok (b :: bs)))
  end.

Definition stage_output_of_json (sj : J) : expected StageOutput json_error :=
  try (json_value json_as_string sj "stage_id" "") (fun stage_id =>
  try (json_value json_as_string sj "verdict" "pass") (fun verdict =>
  try (json_value json_as_uint64 sj "elapsed_us" 0) (fun elapsed_us =>
  Ok (mkStageOutput stage_id (str_to_verdict verdict) [] Degraded.None elapsed_us)))).

Definition active_decision_of_json (aj : J) : expected ActiveDecision json_error :=
  try (json_value json_as_string aj "decision_type_id" "") (fun decision_type_id =>
  try (json_value json_as_string aj "rule_id" "") (fun rule_id =>
  try (json_value json_as_uint32 aj "priority" 0) (fun priority =>
  Ok (mkActiveDecision decision_type_id rule_id priority)))).

(** The body of the [try] of [from_json]. *)
Definition decision_of_json (j : J) : expected Decision json_error :=
  try (json_value json_as_string j "pipeline_id" "") (fun pipeline_id =>
  try (json_value json_as_string j "pipeline_version" "") (fun pipeline_version =>
  try (json_value json_as_uint64 j "event_id" 0) (fun event_id =>
  try (json_value json_as_string j "tenant_id" "") (fun tenant_id =>
  try (json_value json_as_string j "entity_id" "") (fun entity_id =>
  try (json_value json_as_string j "final_verdict" "pass") (fun final_verdict =>
  try (json_value json_as_uint64 j "elapsed_us" 0) (fun elapsed_us =>
  try (if json_contains j "stage_outputs"
       then try_map stage_output_of_json (json_member_elements j "stage_outputs") else Ok []) (fun stage_outputs =>
  try (if json_contains j "active_decisions"
       then try_map active_decision_of_json (json_member_elements j "active_decisions") else Ok []) (fun active_decisions =>
  Ok (mkDecision pipeline_id pipeline_version event_id tenant_id entity_id 0 stage_outputs
        (str_to_verdict final_verdict) Degraded.None elapsed_us active_decisions)))))))))).

Definition from_json (json_str : string) : expected Decision Error :=
  match try (json_parse json_str) decision_of_json with
  | Ok d => Ok d
  | Unexpected e => Unexpected (ErrEmission (mkEmissionError EmissionSerializationError "deserializer" (json_what e)))
  end.

End Serializer.

(** ** Specification vocabulary *)

(** What comes back of a stage output and of a decision. *)
Definition restored_stage (so : StageOutput) : StageOutput :=
  mkStageOutput (so_stage_id so) (so_verdict so) [] Degraded.None (so_elapsed_us so).

Definition restored (d : Decision) : Decision :=
  mkDecision (d_pipeline_id d) (d_pipeline_version d) (d_event_id d) (d_tenant_id d) (d_entity_id d) 0
    (map restored_stage (d_stage_outputs d)) (d_final_verdict d) Degraded.None (d_elapsed_us d) (d_active_decisions d).

Section Writable.

Context {J : Type} `{JsonLaws J}.

Definition writable_result (r : EvaluatorResult) : Prop :=
  utf8 (er_evaluator_id r) /\ (forall s, er_reason_code r = Some s -> utf8 s) /\
  (forall x, er_score r = Some x -> f64_finite (f64_of_f32 x) = true).

Definition writable_stage (so : StageOutput) : Prop :=
  utf8 (so_stage_id so) /\ 0 <= so_elapsed_us so < u64_mod /\ 0 <= so_degraded_reason so < u16_mod /\
  Forall writable_result (so_evaluator_results so).

Definition writable_active (ad : ActiveDecision) : Prop :=
  utf8 (ad_decision_type_id ad) /\ utf8 (ad_rule_id ad) /\ 0 <= ad_priority ad < u32_mod.

(** A decision whose texts are UTF-8, whose scores are finite and whose numbers
    are of their types. *)
Definition writable (d : Decision) : Prop :=
  Forall utf8 [d_pipeline_id d; d_pipeline_version d; d_tenant_id d; d_entity_id d] /\
  0 <= d_event_id d < u64_mod /\ 0 <= d_elapsed_us d < u64_mod /\ 0 <= d_degraded_reason d < u16_mod /\
  - 2 ^ 63 <= d_decided_at d < 2 ^ 63 /\
  Forall writable_stage (d_stage_outputs d) /\ Forall writable_active (d_active_decisions d).

End Writable.

(** ** Lemmas *)

Create HintDb json.

Section Lemmas.

Context {J : Type} `{JsonLaws J}.

Lemma str_to_verdict_of (v : Verdict) : str_to_verdict (verdict_to_str v) = v.
Proof. by destruct v. Qed.

Lemma try_map_map {A B C : Type} (f : B -> expected C json_error) (g : A -> B) (h : A -> C) (l : list A) :
  (forall a, a ∈ l -> f (g a) = Ok (h a)) -> try_map f (map g l) = Ok (map h l).
Proof.
  induction l as [|a l IH]; intros Hf; [done|]. simpl. rewrite Hf by left. simpl.
  rewrite IH; [done|]. intros b Hb. apply Hf. by right.
Qed.

(** The value under a key is the last one assigned. *)
Definition last_field (fields : list (string * J)) (key : string) : option J :=
  fold_left (fun found kv => if decide (key = kv.1) then Some kv.2 else found) fields None.

Lemma json_assign_object (fields : list (string * J)) (j : J) : json_object j -> json_object (json_assign j fields).
Proof.
  revert j. induction fields as [|[k v] fields IH]; intros j Hj; [done|]. apply IH. by apply law_set_object.
Qed.

Lemma json_find_fields (fields : list (string * J)) (key : string) :
  fields <> [] -> json_find (json_fields fields) key = Some (last_field fields key).
Proof.
  intros Hne. unfold json_fields, last_field.
  induction fields as [|[k v] fields IH] using rev_ind; [done|]. clear Hne. unfold json_assign in *.
  rewrite !fold_left_app. simpl. destruct fields as [|f fields]; [simpl; by rewrite law_find_null_set|].
  specialize (IH ltac:(done)). remember (f :: fields) as l eqn:Hl.
  assert (Hset : exists j k0 v0, json_object j /\ fold_left (fun j kv => json_set j kv.1 kv.2) l json_null = json_set j k0 v0).
  { rewrite Hl. destruct (exists_last (l := f :: fields)) as [l' [kv Heq]]; [done|]. rewrite Heq, fold_left_app. simpl.
    exists (json_assign json_null l'), kv.1, kv.2. split; [apply json_assign_object, law_null|done]. }
  destruct Hset as (j & k0 & v0 & Hj & Hset). rewrite Hset in *. rewrite law_find_set by done.
  by case_decide.
Qed.

Lemma json_fields_plain (fields : list (string * J)) :
  Forall (fun kv => utf8 kv.1 /\ json_plain kv.2) fields -> json_plain (json_fields fields).
Proof.
  unfold json_fields. intros Hf. assert (Hgen : forall j, json_object j -> json_plain j -> json_plain (json_assign j fields)).
  { induction fields as [|[k v] fields IH]; intros j Ho Hp; [done|]. apply Forall_cons in Hf as [[Hk Hv] Hf].
    apply IH; [done|by apply law_set_object|by apply law_plain_set]. }
  apply Hgen; [apply law_null|apply law_plain_null].
Qed.

(** Literal keys and texts are ASCII. *)
Definition ascii_text (s : string) : bool := forallb (fun c => N.ltb (N_of_ascii c) 128) (String.list_ascii_of_string s).

Lemma utf8_literal (s : string) : ascii_text s = true -> utf8 s.
Proof.
  intros Hs. apply law_utf8_ascii. intros c Hc. unfold ascii_text in Hs. rewrite forallb_forall in Hs.
  apply N.ltb_lt, Hs. by apply list_elem_of_In.
Qed.

Lemma verdict_plain (v : Verdict) : json_plain (json_of_string (verdict_to_str v)).
Proof. apply law_plain_string. apply utf8_literal. by destruct v. Qed.

Lemma fields_plain_cons (k : string) (v : J) (fields : list (string * J)) :
  ascii_text k = true -> json_plain v -> Forall (fun kv => utf8 kv.1 /\ json_plain kv.2) fields ->
  Forall (fun kv => utf8 kv.1 /\ json_plain kv.2) ((k, v) :: fields).
Proof. intros Hk Hv Hf. constructor; [split; [by apply utf8_literal|done]|done]. Qed.

Lemma fields_plain_nil : Forall (fun kv : string * J => utf8 kv.1 /\ json_plain kv.2) [].
Proof. constructor. Qed.

Hint Resolve law_plain_string law_plain_bool law_plain_double verdict_plain fields_plain_nil : json.
Hint Extern 1 (json_plain (json_of_int _)) => apply law_plain_int; unfold u64_mod, u32_mod, u16_mod in *; lia : json.

Ltac plain_fields := apply json_fields_plain; repeat (apply fields_plain_cons; [reflexivity|eauto with json|]); eauto with json.

Lemma evaluator_result_plain (r : EvaluatorResult) : writable_result r -> json_plain (evaluator_result_to_json r).
Proof.
  intros (Hid & Hreason & Hscore). unfold evaluator_result_to_json.
  destruct (er_reason_code r) as [reason|], (er_score r) as [score|]; simpl;
    try specialize (Hreason _ eq_refl); try specialize (Hscore _ eq_refl); plain_fields.
Qed.

Lemma stage_output_plain (so : StageOutput) : writable_stage so -> json_plain (stage_output_to_json so).
Proof.
  intros (Hid & Hel & Hdeg & Hres). unfold stage_output_to_json.
  assert (Harr : json_plain (json_array (map evaluator_result_to_json (so_evaluator_results so)))).
  { apply law_plain_array, Forall_map. eapply Forall_impl; [exact Hres|]. apply evaluator_result_plain. }
  plain_fields.
Qed.

Lemma active_decision_plain (ad : ActiveDecision) : writable_active ad -> json_plain (active_decision_to_json ad).
Proof. intros (Hid & Hrule & Hprio). unfold active_decision_to_json. plain_fields. Qed.

Lemma decision_plain (d : Decision) : writable d -> json_plain (decision_to_json d).
Proof.
  intros (Htext & Hid & Hel & Hdeg & Hat & Hst & Hact). rewrite !Forall_cons in Htext.
  destruct Htext as (Hp & Hv & Ht & He & _). unfold decision_to_json.
  assert (Harr : json_plain (json_array (map stage_output_to_json (d_stage_outputs d)))).
  { apply law_plain_array, Forall_map. eapply Forall_impl; [exact Hst|]. apply stage_output_plain. }
  assert (Harr' : json_plain (json_array (map active_decision_to_json (d_active_decisions d)))).
  { apply law_plain_array, Forall_map. eapply Forall_impl; [exact Hact|]. apply active_decision_plain. }
  assert (Hus : json_plain (json_of_int (Z.quot (d_decided_at d) ns_per_us))).
  { apply law_plain_int. unfold ns_per_us, u64_mod. 
    pose proof (Z.quot_rem' (d_decided_at d) 1000). pose proof (Z.rem_bound_abs (d_decided_at d) 1000). lia. }
  destruct (d_active_decisions d); plain_fields.
Qed.

(** Reading a field back. *)
Lemma json_value_field {A : Type} (as_type : J -> expected A json_error) (fields : list (string * J)) key d v a :
  last_field fields key = Some v -> as_type v = Ok a -> json_value as_type (json_fields fields) key d = Ok a.
Proof.
  intros Hl Ha. unfold json_value. rewrite json_find_fields by (by intros ->). by rewrite Hl.
Qed.

Lemma json_array_field (fields : list (string * J)) key (l : list J) :
  last_field fields key = Some (json_array l) ->
  json_contains (json_fields fields) key = true /\ json_member_elements (json_fields fields) key = l.
Proof.
  intros Hl. unfold json_contains, json_member_elements. rewrite json_find_fields by (by intros ->). rewrite Hl.
  split; [done|apply law_elements_array].
Qed.

Ltac read_field :=
  erewrite json_value_field;
    [|reflexivity|first [apply law_as_string|apply law_as_uint64; lia|apply law_as_uint32; lia]]; cbn [try].

Lemma read_stage_output (so : StageOutput) :
  0 <= so_elapsed_us so < u64_mod -> stage_output_of_json (stage_output_to_json so) = Ok (restored_stage so).
Proof.
  intros Hel. unfold stage_output_of_json, stage_output_to_json. do 3 read_field. by rewrite str_to_verdict_of.
Qed.

Lemma read_active_decision (ad : ActiveDecision) :
  0 <= ad_priority ad < u32_mod -> active_decision_of_json (active_decision_to_json ad) = Ok ad.
Proof.
  intros Hp. unfold active_decision_of_json, active_decision_to_json. do 3 read_field. by destruct ad.
Qed.

Lemma read_decision (d : Decision) : writable d -> decision_of_json (decision_to_json d) = Ok (restored d).
Proof.
  intros (_ & Hid & Hel & _ & _ & Hst & Hact). rewrite Forall_forall in Hst. rewrite Forall_forall in Hact.
  assert (Hstages : try_map stage_output_of_json (map stage_output_to_json (d_stage_outputs d))
    = Ok (map restored_stage (d_stage_outputs d))).
  { apply try_map_map. intros so Hso. apply read_stage_output. by destruct (Hst so Hso) as (_ & ? & _). }
  assert (Hactive : try_map active_decision_of_json (map active_decision_to_json (d_active_decisions d))
    = Ok (d_active_decisions d)).
  { erewrite (try_map_map _ _ id), map_id; [done|]. intros ad Had. apply read_active_decision.
    by destruct (Hact ad Had) as (_ & _ & ?). }
  unfold decision_of_json, decision_to_json, restored.
  destruct (d_active_decisions d) as [|ad ads]; do 7 read_field; rewrite str_to_verdict_of.
  all: match goal with |- context [json_member_elements (json_fields ?l) "stage_outputs"] =>
    destruct (json_array_field l "stage_outputs" _ eq_refl) as [-> ->] end; rewrite Hstages; cbn [try].
  - unfold json_contains. by rewrite json_find_fields.
  - match goal with |- context [json_member_elements (json_fields ?l) "active_decisions"] =>
      destruct (json_array_field l "active_decisions" _ eq_refl) as [-> ->] end. by rewrite Hactive.
Qed.

End Lemmas.

(** ** Properties *)

(** C30: a decision whose texts are UTF-8, whose scores are finite and whose
    numbers are of their types is always written, and what is read back of the
    text is the same decision without its time of decision, its degradation
    reasons, and the degradation reasons and evaluator results of its stages. *)
Theorem json_round_trip {J : Type} `{JsonLaws J} (d : Decision) (Hd : writable d) :
  exists text, to_json d = Ok text /\ from_json text = Ok (restored d).
Proof.
  destruct (law_round_trip (decision_to_json d) (decision_plain d Hd)) as (text & Hdump & Hparse).
  exists text. split; [exact Hdump|]. unfold from_json. rewrite Hparse. simpl. by rewrite read_decision.
Qed.

Definition sample_decision : Decision :=
  mkDecision "p" "1" 7 "acme" "bob" 5000
    [mkStageOutput "eval" Flag [mkEvaluatorResult "e" Flag (Some "r") (Some f32_zero) false None None] 1 12]
    Flag 1 40 [mkActiveDecision "review" "r1" 3].

Lemma json_round_trip_witness : exists text,
  to_json sample_decision = Ok text /\
  from_json text = Ok (mkDecision "p" "1" 7 "acme" "bob" 0 [mkStageOutput "eval" Flag [] 0 12] Flag 0 40
    [mkActiveDecision "review" "r1" 3]).
Proof.
  apply (json_round_trip sample_decision). unfold writable, u64_mod, u16_mod. simpl.
  split_and!; try (repeat constructor; fail); try lia.
  - constructor; [|constructor]. unfold writable_stage, u64_mod, u16_mod. simpl. split_and!; try exact I; try lia.
    constructor; [|constructor]. split_and!; [exact I|done|]. intros x [= <-]. reflexivity.
  - constructor; [|constructor]. unfold writable_active, u32_mod. simpl. split_and!; try exact I; lia.
Defined.
