(* ===== verification/Http.v ===== *)
(** * HTTP text of the service

    [parse_request] and [http_response] of service/src/harness.cpp, with the
    [std::getline], [operator>>] and [std::stoi] they use.  A client that parses
    a response the same way finds its body. *)

From S2P Require Import Prelude Ieee CoreTypes Evaluators.
From Stdlib Require Import Ascii.

Open Scope list_scope.
Open Scope Z_scope.

Import AllowDeny.

Definition crlf : string := String carriage_return (String newline EmptyString).

Record HttpRequest : Type := mkHttpRequest {
  hr_method : string;
  hr_path : string;
  hr_body : string;
  hr_content_length : Z
}.

(** Up to the next newline, and what follows it. *)
Fixpoint take_line (s : string) : string * string :=
  match s with
  | EmptyString => (EmptyString, EmptyString)
  | String c s' =>
      if Ascii.eqb c newline then (EmptyString, s')
      else let '(line, rest) := take_line s' in (String c line, rest)
  end.

(** [std::getline(stream, line)]: fails at the end of the stream. *)
Definition getline (s : string) : option (string * string) :=
  if str_empty s then None else Some (take_line s).

Fixpoint take_word (s : string) : string * string :=
  match s with
  | EmptyString => (EmptyString, EmptyString)
  | String c s' =>
      if Strtod.is_space c then (EmptyString, s)
      else let '(w, rest) := take_word s' in (String c w, rest)
  end.

(** [stream >> word]; an empty word when nothing is left. *)
Definition next_word (s : string) : string * string := take_word (Strtod.skip_spaces s).

(** [line.find(':')], [substr] before and after it. *)
Fixpoint split_colon (s : string) : option (string * string) :=
  match s with
  | EmptyString => None
  | String c s' =>
      if Ascii.eqb c ":" then Some (EmptyString, s')
      else match split_colon s' with Some (a, b) => Some (String c a, b) | None => None end
  end.

Fixpoint drop_blanks (s : string) : string :=
  match s with
  | String c s' => if Ascii.eqb c " " then drop_blanks s' else s
  | EmptyString => EmptyString
  end.

Fixpoint lower_string (s : string) : string :=
  match s with EmptyString => EmptyString | String c s' => String (Strtod.to_lower c) (lower_string s') end.

(** [std::stoi]: [std::invalid_argument] without a digit, [std::out_of_range]
    beyond an [int]; what follows the digits is ignored. *)
Definition stoi (s : string) : outcome Z :=
  let '(neg, s1) := Strtod.sign (Strtod.skip_spaces s) in
  let '(n, digits, _) := Strtod.digit_run Strtod.digit_value 10 0 0 s1 in
  match digits with
  | O => Threw "stoi"
  | S _ =>
      let v := if neg then - n else n in
      if (Z.leb (- 2 ^ 31) v && Z.ltb v (2 ^ 31))%bool then Returned v else Threw "stoi"
  end.

(** The loop over header lines: the last Content-Length and the rest of the
    stream; [fuel] bounds the lines. *)
Fixpoint parse_headers (fuel : nat) (s : string) (content_length : Z) : outcome (Z * string) :=
  match fuel with
  | O => Returned (content_length, s)
  | S fuel' =>
      match getline s with
      | None => Returned (content_length, s)
      | Some (line, rest) =>
          let line := strip_cr line in
          if str_empty line then Returned (content_length, rest)
          else match split_colon line with
               | None => parse_headers fuel' rest content_length
               | Some (name, value) =>
                   if str_eqb (lower_string name) "content-length" then
                     match stoi (drop_blanks value) with
                     | Threw what => Threw what
                     | Returned n => parse_headers fuel' rest n
                     end
                   else parse_headers fuel' rest content_length
               end
      end
  end.

(** [n] characters of the stream in a string of [n] zero bytes. *)
Fixpoint read_into (n : nat) (s : string) : string :=
  match n with
  | O => EmptyString
  | S n' => match s with
            | EmptyString => String Ascii.zero (read_into n' EmptyString)
            | String c s' => String c (read_into n' s')
            end
  end.

Definition parse_request (raw : string) : outcome (option HttpRequest) :=
  match getline raw with
  | None => Returned None
  | Some (line, rest) =>
      let line := strip_cr line in
      let '(method, line1) := next_word line in
      let '(path, _) := next_word line1 in
      match parse_headers (S (String.length rest)) rest 0 with
      | Threw what => Threw what
      | Returned (content_length, rest') =>
          Returned (Some (mkHttpRequest method path
            (if Z.ltb 0 content_length then read_into (Z.to_nat content_length) rest' else EmptyString)
            content_length))
      end
  end.

Definition http_response (status : Z) (reason content_type body : string) : string :=
  "HTTP/1.1 " +:+ to_string_Z status +:+ " " +:+ reason +:+ crlf
  +:+ "Content-Type: " +:+ content_type +:+ crlf
  +:+ "Content-Length: " +:+ to_string_Z (Z.of_nat (String.length body)) +:+ crlf
  +:+ "Connection: close" +:+ crlf
  +:+ crlf
  +:+ body.

(** ** Specification vocabulary *)

(** A message: its first line, header lines, an empty line, a body. *)
Fixpoint header_text (headers : list (string * string)) : string :=
  match headers with
  | [] => EmptyString
  | (name, value) :: headers' => name +:+ ":" +:+ " " +:+ value +:+ crlf +:+ header_text headers'
  end.

Definition message_text (first : string) (headers : list (string * string)) (body : string) : string :=
  first +:+ crlf +:+ header_text headers +:+ crlf +:+ body.

Definition no_newline (s : string) : Prop := has_char newline s = false.

Definition header_ok (h : string * string) : Prop :=
  no_newline h.1 /\ no_newline h.2 /\ has_char ":" h.1 = false.

Definition is_length_header (h : string * string) : bool := str_eqb (lower_string h.1) "content-length".

(** A word of a request line. *)
Fixpoint is_word (s : string) : bool :=
  match s with EmptyString => true | String c s' => negb (Strtod.is_space c) && is_word s' end.

(** ** Lemmas *)

Lemma take_line_app (l rest : string) :
  no_newline l -> take_line (l +:+ String newline rest) = (l, rest).
Proof.
  unfold no_newline. induction l as [|c l IH]; intros Hl; [done|].
  cbn [has_char] in Hl. apply orb_false_iff in Hl as [Hc Hl].
  change (String c l +:+ String newline rest) with (String c (l +:+ String newline rest)).
  cbn [take_line]. by rewrite Hc, IH.
Qed.

Lemma getline_crlf (l rest : string) :
  no_newline l -> exists line, getline (l +:+ crlf +:+ rest) = Some (line, rest) /\ strip_cr line = l.
Proof.
  intros Hl. exists (l +:+ String carriage_return EmptyString). split; [|apply strip_cr_crlf].
  unfold getline. change (crlf +:+ rest) with (String carriage_return EmptyString +:+ String newline rest).
  rewrite <- append_assoc, take_line_app.
  - destruct (str_empty _) eqn:He; [|done]. apply str_empty_eq in He. by destruct l.
  - unfold no_newline in *. by rewrite has_char_app, Hl.
Qed.

Lemma take_word_app (w rest : string) :
  is_word w = true -> take_word (w +:+ String " " rest) = (w, String " " rest).
Proof.
  induction w as [|c w IH]; intros Hw; [done|]. simpl in Hw. apply andb_true_iff in Hw as [Hc Hw].
  change (String c w +:+ String " " rest) with (String c (w +:+ String " " rest)). cbn [take_word].
  apply negb_true_iff in Hc. by rewrite Hc, IH.
Qed.

Lemma next_word_app (w rest : string) :
  w <> "" -> is_word w = true -> next_word (w +:+ String " " rest) = (w, String " " rest).
Proof.
  intros Hne Hw. unfold next_word. destruct w as [|c w]; [done|].
  pose proof Hw as Hc. simpl in Hc. apply andb_true_iff in Hc as [Hc _]. apply negb_true_iff in Hc.
  change (Strtod.skip_spaces (String c w +:+ String " " rest)) with
    (if Strtod.is_space c then Strtod.skip_spaces (w +:+ String " " rest) else String c w +:+ String " " rest).
  rewrite Hc. by apply take_word_app.
Qed.

Lemma next_word_blank (s : string) : next_word (String " " s) = next_word s.
Proof. reflexivity. Qed.

Lemma split_colon_app (a b : string) : has_char ":" a = false -> split_colon (a +:+ ":" +:+ b) = Some (a, b).
Proof.
  induction a as [|c a IH]; intros Ha; [done|]. cbn [has_char] in Ha. apply orb_false_iff in Ha as [Hc Ha].
  change (split_colon (String c a +:+ ":" +:+ b)) with
    (if Ascii.eqb c ":" then Some (EmptyString, a +:+ ":" +:+ b)
     else match split_colon (a +:+ ":" +:+ b) with Some (x, y) => Some (String c x, y) | None => None end).
  by rewrite Hc, IH.
Qed.

Lemma read_into_all (s : string) : read_into (String.length s) s = s.
Proof. induction s as [|c s IH]; [done|]. simpl. by rewrite IH. Qed.

Lemma stoi_to_string (n : Z) : 0 <= n < 2 ^ 31 -> stoi (to_string_Z n) = Returned n.
Proof.
  intros Hn. destruct (to_string_digits n 10) as (_ & Ha & [|k] & Hk & Hr); [simpl; lia|lia|lia|].
  destruct (to_string_Z n) as [|c s] eqn:Hs; [by simpl in Hr|].
  cbn [all_digits] in Ha. apply andb_true_iff in Ha as [Hc _].
  destruct (digit_char_facts c Hc) as (Hsp & _ & _ & _ & Hsign).
  unfold stoi. cbn [Strtod.skip_spaces]. rewrite Hsp, Hsign, Hr.
  destruct (Z.leb_spec (- 2 ^ 31) n); [|lia]. destruct (Z.ltb_spec n (2 ^ 31)); [done|lia].
Qed.

Lemma drop_blanks_digits (n : Z) : 0 <= n < 2 ^ 31 -> drop_blanks (" " +:+ to_string_Z n) = to_string_Z n.
Proof.
  intros Hn. destruct (to_string_digits n 10) as (_ & Ha & k & Hk & Hr); [simpl; lia|lia|].
  change (drop_blanks (" " +:+ to_string_Z n)) with (drop_blanks (to_string_Z n)).
  destruct (to_string_Z n) as [|c s]; [done|]. cbn [all_digits] in Ha. apply andb_true_iff in Ha as [Hc _].
  destruct (digit_char_facts c Hc) as (Hsp & _). cbn [drop_blanks].
  destruct (Ascii.eqb_spec c " "); [subst; discriminate|done].
Qed.

Definition header_line_of (h : string * string) : string := h.1 +:+ ":" +:+ " " +:+ h.2.

Lemma header_text_cons (h : string * string) (headers : list (string * string)) (rest : string) :
  header_text (h :: headers) +:+ rest = header_line_of h +:+ crlf +:+ header_text headers +:+ rest.
Proof. destruct h as [name value]. cbn [header_text]. unfold header_line_of. cbn [fst snd]. by rewrite !append_assoc. Qed.

Lemma header_line_ok (h : string * string) :
  header_ok h -> no_newline (header_line_of h) /\ str_empty (header_line_of h) = false /\
    split_colon (header_line_of h) = Some (h.1, " " +:+ h.2).
Proof.
  destruct h as [name value]. intros (Hn & Hv & Hc). unfold header_line_of, no_newline in *. cbn [fst snd] in *.
  split_and!.
  - rewrite !has_char_app. by rewrite Hn, Hv.
  - by destruct name.
  - by apply split_colon_app.
Qed.

(** The header loop, line by line. *)
Lemma parse_header_line (fuel : nat) (h : string * string) (rest : string) (len : Z) :
  header_ok h ->
  parse_headers (S fuel) (header_line_of h +:+ crlf +:+ rest) len =
    if is_length_header h
    then match stoi (drop_blanks (" " +:+ h.2)) with
         | Threw what => Threw what
         | Returned n => parse_headers fuel rest n
         end
    else parse_headers fuel rest len.
Proof.
  intros Hh. destruct (header_line_ok h Hh) as (Hnl & Hne & Hsp).
  destruct (getline_crlf _ rest Hnl) as (line & Hg & Hs). cbn [parse_headers]. rewrite Hg, Hs, Hne, Hsp. done.
Qed.

Lemma skip_headers (headers : list (string * string)) : forall (fuel : nat) (rest : string) (len : Z),
  Forall header_ok headers -> Forall (fun h => is_length_header h = false) headers ->
  parse_headers (length headers + fuel) (header_text headers +:+ rest) len = parse_headers fuel rest len.
Proof.
  induction headers as [|h headers IH]; intros fuel rest len Hok Hno; [done|].
  apply Forall_cons in Hok as [Hh Hok]. apply Forall_cons in Hno as [Hn Hno].
  rewrite header_text_cons. cbn [length Nat.add]. rewrite parse_header_line, Hn by done. by apply IH.
Qed.

Lemma end_headers (fuel : nat) (body : string) (len : Z) :
  parse_headers (S fuel) (crlf +:+ body) len = Returned (len, body).
Proof. reflexivity. Qed.

Lemma header_text_length (headers : list (string * string)) : (length headers <= String.length (header_text headers))%nat.
Proof.
  induction headers as [|h headers IH]; [done|]. rewrite <- (append_nil_r (header_text (h :: headers))), header_text_cons.
  rewrite !append_length. unfold crlf. simpl. lia.
Qed.

Lemma header_text_app (a b : list (string * string)) (rest : string) :
  header_text (a ++ b) +:+ rest = header_text a +:+ header_text b +:+ rest.
Proof. induction a as [|h a IH]; [done|]. cbn [app]. by rewrite !header_text_cons, IH. Qed.

Lemma all_digits_no_newline (s : string) : all_digits s = true -> no_newline s.
Proof.
  unfold no_newline. induction s as [|c s IH]; intros Hs; [done|]. cbn [all_digits] in Hs.
  apply andb_true_iff in Hs as [Hc Hs]. cbn [has_char]. rewrite IH by done.
  destruct (Ascii.eqb_spec c newline) as [->|]; [discriminate|done].
Qed.

Lemma parse_header_block (before after : list (string * string)) (name body : string) (n : Z) (fuel : nat) :
  Forall header_ok before -> Forall header_ok after -> no_newline name -> has_char ":" name = false ->
  Forall (fun h => is_length_header h = false) before -> Forall (fun h => is_length_header h = false) after ->
  lower_string name = "content-length" -> 0 <= n < 2 ^ 31 ->
  (length (before ++ (name, to_string_Z n) :: after) < fuel)%nat ->
  parse_headers fuel (header_text (before ++ (name, to_string_Z n) :: after) +:+ crlf +:+ body) 0 = Returned (n, body).
Proof.
  intros Hb Ha Nn Cn Hno1 Hno2 Hname Hn Hfuel. rewrite length_app in Hfuel. cbn [length] in Hfuel.
  replace fuel with (length before + S (length after + S (fuel - length before - length after - 2)))%nat by lia.
  rewrite header_text_app, skip_headers, header_text_cons by done.
  rewrite parse_header_line.
  - unfold is_length_header. cbn [fst snd]. rewrite Hname. rewrite drop_blanks_digits, stoi_to_string by done.
    change (str_eqb "content-length" "content-length") with true. cbv iota.
    rewrite skip_headers by done. apply end_headers.
  - split_and!; [done|apply all_digits_no_newline|done]. cbn [snd].
    destruct (to_string_digits n 10) as (_ & Had & _); [simpl; lia|lia|done].
Qed.

(** A message with one Content-Length header. *)
Lemma parse_message (method path tail : string) (before after : list (string * string)) (name body : string) (n : Z) :
  method <> "" -> path <> "" -> is_word method = true -> is_word path = true ->
  no_newline method -> no_newline path -> no_newline tail ->
  Forall header_ok before -> Forall header_ok after -> no_newline name -> has_char ":" name = false ->
  Forall (fun h => is_length_header h = false) before -> Forall (fun h => is_length_header h = false) after ->
  lower_string name = "content-length" -> 0 <= n < 2 ^ 31 ->
  parse_request (message_text (method +:+ " " +:+ path +:+ " " +:+ tail)
    (before ++ (name, to_string_Z n) :: after) body)
  = Returned (Some (mkHttpRequest method path (if Z.ltb 0 n then read_into (Z.to_nat n) body else "") n)).
Proof.
  intros Hm Hp Wm Wp Nm Np Nt Hb Ha Nn Cn Hno1 Hno2 Hname Hn. unfold message_text, parse_request.
  assert (Hfirst : no_newline (method +:+ " " +:+ path +:+ " " +:+ tail)).
  { unfold no_newline in *. rewrite !has_char_app. by rewrite Nm, Np, Nt. }
  destruct (getline_crlf _ (header_text (before ++ (name, to_string_Z n) :: after) +:+ crlf +:+ body) Hfirst)
    as (line & -> & ->).
  change (" " +:+ path +:+ " " +:+ tail) with (String " " (path +:+ " " +:+ tail)). rewrite next_word_app by done.
  rewrite next_word_blank. change (" " +:+ tail) with (String " " tail). rewrite next_word_app by done.
  rewrite parse_header_block; [done..|].
  pose proof (header_text_length (before ++ (name, to_string_Z n) :: after)). rewrite append_length. lia.
Qed.

Lemma is_word_no_newline (s : string) : is_word s = true -> no_newline s.
Proof.
  unfold no_newline. induction s as [|c s IH]; intros Hs; [done|]. cbn [is_word] in Hs.
  apply andb_true_iff in Hs as [Hc Hs]. cbn [has_char]. rewrite IH by done.
  destruct (Ascii.eqb_spec c newline) as [->|]; [discriminate|done].
Qed.

Lemma digits_word (n : Z) : 0 <= n < 10 ^ 60 -> is_word (to_string_Z n) = true /\ to_string_Z n <> "".
Proof.
  intros Hn. destruct (to_string_digits n 60) as (_ & Ha & k & Hk & Hr); [done|lia|]. split.
  - clear Hr. induction (to_string_Z n) as [|c s IH]; [done|]. cbn [all_digits] in Ha.
    apply andb_true_iff in Ha as [Hc Ha]. cbn [is_word]. destruct (digit_char_facts c Hc) as (-> & _). by apply IH.
  - intros He. rewrite He in Hr. simpl in Hr. injection Hr. lia.
Qed.

(** ** Properties *)

(** C31: parsing the text of a request, with any other header lines before and
    after its Content-Length in any case, gives its method, its path, its declared
    length and that many bytes of what follows the empty line. *)
Theorem parse_request_text (method path : string) (before after : list (string * string)) (name body : string)
    (Hm : method <> "") (Hp : path <> "") (Wm : is_word method = true) (Wp : is_word path = true)
    (Hb : Forall header_ok before) (Ha : Forall header_ok after) (Hn : no_newline name) (Hc : has_char ":" name = false)
    (Hno1 : Forall (fun h => is_length_header h = false) before)
    (Hno2 : Forall (fun h => is_length_header h = false) after)
    (Hname : lower_string name = "content-length") (Hlen : Z.of_nat (String.length body) < 2 ^ 31) :
  parse_request (message_text (method +:+ " " +:+ path +:+ " HTTP/1.1")
    (before ++ (name, to_string_Z (Z.of_nat (String.length body))) :: after) body)
  = Returned (Some (mkHttpRequest method path body (Z.of_nat (String.length body)))).
Proof.
  change (" HTTP/1.1") with (" " +:+ "HTTP/1.1"). rewrite parse_message; try done.
  - rewrite Nat2Z.id, read_into_all. destruct (Z.ltb_spec 0 (Z.of_nat (String.length body))); [done|].
    destruct body; [done|simpl in *; lia].
  - by apply is_word_no_newline.
  - by apply is_word_no_newline.
  - lia.
Qed.

Lemma parse_request_text_witness :
  parse_request (message_text "POST /events HTTP/1.1" [("Host", "localhost"); ("CONTENT-length", "2")] "{}")
  = Returned (Some (mkHttpRequest "POST" "/events" "{}" 2)).
Proof.
  refine (parse_request_text "POST" "/events" [("Host", "localhost")] [] "CONTENT-length" "{}" _ _ _ _ _ _ _ _ _ _ _ _);
    try discriminate; try reflexivity; repeat constructor.
Defined.

(** Every response is framed by its own headers: read the way the service
    reads requests, its status, its length and exactly its body come back. *)
Theorem http_response_framed (status : Z) (reason content_type body : string)
    (Hs : 0 <= status < 1000) (Hr : no_newline reason) (Ht : no_newline content_type)
    (Hlen : Z.of_nat (String.length body) < 2 ^ 31) :
  parse_request (http_response status reason content_type body)
  = Returned (Some (mkHttpRequest "HTTP/1.1" (to_string_Z status) body (Z.of_nat (String.length body)))).
Proof.
  assert (Heq : http_response status reason content_type body
    = message_text ("HTTP/1.1" +:+ " " +:+ to_string_Z status +:+ " " +:+ reason)
        ([("Content-Type", content_type)] ++ ("Content-Length", to_string_Z (Z.of_nat (String.length body))) ::
         [("Connection", "close")]) body).
  { unfold http_response, message_text. cbn [app header_text]. rewrite !append_assoc. reflexivity. }
  destruct (digits_word status ltac:(lia)) as [Hw Hne]. rewrite Heq, parse_message; try done;
    try first [by apply is_word_no_newline|lia|by repeat constructor].
  rewrite Nat2Z.id, read_into_all. destruct (Z.ltb_spec 0 (Z.of_nat (String.length body))); [done|].
  destruct body; [done|simpl in *; lia].
Qed.

Lemma http_response_framed_witness :
  parse_request (http_response 404 "Not Found" "text/plain" "not found")
  = Returned (Some (mkHttpRequest "HTTP/1.1" "404" "not found" 9)).
Proof. apply (http_response_framed 404 "Not Found" "text/plain" "not found"); [lia|reflexivity|reflexivity|reflexivity]. Defined.
