(* ===== verification/Harness.v ===== *)
(** * ServiceHarness: the HTTP front of a pipeline

    service/src/harness.cpp and service/include/fre/service/harness.hpp over the
    request text of Http.v, the fleet gate of FleetRouter.v and the pipeline of
    Pipeline.v.  A connection is handled on a socket of its own; its calls of the
    pipeline are whole calls.  [None] is a call that does not return or whose
    behaviour is undefined. *)

From S2P Require Import Prelude Ieee CoreTypes Errors ShuffleShard TokenBucket TenantRouter FleetRouter Config Stages.
From S2P Require Import EmitStage RunEvent Pipeline Evaluators Json Serializer Http.
From Stdlib Require Import Ascii.

Open Scope list_scope.
Open Scope Z_scope.

(** What the service needs of a connected socket. *)
Class HttpSocket (S : Type) : Type := {
  (** the bytes up to the first empty line, and those read beyond it; nothing on an error *)
  sock_read_until : M S (option (string * string));
  (** up to so many bytes; whether the error is none or the end of the stream *)
  sock_read_exactly : Z -> M S (string * bool);
  sock_write : string -> M S unit
}.

(** The state of the service that connections share. *)
Record Harness (W : Type) : Type := mkHarness {
  hs_fleet_router : option FleetConfig;
  hs_pipeline : System W;
  hs_running : bool
}.

Arguments mkHarness {W}. Arguments hs_fleet_router {W}. Arguments hs_pipeline {W}. Arguments hs_running {W}.

(** What a connection acts on: the world of the pipeline, its socket, the service. *)
Record HState (W S : Type) : Type := mkHState { h_world : W; h_sock : S; h_impl : Harness W }.

Arguments mkHState {W S}. Arguments h_world {W S}. Arguments h_sock {W S}. Arguments h_impl {W S}.

Definition state_name (s : PipelineState) : string :=
  match s with Stopped => "stopped" | Starting => "starting" | Running => "running" | Draining => "draining" end.

(** The event of a request; [Event{}] for the fields that are not set. *)
Definition request_event (tenant_id entity_id event_type : string) : Event :=
  mkEvent 0 tenant_id entity_id event_type 0 [] [].

Definition not_owner_response (hint : string) : string :=
  "HTTP/1.1 503 Service Unavailable" +:+ crlf +:+ "Content-Type: text/plain" +:+ crlf
  +:+ "Content-Length: 14" +:+ crlf
  +:+ (if str_empty hint then "" else "X-Fre-Redirect-Hint: " +:+ hint +:+ crlf)
  +:+ "Connection: close" +:+ crlf +:+ crlf +:+ "not owner here".

Definition fleet_disabled_json : string :=
  "{" +:+ dquote +:+ "fleet_routing" +:+ dquote +:+ ":" +:+ dquote +:+ "disabled" +:+ dquote +:+ "}".

Section Handler.

Context {W S J : Type} `{Clock W} `{Workers W} `{StdSort} `{StdHash} `{HttpSocket S} `{JsonLibrary J}.

(** Calls that may not return or may throw. *)
Definition HM (A : Type) : Type := HState W S -> option (outcome A * HState W S).

Definition hret {A : Type} (a : A) : HM A := fun s => Some (Returned a, s).
Definition hthrow {A : Type} (what : string) : HM A := fun s => Some (Threw what, s).

Definition hbind {A B : Type} (m : HM A) (k : A -> HM B) : HM B := fun s =>
  match m s with
  | Some (Returned a, s') => k a s'
  | Some (Threw what, s') => Some (Threw what, s')
  | None => None
  end.

Notation "'run' x <- m ; k" := (hbind m (fun x => k))
  (at level 200, x pattern, m at level 100, k at level 200, right associativity).

Definition on_sock {A : Type} (m : M S A) : HM A := fun s =>
  let '(a, sock) := m (h_sock s) in Some (Returned a, mkHState (h_world s) sock (h_impl s)).

Definition set_system (h : Harness W) (p : System W) : Harness W := mkHarness (hs_fleet_router h) p (hs_running h).

(** A call of the pipeline. *)
Definition on_pipeline {A : Type} (f : W -> System W -> option (A * W * System W)) : HM A := fun s =>
  match f (h_world s) (hs_pipeline (h_impl s)) with
  | None => None
  | Some (a, w, p) => Some (Returned a, mkHState w (h_sock s) (set_system (h_impl s) p))
  end.

Definition get_impl : HM (Harness W) := fun s => Some (Returned (h_impl s), s).

Definition set_running (b : bool) : HM unit := fun s =>
  Some (Returned tt, mkHState (h_world s) (h_sock s) (mkHarness (hs_fleet_router (h_impl s)) (hs_pipeline (h_impl s)) b)).

(** An answer that may not come, an answer that may be an exception. *)
Definition awaited {A : Type} (a : option A) : HM A := fun s => option_map (fun a => (Returned a, s)) a.
Definition or_throw {A : Type} (r : expected A json_error) : HM A :=
  match r with Ok a => hret a | Unexpected e => hthrow (json_what e) end.

(** [asio::write(sock, asio::buffer(text), ec)]. *)
Definition reply (text : string) : HM unit := on_sock (sock_write text).

(** The request of a connection, when it has one. *)
Definition receive_request : HM (option HttpRequest) :=
  run head <- on_sock sock_read_until;
  match head with
  | None => hret None
  | Some (raw_headers, buffered) =>
      match parse_request raw_headers with
      | Threw what => hthrow what
      | Returned None => run _ <- reply (http_response 400 "Bad Request" "text/plain" "bad request"); hret None
      | Returned (Some req) =>
          if Z.ltb 0 (hr_content_length req) then
            let needed := hr_content_length req in
            let already := Z.of_nat (String.length buffered) in
            run more <- (if Z.ltb already needed then on_sock (sock_read_exactly (needed - already)) else hret ("", true));
            let '(bytes, ok) := (more : string * bool) in
            if negb ok then hret None
            else
              let data := buffered +:+ bytes in
              hret (Some (mkHttpRequest (hr_method req) (hr_path req)
                (String.substring 0 (Nat.min (String.length data) (Z.to_nat needed)) data) needed))
          else hret (Some req)
      end
  end.

(** The three fields of an event, in the order they are read. *)
Definition event_fields (body : string) : expected (string * string * string) json_error :=
  try (json_parse (J := J) body) (fun j =>
  try (json_value json_as_string j "tenant_id" "") (fun tenant_id =>
  try (json_value json_as_string j "entity_id" "") (fun entity_id =>
  try (json_value json_as_string j "event_type" "event") (fun event_type =>
  Ok (tenant_id, entity_id, event_type))))).

(** [impl.fleet_router && !impl.fleet_router->owns(tenant_id)]. *)
Definition turned_away (h : Harness W) (tenant_id : string) : option bool :=
  match hs_fleet_router h with
  | None => Some false
  | Some c => option_map negb (owns (assign_fuel (fleet_size c)) c tenant_id)
  end.

Definition fleet_hint (h : Harness W) (tenant_id : string) : option string :=
  match hs_fleet_router h with
  | None => Some ""
  | Some c => redirect_hint (assign_fuel (fleet_size c)) c tenant_id
  end.

Definition post_events (body : string) : HM unit :=
  match event_fields body with
  | Unexpected (ParseError what) => reply (http_response 400 "Bad Request" "text/plain" what)
  | Unexpected e => hthrow (json_what e)
  | Ok (tenant_id, entity_id, event_type) =>
      run h <- get_impl;
      run away <- awaited (turned_away h tenant_id);
      if away : bool then
        run hint <- awaited (fleet_hint h tenant_id);
        reply (not_owner_response hint)
      else
        run result <- on_pipeline (submit (request_event tenant_id entity_id event_type));
        match result with
        | Ok _ => reply (http_response 202 "Accepted" "text/plain" "")
        | Unexpected e => reply (http_response 503 "Service Unavailable" "text/plain" (error_message e))
        end
  end.

Definition get_topology : HM unit :=
  run h <- get_impl;
  match hs_fleet_router h with
  | Some c => reply (http_response 200 "OK" "application/json" (topology_json c))
  | None => reply (http_response 200 "OK" "application/json" fleet_disabled_json)
  end.

Definition get_health : HM unit :=
  run h <- get_impl;
  let p := impl (hs_pipeline h) in
  run body <- or_throw (json_dump (json_fields (J := J)
    [("state", json_of_string (state_name (state_ p)));
     ("pipeline", json_of_string (cfg_pipeline_id (config p)));
     ("degraded", json_of_bool false)]));
  reply (http_response 200 "OK" "application/json" body).

Definition post_drain : HM unit :=
  run _ <- set_running false;
  run _ <- on_pipeline drain;
  run body <- or_throw (json_dump (json_fields (J := J) [("status", json_of_string "drained")]));
  reply (http_response 200 "OK" "application/json" body).

Definition dispatch (req : HttpRequest) : HM unit :=
  let asks (m p : string) := (str_eqb (hr_method req) m && str_eqb (hr_path req) p)%bool in
  if asks "POST" "/events" then post_events (hr_body req)
  else if asks "GET" "/topology" then get_topology
  else if asks "GET" "/health" then get_health
  else if asks "POST" "/pipeline/drain" then post_drain
  else reply (http_response 404 "Not Found" "text/plain" "not found").

(** [catch (const std::exception&) {}]. *)
Definition swallow (m : HM unit) : HM unit := fun s =>
  match m s with Some (Threw _, s') => Some (Returned tt, s') | r => r end.

Definition handle_connection : HM unit :=
  swallow (run req <- receive_request;
           match req with None => hret tt | Some req => dispatch req end).

End Handler.

(** ** What the socket promises *)

Class HttpSocketLaws (S : Type) `{HttpSocket S} : Type := {
  sock_sent : S -> list string;   (** the texts written *)
  law_read_until : forall s, sock_sent (sock_read_until s).2 = sock_sent s;
  law_read_exactly : forall n s, sock_sent (sock_read_exactly n s).2 = sock_sent s;
  law_sock_write : forall t s, sock_sent (sock_write t s).2 = sock_sent s ++ [t]
}.

Definition accepted_reply : string := http_response 202 "Accepted" "text/plain" "".

(** Everything but the socket is as before. *)
Definition same_service {W S : Type} (s s' : HState W S) : Prop :=
  h_world s' = h_world s /\ h_impl s' = h_impl s.

(** ** Lemmas *)

Section Lemmas.

Context {W S J : Type} `{Clock W} `{Workers W} `{StdSort} `{StdHash} `{HttpSocketLaws S} `{JsonLibrary J}.

Lemma reply_spec (text : string) (s : HState W S) : exists s',
  reply text s = Some (Returned tt, s') /\ same_service s s' /\ sock_sent (h_sock s') = sock_sent (h_sock s) ++ [text].
Proof.
  unfold reply, on_sock. pose proof (law_sock_write text (h_sock s)) as Hw.
  destruct (sock_write text (h_sock s)) as [[] sock]. by eexists.
Qed.

(** Receiving a request only reads, or refuses it. *)
Lemma receive_request_spec (s : HState W S) : exists r s' replies,
  receive_request s = Some (r, s') /\ same_service s s' /\ sock_sent (h_sock s') = sock_sent (h_sock s) ++ replies /\
  match r with
  | Returned (Some _) | Threw _ => replies = []
  | Returned None => replies = [] \/ replies = [http_response 400 "Bad Request" "text/plain" "bad request"]
  end.
Proof.
  unfold receive_request, hbind, on_sock. pose proof (law_read_until (h_sock s)) as Hr.
  destruct (sock_read_until (h_sock s)) as [[[raw buffered]|] sock]; simpl in Hr; cycle 1.
  { unfold hret. exists (Returned None), (mkHState (h_world s) sock (h_impl s)), []. rewrite app_nil_r. by split_and!; [..|left]. }
  destruct (parse_request raw) as [[req|]|what].
  - destruct (Z.ltb 0 (hr_content_length req)).
    + set (already := Z.of_nat (String.length buffered)). destruct (Z.ltb already (hr_content_length req)).
      * unfold on_sock. simpl. pose proof (law_read_exactly (hr_content_length req - already) sock) as He.
        destruct (sock_read_exactly _ sock) as [[bytes ok] sock']. simpl in *.
        destruct (negb ok); eexists _, _, []; rewrite app_nil_r; split_and!; try done; simpl; first [congruence|by left].
      * unfold hret. simpl. eexists _, _, []. rewrite app_nil_r. by split_and!.
    + unfold hret. eexists _, _, []. rewrite app_nil_r. by split_and!.
  - destruct (reply_spec (http_response 400 "Bad Request" "text/plain" "bad request") (mkHState (h_world s) sock (h_impl s)))
      as (s' & -> & Hs & Hsent). unfold hret. eexists _, s', _. split_and!; [done|apply Hs..| |by right].
    rewrite Hsent. simpl. by rewrite Hr.
  - unfold hthrow. eexists _, _, []. rewrite app_nil_r. by split_and!.
Qed.

(** What a connection may do: nothing but answer, submit one event, or drain. *)
Inductive connection_effect (s s' : HState W S) : list string -> Prop :=
| EffectNone replies :
    h_world s' = h_world s -> h_impl s' = h_impl s -> (length replies <= 1)%nat -> accepted_reply ∉ replies ->
    connection_effect s s' replies
| EffectSubmit tenant entity event_type (r : expected unit Error) p :
    turned_away (h_impl s) tenant = Some false ->
    submit (request_event tenant entity event_type) (h_world s) (hs_pipeline (h_impl s)) = Some (r, h_world s', p) ->
    h_impl s' = set_system (h_impl s) p ->
    connection_effect s s'
      [match r with
       | Ok _ => accepted_reply
       | Unexpected e => http_response 503 "Service Unavailable" "text/plain" (error_message e)
       end]
| EffectDrain p replies :
    drain (h_world s) (hs_pipeline (h_impl s)) = Some (tt, h_world s', p) ->
    h_impl s' = mkHarness (hs_fleet_router (h_impl s)) p false -> (length replies <= 1)%nat ->
    accepted_reply ∉ replies -> connection_effect s s' replies.

Lemma not_accepted (text : string) : String.prefix "HTTP/1.1 202" text = false -> accepted_reply ∉ [text].
Proof. intros Hp Hin. apply list_elem_of_singleton in Hin. subst. discriminate. Qed.

(** One answer and nothing else. *)
Lemma reply_effect (text : string) (s : HState W S) :
  String.prefix "HTTP/1.1 202" text = false -> exists s' replies,
    reply text s = Some (Returned tt, s') /\ sock_sent (h_sock s') = sock_sent (h_sock s) ++ replies /\
    connection_effect s s' replies.
Proof.
  intros Hp. destruct (reply_spec text s) as (s' & Hr & [Hw Hi] & Hs). exists s', [text]. split_and!; [done|done|].
  apply EffectNone; [done|done|simpl; lia|by apply not_accepted].
Qed.

(** Handlers end in an answer, in an exception, or not at all. *)
Definition handler_ok (m : HM (W := W) (S := S) unit) : Prop := forall s r s',
  m s = Some (r, s') -> exists replies,
    sock_sent (h_sock s') = sock_sent (h_sock s) ++ replies /\ connection_effect s s' replies.

Lemma reply_ok (text : string) : String.prefix "HTTP/1.1 202" text = false -> handler_ok (reply text).
Proof.
  intros Hp s r s' Hr. destruct (reply_effect text s Hp) as (s1 & replies & Heq & Hs & He).
  rewrite Heq in Hr. injection Hr as <- <-. by exists replies.
Qed.

Lemma throw_ok (what : string) : handler_ok (hthrow what).
Proof.
  intros s r s' [= <- <-]. exists []. rewrite app_nil_r. split; [done|].
  apply EffectNone; [done|done|simpl; lia|apply not_elem_of_nil].
Qed.

Lemma post_events_ok (body : string) : handler_ok (post_events (J := J) body).
Proof.
  unfold post_events. destruct (event_fields body) as [[[tenant entity] event_type]|[what|what]];
    [|by apply reply_ok|apply throw_ok].
  intros s r s' Hr. unfold hbind, get_impl, awaited in Hr.
  destruct (turned_away (h_impl s) tenant) as [[]|] eqn:Haway; simpl in Hr; [| |done].
  - destruct (fleet_hint (h_impl s) tenant) as [hint|]; simpl in Hr; [|done].
    revert Hr. by apply reply_ok.
  - unfold on_pipeline in Hr.
    destruct (submit (request_event tenant entity event_type) (h_world s) (hs_pipeline (h_impl s)))
      as [[[result w] p]|] eqn:Hsub; [|done].
    set (s1 := mkHState w (h_sock s) (set_system (h_impl s) p)) in *.
    set (text := match result with
      | Ok _ => accepted_reply
      | Unexpected e => http_response 503 "Service Unavailable" "text/plain" (error_message e) end).
    assert (Htext : reply text s1 = Some (r, s')) by (unfold text; by destruct result).
    destruct (reply_spec text s1) as (s2 & Heq & [Hw Hi] & Hs). rewrite Heq in Htext. injection Htext as <- <-.
    exists [text]. split; [exact Hs|]. eapply (EffectSubmit s s2 tenant entity event_type result p); [done|by rewrite Hw|done].
Qed.

Lemma get_topology_ok : handler_ok get_topology.
Proof.
  intros s r s'. unfold get_topology, hbind, get_impl.
  destruct (hs_fleet_router (h_impl s)); by apply reply_ok.
Qed.

Lemma get_health_ok : handler_ok (get_health (J := J)).
Proof.
  intros s r s'. unfold get_health, hbind, get_impl. cbn zeta.
  destruct (json_dump _) as [body|e]; simpl; [by apply reply_ok|by apply throw_ok].
Qed.

Lemma post_drain_ok : handler_ok (post_drain (J := J)).
Proof.
  intros s r s' Hr. unfold post_drain, hbind, set_running, on_pipeline in Hr. simpl in Hr.
  destruct (drain (h_world s) (hs_pipeline (h_impl s))) as [[[[] w] p]|] eqn:Hd; [|done].
  set (s1 := mkHState w (h_sock s) _) in Hr.
  assert (Hend : exists replies, sock_sent (h_sock s') = sock_sent (h_sock s) ++ replies /\
    same_service s1 s' /\ (length replies <= 1)%nat /\ accepted_reply ∉ replies).
  { destruct (json_dump _) as [body|e]; simpl in Hr.
    - destruct (reply_spec (http_response 200 "OK" "application/json" body) s1) as (s2 & Heq & Hsame & Hs).
      rewrite Heq in Hr. injection Hr as <- <-. eexists. split_and!; [exact Hs|done|simpl; lia|by apply not_accepted].
    - injection Hr as <- <-. exists []. rewrite app_nil_r. split_and!; [done|done|simpl; lia|apply not_elem_of_nil]. }
  destruct Hend as (replies & Hs & [Hw Hi] & Hl & Hna). exists replies. split; [done|].
  apply (EffectDrain s s' p); [by rewrite Hw|by rewrite Hi|done|done].
Qed.

Lemma dispatch_ok (req : HttpRequest) : handler_ok (dispatch (J := J) req).
Proof.
  unfold dispatch. destruct (_ && _)%bool; [apply post_events_ok|].
  destruct (_ && _)%bool; [apply get_topology_ok|]. destruct (_ && _)%bool; [apply get_health_ok|].
  destruct (_ && _)%bool; [apply post_drain_ok|by apply reply_ok].
Qed.

(** The whole connection; exceptions stay inside. *)
Lemma handle_connection_effect (s s' : HState W S) r :
  handle_connection (J := J) s = Some (r, s') -> r = Returned tt /\ exists replies,
    sock_sent (h_sock s') = sock_sent (h_sock s) ++ replies /\ connection_effect s s' replies.
Proof.
  unfold handle_connection, swallow, hbind.
  destruct (receive_request_spec s) as (r1 & s1 & replies1 & -> & [Hw1 Hi1] & Hs1 & Hr1).
  destruct r1 as [[req|]|what].
  - subst replies1. rewrite app_nil_r in Hs1. destruct (dispatch req s1) as [[r2 s2]|] eqn:Hd; [|done].
    destruct (dispatch_ok req s1 r2 s2 Hd) as (replies & Hs2 & Heff). intros Hr.
    assert (r = Returned tt /\ s2 = s') as [-> <-] by (destruct r2 as [[]|]; by injection Hr).
    split; [done|]. exists replies. rewrite Hs2, Hs1. split; [done|].
    destruct Heff as [replies Hw Hi Hl Hna|tenant entity et res p Ha Hsub Hi|p replies Hd' Hi Hl Hna];
      rewrite ?Hw1, ?Hi1 in *.
    + apply EffectNone; [congruence..|done|done].
    + by eapply EffectSubmit.
    + by eapply EffectDrain.
  - intros [= <- <-]. split; [done|]. exists replies1. split; [done|]. apply EffectNone; [done|done|..].
    + destruct Hr1 as [-> | ->]; simpl; lia.
    + destruct Hr1 as [-> | ->]; [apply not_elem_of_nil|by apply not_accepted].
  - intros [= <- <-]. subst. split; [done|]. exists []. split; [done|].
    apply EffectNone; [done|done|simpl; lia|apply not_elem_of_nil].
Qed.

End Lemmas.
