(* ===== verification/ServiceLife.v ===== *)
(** * The threads of the service and what they refer to

    [start], [run], [stop] and the destructor of [ServiceHarness]
    (service/src/harness.cpp) with the thread that accepts connections and the
    detached threads that handle them.  Harness.v and Service.v are about what
    connections answer; this file is about which of these threads may refer to
    [Impl] and when it goes: main, the accepting thread and the connections
    interleave at their accesses of [Impl].  A blocked [accept] may return with a
    connection or an error at any time. *)

From S2P Require Import Prelude.

Open Scope list_scope.

(** The accepting thread: none to join; at the condition of its loop; in
    [accept]; past its loop, not yet joined. *)
Inductive io_state : Type := NotJoinable | IoCheck | IoAccept | IoOver.

Inductive conn_state : Type := Handling | ConnOver.

(** Where [stop] is. *)
Inductive stop_state : Type := ClearRunning | CloseAcceptor | JoinIo | DrainPipeline.

(** The thread that owns the harness: between calls; in [run]; in [stop], called
    by the destructor or not; past the destruction of [Impl]; in
    [std::terminate], for the assignment to a thread that is joinable. *)
Inductive main_state : Type :=
| MainIdle
| MainRun
| MainStop (destructor : bool) (at_ : stop_state)
| MainGone
| MainTerminated.

Inductive thread : Type := IoThread | Connection (i : nat).

Record Life : Type := mkLife {
  lf_main : main_state;
  lf_io : io_state;
  lf_acceptor_open : bool;
  lf_running : bool;
  lf_conns : list conn_state;   (** the connections accepted so far *)
  lf_left : list nat;           (** history: those in progress when [Impl] was destroyed *)
  lf_stale : list thread        (** history: threads that used [Impl] after that *)
}.

Definition life_new : Life := mkLife MainIdle NotJoinable false false [] [] [].

Definition with_main (s : Life) (m : main_state) : Life :=
  mkLife m (lf_io s) (lf_acceptor_open s) (lf_running s) (lf_conns s) (lf_left s) (lf_stale s).

Definition with_io (s : Life) (i : io_state) : Life :=
  mkLife (lf_main s) i (lf_acceptor_open s) (lf_running s) (lf_conns s) (lf_left s) (lf_stale s).

Definition with_running (s : Life) (b : bool) : Life :=
  mkLife (lf_main s) (lf_io s) (lf_acceptor_open s) b (lf_conns s) (lf_left s) (lf_stale s).

Definition with_acceptor (s : Life) (b : bool) : Life :=
  mkLife (lf_main s) (lf_io s) b (lf_running s) (lf_conns s) (lf_left s) (lf_stale s).

Definition with_conns (s : Life) (l : list conn_state) : Life :=
  mkLife (lf_main s) (lf_io s) (lf_acceptor_open s) (lf_running s) l (lf_left s) (lf_stale s).

Definition impl_gone (s : Life) : bool := match lf_main s with MainGone => true | _ => false end.

(** A thread uses [*impl_]. *)
Definition uses_impl (s : Life) (t : thread) : Life :=
  mkLife (lf_main s) (lf_io s) (lf_acceptor_open s) (lf_running s) (lf_conns s) (lf_left s)
    (if impl_gone s then lf_stale s ++ [t] else lf_stale s).

(** The connections in progress, by their number. *)
Fixpoint in_progress (first : nat) (l : list conn_state) : list nat :=
  match l with
  | [] => []
  | Handling :: l' => first :: in_progress (S first) l'
  | ConnOver :: l' => in_progress (S first) l'
  end.

(** [io_thread = std::thread{...}], once the port is listened on. *)
Definition start_thread (s : Life) : Life :=
  match lf_io s with
  | NotJoinable => with_io (with_running s true) IoCheck
  | _ => with_main (with_running s true) MainTerminated
  end.

(** The end of [stop]; the destructor goes on with the members. *)
Definition stop_over (s : Life) (destructor : bool) : Life :=
  if destructor
  then mkLife MainGone (lf_io s) (lf_acceptor_open s) (lf_running s) (lf_conns s) (in_progress 0 (lf_conns s)) (lf_stale s)
  else with_main s MainIdle.

(** [while (running)] of the accepting thread. *)
Definition io_checks (s : Life) : Life :=
  uses_impl (with_io s (if lf_running s then IoAccept else IoOver)) IoThread.

(** [accept] returns: a connection on a thread of its own, or an error. *)
Definition io_accepts (s : Life) (accepted : bool) : Life :=
  uses_impl (if accepted then with_io (with_conns s (lf_conns s ++ [Handling])) IoCheck else with_io s IoOver) IoThread.

Inductive life_step : Life -> Life -> Prop :=
| life_start_refused s opened :   (* no port, or the acceptor is open already *)
    lf_main s = MainIdle -> life_step s (with_acceptor s (opened || lf_acceptor_open s))
| life_start s :
    lf_main s = MainIdle -> lf_acceptor_open s = false -> life_step s (start_thread (with_acceptor s true))
| life_run s : lf_main s = MainIdle -> life_step s (with_main s MainRun)
| life_run_ends s : lf_main s = MainRun -> lf_running s = false -> life_step s (with_main s MainIdle)
| life_stop s d : lf_main s = MainIdle -> life_step s (with_main s (MainStop d ClearRunning))
| life_clear s d :
    lf_main s = MainStop d ClearRunning -> life_step s (with_main (with_running s false) (MainStop d CloseAcceptor))
| life_close s d :
    lf_main s = MainStop d CloseAcceptor -> life_step s (with_main (with_acceptor s false) (MainStop d JoinIo))
| life_join s d :
    lf_main s = MainStop d JoinIo -> lf_io s = IoOver \/ lf_io s = NotJoinable ->
    life_step s (with_main (with_io s NotJoinable) (MainStop d DrainPipeline))
| life_drained s d : lf_main s = MainStop d DrainPipeline -> life_step s (stop_over s d)
| life_io_checks s : lf_io s = IoCheck -> life_step s (io_checks s)
| life_io_accepts s accepted : lf_io s = IoAccept -> life_step s (io_accepts s accepted)
| life_conn_uses s i : lf_conns s !! i = Some Handling -> life_step s (uses_impl s (Connection i))
| life_conn_drains s i :   (* POST /pipeline/drain *)
    lf_conns s !! i = Some Handling -> life_step s (uses_impl (with_running s false) (Connection i))
| life_conn_ends s i : lf_conns s !! i = Some Handling -> life_step s (with_conns s (<[i := ConnOver]> (lf_conns s))).

Definition life_reachable (s : Life) : Prop := rtc life_step life_new s.

(** ** Lemmas *)

Lemma in_progress_handling (l : list conn_state) (first i : nat) :
  l !! i = Some Handling -> (first + i)%nat ∈ in_progress first l.
Proof.
  revert first i. induction l as [|c l IH]; intros first i Hi; [done|]. destruct i as [|i]; cbn in Hi.
  - injection Hi as ->. cbn. rewrite Nat.add_0_r. by left.
  - specialize (IH (S first) i Hi). rewrite Nat.add_succ_l, <- Nat.add_succ_r in IH. destruct c; cbn; [by right|done].
Qed.

(** While the accepting thread is joinable, the acceptor is open or [stop] is
    before the join. *)
Definition io_ok (s : Life) : Prop :=
  match lf_main s with
  | MainIdle | MainRun => lf_acceptor_open s = true
  | MainStop _ (ClearRunning | CloseAcceptor | JoinIo) => True
  | _ => False
  end.

Record life_inv (s : Life) : Prop := {
  li_io : lf_io s <> NotJoinable -> io_ok s;
  li_main : lf_main s <> MainTerminated;
  li_gone : lf_main s = MainGone -> forall i, lf_conns s !! i = Some Handling -> i ∈ lf_left s;
  li_stale : forall t, t ∈ lf_stale s -> lf_main s = MainGone /\ exists i, t = Connection i /\ i ∈ lf_left s
}.

(** The accepting thread, when it has not been joined, does not find [Impl] gone. *)
Lemma uses_impl_io (s : Life) : lf_io s <> NotJoinable -> life_inv s -> uses_impl s IoThread = s.
Proof.
  intros Hio [Hok _ _ _]. specialize (Hok Hio). unfold io_ok in Hok. unfold uses_impl, impl_gone. destruct s as [m ? ? ? ? ? ?].
  cbn in *. by destruct m.
Qed.

Lemma uses_impl_other (s : Life) (t : thread) :
  lf_main (uses_impl s t) = lf_main s /\ lf_io (uses_impl s t) = lf_io s /\
  lf_acceptor_open (uses_impl s t) = lf_acceptor_open s /\ lf_conns (uses_impl s t) = lf_conns s /\
  lf_left (uses_impl s t) = lf_left s.
Proof. done. Qed.

(** A connection in progress finds [Impl] gone only if it was in progress then. *)
Lemma life_inv_uses (s : Life) (i : nat) :
  life_inv s -> lf_conns s !! i = Some Handling -> life_inv (uses_impl s (Connection i)).
Proof.
  intros [Hio Hm Hg Hs] Hi. split; [exact Hio|exact Hm|exact Hg|].
  unfold uses_impl, impl_gone. cbn. intros t. destruct (lf_main s) eqn:Hmain; try exact (Hs t).
  intros [Ht|Ht]%elem_of_app; [by apply Hs|]. apply list_elem_of_singleton in Ht as ->. split; [done|]. exists i.
  split; [done|]. by apply Hg.
Qed.

Lemma life_inv_running (s : Life) (b : bool) : life_inv s -> life_inv (with_running s b).
Proof. by intros [Hio Hm Hg Hs]. Qed.

(** A move of the main thread before [Impl] goes. *)
Lemma life_inv_move (s : Life) (m : main_state) (i : io_state) (opened running : bool) :
  life_inv s -> lf_main s <> MainGone -> m <> MainGone -> m <> MainTerminated ->
  (i <> NotJoinable -> io_ok (mkLife m i opened running (lf_conns s) (lf_left s) (lf_stale s))) ->
  life_inv (mkLife m i opened running (lf_conns s) (lf_left s) (lf_stale s)).
Proof.
  intros [Hio Hm Hg Hs] Hmain Hgone Hterm Hok. split; cbn; [exact Hok|exact Hterm|done|].
  intros t Ht. by destruct (Hs t Ht) as [? _].
Qed.

(** A step of the accepting thread. *)
Lemma io_before_gone (s : Life) : life_inv s -> lf_io s <> NotJoinable -> lf_main s <> MainGone.
Proof. intros Hinv Hne Hg. pose proof (li_io s Hinv Hne) as Hio. unfold io_ok in Hio. by rewrite Hg in Hio. Qed.

Lemma life_inv_io (s : Life) (i : io_state) (l : list conn_state) :
  life_inv s -> lf_io s <> NotJoinable -> i <> NotJoinable ->
  life_inv (uses_impl (with_io (with_conns s l) i) IoThread).
Proof.
  intros Hinv Hne Hi. pose proof (io_before_gone s Hinv Hne) as Hgone. destruct Hinv as [Hok Hm Hg Hs].
  assert (Hx : life_inv (with_io (with_conns s l) i)) by (split; cbn; [intros _; by apply Hok|done|done|exact Hs]).
  by rewrite uses_impl_io.
Qed.

Lemma life_inv_step (s s' : Life) : life_step s s' -> life_inv s -> life_inv s'.
Proof.
  intros Hstep Hinv. pose proof (li_io s Hinv) as Hio. unfold io_ok in Hio.
  destruct Hstep as [s opened Hm|s Hm Hopen|s Hm|s Hm Hr|s d Hm|s d Hm|s d Hm|s d Hm Hj|s d Hm|s Hi|s accepted Hi|s i Hi|s i Hi|s i Hi];
    try rewrite Hm in Hio.
  - apply life_inv_move; rewrite ?Hm; [done..|]. intros Hn. unfold io_ok. cbn. rewrite (Hio Hn). apply orb_true_r.
  - unfold start_thread. cbn. destruct (lf_io s) eqn:Hi; [|by specialize (Hio ltac:(done)); congruence..].
    by apply (life_inv_move s); cbn; rewrite ?Hm.
  - by apply (life_inv_move s); rewrite ?Hm.
  - by apply (life_inv_move s); rewrite ?Hm.
  - by apply (life_inv_move s); rewrite ?Hm.
  - by apply (life_inv_move s); rewrite ?Hm.
  - by apply (life_inv_move s); rewrite ?Hm.
  - by apply (life_inv_move s); rewrite ?Hm.
  - assert (Hn : lf_io s = NotJoinable) by (destruct (lf_io s) eqn:Hi; [done|exfalso; by apply Hio..]).
    unfold stop_over. destruct d; [|by apply (life_inv_move s); rewrite ?Hm].
    split; cbn; [by rewrite Hn|done|intros _ i Hi; by apply (in_progress_handling _ 0 i)|].
    intros t Ht. destruct (li_stale s Hinv t Ht) as [Hg _]. congruence.
  - apply (life_inv_io s _ (lf_conns s)); [done|by rewrite Hi|by destruct (lf_running s)].
  - destruct accepted; [apply (life_inv_io s)|apply (life_inv_io s _ (lf_conns s))]; try done; by rewrite Hi.
  - by apply life_inv_uses.
  - apply life_inv_uses; [by apply life_inv_running|done].
  - destruct Hinv as [Hok Hm Hg Hs]. split; [exact Hok|exact Hm| |exact Hs]. cbn. intros Hgone j Hj. apply Hg; [done|].
    destruct (decide (i = j)) as [<-|Hne]; [|by rewrite list_lookup_insert_ne in Hj].
    rewrite list_lookup_insert_eq in Hj by (by eapply lookup_lt_Some). done.
Qed.

Lemma life_reachable_inv (s : Life) : life_reachable s -> life_inv s.
Proof.
  intros Hrun. assert (Hinit : life_inv life_new) by (split; cbn; [done|done|done|intros t Ht; by apply elem_of_nil in Ht]).
  revert Hinit. induction Hrun as [|x y z Hstep _ IH]; [done|]. intros Hx. by apply IH, (life_inv_step x).
Qed.

(** ** The end of the service *)

Lemma io_can_end (s : Life) :
  exists s', rtc life_step s s' /\ lf_main s' = lf_main s /\ (lf_io s' = IoOver \/ lf_io s' = NotJoinable).
Proof.
  assert (Haccept : forall x, lf_io x = IoAccept ->
    exists s', rtc life_step x s' /\ lf_main s' = lf_main x /\ (lf_io s' = IoOver \/ lf_io s' = NotJoinable)).
  { intros x Hx. exists (io_accepts x false). split; [by apply rtc_once, life_io_accepts|]. split; [done|by left]. }
  destruct (lf_io s) eqn:Hio; [|..|by apply Haccept|].
  - exists s. split_and!; [done|done|by right].
  - destruct (lf_running s) eqn:Hr.
    + destruct (Haccept (io_checks s)) as (s' & Hs' & Hm & Hend); [unfold io_checks; by rewrite Hr|].
      exists s'. split_and!; [eapply rtc_l; [by apply life_io_checks|exact Hs']|done|done].
    + exists (io_checks s). split; [by apply rtc_once, life_io_checks|]. unfold io_checks. rewrite Hr. split; [done|by left].
  - exists s. split_and!; [done|done|by left].
Qed.

Definition stop_ended (d : bool) (s : Life) : Prop := lf_main s = if d then MainGone else MainIdle.

Lemma stop_can_end (s : Life) (d : bool) (at_ : stop_state) :
  lf_main s = MainStop d at_ -> exists s', rtc life_step s s' /\ stop_ended d s'.
Proof.
  assert (Hdrain : forall x, lf_main x = MainStop d DrainPipeline -> exists s', rtc life_step x s' /\ stop_ended d s').
  { intros x Hx. exists (stop_over x d). split; [by apply rtc_once, life_drained|]. unfold stop_ended, stop_over. by destruct d. }
  assert (Hjoin : forall x, lf_main x = MainStop d JoinIo -> exists s', rtc life_step x s' /\ stop_ended d s').
  { intros x Hx. destruct (io_can_end x) as (y & Hxy & Hm & Hend). rewrite Hx in Hm.
    destruct (Hdrain (with_main (with_io y NotJoinable) (MainStop d DrainPipeline)) eq_refl) as (s' & Hs' & He).
    exists s'. split; [|exact He]. etrans; [exact Hxy|]. eapply rtc_l; [by apply life_join|exact Hs']. }
  assert (Hclose : forall x, lf_main x = MainStop d CloseAcceptor -> exists s', rtc life_step x s' /\ stop_ended d s').
  { intros x Hx. destruct (Hjoin (with_main (with_acceptor x false) (MainStop d JoinIo)) eq_refl) as (s' & Hs' & He).
    exists s'. split; [|exact He]. eapply rtc_l; [by apply life_close|exact Hs']. }
  intros Hs. destruct at_; [|by auto..].
  destruct (Hclose (with_main (with_running s false) (MainStop d CloseAcceptor)) eq_refl) as (s' & Hs' & He).
  exists s'. split; [|exact He]. eapply rtc_l; [by apply life_clear|exact Hs'].
Qed.

Lemma service_can_end (s : Life) :
  life_reachable s -> (lf_main s = MainRun -> lf_running s = false) ->
  exists s', rtc life_step s s' /\ lf_main s' = MainGone.
Proof.
  intros Hreach Hrun. pose proof (li_main s (life_reachable_inv s Hreach)) as Hterm.
  assert (Hdestroy : forall x, lf_main x = MainIdle -> exists s', rtc life_step x s' /\ lf_main s' = MainGone).
  { intros x Hx. destruct (stop_can_end (with_main x (MainStop true ClearRunning)) true ClearRunning eq_refl) as (s' & Hs' & He).
    exists s'. split; [|exact He]. eapply rtc_l; [by apply life_stop|exact Hs']. }
  destruct (lf_main s) as [| |d at_| |] eqn:Hm; [by apply Hdestroy|..|done].
  - destruct (Hdestroy (with_main s MainIdle) eq_refl) as (s' & Hs' & He). exists s'. split; [|exact He].
    eapply rtc_l; [apply life_run_ends; [done|by apply Hrun]|exact Hs'].
  - destruct (stop_can_end s d at_ Hm) as (y & Hy & He). destruct d; [by exists y|].
    destruct (Hdestroy y He) as (s' & Hs' & He'). exists s'. split; [by etrans|exact He'].
  - by exists s.
Qed.

Lemma life_reachable_steps (s s' : Life) : life_reachable s -> rtc life_step s s' -> life_reachable s'.
Proof. intros Hs Hs'. unfold life_reachable in *. by etrans. Qed.

(** A client drains the service; main returns from [run] and destroys the harness
    while the client's connection has not ended. *)
Definition drained_service : Life :=
  mkLife MainGone NotJoinable false false [Handling] [0%nat] [].

Lemma drained_service_reachable : life_reachable drained_service.
Proof.
  eapply rtc_l; [by apply life_start|]. eapply rtc_l; [by apply life_run|]. eapply rtc_l; [by apply life_io_checks|].
  eapply rtc_l; [by apply (life_io_accepts _ true)|]. eapply rtc_l; [by apply (life_conn_drains _ 0)|].
  eapply rtc_l; [by apply life_io_checks|]. eapply rtc_l; [by apply life_run_ends|].
  eapply rtc_l; [by apply (life_stop _ true)|]. eapply rtc_l; [by apply (life_clear _ true)|].
  eapply rtc_l; [by apply (life_close _ true)|]. eapply rtc_l; [by apply (life_join _ true); [|left]|].
  eapply rtc_l; [by apply (life_drained _ true)|]. apply rtc_refl.
Qed.

(** [stop] closes the acceptor, which is not to be shared by threads, under an
    [accept] in progress, and joins the thread that is in it. *)
Lemma acceptor_closed_in_accept :
  exists s, life_reachable s /\ lf_main s = MainStop true JoinIo /\ lf_io s = IoAccept /\ lf_acceptor_open s = false.
Proof.
  exists (mkLife (MainStop true JoinIo) IoAccept false false [] [] []). split; [|done].
  eapply rtc_l; [by apply life_start|]. eapply rtc_l; [by apply life_io_checks|]. eapply rtc_l; [by apply (life_stop _ true)|].
  eapply rtc_l; [by apply (life_clear _ true)|]. eapply rtc_l; [by apply (life_close _ true)|]. apply rtc_refl.
Qed.

(** One [accept] that fails ends the accepting thread; [run] goes on. *)
Lemma failed_accept_ends_service :
  exists s, life_reachable s /\ lf_main s = MainRun /\ lf_running s = true /\ lf_acceptor_open s = true /\
    lf_io s = IoOver.
Proof.
  exists (mkLife MainRun IoOver true true [] [] []). split; [|done].
  eapply rtc_l; [by apply life_start|]. eapply rtc_l; [by apply life_run|]. eapply rtc_l; [by apply life_io_checks|].
  eapply rtc_l; [by apply (life_io_accepts _ false)|]. apply rtc_refl.
Qed.

(** ** Properties *)

(** C29: which threads of the service use [Impl] when it is gone: in every
    interleaving of main, the accepting thread and the connections, the accepting
    thread never does, as it has been joined, and is never replaced before it is;
    of the connections only those in progress at the destruction do, and each of
    them can, as nothing waits for it; and the harness can be destroyed from
    every state in which main does not wait in [run] for a drain. *)
Theorem connections_outlive_service (s : Life) (Hs : life_reachable s) :
  IoThread ∉ lf_stale s /\
  lf_main s <> MainTerminated /\
  (lf_main s = MainGone -> lf_io s = NotJoinable) /\
  (forall i, Connection i ∈ lf_stale s -> lf_main s = MainGone /\ i ∈ lf_left s) /\
  (forall i, lf_main s = MainGone -> lf_conns s !! i = Some Handling ->
    i ∈ lf_left s /\ exists s', life_reachable s' /\ rtc life_step s s' /\ Connection i ∈ lf_stale s') /\
  ((lf_main s = MainRun -> lf_running s = false) -> exists s', rtc life_step s s' /\ lf_main s' = MainGone).
Proof.
  pose proof (life_reachable_inv s Hs) as Hinv. destruct Hinv as [Hio Hterm Hgone Hstale]. split_and!.
  - intros Ht. by destruct (Hstale IoThread Ht) as (_ & i & ? & _).
  - done.
  - intros Hm. unfold io_ok in Hio. rewrite Hm in Hio. destruct (lf_io s) eqn:Hi; [done|exfalso; by apply Hio..].
  - intros i Hi. destruct (Hstale _ Hi) as (Hm & j & [= <-] & Hj). done.
  - intros i Hm Hi. split; [by apply Hgone|]. assert (Hstep : rtc life_step s (uses_impl s (Connection i))).
    { by apply rtc_once, life_conn_uses. }
    exists (uses_impl s (Connection i)). split_and!; [by apply (life_reachable_steps s)|done|].
    unfold uses_impl, impl_gone. cbn. rewrite Hm. apply elem_of_app. right. by left.
  - by apply service_can_end.
Qed.

Lemma connections_outlive_service_witness :
  lf_stale drained_service = [] /\ exists s', life_reachable s' /\ Connection 0 ∈ lf_stale s'.
Proof.
  split; [reflexivity|].
  destruct (connections_outlive_service drained_service drained_service_reachable) as (_ & _ & _ & _ & Hgo & _).
  destruct (Hgo 0%nat eq_refl eq_refl) as (_ & s' & Hr & _ & Hs'). exists s'. split; [exact Hr|exact Hs'].
Defined.
