(* ===== verification/Service.v ===== *)
(** * The service: start, connections over time, stop

    The constructor, [start], [stop] and [load_config_from_json] of
    service/src/harness.cpp, and the service as a system: connections, each on
    its own socket, interleave with the threads of the pipeline.  Every accepted
    request is accounted for; what a request's event lacks makes it late. *)

From S2P Require Import Prelude Ieee CoreTypes Errors DecisionTypes ShuffleShard TokenBucket TenantRouter FleetRouter Config Stages.
From S2P Require Import EmitStage PolicyStage RunEvent Pipeline Evaluators Json Serializer Http Harness.
From Stdlib Require Import Ascii.

Open Scope list_scope.
Open Scope Z_scope.

(** ** Configuration *)

Record HarnessConfig (W : Type) : Type := mkHarnessConfig {
  hc_bind_address : string;
  hc_port : Z;
  hc_pipeline_config_path : string;
  hc_pipeline_config : PipelineConfig W;
  hc_fleet_config : option FleetConfig
}.

Arguments mkHarnessConfig {W}. Arguments hc_bind_address {W}. Arguments hc_port {W}.
Arguments hc_pipeline_config_path {W}. Arguments hc_pipeline_config {W}. Arguments hc_fleet_config {W}.

(** The listening socket and the thread that accepts on it.  [close] throws what
    the system call answers; joining the thread returns when its loop has ended,
    which is up to Asio and the system: [None] when it never does. *)
Class HttpListener (W : Type) : Type := {
  make_address : string -> M W (outcome unit);
  acceptor_open : M W bool;
  acceptor_reuse_address : M W (outcome unit);
  acceptor_bind : Z -> M W bool;
  acceptor_listen : M W bool;
  acceptor_close : M W (outcome unit);
  join_acceptor : W -> option W
}.

Section Startup.

Context {W J : Type} `{Clock W} `{Workers W} `{StdSort} `{StdHash} `{HttpListener W} `{Stdout W} `{JsonLibrary J}.

(** [load_config_from_json]; the contents of the file, when it opens.  Only
    [json::parse_error] is caught. *)
Definition load_config_from_json (file : option string)
    : outcome (option (PipelineConfig W)) :=
  match file with
  | None => Returned None
  | Some text =>
      match try (json_parse (J := J) text) (fun j =>
            try (json_value json_as_string j "pipeline_id" "fre-service") (fun pipeline_id =>
            try (json_value json_as_string j "pipeline_version" "1.0.0") (fun pipeline_version =>
            Ok (pipeline_id, pipeline_version)))) with
      | Ok (pipeline_id, pipeline_version) =>
          let c := config_ (@builder_new W) in
          Returned (Some (mkPipelineConfig pipeline_id pipeline_version (cfg_latency_budget c) (cfg_sharding c)
            (cfg_rate_limit c) (cfg_ingest c) (cfg_eval c) (cfg_inference c) (cfg_policy c)
            (emit_add_stdout_target (cfg_emit c)) (cfg_registry c)))
      | Unexpected (ParseError _) => Returned None
      | Unexpected (OtherJsonError what) => Threw what
      end
  end.

(** The constructor. *)
Definition harness_new (files : string -> option string) (cfg : HarnessConfig W)
    : outcome (Harness W) :=
  let make c := mkHarness (hc_fleet_config cfg) (system_new c) false in
  if negb (str_empty (hc_pipeline_config_path cfg)) then
    match load_config_from_json (files (hc_pipeline_config_path cfg)) with
    | Threw what => Threw what
    | Returned (Some c) => Returned (make c)
    | Returned None => Returned (make (hc_pipeline_config cfg))
    end
  else Returned (make (hc_pipeline_config cfg)).

Definition with_running (h : Harness W) (b : bool) : Harness W := mkHarness (hs_fleet_router h) (hs_pipeline h) b.

(** [start]: whether the service listens; the accept thread is then started. *)
Definition harness_start (cfg : HarnessConfig W) (w : W) (h : Harness W) : option (outcome bool * W * Harness W) :=
  match start w (impl (hs_pipeline h)) with
  | None => None
  | Some (Unexpected _, w1, p) => Some (Returned false, w1, set_system h (with_impl (hs_pipeline h) p))
  | Some (Ok _, w1, p) =>
      let h := set_system h (with_impl (hs_pipeline h) p) in
      let '(listening, w2) :=
        (call _ <- make_address (hc_bind_address cfg);
         do opened <- acceptor_open;
         if negb opened then retM (Returned false) else
         call _ <- acceptor_reuse_address;
         do bound <- acceptor_bind (hc_port cfg);
         if negb bound then retM (Returned false) else
         do listens <- acceptor_listen;
         retM (Returned listens)) w1 in
      Some (listening, w2, match listening with Returned true => with_running h true | _ => h end)
  end.

(** [stop], also the destructor: [joinable] once [start] has started the accept
    thread.  [None]: it never returns, or drains a pipeline without a router. *)
Definition harness_stop (joinable : bool) (w : W) (h : Harness W) : option (outcome unit * W * Harness W) :=
  let h := with_running h false in
  match acceptor_close w with
  | (Threw what, w1) => Some (Threw what, w1, h)
  | (Returned _, w1) =>
      match (if joinable then join_acceptor w1 else Some w1) with
      | None => None
      | Some w2 =>
          match drain w2 (hs_pipeline h) with
          | None => None
          | Some (_, w3, p) => Some (Returned tt, w3, set_system h p)
          end
      end
  end.

End Startup.

(** ** The service at work *)

(** The world, the shared state, the texts written to clients so far. *)
Record Service (W : Type) : Type := mkService { sv_world : W; sv_impl : Harness W; sv_replies : list string }.

Arguments mkService {W}. Arguments sv_world {W}. Arguments sv_impl {W}. Arguments sv_replies {W}.

Section Work.

Context {W S J : Type} `{TimedWorkers W} `{StdSort} `{StdHash} `{HttpSocketLaws S} `{JsonLibrary J}.

(** A connection on a new socket, or a step of the pipeline's threads.  Calls of
    the pipeline are whole, so a drain comes when no event is being run. *)
Inductive service_step : Service W -> Service W -> Prop :=
| ServeConnection w h replies (sock : S) s' :
    sock_sent sock = [] -> handle_connection (J := J) (mkHState w sock h) = Some (Returned tt, s') ->
    (hs_running (h_impl s') = true \/ running (hs_pipeline h) = []) ->
    service_step (mkService w h replies) (mkService (h_world s') (h_impl s') (replies ++ sock_sent (h_sock s')))
| ServePipeline w h replies w' p :
    system_step (w, hs_pipeline h) (w', p) ->
    accepted p = accepted (hs_pipeline h) -> submitting p = submitting (hs_pipeline h) ->
    service_step (mkService w h replies) (mkService w' (set_system h p) replies).

(** What an accepted event of the service looks like. *)
Definition from_request (h : Harness W) (e : Event) : Prop :=
  exists tenant entity event_type,
    e = request_event tenant entity event_type /\ turned_away h tenant = Some false.

Definition count_accepted (replies : list string) : nat := length (filter (fun t => t = accepted_reply) replies).

Definition service_inv (c : PipelineConfig W) (fleet : option FleetConfig) (sv : Service W) : Prop :=
  (exists w0, rtc system_step (w0, system_new c) (sv_world sv, hs_pipeline (sv_impl sv))) /\
  hs_fleet_router (sv_impl sv) = fleet /\ submitting (hs_pipeline (sv_impl sv)) = [] /\
  count_accepted (sv_replies sv) = length (accepted (hs_pipeline (sv_impl sv))) /\
  Forall (fun x => from_request (sv_impl sv) x.2) (accepted (hs_pipeline (sv_impl sv))).

Lemma count_accepted_app (a b : list string) : count_accepted (a ++ b) = (count_accepted a + count_accepted b)%nat.
Proof. unfold count_accepted. by rewrite filter_app, length_app. Qed.

Lemma count_accepted_none (l : list string) : accepted_reply ∉ l -> count_accepted l = O.
Proof.
  intros Hl. unfold count_accepted. rewrite filter_none; [done|]. intros x Hx ->. by apply Hl.
Qed.

Lemma from_request_same (h h' : Harness W) (e : Event) :
  hs_fleet_router h' = hs_fleet_router h -> from_request h e -> from_request h' e.
Proof. intros Hf (t & en & et & He & Ha). exists t, en, et. split; [done|]. unfold turned_away in *. by rewrite Hf. Qed.

(** A whole submission accepts its event, or nothing. *)
Lemma submit_accepts (e : Event) (w w' : W) (s s' : System W) r :
  submit e w s = Some (r, w', s') -> exists strand,
    accepted s' = accepted s ++ (if has_value r then [(strand, e)] else []).
Proof.
  unfold submit. destruct (submit_check e w (impl s)) as [[[[[]|err] w1] p1]|]; [| |done].
  - destruct (submit_dispatch e w1 p1) as [[[k w2] p2]|]; [|done]. intros [= <- _ <-]. by exists k.
  - intros [= <- _ <-]. exists 0. by rewrite app_nil_r.
Qed.

Lemma drain_keeps (w w' : W) (s s' : System W) :
  drain w s = Some (tt, w', s') -> accepted s' = accepted s /\ submitting s' = submitting s.
Proof.
  unfold drain, drain_begin. destruct (drain_stop _ _) as [[[[] w2] p2]|]; [|done]. by intros [= _ <-].
Qed.

Lemma service_step_inv (c : PipelineConfig W) fleet (sv sv' : Service W) :
  service_step sv sv' -> service_inv c fleet sv -> service_inv c fleet sv'.
Proof.
  intros Hstep (Hreach & Hfl & Hsub & Hcount & Hall). 
  destruct Hstep as [w h replies sock s' Hsock Hconn Hrun|w h replies w' p Hst Hacc Hsub']; simpl in *.
  - destruct (handle_connection_effect _ _ _ Hconn) as (_ & out & Hsent & Heff). simpl in Hsent. rewrite Hsock in Hsent.
    simpl in Hsent. subst out. unfold service_inv. simpl. rewrite count_accepted_app, Hcount.
    inversion Heff as [out Hw Hi Hl Hna Hout|tenant entity et r p Ha Hs Hi Hout|p out Hd Hi Hl Hna Hout]; simpl in *.
    + rewrite Hw, Hi, count_accepted_none by done. split_and!; [done..|lia|done].
    + destruct Hreach as [w0 Hreach]. destruct (submit_is_steps _ _ _ _ _ _ ltac:(rewrite Hsub; done) Hs) as [Hst Hsub'].
      destruct (submit_accepts _ _ _ _ _ _ Hs) as [strand Hacc]. rewrite Hi. simpl. rewrite Hacc.
      split_and!; [exists w0; by etrans|done|congruence| |].
      * rewrite length_app. destruct r as [[]|e]; simpl; [done|]. rewrite count_accepted_none; [done|by apply not_accepted].
      * apply Forall_app. split; [|destruct r as [[]|e]; repeat constructor; by exists tenant, entity, et].
        eapply Forall_impl; [exact Hall|]. intros x Hx. by apply (from_request_same h).
    + destruct (drain_keeps _ _ _ _ Hd) as [Hacc Hsub']. destruct Hreach as [w0 Hreach]. rewrite Hi. simpl.
      rewrite Hacc, count_accepted_none by done. destruct Hrun as [Hrun|Hrun]; [by rewrite Hi in Hrun|].
      split_and!; [|done|congruence|lia|].
      * exists w0. etrans; [exact Hreach|]. by apply drain_is_steps.
      * eapply Forall_impl; [exact Hall|]. intros x Hx. by apply (from_request_same h).
  - destruct Hreach as [w0 Hreach]. unfold service_inv. simpl. rewrite Hacc.
    split_and!; [exists w0; by eapply rtc_r|done|congruence|done|].
    eapply Forall_impl; [exact Hall|]. intros x Hx. by apply (from_request_same h).
Qed.

Lemma service_inv_rtc (c : PipelineConfig W) fleet (sv sv' : Service W) :
  rtc service_step sv sv' -> service_inv c fleet sv -> service_inv c fleet sv'.
Proof. induction 1 as [|x y z Hstep _ IH]; [done|]. intros Hinv. apply IH. by eapply service_step_inv. Qed.

End Work.

(** ** Late events *)

Section Late.

Context {W : Type} `{TimedWorkers W} `{StdSort} `{StdHash}.

(** Some stage flagged or blocked the event. *)
Definition has_flag (d : Decision) : Prop := exists o, o ∈ d_stage_outputs d /\ verdict_le Flag (so_verdict o).

(** A run that decides, decides at least Flag. *)
Definition flags (m : M W run_result) : Prop := forall w d w',
  m w = (Decided d, w') -> verdict_le Flag (d_final_verdict d).

Lemma push_has_flag (d : Decision) (o : StageOutput) : has_flag d -> has_flag (push_stage_output d o).
Proof. intros (x & Hx & Hv). exists x. split; [|done]. simpl. apply elem_of_app. by left. Qed.

Lemma with_optional_flags {C : Type} (c : option C) (stage : C -> stage_run W) (d : Decision)
    (k : Decision -> M W run_result) :
  has_flag d -> (forall d', has_flag d' -> flags (k d')) -> flags (with_optional c stage d k).
Proof.
  intros Hd Hk. unfold with_optional. destruct c as [c|]; [|by apply Hk].
  unfold with_stage. intros w r w'. unfold bindM. destruct (stage c w) as [[[[out|err]|what]|] w1]; try done.
  - apply Hk. by apply push_has_flag.
  - by apply Hk.
Qed.

Lemma finish_flags (c : PipelineConfig W) (t : Z) (d : Decision) : has_flag d -> flags (finish_decision c t d).
Proof.
  intros (o & Ho & Hv) w r w'. unfold finish_decision, bindM, retM. destruct (steady_now w) as [now w1].
  intros [= <- _].
  assert (Hf : verdict_le Flag (max_over so_verdict Pass (d_stage_outputs d))).
  { etrans; [exact Hv|]. by apply max_over_upper. }
  simpl. destruct (cfg_registry c) as [reg|]; [|exact Hf].
  unfold compute_active_decisions. by destruct (stage_output _ "policy").
Qed.

(** A valid event older than the tolerance by the clock is flagged. *)
Lemma run_event_late (c : PipelineConfig W) (s : StageSet W) (i : Z) (event : Event) :
  event_is_valid event = true ->
  (forall w, ic_skew_tolerance (ss_ingest s) < event_age_ms (system_now w).1 event) ->
  flags (run_event c s false i event).
Proof.
  intros Hvalid Hlate w d w'. unfold run_event, bindM. destruct (steady_now w) as [t w1].
  destruct (system_now w1) as [at_ w2]. unfold run_ingest, ingest_process, bindM, retM.
  destruct (steady_now w2) as [st w3]. change (event_is_valid (event_set_id event i)) with (event_is_valid event).
  rewrite Hvalid. cbn [negb]. pose proof (Hlate w3) as Hl. destruct (system_now w3) as [now w4]. cbn [fst] in Hl.
  destruct (steady_now w4) as [stop w5].
  change (event_age_ms now (event_set_id event i)) with (event_age_ms now event).
  apply Z.ltb_lt in Hl. rewrite Hl. cbn [andb].
  apply with_optional_flags.
  - eexists. split; [simpl; by left|done].
  - intros d1 Hd1. apply with_optional_flags; [done|]. intros d2 Hd2. apply with_optional_flags; [done|].
    intros d3 Hd3. by apply finish_flags.
Qed.

Lemma run_task_late (id : Z) (event : Event) (w w' : W) (p p' : Impl W) (d : Decision) (ss : StageSet W) :
  stages p = Some ss -> event_is_valid event = true ->
  (forall w, ic_skew_tolerance (ss_ingest ss) < event_age_ms (system_now w).1 event) ->
  run_task id event w p = Some (Some d, w', p') -> verdict_le Flag (d_final_verdict d).
Proof.
  intros Hss Hvalid Hlate. unfold run_task. rewrite Hss. destruct (emit p) as [es|]; [|done].
  pose proof (run_event_late (config p) ss id event Hvalid Hlate w) as Hf.
  destruct (run_event (config p) ss false id event w) as [[r|r|what|] w1]; try done.
  destruct (emit_process es r w1) as [[[[out es']|what]|] w2]; [| |done]; intros [= <- _ _]; by eapply Hf.
Qed.

End Late.

Section Emitted.

Context {W S J : Type} `{TimedWorkers W} `{StdSort} `{StdHash} `{HttpSocketLaws S} `{JsonLibrary J}.

(** Decisions on valid events are at least Flag. *)
Definition emitted_flagged (s : System W) : Prop :=
  Forall (fun x => event_is_valid x.1.2 = true -> verdict_le Flag (d_final_verdict x.2)) (emitted s).

Lemma running_accepted (c : PipelineConfig W) (s : System W) i strand e id :
  system_inv c s -> running s !! i = Some (strand, e, id) -> (strand, e) ∈ accepted s.
Proof.
  intros (_ & _ & _ & [_ Hsub] & _) Hi. specialize (Hsub strand). apply list_elem_of_lookup_2 in Hi.
  assert (Hin : (strand, e) ∈ on_strand strand (running s)).
  { unfold on_strand. apply list_elem_of_fmap. exists (strand, e, id). split; [done|]. by apply list_elem_of_filter. }
  assert (Hw : (strand, e) ∈ waiting_on strand (accepted s)).
  { eapply elem_of_sublist; [|exact Hsub]. apply elem_of_app. right. apply elem_of_app. by left. }
  unfold waiting_on in Hw. by apply list_elem_of_filter in Hw as [_ ?].
Qed.

Lemma submit_emitted (e : Event) (w w' : W) (s s' : System W) r :
  submit e w s = Some (r, w', s') -> emitted s' = emitted s.
Proof.
  unfold submit. destruct (submit_check e w (impl s)) as [[[[[]|err] w1] p1]|]; [| |done].
  - destruct (submit_dispatch e w1 p1) as [[[k w2] p2]|]; [|done]. by intros [= _ _ <-].
  - by intros [= _ _ <-].
Qed.

Lemma drain_emitted (w w' : W) (s s' : System W) : drain w s = Some (tt, w', s') -> emitted s' = emitted s.
Proof. unfold drain, drain_begin. destruct (drain_stop _ _) as [[[[] w2] p2]|]; [|done]. by intros [= _ <-]. Qed.

(** Events of requests carry no time, so they are late once the clock is past
    the tolerance after its epoch. *)
Lemma request_is_late (c : PipelineConfig W) (h : Harness W) (e : Event) (w : W) :
  (forall w, ic_skew_tolerance (cfg_ingest c) < Z.quot (system_now w).1 ns_per_ms) -> from_request h e ->
  ic_skew_tolerance (ss_ingest (make_stages c)) < event_age_ms (system_now w).1 e.
Proof. intros Hclock (t & en & et & -> & _). unfold event_age_ms. simpl. by rewrite Z.sub_0_r. Qed.

Lemma system_step_flagged (c : PipelineConfig W) (h : Harness W) (w w' : W) (s s' : System W) :
  (forall w, ic_skew_tolerance (cfg_ingest c) < Z.quot (system_now w).1 ns_per_ms) ->
  system_inv c s -> Forall (fun x => from_request h x.2) (accepted s) ->
  system_step (w, s) (w', s') -> emitted_flagged s -> emitted_flagged s'.
Proof.
  intros Hclock Hinv Hreq Hstep Hem. inversion Hstep; subst; try exact Hem.
  unfold emitted_flagged, ended. simpl. destruct d as [d|]; [|exact Hem].
  apply Forall_app. split; [exact Hem|]. constructor; [|constructor]. simpl. intros Hvalid.
  assert (Hss : stages (impl s) = Some (make_stages c)).
  { destruct (stages (impl s)) as [ss|] eqn:Hss.
    - destruct Hinv as (Hl & _). by rewrite (life_stages _ _ Hl ss Hss).
    - by match goal with Hr : run_task _ _ _ _ = Some _ |- _ => unfold run_task in Hr; rewrite Hss in Hr end. }
  eapply run_task_late; [exact Hss|exact Hvalid| |eassumption].
  intros w0. apply (request_is_late c h); [exact Hclock|]. rewrite Forall_forall in Hreq.
  match goal with Hr : running s !! _ = Some _ |- _ => apply (running_accepted c) in Hr; [|exact Hinv]; by apply Hreq in Hr end.
Qed.

Lemma service_step_flagged (c : PipelineConfig W) fleet (sv sv' : Service W) :
  calls_ok c -> (forall w, ic_skew_tolerance (cfg_ingest c) < Z.quot (system_now w).1 ns_per_ms) ->
  service_inv c fleet sv -> service_step (S := S) (J := J) sv sv' ->
  emitted_flagged (hs_pipeline (sv_impl sv)) -> emitted_flagged (hs_pipeline (sv_impl sv')).
Proof.
  intros Hok Hclock (Hreach & _ & _ & _ & Hreq) Hstep Hem. destruct Hreach as [w0 Hreach].
  destruct Hstep as [w h replies sock s' Hsock Hconn Hrun|w h replies w' p Hst Hacc Hsub]; simpl in *.
  - destruct (handle_connection_effect _ _ _ Hconn) as (_ & out & _ & Heff).
    inversion Heff as [out' Hw Hi Hl Hna Hout|tenant entity et r p Ha Hs Hi Hout|p out' Hd Hi Hl Hna Hout]; simpl in *;
      rewrite Hi; [done|..]; unfold emitted_flagged; simpl.
    + by rewrite (submit_emitted _ _ _ _ _ _ Hs).
    + by rewrite (drain_emitted _ _ _ _ Hd).
  - assert (Hinv : system_inv c (hs_pipeline h)) by (apply reachable_inv; [done|by exists w0, w]).
    by apply (system_step_flagged c h w w' (hs_pipeline h)).
Qed.

Lemma service_rtc_flagged (c : PipelineConfig W) fleet (sv sv' : Service W) :
  calls_ok c -> (forall w, ic_skew_tolerance (cfg_ingest c) < Z.quot (system_now w).1 ns_per_ms) ->
  rtc (service_step (S := S) (J := J)) sv sv' -> service_inv c fleet sv ->
  emitted_flagged (hs_pipeline (sv_impl sv)) -> emitted_flagged (hs_pipeline (sv_impl sv')).
Proof.
  intros Hok Hclock Hrtc. induction Hrtc as [|x y z Hstep _ IH]; [done|]. intros Hinv Hem. apply IH.
  - by eapply service_step_inv.
  - by eapply service_step_flagged.
Qed.

(** A service that has just started. *)
Lemma service_started (c : PipelineConfig W) fleet (w w' : W) (p : Impl W) :
  start w (impl_new c) = Some (Ok tt, w', p) ->
  service_inv c fleet (mkService w' (mkHarness fleet (with_impl (system_new c) p) true) []).
Proof.
  intros Hst. split_and!; try done. exists w. apply rtc_once. by eapply (step_start w (system_new c)).
Qed.

Lemma flagged_not_pass (s : System W) :
  emitted_flagged s ->
  Forall (fun x => event_is_valid x.1.2 = true -> d_final_verdict x.2 <> Pass) (emitted s).
Proof.
  intros Hf. eapply Forall_impl; [exact Hf|]. intros x Hx Hvalid Hpass. specialize (Hx Hvalid). rewrite Hpass in Hx.
  unfold verdict_le in Hx. simpl in Hx. lia.
Qed.

End Emitted.

(** ** Properties *)

(** C28: every 202 answer stands for exactly one event of the pipeline: from a
    service just started, after any connections and any work of the pipeline's
    threads, the answers 202 are as many as the events accepted; each accepted
    event is of a request whose tenant this instance owns, and is where the
    pipeline accounts for it: emitted once, being run, waiting, or abandoned. *)
Theorem accepted_replies_accounted {W S J : Type} `{TimedWorkers W} `{StdSort} `{StdHash} `{HttpSocketLaws S}
    `{JsonLibrary J} (c : PipelineConfig W) (fleet : option FleetConfig) (w w' : W) (p : Impl W) (sv : Service W)
    (Hok : calls_ok c) (Hstart : start w (impl_new c) = Some (Ok tt, w', p))
    (Hrun : rtc (service_step (S := S) (J := J))
      (mkService w' (mkHarness fleet (with_impl (system_new c) p) true) []) sv)
    (Hbound : Z.of_nat (count_accepted (sv_replies sv)) < 2 ^ 62) :
  let s := hs_pipeline (sv_impl sv) in
  count_accepted (sv_replies sv) = length (accepted s) /\ accepted s ≡ₚ whereabouts s /\
  Forall (fun x => from_request (sv_impl sv) x.2) (accepted s).
Proof.
  destruct (service_inv_rtc c fleet _ _ Hrun (service_started c fleet w w' p Hstart)) as ([w0 Hreach] & _ & _ & Hc & Hall).
  split_and!; [exact Hc| |exact Hall]. rewrite Hc in Hbound.
  destruct (reachable_inv c (hs_pipeline (sv_impl sv)) Hok) as (_ & _ & _ & _ & _ & Hcount); [by exists w0, (sv_world sv)|].
  by destruct (Hcount Hbound).
Qed.

(** The service answers no event with Pass: requests give their events no
    time, so once the clock is past the skew tolerance after its epoch every
    decision emitted on an event with a tenant and an entity is at least Flag. *)
Theorem service_never_passes {W S J : Type} `{TimedWorkers W} `{StdSort} `{StdHash} `{HttpSocketLaws S}
    `{JsonLibrary J} (c : PipelineConfig W) (fleet : option FleetConfig) (w w' : W) (p : Impl W) (sv : Service W)
    (Hok : calls_ok c) (Hclock : forall w, ic_skew_tolerance (cfg_ingest c) < Z.quot (system_now w).1 ns_per_ms)
    (Hstart : start w (impl_new c) = Some (Ok tt, w', p))
    (Hrun : rtc (service_step (S := S) (J := J))
      (mkService w' (mkHarness fleet (with_impl (system_new c) p) true) []) sv) :
  Forall (fun x => event_is_valid x.1.2 = true -> d_final_verdict x.2 <> Pass) (emitted (hs_pipeline (sv_impl sv))).
Proof.
  pose proof (service_rtc_flagged c fleet _ _ Hok Hclock Hrun (service_started c fleet w w' p Hstart)) as Hf.
  eapply flagged_not_pass, Hf. constructor.
Qed.

(** ** Sample service *)

#[local] Existing Instance Stages.sample_workers.

(** A clock of the year 2006. *)
#[local] Instance late_clock : Clock Z := {
  steady_now := fun w => (w, w);
  system_now := fun w => (2 ^ 60, w);
  sleep_for := fun ns w => (tt, w + ns)
}.

#[local] Instance late_timed : TimedWorkers Z := {
  time := fun w => w;
  law_now := Stages.sample_law_now;
  law_sleep := Stages.sample_law_sleep;
  law_spawn := fun _ _ w => Z.le_refl w;
  law_poll := fun _ w => Z.le_refl w;
  law_detach := fun _ w => Z.le_refl w;
  law_join := fun _ w => Z.le_refl w
}.

(** A socket on which all of a request has arrived. *)
Record sample_sock : Type := mkSampleSock { sk_head : string; sk_rest : string; sk_sent : list string }.

#[local] Instance sample_socket : HttpSocket sample_sock := {
  sock_read_until := fun s => (Some (sk_head s, sk_rest s), mkSampleSock "" "" (sk_sent s));
  sock_read_exactly := fun _ s => (("", true), s);
  sock_write := fun t s => (tt, mkSampleSock (sk_head s) (sk_rest s) (sk_sent s ++ [t]))
}.

#[local] Instance sample_socket_laws : HttpSocketLaws sample_sock := {
  sock_sent := sk_sent;
  law_read_until := fun _ => eq_refl;
  law_read_exactly := fun _ _ => eq_refl;
  law_sock_write := fun _ _ => eq_refl
}.

Definition sample_body : string :=
  match json_dump (J := json_tree) (json_fields [("tenant_id", json_of_string "acme"); ("entity_id", json_of_string "bob")]) with
  | Ok text => text
  | Unexpected _ => ""
  end.

Definition sample_post : string * string :=
  (message_text "POST /events HTTP/1.1"
    [("Content-Length", to_string_Z (Z.of_nat (String.length sample_body)))] "", sample_body).

Definition sample_drain : string * string := (message_text "POST /pipeline/drain HTTP/1.1" [] "", "").

(** What happens at a sample service: a request, or the begin or the end of an event. *)
Inductive happening : Type := Request (r : string * string) | Begins (i : nat) | Ends (i : nat).

Definition thread_action (a : action) (sv : Service Z) : option (Service Z) :=
  match exec a (sv_world sv, hs_pipeline (sv_impl sv)) with
  | Some (w, p) => Some (mkService w (set_system (sv_impl sv) p) (sv_replies sv))
  | None => None
  end.

Definition happen (x : happening) (sv : Service Z) : option (Service Z) :=
  match x with
  | Begins i => thread_action (DoBegin i) sv
  | Ends i => thread_action (DoEnd i) sv
  | Request r =>
      match handle_connection (J := json_tree) (mkHState (sv_world sv) (mkSampleSock r.1 r.2 []) (sv_impl sv)) with
      | Some (_, s') =>
          if (hs_running (h_impl s') || Nat.eqb (length (running (hs_pipeline (sv_impl sv)))) 0)%bool
          then Some (mkService (h_world s') (h_impl s') (sv_replies sv ++ sk_sent (h_sock s')))
          else None
      | None => None
      end
  end.

Fixpoint serve (l : list happening) (sv : Service Z) : option (Service Z) :=
  match l with
  | [] => Some sv
  | x :: l' => match happen x sv with Some sv' => serve l' sv' | None => None end
  end.

Lemma happen_step (x : happening) (sv sv' : Service Z) :
  happen x sv = Some sv' -> service_step (S := sample_sock) (J := json_tree) sv sv'.
Proof.
  assert (Hthread : forall i a, a = DoBegin i \/ a = DoEnd i -> thread_action a sv = Some sv' ->
    service_step (S := sample_sock) (J := json_tree) sv sv').
  { intros i a Ha Hx. destruct sv as [w h replies]. unfold thread_action in Hx. cbn [sv_world sv_impl sv_replies] in Hx.
    destruct (exec a (w, hs_pipeline h)) as [[w1 p1]|] eqn:Hs; [|done].
    injection Hx as <-. pose proof (exec_step _ _ _ Hs) as Hstep.
    destruct Ha as [-> | ->]; cbn [exec] in Hs.
    - destruct (tasks (hs_pipeline h) !! i) as [[k e]|]; [|done]. destruct (_ && _)%bool; [|done].
      injection Hs as <- <-. by apply (ServePipeline w h replies w _ Hstep).
    - destruct (running (hs_pipeline h) !! i) as [[[k e] id]|]; [|done].
      destruct (run_task id e w _) as [[[d w2] p2]|]; [|done]. injection Hs as <- <-.
      by apply (ServePipeline w h replies w2 _ Hstep). }
  destruct x as [r|i|i]; [|by apply (Hthread i); left|by apply (Hthread i); right].
  destruct sv as [w h replies]. simpl. destruct (handle_connection _) as [[u s']|] eqn:Hc; [|done].
  destruct (_ || _)%bool eqn:Hrun; [|done]. intros [= <-].
  destruct (handle_connection_effect _ _ _ Hc) as [-> _].
  change (sk_sent (h_sock s')) with (sock_sent (h_sock s')).
  apply (ServeConnection w h replies (mkSampleSock r.1 r.2 []) s'); [done|exact Hc|].
  apply orb_true_iff in Hrun as [Hrun|Hrun]; [by left|right]. by apply Nat.eqb_eq, length_zero_iff_nil in Hrun.
Qed.

Lemma serve_reached (l : list happening) (sv sv' : Service Z) :
  serve l sv = Some sv' -> rtc (service_step (S := sample_sock) (J := json_tree)) sv sv'.
Proof.
  revert sv. induction l as [|x l IH]; intros sv; simpl; [by intros [= <-]|].
  destruct (happen x sv) as [sv1|] eqn:Hx; [|done]. intros Hl. eapply rtc_l; [by eapply happen_step|by apply IH].
Qed.

(** A service just started on the example pipeline. *)
Definition sample_impl : Impl Z :=
  match start 0 (impl_new RunEvent.example_config) with Some (_, _, p) => p | None => impl_new RunEvent.example_config end.

Definition sample_service : Service Z :=
  mkService 0 (mkHarness None (with_impl (system_new RunEvent.example_config) sample_impl) true) [].

Lemma sample_started : start 0 (impl_new RunEvent.example_config) = Some (Ok tt, 0, sample_impl).
Proof. reflexivity. Qed.

Definition sample_day : list happening := [Request sample_post; Begins 0; Ends 0].

Example sample_service_run :
  option_map (fun sv => let s := hs_pipeline (sv_impl sv) in
      (sv_replies sv, length (accepted s), map (fun x => d_final_verdict x.2) (emitted s)))
    (serve sample_day sample_service) = Some ([accepted_reply], 1%nat, [Flag]).
Proof. vm_compute. reflexivity. Qed.

Lemma accepted_replies_accounted_witness :
  match serve sample_day sample_service with
  | Some served => count_accepted (sv_replies served) = 1%nat /\ length (accepted (hs_pipeline (sv_impl served))) = 1%nat
  | None => False
  end.
Proof.
  destruct (serve sample_day sample_service) as [sv|] eqn:Hsv; [|vm_compute in Hsv; discriminate].
  assert (Hcount : option_map (fun x => count_accepted (sv_replies x)) (serve sample_day sample_service) = Some 1%nat)
    by (vm_compute; reflexivity).
  rewrite Hsv in Hcount. injection Hcount as Hcount. split; [exact Hcount|].
  destruct (accepted_replies_accounted RunEvent.example_config None 0 0 sample_impl sv
    example_calls_ok sample_started (serve_reached _ _ _ Hsv)) as [Ha _]; [rewrite Hcount; reflexivity|].
  rewrite <- Ha. exact Hcount.
Defined.

Lemma service_never_passes_witness :
  match serve sample_day sample_service with
  | Some served => Forall (fun x => event_is_valid x.1.2 = true -> d_final_verdict x.2 <> Pass) (emitted (hs_pipeline (sv_impl served)))
  | None => False
  end.
Proof.
  destruct (serve sample_day sample_service) as [sv|] eqn:Hsv; [|vm_compute in Hsv; discriminate].
  apply (service_never_passes RunEvent.example_config None 0 0 sample_impl sv example_calls_ok).
  - intros w1. vm_compute. reflexivity.
  - exact sample_started.
  - exact (serve_reached _ _ _ Hsv).
Defined.
