(* ===== verification/Main.v ===== *)
(** * fre-service: the entry point

    service/src/main.cpp over the service of Service.v: the environment decides
    on fleet routing, the first argument on the pipeline's configuration.  What
    main serves is an acceptable service, whatever it is started with. *)

From S2P Require Import Prelude Ieee CoreTypes Errors DecisionTypes ShuffleShard TokenBucket TenantRouter FleetRouter Config Stages.
From S2P Require Import EmitStage PolicyStage RunEvent Pipeline Evaluators Json Serializer Http Harness Service.
From Stdlib Require Import Ascii.

Open Scope list_scope.
Open Scope Z_scope.

Definition EXIT_SUCCESS : Z := 0.
Definition EXIT_FAILURE : Z := 1.

(** [std::stoul]: a minus sign negates modulo 2^64. *)
Definition stoul (s : string) : outcome Z :=
  let '(neg, s1) := Strtod.sign (Strtod.skip_spaces s) in
  let '(n, digits, _) := Strtod.digit_run Strtod.digit_value 10 0 0 s1 in
  match digits with
  | O => Threw "stoul"
  | S _ => if Z.ltb n u64_mod then Returned (wrap_u64 (if neg then - n else n)) else Threw "stoul"
  end.

(** [static_cast<uint32_t>(std::stoul(text))]. *)
Definition env_uint32 (text : string) : outcome Z :=
  match stoul text with Returned n => Returned (wrap_u32 n) | Threw what => Threw what end.

(** Exceptions of a sequence of pure calls. *)
Definition out_bind {A B : Type} (r : outcome A) (k : A -> outcome B) : outcome B :=
  match r with Returned a => k a | Threw what => Threw what end.

Section Topology.

Context {J : Type} `{JsonLibrary J}.

Definition topology_entry (entry : J) : expected InstanceInfo json_error :=
  try (json_value json_as_uint32 entry "id" 0) (fun id =>
  try (json_value json_as_string entry "address" "") (fun address =>
  Ok (mkInstanceInfo id address))).

(** The loop over the entries: what was pushed, and the exception that ended it. *)
Fixpoint topology_loop (entries : list J) (result : list InstanceInfo) : list InstanceInfo * option json_error :=
  match entries with
  | [] => (result, None)
  | entry :: entries' =>
      match topology_entry entry with
      | Ok info => topology_loop entries' (result ++ [info])
      | Unexpected e => (result, Some e)
      end
  end.

(** [load_topology]; no path is an unset variable, no file one that does not open. *)
Definition load_topology (files : string -> option string) (path : option string) : outcome (list InstanceInfo) :=
  match path with
  | None => Returned []
  | Some path =>
      if str_empty path then Returned []
      else
        match files path with
        | None => Returned []
        | Some text =>
            let '(result, thrown) :=
              match json_parse (J := J) text with
              | Unexpected e => ([], Some e)
              | Ok arr => topology_loop (json_elements arr) []
              end in
            match thrown with
            | None | Some (ParseError _) => Returned result
            | Some (OtherJsonError what) => Threw what
            end
        end
  end.

(** Fleet routing by the environment. *)
Definition fleet_of_env (getenv files : string -> option string) : outcome (option FleetConfig) :=
  match getenv "FRE_INSTANCE_ID", getenv "FRE_FLEET_SIZE" with
  | Some env_instance_id, Some env_fleet_size =>
      out_bind (env_uint32 env_instance_id) (fun id =>
      out_bind (env_uint32 env_fleet_size) (fun size =>
      out_bind (match getenv "FRE_INSTANCES_PER_TENANT" with
                | Some env_ips => env_uint32 env_ips
                | None => Returned 2  (* the member's initialiser *)
                end) (fun k =>
      out_bind (load_topology files (getenv "FRE_TOPOLOGY_FILE")) (fun topo =>
      Returned (Some (mkFleetConfig id size k topo))))))
  | _, _ => Returned None
  end.

End Topology.

Section Run.

Context {W J : Type} `{Clock W} `{Workers W} `{StdSort} `{StdHash} `{HttpListener W} `{Stdout W} `{JsonLibrary J}.

(** The configuration without an argument. *)
Definition default_pipeline : expected (PipelineConfig W) Error :=
  build (builder_emit (builder_pipeline_id builder_new "fre-service") (emit_add_stdout_target default_emit)).

(** The harness' configuration, from the argument and the fleet. *)
Definition harness_config (argument : option string) (fleet : option FleetConfig)
    : expected (HarnessConfig W) Error :=
  match argument with
  | Some path => Ok (mkHarnessConfig "127.0.0.1" 8080 path (config_ builder_new) fleet)
  | None =>
      match default_pipeline with
      | Ok c => Ok (mkHarnessConfig "127.0.0.1" 8080 "" c fleet)
      | Unexpected e => Unexpected e
      end
  end.

(** Where [main] gets to before [run]. *)
Inductive main_state : Type :=
| MainThrew (what : string)                 (** [std::terminate] *)
| MainExit (code : Z)
| MainServing (w : W) (h : Harness W).

(** [main] up to [harness.run()]; an exception out of the destructor ends the
    program; [None] when the destructor's drain is undefined. *)
Definition main_begin (getenv files : string -> option string) (argument : option string) (w : W)
    : option main_state :=
  match fleet_of_env (J := J) getenv files with
  | Threw what => Some (MainThrew what)
  | Returned fleet =>
      match harness_config argument fleet with
      | Unexpected _ => Some (MainExit EXIT_FAILURE)
      | Ok cfg =>
          match harness_new (J := J) files cfg with
          | Threw what => Some (MainThrew what)
          | Returned h =>
              match harness_start cfg w h with
              | None => None
              | Some (Threw what, _, _) => Some (MainThrew what)
              | Some (Returned false, w1, h1) =>
                  option_map (fun r => match r.1.1 with Threw what => MainThrew what | Returned _ => MainExit EXIT_FAILURE end)
                    (harness_stop false w1 h1)
              | Some (Returned true, w1, h1) => Some (MainServing w1 h1)
              end
          end
      end
  end.

(** [main] once [run] has seen that the service no longer runs: the destructor,
    whose exceptions end the program, and the exit code. *)
Definition main_end (w : W) (h : Harness W) : option (outcome Z * W * Harness W) :=
  if hs_running h then None
  else match harness_stop true w h with
       | Some (Returned _, w', h') => Some (Returned EXIT_SUCCESS, w', h')
       | Some (Threw what, w', h') => Some (Threw what, w', h')
       | None => None
       end.

End Run.

Arguments MainThrew {W}. Arguments MainExit {W}. Arguments MainServing {W}.

(** ** Lemmas *)

Section Lemmas.

Context {W S J : Type} `{TimedWorkers W} `{StdSort} `{StdHash} `{HttpListener W} `{Stdout W} `{HttpSocketLaws S} `{JsonLibrary J}.

(** A pipeline as [main] configures it: two names, at most one target, and the
    default values. *)
Definition main_pipeline (c : PipelineConfig W) : Prop :=
  exists id version targets, (targets = [] \/ targets = [stdout_target]) /\
    c = mkPipelineConfig id version 300 (mkShardingConfig 16 4 0) (mkRateLimitConfig 1000 500 100)
          (mkIngestConfig 30000 5) None None None (mkEmitConfig 10 EmitDegraded 3 targets) None.

Lemma main_pipeline_calls (c : PipelineConfig W) : main_pipeline c -> calls_ok c.
Proof.
  intros (id & v & targets & Htg & ->). split_and!; [split; [by intros e|by intros n]|simpl; lia..|].
  simpl. destruct Htg as [-> | ->]; repeat constructor. apply stdout_no_throw.
Qed.

Lemma loaded_pipeline (file : option string) (c : PipelineConfig W) :
  load_config_from_json (J := J) file = Returned (Some c) -> main_pipeline c.
Proof.
  unfold load_config_from_json. destruct file as [text|]; [|done].
  destruct (try _ _) as [[id version]|[what|what]]; [|done..]. intros [= <-].
  exists id, version, [stdout_target]. split; [by right|done].
Qed.

Lemma default_pipeline_ok : exists c,
  default_pipeline = Ok c /\ main_pipeline c.
Proof. eexists. split; [reflexivity|]. exists "fre-service", "1.0.0", [stdout_target]. split; [by right|done]. Qed.

Lemma harness_config_pipeline (argument : option string) fleet (cfg : HarnessConfig W) :
  harness_config argument fleet = Ok cfg ->
  main_pipeline (hc_pipeline_config cfg) /\ hc_fleet_config cfg = fleet.
Proof.
  unfold harness_config. destruct argument as [path|].
  - intros [= <-]. split; [|done]. exists "", "1.0.0", []. split; [by left|done].
  - destruct default_pipeline_ok as (c & -> & Hc). by intros [= <-].
Qed.

Lemma harness_new_pipeline files (cfg : HarnessConfig W) (h : Harness W) :
  main_pipeline (hc_pipeline_config cfg) ->
  harness_new (J := J) files cfg = Returned h -> exists c,
  main_pipeline c /\ h = mkHarness (hc_fleet_config cfg) (system_new c) false.
Proof.
  intros Hc. unfold harness_new. destruct (negb _); [|intros [= <-]; by eexists].
  destruct (load_config_from_json _) as [[c|]|what] eqn:Hl; [| |done]; intros [= <-]; [|by eexists].
  exists c. split; [by eapply loaded_pipeline|done].
Qed.

(** The pipeline of a new harness always starts. *)
Lemma harness_start_serves (cfg : HarnessConfig W) (c : PipelineConfig W) fleet (w w' : W) (h : Harness W) (b : bool) :
  harness_start cfg w (mkHarness fleet (system_new c) false) = Some (Returned b, w', h) -> exists p,
  start w' (impl_new c) = Some (Ok tt, w', p) /\ h = mkHarness fleet (with_impl (system_new c) p) b.
Proof.
  unfold harness_start. simpl.
  match goal with |- context [let '(_, _) := ?m in _] => destruct m as [[[]|what] w2] end; intros [= <- <- <-];
    eexists; split; reflexivity.
Qed.

Lemma main_serving getenv files argument (w w' : W) (h : Harness W) :
  main_begin (J := J) getenv files argument w = Some (MainServing w' h) ->
  exists fleet c p, fleet_of_env (J := J) getenv files = Returned fleet /\ main_pipeline c /\
    start w' (impl_new c) = Some (Ok tt, w', p) /\ h = mkHarness fleet (with_impl (system_new c) p) true.
Proof.
  unfold main_begin. destruct (fleet_of_env _ _) as [fleet|]; [|done].
  destruct (harness_config _ _) as [cfg|] eqn:Hcfg; [|done].
  destruct (harness_new _ _) as [h0|] eqn:Hnew; [|done].
  destruct (harness_start cfg w h0) as [[[[[]|] w1] h1]|] eqn:Hst; [|destruct (harness_stop false w1 h1) as [[[[u|what] w2] h2]|]; done|done..].
  intros [= -> ->]. destruct (harness_config_pipeline _ _ _ Hcfg) as [Hc <-].
  destruct (harness_new_pipeline _ _ _ Hc Hnew) as (c & Hmain & ->).
  destruct (harness_start_serves _ _ _ _ _ _ _ Hst) as (p & Hp & ->). by exists (hc_fleet_config cfg), c, p.
Qed.

End Lemmas.

Section Served.

Context {W S J : Type} `{TimedWorkers W} `{StdSort} `{StdHash} `{HttpListener W} `{Stdout W} `{HttpSocketLaws S} `{JsonLibrary J}.

Lemma run_task_router (id : Z) (e : Event) (w w' : W) (p p' : Impl W) (d : option Decision) :
  run_task id e w p = Some (d, w', p') -> router p' = router p.
Proof.
  unfold run_task. destruct (stages p) as [ss|]; [|done]. destruct (emit p) as [es|]; [|done].
  destruct (run_event _ _ _ _ _ _) as [[r|r|what|] w1]; [|by intros [= _ _ <-]..|done].
  by destruct (emit_process _ _ _) as [[[[out es']|what]|] w2]; [intros [= _ _ <-]..|].
Qed.

(** Once started, a pipeline keeps a router. *)
Lemma router_stays (w w' : W) (s s' : System W) :
  system_step (w, s) (w', s') -> is_Some (router (impl s)) -> is_Some (router (impl s')).
Proof.
  intros Hstep Hr. inversion Hstep as [? ? ? ? p' Hsb Hs|? ? e err ? p' Hs|? ? e ? p' Hlt Hs|? ? i e strand ? p' Hi Hs
    |? ? i strand e Hi Hn Hp|? ? i strand e id d ? p' Hi Hs|? ? ? p' Hs|? ? ? p' Hd Hs|? ? ? p' Hd Hp Hrun Hs]; subst; simpl.
  - unfold start in Hs. destruct (state_ (impl s)); simplify_eq; done.
  - apply submit_check_cases in Hs as [(_ & -> & _)|(r & r' & rr & _ & _ & -> & _)]; done.
  - apply submit_check_cases in Hs as [(_ & -> & _)|(r & r' & rr & _ & _ & -> & _)]; done.
  - apply submit_dispatch_cases in Hs as (r & cells & w1 & r1 & r2 & _ & _ & _ & _ & ->). done.
  - done.
  - by rewrite (run_task_router _ _ _ _ _ _ _ Hs).
  - by injection Hs as _ <-.
  - unfold drain_stop in Hs. destruct (router (impl s)) as [r|]; [|done].
    destruct (router_stop w r) as [[[u w1] r1]|]; [|done]. by injection Hs as _ <-.
  - by injection Hs as _ <-.
Qed.

Lemma router_stays_rtc (x y : W * System W) :
  rtc system_step x y -> is_Some (router (impl x.2)) -> is_Some (router (impl y.2)).
Proof.
  induction 1 as [|[w s] [w1 s1] z Hstep _ IH]; [done|]. intros Hr. apply IH. by eapply router_stays.
Qed.

Lemma service_router (sv sv' : Service W) (c : PipelineConfig W) fleet :
  rtc (service_step (S := S) (J := J)) sv sv' -> service_inv c fleet sv ->
  is_Some (router (impl (hs_pipeline (sv_impl sv)))) -> is_Some (router (impl (hs_pipeline (sv_impl sv')))).
Proof.
  induction 1 as [|x y z Hstep _ IH]; [done|]. intros Hinv Hr. apply IH; [by eapply service_step_inv|].
  destruct Hinv as (_ & _ & Hsub & _). destruct Hstep as [w h replies sock s' Hsock Hconn Hrun|w h replies w' p Hst Hacc Hsub']; simpl in *.
  - destruct (handle_connection_effect _ _ _ Hconn) as (_ & out & _ & Heff).
    inversion Heff as [out' Hw Hi Hl Hna Hout|tenant entity et r p Ha Hs Hi Hout|p out' Hd Hi Hl Hna Hout]; simpl in *;
      rewrite Hi; [done|..]; simpl.
    + destruct (submit_is_steps _ _ _ _ _ _ ltac:(rewrite Hsub; done) Hs) as [Hst _].
      exact (router_stays_rtc _ _ Hst Hr).
    + unfold drain, drain_begin in Hd. destruct (drain_stop w (set_state (impl (hs_pipeline h)) Draining)) as [[[[] w2] p2]|] eqn:Hds; [|done].
      injection Hd as _ <-. unfold drain_stop in Hds. destruct (router (set_state _ _)) as [r|]; [|done].
      destruct (router_stop w r) as [[[u w1] r1]|]; [|done]. by injection Hds as _ <-.
  - by eapply router_stays.
Qed.

Lemma drain_defined (w : W) (s : System W) : is_Some (router (impl s)) -> exists w' s', drain w s = Some (tt, w', s').
Proof.
  intros [r Hr]. unfold drain, drain_begin, drain_stop, drain_end, set_state, router_stop. simpl. rewrite Hr. by eexists _, _.
Qed.

End Served.

Section Environment.

Context {J : Type} `{JsonLaws J}.

(** A topology file as one writes it. *)
Definition topology_to_json (topo : list InstanceInfo) : J :=
  json_array (map (fun i => json_fields
    [("id", json_of_int (ii_id i)); ("address", json_of_string (ii_address i))]) topo).

Lemma env_uint32_decimal (n : Z) : 0 <= n < u32_mod -> env_uint32 (to_string_Z n) = Returned n.
Proof.
  unfold u32_mod. intros Hn. destruct (to_string_digits n 10) as (_ & Ha & [|k] & Hk & Hr); [simpl; lia|lia|lia|].
  destruct (to_string_Z n) as [|c s] eqn:Hs; [by simpl in Hr|].
  cbn [all_digits] in Ha. apply andb_true_iff in Ha as [Hc _].
  destruct (digit_char_facts c Hc) as (Hsp & _ & _ & _ & Hsign).
  unfold env_uint32, stoul. cbn [Strtod.skip_spaces]. rewrite Hsp, Hsign, Hr.
  destruct (Z.ltb_spec n u64_mod); [|unfold u64_mod in *; lia].
  unfold wrap_u32, wrap_u64. rewrite (Z.mod_small n) by (unfold u64_mod; lia). by rewrite Z.mod_small by (unfold u32_mod; lia).
Qed.

Lemma topology_loop_entries (topo result : list InstanceInfo) :
  Forall (fun i => 0 <= ii_id i < u32_mod) topo ->
  topology_loop (map (fun i => json_fields (J := J)
    [("id", json_of_int (ii_id i)); ("address", json_of_string (ii_address i))]) topo) result = (result ++ topo, None).
Proof.
  revert result. induction topo as [|i topo IH]; intros result Hids; [by rewrite app_nil_r|].
  apply Forall_cons in Hids as [Hi Hids]. simpl. unfold topology_entry.
  erewrite json_value_field; [|reflexivity|by apply law_as_uint32]. cbn [try].
  erewrite json_value_field; [|reflexivity|by apply law_as_string]. cbn [try].
  rewrite IH by done. rewrite <- app_assoc. by destruct i.
Qed.

Lemma topology_read_back (topo : list InstanceInfo) :
  Forall (fun i => 0 <= ii_id i < u32_mod /\ utf8 (ii_address i)) topo -> exists text,
  json_dump (topology_to_json topo) = Ok text /\ json_parse text = Ok (topology_to_json topo) /\
  topology_loop (json_elements (topology_to_json topo)) [] = (topo, None).
Proof.
  intros Htopo. destruct (law_round_trip (topology_to_json topo)) as (text & Hd & Hp).
  - apply law_plain_array, Forall_map. eapply Forall_impl; [exact Htopo|]. intros i [Hi Hutf].
    apply json_fields_plain. apply fields_plain_cons; [reflexivity| |apply fields_plain_cons; [reflexivity| |apply fields_plain_nil]].
    + apply law_plain_int. unfold u32_mod, u64_mod in *. lia.
    + by apply law_plain_string.
  - exists text. split_and!; [done|done|]. unfold topology_to_json at 1. rewrite law_elements_array.
    rewrite topology_loop_entries; [done|]. eapply Forall_impl; [exact Htopo|]. by intros i [? _].
Qed.

End Environment.

(** Texts that are no numbers below 2^32. *)
Example env_uint32_wraps :
  map env_uint32 ["-1"; "4294967296"; "12abc"] = [Returned 4294967295; Returned 0; Returned 12].
Proof. vm_compute. reflexivity. Qed.

Example env_uint32_throws : map env_uint32 [""; "one"; "99999999999999999999"] = repeat (Threw "stoul") 3.
Proof. vm_compute. reflexivity. Qed.

(** ** Properties *)

(** C4: whatever its environment, its argument and its files, what [main] serves
    is a sound service: after any connections and work of the pipeline's threads
    the answers 202 are as many as the accepted events, each is accounted for and
    of a tenant this instance owns, and no valid event is decided Pass once the
    clock is past 30 seconds after its epoch.  When the service has stopped
    running and its connections are over, [main] returns [EXIT_SUCCESS] exactly
    if the acceptor's [close] returns and the accept thread ends; if [close]
    throws the program is terminated, and if the thread never ends [main] does
    not return. *)
Theorem main_serves {W S J : Type} `{TimedWorkers W} `{StdSort} `{StdHash} `{HttpListener W} `{Stdout W} `{HttpSocketLaws S}
    `{JsonLibrary J} getenv files argument (w w' : W) (h : Harness W) (sv : Service W)
    (Hclock : forall w, 30000 < Z.quot (system_now w).1 ns_per_ms)
    (Hmain : main_begin (J := J) getenv files argument w = Some (MainServing w' h))
    (Hrun : rtc (service_step (S := S) (J := J)) (mkService w' h []) sv)
    (Hbound : Z.of_nat (count_accepted (sv_replies sv)) < 2 ^ 62) :
  let s := hs_pipeline (sv_impl sv) in
  (count_accepted (sv_replies sv) = length (accepted s) /\ accepted s ≡ₚ whereabouts s) /\
  Forall (fun x => from_request (sv_impl sv) x.2) (accepted s) /\
  Forall (fun x => event_is_valid x.1.2 = true -> d_final_verdict x.2 <> Pass) (emitted s) /\
  (hs_running (sv_impl sv) = false ->
     let result := option_map (fun r => r.1.1) (main_end (sv_world sv) (sv_impl sv)) in
     match acceptor_close (sv_world sv) with
     | (Threw what, _) => result = Some (Threw what)
     | (Returned _, w1) => result = option_map (fun _ => Returned EXIT_SUCCESS) (join_acceptor w1)
     end).
Proof.
  destruct (main_serving _ _ _ _ _ _ Hmain) as (fleet & c & p & _ & Hc & Hp & ->).
  pose proof (main_pipeline_calls _ Hc) as Hok. pose proof (service_started c fleet _ _ _ Hp) as Hinv0.
  destruct (service_inv_rtc c fleet _ _ Hrun Hinv0) as ([w0 Hreach] & _ & _ & Hcount & Hall).
  split_and!; [exact Hcount| |exact Hall| |].
  - rewrite Hcount in Hbound. destruct (reachable_inv c (hs_pipeline (sv_impl sv)) Hok) as (_ & _ & _ & _ & _ & Hcs);
      [by exists w0, (sv_world sv)|]. by destruct (Hcs Hbound).
  - apply (flagged_not_pass (hs_pipeline (sv_impl sv))). eapply service_rtc_flagged; [exact Hok| |exact Hrun|exact Hinv0|constructor].
    destruct Hc as (id & v & targets & _ & ->). exact Hclock.
  - intros Hstop. unfold main_end, harness_stop. rewrite Hstop.
    destruct (acceptor_close (sv_world sv)) as [[u|what] w1]; [|done]. destruct (join_acceptor w1) as [w2|]; [|done].
    destruct (drain_defined w2 (hs_pipeline (sv_impl sv))) as (w3 & s2 & Hd).
    { eapply service_router; [exact Hrun|exact Hinv0|]. simpl. injection Hp as <-. by eexists. }
    cbn [with_running hs_pipeline]. by rewrite Hd.
Qed.

#[local] Existing Instance Stages.sample_workers.
#[local] Existing Instance Service.late_clock.
#[local] Existing Instance Service.late_timed.
#[local] Existing Instance Service.sample_socket.
#[local] Existing Instance Service.sample_socket_laws.

(** A listener that always works. *)
#[local] Instance sample_stdout : Stdout Z := { print := fun _ w => (tt, w) }.

#[local] Instance sample_listener : HttpListener Z := {
  make_address := fun _ w => (Returned tt, w);
  acceptor_open := fun w => (true, w);
  acceptor_reuse_address := fun w => (Returned tt, w);
  acceptor_bind := fun _ w => (true, w);
  acceptor_listen := fun w => (true, w);
  acceptor_close := fun w => (Returned tt, w);
  join_acceptor := fun w => Some w
}.

Definition sample_env (name : string) : option string :=
  if str_eqb name "FRE_INSTANCE_ID" then Some "0"
  else if str_eqb name "FRE_FLEET_SIZE" then Some "1" else None.

Definition sample_main : option (main_state (W := Z)) :=
  main_begin (J := json_tree) sample_env (fun _ => None) None 0.

(** An event, and the order to drain. *)
Definition sample_shift : list happening := [Request sample_post; Begins 0; Ends 0; Request sample_drain].

Definition sample_served : option (Service Z) :=
  match sample_main with Some (MainServing w h) => serve sample_shift (mkService w h []) | _ => None end.

Lemma main_serves_witness :
  match sample_served with
  | Some served => length (accepted (hs_pipeline (sv_impl served))) = 1%nat /\
      option_map (fun r => r.1.1) (main_end (sv_world served) (sv_impl served)) = Some (Returned EXIT_SUCCESS)
  | None => False
  end.
Proof.
  destruct sample_main as [[what|code|w h]|] eqn:Hmain; [vm_compute in Hmain; discriminate..| |vm_compute in Hmain; discriminate].
  destruct sample_served as [served|] eqn:Hserved; [|vm_compute in Hserved; discriminate].
  assert (Hfacts : option_map (fun x => (count_accepted (sv_replies x), hs_running (sv_impl x))) sample_served = Some (1%nat, false))
    by (vm_compute; reflexivity).
  rewrite Hserved in Hfacts. injection Hfacts as Hcount Hstop.
  unfold sample_served in Hserved. rewrite Hmain in Hserved.
  destruct (main_serves (S := sample_sock) (J := json_tree) sample_env (fun _ => None) None 0 w h served) as ((Ha & _) & _ & _ & Hend).
  - intros w1. vm_compute. reflexivity.
  - exact Hmain.
  - exact (serve_reached _ _ _ Hserved).
  - rewrite Hcount. reflexivity.
  - split; [by rewrite <- Ha|]. exact (Hend Hstop).
Defined.

(** The environment carries a fleet configuration: from the decimal texts of
    its numbers below 2^32 and a topology file that holds the dump of its members
    exactly that configuration is read back. *)
Theorem fleet_env_round_trip {J : Type} `{JsonLaws J} (getenv files : string -> option string) (c : FleetConfig)
    (path text : string)
    (Hnumbers : 0 <= instance_id c < u32_mod /\ 0 <= fleet_size c < u32_mod /\ 0 <= instances_per_tenant c < u32_mod)
    (Hmembers : Forall (fun i => 0 <= ii_id i < u32_mod /\ utf8 (ii_address i)) (topology c))
    (Hpath : path <> "") (Hfile : files path = Some text)
    (Hdump : json_dump (topology_to_json (topology c)) = Ok text)
    (Henv : map getenv ["FRE_INSTANCE_ID"; "FRE_FLEET_SIZE"; "FRE_INSTANCES_PER_TENANT"; "FRE_TOPOLOGY_FILE"]
            = [Some (to_string_Z (instance_id c)); Some (to_string_Z (fleet_size c));
               Some (to_string_Z (instances_per_tenant c)); Some path]) :
  fleet_of_env (J := J) getenv files = Returned (Some c).
Proof.
  injection Henv as Hei Hes Hek Het. destruct Hnumbers as (Hid & Hsize & Hk). unfold fleet_of_env.
  rewrite Hei, Hes, Hek, Het, !env_uint32_decimal by done. unfold load_topology.
  destruct path as [|ch path]; [done|]. cbn [str_empty]. rewrite Hfile.
  destruct (topology_read_back (topology c) Hmembers) as (text' & Hd & Hp & Hl).
  rewrite Hdump in Hd. injection Hd as ->. rewrite Hp, Hl. by destruct c.
Qed.

Definition pair_fleet : FleetConfig := mkFleetConfig 1 2 1 [mkInstanceInfo 0 "a:80"; mkInstanceInfo 1 "b:80"].

Definition pair_env (name : string) : option string :=
  if str_eqb name "FRE_INSTANCE_ID" then Some "1"
  else if str_eqb name "FRE_FLEET_SIZE" then Some "2"
  else if str_eqb name "FRE_INSTANCES_PER_TENANT" then Some "1"
  else if str_eqb name "FRE_TOPOLOGY_FILE" then Some "fleet.json" else None.

Definition pair_files (path : string) : option string :=
  match json_dump (topology_to_json (J := json_tree) (topology pair_fleet)) with Ok text => Some text | _ => None end.

Lemma fleet_env_round_trip_witness : fleet_of_env (J := json_tree) pair_env pair_files = Returned (Some pair_fleet).
Proof.
  apply (fleet_env_round_trip pair_env pair_files pair_fleet "fleet.json"
    (bits_of (encode (topology_to_json (J := json_tree) (topology pair_fleet))))).
  - unfold u32_mod. simpl. lia.
  - repeat constructor; simpl; unfold u32_mod; lia.
  - done.
  - reflexivity.
  - reflexivity.
  - reflexivity.
Defined.

(** A configuration file that cannot be read or parsed leaves the service on a
    default pipeline without any emission target, which the builder refuses. *)
Lemma unreadable_config_emits_nowhere {W J : Type} `{Clock W} `{Workers W} `{Stdout W} `{JsonLibrary J}
    (files : string -> option string) (path : string) (fleet : option FleetConfig) (cfg : HarnessConfig W) :
  harness_config (Some path) fleet = Ok cfg ->
  load_config_from_json (J := J) (files path) = Returned None ->
  exists h, harness_new (J := J) files cfg = Returned h /\
    mc_targets (cfg_emit (config (impl (hs_pipeline h)))) = [] /\ hs_fleet_router h = fleet.
Proof.
  intros [= <-] Hl. unfold harness_new. simpl. destruct (negb (str_empty path)); [rewrite Hl|]; by eexists.
Qed.

(** A harness destroyed without a start drains through a null router. *)
Lemma stop_before_start {W J : Type} `{Clock W} `{Workers W} `{StdSort} `{StdHash} `{HttpListener W} `{Stdout W} `{JsonLibrary J}
    (files : string -> option string) (cfg : HarnessConfig W) (h : Harness W) (w : W) :
  (acceptor_close w).1 = Returned tt -> harness_new (J := J) files cfg = Returned h -> harness_stop false w h = None.
Proof.
  intros Hclose. unfold harness_stop. destruct (acceptor_close w) as [r w1]. simpl in Hclose. subst r.
  unfold harness_new. destruct (negb _); [destruct (load_config_from_json _) as [[c|]|]; [| |done]|];
    by intros [= <-].
Qed.

(** A request whose fields are not texts gets no answer: only parse errors are caught. *)
Example mistyped_field_unanswered :
  option_map (fun r => sk_sent (h_sock r.2)) (handle_connection (J := json_tree)
    (mkHState 0 (let body := bits_of (encode (json_fields (J := json_tree) [("tenant_id", json_of_int 5)])) in
                 mkSampleSock (message_text "POST /events HTTP/1.1"
                   [("Content-Length", to_string_Z (Z.of_nat (String.length body)))] "") body [])
      (sv_impl sample_service))) = Some [].
Proof. vm_compute. reflexivity. Qed.
