(* ===== verification/Logging.v ===== *)
(** * Logging: loggers and the audit line

    include/fre/core/logging.hpp and src/pipeline/logging.cpp.  The sinks and the
    registry of spdlog are a class of operations; a logger is what it was made
    of.  The audit line of a decision is the text spdlog formats. *)

From S2P Require Import Prelude Ieee CoreTypes Evaluators Http.
From Stdlib Require Import Ascii.

Open Scope list_scope.
Open Scope Z_scope.

Import AllowDeny.

Inductive LogLevel : Type := LogTrace | LogDebug | LogInfo | LogWarning | LogError | LogCritical.

Record LogConfig : Type := mkLogConfig {
  lc_diagnostic_level : LogLevel;
  lc_diagnostic_file_path : string;
  lc_audit_file_path : string;
  lc_rotate_max_bytes : Z;
  lc_rotate_file_count : Z
}.

(** A sink: the console, a rotating file, an append-only file. *)
Inductive sink : Type := ConsoleSink | RotatingFile (path : string) (max_bytes count : Z) | AppendFile (path : string).

(** [spdlog::async_logger]; no level is the library's default. *)
Record Logger : Type := mkLogger { lg_name : string; lg_sinks : list sink; lg_level : option LogLevel }.

(** What may fail in spdlog: opening a sink, and registering a logger's name. *)
Class Spdlog (W : Type) : Type := {
  make_sink : sink -> M W (outcome unit);
  register_logger : Logger -> M W (outcome unit)
}.

(** The globals: whether [g_init_flag] is set, and the two loggers. *)
Record LogState : Type := mkLogState {
  ls_initialised : bool;
  ls_diagnostic : option Logger;
  ls_audit : option Logger
}.

Definition no_logging : LogState := mkLogState false None None.

Section Logging.

Context {W : Type} `{Spdlog W}.

Definition set_diagnostic (l : Logger) : M (W * LogState) (outcome unit) := fun '(w, s) =>
  (Returned tt, (w, mkLogState (ls_initialised s) (Some l) (ls_audit s))).

Definition set_audit (l : Logger) : M (W * LogState) (outcome unit) := fun '(w, s) =>
  (Returned tt, (w, mkLogState (ls_initialised s) (ls_diagnostic s) (Some l))).

Definition on_spdlog {A : Type} (m : M W A) : M (W * LogState) A := fun '(w, s) =>
  let '(a, w') := m w in (a, (w', s)).

(** The body of [init_logging]. *)
Definition make_loggers (c : LogConfig) : M (W * LogState) (outcome unit) :=
  call _ <- on_spdlog (make_sink ConsoleSink);
  let file := RotatingFile (lc_diagnostic_file_path c) (lc_rotate_max_bytes c) (lc_rotate_file_count c) in
  let has_file := negb (str_empty (lc_diagnostic_file_path c)) in
  call _ <- (if has_file then on_spdlog (make_sink file) else retM (Returned tt));
  let diagnostic :=
    mkLogger "fre.diagnostic" (ConsoleSink :: (if has_file then [file] else [])) (Some (lc_diagnostic_level c)) in
  call _ <- set_diagnostic diagnostic;
  call _ <- on_spdlog (register_logger diagnostic);
  if negb (str_empty (lc_audit_file_path c)) then
    call _ <- on_spdlog (make_sink (AppendFile (lc_audit_file_path c)));
    let audit := mkLogger "fre.audit" [AppendFile (lc_audit_file_path c)] None in
    call _ <- set_audit audit;
    on_spdlog (register_logger audit)
  else set_audit diagnostic.

(** [std::call_once]: an exception leaves the flag clear. *)
Definition init_logging (c : LogConfig) : M (W * LogState) (outcome unit) := fun '(w, s) =>
  if ls_initialised s then (Returned tt, (w, s))
  else match make_loggers c (w, s) with
       | (Returned _, (w', s')) => (Returned tt, (w', mkLogState true (ls_diagnostic s') (ls_audit s')))
       | r => r
       end.

End Logging.

Definition quote : ascii := Ascii.ascii_of_N 34.

Definition verdict_text (v : Verdict) : string :=
  match v with Pass => "pass" | Flag => "flag" | Block => "block" end.

Definition bool_text (b : bool) : string := if b then "true" else "false".

(** A member of the line: [,"key":] *)
Definition audit_key (key : string) : string := dquote +:+ key +:+ dquote +:+ ":".

Definition audit_line (d : Decision) : string :=
  "{" +:+ audit_key "event_id" +:+ to_string_Z (d_event_id d)
  +:+ "," +:+ audit_key "tenant_id" +:+ dquote +:+ d_tenant_id d +:+ dquote
  +:+ "," +:+ audit_key "entity_id" +:+ dquote +:+ d_entity_id d +:+ dquote
  +:+ "," +:+ audit_key "final_verdict" +:+ dquote +:+ verdict_text (d_final_verdict d) +:+ dquote
  +:+ "," +:+ audit_key "degraded" +:+ bool_text (decision_is_degraded d)
  +:+ "," +:+ audit_key "elapsed_us" +:+ to_string_Z (d_elapsed_us d) +:+ "}".

(** Whether [info()] passes the logger's level; a logger whose level was never
    set is at the library's default, info. *)
Definition logs_info (l : Logger) : bool :=
  match lg_level l with
  | None | Some LogTrace | Some LogDebug | Some LogInfo => true
  | Some LogWarning | Some LogError | Some LogCritical => false
  end.

(** [log_audit]: the record posted to the queue of the loggers, with its logger. *)
Definition log_audit (s : LogState) (d : Decision) : option (Logger * string) :=
  match ls_audit s with
  | None => None
  | Some logger => if logs_info logger then Some (logger, audit_line d) else None
  end.

(** ** The queue of the loggers

    [init_thread_pool(8192, 1)]: one queue for both loggers and one thread that
    writes from its front.  With [overrun_oldest] a post to a full queue drops
    the record at the front. *)
Definition queue_capacity : nat := Z.to_nat 8192.

Record LogQueue : Type := mkLogQueue {
  lq_written : list (Logger * string);
  lq_waiting : list (Logger * string);
  lq_overrun : nat
}.

Definition queue_post (r : Logger * string) (q : LogQueue) : LogQueue :=
  if (length (lq_waiting q) <? queue_capacity)%nat
  then mkLogQueue (lq_written q) (lq_waiting q ++ [r]) (lq_overrun q)
  else mkLogQueue (lq_written q) (tail (lq_waiting q) ++ [r]) (S (lq_overrun q)).

(** A queue after posts, with the writing thread at any pace. *)
Inductive queue_run : list (Logger * string) -> LogQueue -> Prop :=
| queue_starts : queue_run [] (mkLogQueue [] [] 0)
| queue_posts posts q r : queue_run posts q -> queue_run (posts ++ [r]) (queue_post r q)
| queue_writes posts written r waiting overrun :
    queue_run posts (mkLogQueue written (r :: waiting) overrun) ->
    queue_run posts (mkLogQueue (written ++ [r]) waiting overrun).

(** ** Lemmas *)

(** Up to the first occurrence of a character. *)
Lemma first_char_inj (c : ascii) (a b x y : string) :
  has_char c a = false -> has_char c b = false ->
  a +:+ String c EmptyString +:+ x = b +:+ String c EmptyString +:+ y -> a = b /\ x = y.
Proof.
  change (String c EmptyString +:+ x) with (String c x). change (String c EmptyString +:+ y) with (String c y).
  revert b. induction a as [|ca a IH]; intros [|cb b] Ha Hb; cbn [has_char] in *.
  - by intros [= ->].
  - intros [= -> _]. by rewrite Ascii.eqb_refl in Hb.
  - intros [= -> _]. by rewrite Ascii.eqb_refl in Ha.
  - apply orb_false_iff in Ha as [_ Ha]. apply orb_false_iff in Hb as [_ Hb].
    intros [= -> Heq]. by destruct (IH b Ha Hb Heq) as [-> ->].
Qed.

Lemma digits_have_no (c : ascii) (s : string) :
  is_digit c = false -> all_digits s = true -> has_char c s = false.
Proof.
  intros Hc. induction s as [|c' s IH]; intros Hs; [done|]. cbn [all_digits] in Hs.
  apply andb_true_iff in Hs as [Hd Hs]. cbn [has_char]. rewrite IH by done.
  destruct (Ascii.eqb_spec c' c) as [->|]; [|done]. by rewrite Hc in Hd.
Qed.

Lemma to_string_Z_inj (n m : Z) : 0 <= n -> 0 <= m -> to_string_Z n = to_string_Z m -> n = m.
Proof. intros Hn Hm Heq. unfold to_string_Z in Heq. apply (inj pretty) in Heq. lia. Qed.

Lemma number_has_no (c : ascii) (n : Z) : is_digit c = false -> 0 <= n < u64_mod -> has_char c (to_string_Z n) = false.
Proof.
  intros Hc Hn. apply digits_have_no; [done|].
  by destruct (to_string_digits n 20) as (_ & Ha & _); [unfold u64_mod in *; simpl; lia|lia|].
Qed.

(** What is written and what waits are posts in their order, and each post that
    is neither was overrun. *)
Lemma queue_run_keeps (posts : list (Logger * string)) (q : LogQueue) :
  queue_run posts q ->
  (lq_written q ++ lq_waiting q) `sublist_of` posts /\
  length posts = (length (lq_written q ++ lq_waiting q) + lq_overrun q)%nat.
Proof.
  induction 1 as [|posts q r _ [Hsub Hlen]|posts written r waiting overrun _ IH]; [by split| |].
  - destruct q as [written waiting overrun]. unfold queue_post. cbn [lq_written lq_waiting lq_overrun] in *.
    destruct (Nat.ltb_spec (length waiting) queue_capacity) as [Hlt|Hge]; cbn [lq_written lq_waiting lq_overrun].
    + rewrite app_assoc. split; [by apply sublist_app|]. rewrite !length_app, Hlen, length_app. simpl. lia.
    + destruct waiting as [|x waiting]; [unfold queue_capacity in Hge; cbn [length] in Hge; lia|]. cbn [tail]. split.
      * rewrite app_assoc. apply sublist_app; [|done]. etransitivity; [|exact Hsub]. apply sublist_app; [done|by constructor].
      * rewrite !length_app, Hlen, !length_app. simpl. lia.
  - cbn [lq_written lq_waiting lq_overrun] in *. by rewrite <- app_assoc.
Qed.

(** Nothing overrun, nothing lost. *)
Lemma queue_run_lossless (posts : list (Logger * string)) (q : LogQueue) :
  queue_run posts q -> lq_overrun q = 0%nat -> lq_written q ++ lq_waiting q = posts.
Proof.
  intros [Hsub Hlen]%queue_run_keeps Hz. rewrite Hz, Nat.add_0_r in Hlen. apply sublist_full; [done|lia].
Qed.

(** Identifiers without a quote, numbers of their types. *)
Definition auditable (d : Decision) : Prop :=
  has_char quote (d_tenant_id d) = false /\ has_char quote (d_entity_id d) = false /\
  0 <= d_event_id d < u64_mod /\ 0 <= d_elapsed_us d < u64_mod.

(** ** Properties *)

(** The audit line tells decisions apart: as long as no identifier holds a
    quote, equal lines are of decisions with the same event, tenant, entity,
    verdict, degradation and time. *)
Theorem audit_line_injective (d d' : Decision) (Hd : auditable d) (Hd' : auditable d') (Hline : audit_line d = audit_line d') :
  d_event_id d = d_event_id d' /\ d_tenant_id d = d_tenant_id d' /\ d_entity_id d = d_entity_id d' /\
  d_final_verdict d = d_final_verdict d' /\ decision_is_degraded d = decision_is_degraded d' /\
  d_elapsed_us d = d_elapsed_us d'.
Proof.
  destruct Hd as (Ht & He & Hid & Hus), Hd' as (Ht' & He' & Hid' & Hus'). unfold audit_line in Hline.
  do 2 apply append_inj_l in Hline.
  apply (first_char_inj ",") in Hline as [H1 Hline]; [|by apply number_has_no..]. do 2 apply append_inj_l in Hline.
  apply (first_char_inj quote) in Hline as [H2 Hline]; [|done..]. do 3 apply append_inj_l in Hline.
  apply (first_char_inj quote) in Hline as [H3 Hline]; [|done..]. do 3 apply append_inj_l in Hline.
  apply (first_char_inj quote) in Hline as [H4 Hline]; [|clear; by destruct (d_final_verdict _)..]. do 2 apply append_inj_l in Hline.
  apply (first_char_inj ",") in Hline as [H5 Hline]; [|clear; by destruct (decision_is_degraded _)..]. apply append_inj_l in Hline.
  apply append_inj_r in Hline. apply to_string_Z_inj in H1, Hline; try lia.
  split_and!; [done..| | |done].
  - by destruct (d_final_verdict d), (d_final_verdict d').
  - by destruct (decision_is_degraded d), (decision_is_degraded d').
Qed.

Definition audited (tenant entity : string) (v : Verdict) : Decision :=
  mkDecision "p" "1" 7 tenant entity 0 [] v 0 40 [].

Lemma audit_line_injective_witness : d_tenant_id (audited "acme" "bob" Flag) = d_tenant_id (audited "acme" "bob" Flag).
Proof.
  destruct (audit_line_injective (audited "acme" "bob" Flag) (audited "acme" "bob" Flag)) as (_ & Ht & _);
    [..|exact Ht]; repeat split; unfold u64_mod; simpl; lia.
Defined.

(** Identifiers are not escaped: a quote in them moves the boundary of the members. *)
Example audit_lines_collide :
  let quoted := ("b" +:+ dquote +:+ "," +:+ audit_key "entity_id" +:+ dquote +:+ "c")%string in
  audit_line (audited "a" quoted Pass) = audit_line (audited ("a" +:+ dquote +:+ "," +:+ audit_key "entity_id" +:+ dquote +:+ "b") "c" Pass).
Proof. vm_compute. reflexivity. Qed.

(** Without an audit path the audit logger is the diagnostic logger, with the
    level configured for the diagnostics: the audit records go where those go,
    and none is posted when the level is above info. *)
Lemma audit_without_path {W : Type} `{Spdlog W} (c : LogConfig) (w w' : W) (s : LogState) (d : Decision) :
  lc_audit_file_path c = "" -> init_logging c (w, no_logging) = (Returned tt, (w', s)) ->
  ls_audit s = ls_diagnostic s /\
  exists l, ls_audit s = Some l /\ lg_name l = "fre.diagnostic" /\ lg_level l = Some (lc_diagnostic_level c) /\
    log_audit s d = if logs_info l then Some (l, audit_line d) else None.
Proof.
  intros Hp. unfold init_logging, make_loggers, on_spdlog, bindX. simpl. rewrite Hp. simpl.
  destruct (make_sink ConsoleSink w) as [[[]|what] w1]; [|done]. destruct (negb (str_empty (lc_diagnostic_file_path c))).
  - destruct (make_sink _ w1) as [[[]|what] w2]; [|done]. simpl.
    destruct (register_logger _ w2) as [[[]|what] w3]; [|done]. intros [= _ <-]. split; [done|]. by eexists.
  - simpl. destruct (register_logger _ w1) as [[[]|what] w3]; [|done]. intros [= _ <-]. split; [done|]. by eexists.
Qed.

(** With an audit path every record passes: the audit logger has no level of its own. *)
Lemma audit_with_path {W : Type} `{Spdlog W} (c : LogConfig) (w w' : W) (s : LogState) :
  lc_audit_file_path c <> "" -> init_logging c (w, no_logging) = (Returned tt, (w', s)) ->
  exists l, ls_audit s = Some l /\ logs_info l = true.
Proof.
  intros Hp. assert (Hne : str_empty (lc_audit_file_path c) = false) by by destruct (lc_audit_file_path c).
  unfold init_logging, make_loggers, on_spdlog, bindX. simpl. rewrite Hne. cbn [negb].
  destruct (make_sink ConsoleSink w) as [[[]|what] w1]; [|done].
  destruct (negb (str_empty (lc_diagnostic_file_path c))); [destruct (make_sink _ w1) as [[[]|what] w2]; [|done]|]; simpl;
    (destruct (register_logger _ _) as [[[]|what] w3]; [|done]);
    (destruct (make_sink (AppendFile _) _) as [[[]|what] w4]; [|done]); simpl;
    (destruct (register_logger _ w4) as [[[]|what] w5]; [|done]); intros [= _ <-]; by eexists.
Qed.

(** Audit records lost: no path, diagnostics at [Error]. *)
Example audit_lost_at_error_level :
  let l := mkLogger "fre.diagnostic" [ConsoleSink] (Some LogError) in
  forall d, log_audit (mkLogState true (Some l) (Some l)) d = None.
Proof. reflexivity. Qed.

(** Audit records lost: one more post than the queue holds while nothing is
    written drops the first. *)
Lemma audit_record_overrun (r : Logger * string) (rest : list (Logger * string)) :
  length rest = queue_capacity -> queue_run (r :: rest) (mkLogQueue [] rest 1).
Proof.
  intros Hlen. assert (Hfill : forall l, (length l <= queue_capacity)%nat -> queue_run l (mkLogQueue [] l 0)).
  { induction l as [|x l IH] using rev_ind; intros Hl; [constructor|]. rewrite length_app in Hl. simpl in Hl.
    assert (Hp : mkLogQueue [] (l ++ [x]) 0 = queue_post x (mkLogQueue [] l 0)).
    { unfold queue_post. cbn [lq_waiting lq_written lq_overrun]. destruct (Nat.ltb_spec (length l) queue_capacity); [done|lia]. }
    rewrite Hp. constructor. apply IH. lia. }
  destruct rest as [|y l _] using rev_ind; [unfold queue_capacity in Hlen; cbn [length] in Hlen; lia|]. rewrite length_app in Hlen. simpl in Hlen.
  assert (Hp : mkLogQueue [] (l ++ [y]) 1 = queue_post y (mkLogQueue [] (r :: l) 0)).
  { unfold queue_post. cbn [lq_waiting lq_written lq_overrun]. destruct (Nat.ltb_spec (length (r :: l)) queue_capacity) as [Hlt|_]; [simpl in Hlt; lia|done]. }
  rewrite Hp. change (r :: l ++ [y]) with ((r :: l) ++ [y]). constructor. apply Hfill. simpl. lia.
Qed.
