(* ===== verification/Onnx.v ===== *)
(** * OnnxInferenceEvaluator: scores of an ONNX model

    include/fre/evaluator/onnx_inference_evaluator.hpp and
    src/evaluator/onnx_inference_evaluator.cpp.  The ONNX runtime is a class of
    operations on sessions, bindings and tensors; the caller's extractor is a
    function of the configuration.  An evaluator made here is one of the
    functions an inference stage runs. *)

From S2P Require Import Prelude Ieee CoreTypes Errors Config Stages.
From Stdlib Require Import Ascii.

Open Scope list_scope.
Open Scope Z_scope.

(** What the evaluator uses of the runtime.  [Ort::Exception] is an exception of
    every call; [ort_data] is the first element of a tensor, if it has data. *)
Class OrtRuntime (W : Type) : Type := {
  Ort_Session : Type;
  Ort_IoBinding : Type;
  Ort_Value : Type;
  ort_session : string -> Z -> Z -> M W (outcome Ort_Session);  (** path, intra-op and inter-op threads *)
  ort_input_names : Ort_Session -> list string;
  ort_output_names : Ort_Session -> list string;
  ort_binding : Ort_Session -> M W (outcome Ort_IoBinding);
  ort_run : Ort_Session -> Ort_IoBinding -> M W (outcome unit);
  ort_output_values : Ort_IoBinding -> M W (outcome (list Ort_Value));
  ort_data : Ort_Value -> outcome (option float32)
}.

Record OnnxConfig (W : Type) `{OrtRuntime W} : Type := mkOnnxConfig {
  ox_model_path : string;
  ox_evaluator_id : string;
  ox_intra_op_num_threads : Z;
  ox_inter_op_num_threads : Z;
  ox_input_extractor : option (Event -> Ort_IoBinding -> M W (outcome (expected unit EvaluatorError)));
  ox_score_output_index : Z
}.

Arguments mkOnnxConfig {W _}. Arguments ox_model_path {W _}. Arguments ox_evaluator_id {W _}.
Arguments ox_intra_op_num_threads {W _}. Arguments ox_inter_op_num_threads {W _}.
Arguments ox_input_extractor {W _}. Arguments ox_score_output_index {W _}.

Record OnnxInferenceEvaluator (W : Type) `{OrtRuntime W} : Type := mkOnnx {
  ox_config : OnnxConfig W;
  ox_session : Ort_Session;
  ox_input_names : list string;
  ox_output_names : list string
}.

Arguments mkOnnx {W _}. Arguments ox_config {W _}. Arguments ox_session {W _}.
Arguments ox_input_names {W _}. Arguments ox_output_names {W _}.

Section Onnx.

Context {W : Type} `{OrtRuntime W}.

(** The constructor. *)
Definition onnx_new (c : OnnxConfig W) : M W (outcome (OnnxInferenceEvaluator W)) :=
  call session <- ort_session (ox_model_path c) (ox_intra_op_num_threads c) (ox_inter_op_num_threads c);
  let num_outputs := Z.of_nat (length (ort_output_names session)) in
  if Z.leb num_outputs (ox_score_output_index c) then
    retM (Threw ("OnnxInferenceEvaluator: score_output_index " +:+ to_string_Z (ox_score_output_index c)
                 +:+ " is out of range (model has " +:+ to_string_Z num_outputs +:+ " outputs)"))
  else retM (Returned (mkOnnx c session (ort_input_names session) (ort_output_names session))).

Definition onnx_error (x : OnnxInferenceEvaluator W) (detail : string) : EvaluatorError :=
  mkEvaluatorError EvalInternalError (ox_evaluator_id (ox_config x)) detail.

(** The result of a score; the verdict stays Pass. *)
Definition scored (x : OnnxInferenceEvaluator W) (score : float32) : EvaluatorResult :=
  mkEvaluatorResult (ox_evaluator_id (ox_config x)) Pass None (Some score) false None None.

(** [session_->Run] within its [catch]. *)
Definition run_session (x : OnnxInferenceEvaluator W) (binding : Ort_IoBinding) : M W (expected unit EvaluatorError) :=
  do r <- ort_run (ox_session x) binding;
  match r with
  | Returned _ => retM (Ok tt)
  | Threw what => retM (Unexpected (onnx_error x what))
  end.

(** The score of the designated output. *)
Definition read_score (x : OnnxInferenceEvaluator W) (outputs : list Ort_Value) : outcome (expected EvaluatorResult EvaluatorError) :=
  match outputs !! Z.to_nat (ox_score_output_index (ox_config x)) with
  | None => Returned (Unexpected (onnx_error x "output tensor index out of range after Run()"))
  | Some tensor =>
      match ort_data tensor with
      | Threw what => Threw what
      | Returned None => Returned (Unexpected (onnx_error x "output tensor data pointer is null"))
      | Returned (Some score) => Returned (Ok (scored x score))
      end
  end.

Definition run_single (x : OnnxInferenceEvaluator W) : EvaluatorFn W := fun event =>
  match ox_input_extractor (ox_config x) with
  | None => retM (Returned (Unexpected (onnx_error x "no input_extractor configured")))
  | Some input_extractor =>
      call binding <- ort_binding (ox_session x);
      call extracted <- input_extractor event binding;
      match extracted with
      | Unexpected e => retM (Returned (Unexpected e))
      | Ok _ =>
          do ran <- run_session x binding;
          match ran with
          | Unexpected e => retM (Returned (Unexpected e))
          | Ok _ =>
              call output_values <- ort_output_values binding;
              retM (read_score x output_values)
          end
      end
  end.

Definition onnx_evaluate (x : OnnxInferenceEvaluator W) : EvaluatorFn W := run_single x.

(** The loop over the pointers; [None] is a null one. *)
Fixpoint batch_loop (x : OnnxInferenceEvaluator W) (events : list (option Event))
    (results : list (expected EvaluatorResult EvaluatorError)) : M W (outcome (list (expected EvaluatorResult EvaluatorError))) :=
  match events with
  | [] => retM (Returned results)
  | None :: events' => batch_loop x events' (results ++ [Unexpected (onnx_error x "null event pointer in batch")])
  | Some ev :: events' =>
      call r <- run_single x ev;
      batch_loop x events' (results ++ [r])
  end.

Definition evaluate_batch (x : OnnxInferenceEvaluator W) (events : list (option Event)) :=
  batch_loop x events [].

(** ** Specification *)

(** One event after the other, each by [evaluate]. *)
Fixpoint one_by_one (x : OnnxInferenceEvaluator W) (events : list (option Event))
    : M W (outcome (list (expected EvaluatorResult EvaluatorError))) :=
  match events with
  | [] => retM (Returned [])
  | ev :: events' =>
      call r <- (match ev with
                 | Some ev => onnx_evaluate x ev
                 | None => retM (Returned (Unexpected (onnx_error x "null event pointer in batch")))
                 end);
      call rs <- one_by_one x events';
      retM (Returned (r :: rs))
  end.

(** Apart from the run itself, which the evaluator catches, the runtime's calls
    on a loaded session and the extractor do not throw. *)
Definition ort_calls_return (x : OnnxInferenceEvaluator W) : Prop :=
  (forall w, exists b w', ort_binding (ox_session x) w = (Returned b, w')) /\
  (forall b w, exists l w', ort_output_values b w = (Returned l, w')) /\
  (forall v, exists d, ort_data v = Returned d) /\
  (forall f e b w, ox_input_extractor (ox_config x) = Some f -> exists r w', f e b w = (Returned r, w')).

Lemma batch_loop_spec (x : OnnxInferenceEvaluator W) (events : list (option Event)) results w :
  batch_loop x events results w =
    match one_by_one x events w with
    | (Returned rs, w') => (Returned (results ++ rs), w')
    | (Threw what, w') => (Threw what, w')
    end.
Proof.
  revert results w. induction events as [|[ev|] events IH]; intros results w; simpl.
  - unfold retM. by rewrite app_nil_r.
  - unfold bindX, onnx_evaluate. destruct (run_single x ev w) as [[r|what] w1]; [|done].
    rewrite IH. destruct (one_by_one x events w1) as [[rs|what] w2]; [|done]. unfold retM. by rewrite <- app_assoc.
  - unfold bindX, retM. rewrite IH. destruct (one_by_one x events w) as [[rs|what] w2]; [|done]. by rewrite <- app_assoc.
Qed.

(** The only results are scores with the verdict Pass. *)
Lemma read_score_cases (x : OnnxInferenceEvaluator W) outputs r :
  read_score x outputs = Returned r ->
  match r with
  | Ok res => exists v score, outputs !! Z.to_nat (ox_score_output_index (ox_config x)) = Some v /\
      ort_data v = Returned (Some score) /\ res = scored x score
  | Unexpected e => ee_code e = EvalInternalError /\ ee_evaluator_id e = ox_evaluator_id (ox_config x)
  end.
Proof.
  unfold read_score. destruct (outputs !! _) as [v|]; [|by intros [= <-]].
  destruct (ort_data v) as [[score|]|what] eqn:Hd; [|by intros [= <-]|done]. intros [= <-]. by exists v, score.
Qed.

End Onnx.

(** ** Properties *)

(** The evaluator is fit for an inference stage: as long as the runtime's
    calls and the extractor return, an evaluation returns; a result has the
    verdict Pass and the score found at the designated output, and an error is
    the extractor's or an InternalError of this evaluator. *)
Theorem onnx_evaluate_correct {W : Type} `{OrtRuntime W} (x : OnnxInferenceEvaluator W) (event : Event) (w : W)
    (Hcalls : ort_calls_return x) :
  exists r w', onnx_evaluate x event w = (Returned r, w') /\
  match r with
  | Ok res => exists v score, res = scored x score /\ ort_data v = Returned (Some score) /\
      exists b w1 w2 l, ort_output_values b w1 = (Returned l, w2) /\
        l !! Z.to_nat (ox_score_output_index (ox_config x)) = Some v
  | Unexpected e => (ee_code e = EvalInternalError /\ ee_evaluator_id e = ox_evaluator_id (ox_config x)) \/
      exists f b w1 w2, ox_input_extractor (ox_config x) = Some f /\ f event b w1 = (Returned (Unexpected e), w2)
  end.
Proof.
  destruct Hcalls as (Hb & Ho & Hd & Hx). unfold onnx_evaluate, run_single.
  destruct (ox_input_extractor (ox_config x)) as [f|] eqn:Hf; [|by eexists _, w; split; [done|left]].
  unfold bindX. destruct (Hb w) as (b & w1 & ->). destruct (Hx f event b w1 eq_refl) as (r & w2 & Hr). rewrite Hr.
  destruct r as [u|e]; [|eexists _, w2; split; [done|]; right; by exists f, b, w1, w2].
  unfold bindM, run_session, bindM. destruct (ort_run (ox_session x) b w2) as [[u'|what] w3];
    [|by eexists _, w3; split; [done|left]].
  unfold retM at 1. destruct (Ho b w3) as (l & w4 & Hl). rewrite Hl. unfold retM.
  destruct (read_score x l) as [r|what] eqn:Hs.
  - eexists r, w4. split; [done|]. apply read_score_cases in Hs. destruct r as [res|e]; [|by left].
    destruct Hs as (v & score & Hv & Hdata & ->). exists v, score. split_and!; [done..|]. by exists b, w3, w4, l.
  - exfalso. unfold read_score in Hs. destruct (l !! _) as [v|]; [|done]. destruct (Hd v) as [d Hv]. rewrite Hv in Hs.
    by destruct d.
Qed.

(** A batch is its events evaluated one after the other, in order: one result
    each, an error for a null pointer, and the exception of the first that throws. *)
Theorem onnx_batch_one_by_one {W : Type} `{OrtRuntime W} (x : OnnxInferenceEvaluator W) (events : list (option Event)) (w : W) :
  evaluate_batch x events w = one_by_one x events w /\
  (forall rs w', evaluate_batch x events w = (Returned rs, w') -> length rs = length events).
Proof.
  unfold evaluate_batch. rewrite batch_loop_spec. split; [by destruct (one_by_one x events w) as [[rs|what] w']|].
  revert w. induction events as [|ev events IH]; intros w rs w'; simpl; [by intros [= <- _]|].
  unfold bindX. destruct (_ w) as [[r|what] w1]; [|done].
  specialize (IH w1). destruct (one_by_one x events w1) as [[rs'|what] w2]; [|done]. unfold retM. intros [= <- _].
  simpl. f_equal. by eapply IH.
Qed.

(** A runtime whose model has one output, the length of the tenant's name. *)
#[local] Instance sample_runtime : OrtRuntime Z := {
  Ort_Session := unit; Ort_IoBinding := unit; Ort_Value := float32;
  ort_session := fun _ _ _ w => (Returned tt, w);
  ort_input_names := fun _ => ["input"];
  ort_output_names := fun _ => ["score"];
  ort_binding := fun _ w => (Returned tt, w);
  ort_run := fun _ _ w => (Returned tt, w);
  ort_output_values := fun _ w => (Returned [f32_zero], w);
  ort_data := fun v => Returned (Some v)
}.

Definition sample_onnx : OnnxInferenceEvaluator Z :=
  mkOnnx (mkOnnxConfig "m.onnx" "onnx" 0 0 (Some (fun _ _ w => (Returned (Ok tt), w))) 0) tt ["input"] ["score"].

Lemma onnx_evaluate_correct_witness : exists r w', onnx_evaluate sample_onnx (mkEvent 1 "a" "b" "t" 0 [] []) 0 = (Returned r, w') /\
  exists score, r = Ok (scored sample_onnx score).
Proof.
  destruct (onnx_evaluate_correct sample_onnx (mkEvent 1 "a" "b" "t" 0 [] []) 0) as (r & w' & Heq & Hr).
  - split_and!; intros; try (by eexists _, _); [by eexists|]. match goal with Hf : _ = Some ?f |- _ => injection Hf as <- end.
    by eexists _, _.
  - exists r, w'. split; [exact Heq|]. unfold onnx_evaluate, run_single, sample_onnx, bindX in Heq. simpl in Heq.
    unfold bindM, run_session, bindM, retM, read_score in Heq. simpl in Heq. injection Heq as <- _. by eexists.
Defined.

(** The index of the score is checked when the model is loaded. *)
Lemma onnx_new_index {W : Type} `{OrtRuntime W} (c : OnnxConfig W) (x : OnnxInferenceEvaluator W) (w w' : W) :
  onnx_new c w = (Returned x, w') ->
  ox_config x = c /\ ox_score_output_index c < Z.of_nat (length (ox_output_names x)).
Proof.
  unfold onnx_new, bindX. destruct (ort_session _ _ _ w) as [[session|what] w1]; [|done].
  destruct (Z.leb_spec (Z.of_nat (length (ort_output_names session))) (ox_score_output_index c)); [done|].
  intros [= <- _]. done.
Qed.
