(* ===== verification/Concepts.v ===== *)
(** * The evaluator and target concepts

    include/fre/core/concepts.hpp, the templates that register what satisfies
    them (include/fre/pipeline/pipeline_config.hpp) and the adapters around it.
    A C++ concept is a class of operations; its contract
    (specs/001-nrt-detection-pipeline/contracts/evaluator-contract.md: no
    exceptions) is a second class of laws, which the evaluators of the library
    satisfy and on which the totality of the pipeline rests. *)

From S2P Require Import Prelude Ieee CoreTypes Errors RuleEngine StateStore Threshold Evaluators Plugin Config RunEvent EmitStage.

Open Scope list_scope.
Open Scope Z_scope.

(** ** The concepts *)

(** Objects are handles: what an object mutates lives in the world. *)
Class LightweightEvaluator (W E : Type) : Type := { lightweight_evaluate : E -> EvaluatorFn W }.

Definition BatchFn (W : Type) : Type :=
  list Event -> M W (outcome (expected (list EvaluatorResult) EvaluatorError)).

(** The batch operation is optional. *)
Class InferenceEvaluator (W E : Type) : Type := {
  inference_evaluate : E -> EvaluatorFn W;
  inference_evaluate_batch : option (E -> BatchFn W)
}.

Class PolicyEvaluator (W E : Type) : Type := {
  policy_evaluate : E -> PolicyContext -> M W (outcome (expected EvaluatorResult EvaluatorError))
}.

Class EmissionTarget (W E : Type) : Type := {
  target_emit : E -> EmissionFn W;
  target_flush : option (E -> M W unit)
}.

Definition has_evaluate_batch (W E : Type) `{InferenceEvaluator W E} : bool :=
  match inference_evaluate_batch with Some _ => true | None => false end.

Definition has_flush (W E : Type) `{EmissionTarget W E} : bool :=
  match target_flush with Some _ => true | None => false end.

(** ** Registration *)

(** [add_evaluator(E&&)], [add_target(E&&)]: the object moves into a lambda that
    forwards the call. *)
Definition eval_add {W E : Type} `{LightweightEvaluator W E} (c : EvalStageConfig W) (e : E) : EvalStageConfig W :=
  eval_add_evaluator c (fun event => lightweight_evaluate e event).

Definition inference_add {W E : Type} `{InferenceEvaluator W E} (c : InferenceStageConfig W) (e : E)
    : InferenceStageConfig W :=
  inference_add_evaluator c (fun event => inference_evaluate e event).

Definition emit_add {W E : Type} `{EmissionTarget W E} (c : EmitStageConfig W) (t : E) : EmitStageConfig W :=
  emit_add_target c (fun d => target_emit t d).

(** ** The adapters *)

Record CppLightweightAdapter (E : Type) : Type := mkLightweightAdapter { lightweight_impl_ : E }.

Record CppInferenceAdapter (E : Type) : Type := mkInferenceAdapter { inference_impl_ : E }.

Arguments mkLightweightAdapter {E}. Arguments lightweight_impl_ {E}.
Arguments mkInferenceAdapter {E}. Arguments inference_impl_ {E}.

#[export] Instance lightweight_adapter (W E : Type) `{LightweightEvaluator W E}
    : LightweightEvaluator W (CppLightweightAdapter E) := {
  lightweight_evaluate := fun a event => lightweight_evaluate (lightweight_impl_ a) event
}.

(** [evaluate_batch] is there when the object has it. *)
#[export] Instance inference_adapter (W E : Type) `{InferenceEvaluator W E}
    : InferenceEvaluator W (CppInferenceAdapter E) := {
  inference_evaluate := fun a event => inference_evaluate (inference_impl_ a) event;
  inference_evaluate_batch :=
    match inference_evaluate_batch with
    | Some batch => Some (fun a events => batch (inference_impl_ a) events)
    | None => None
    end
}.

(** ** The evaluators of the library *)

(** An evaluator whose calls come back. *)
Definition returning {W A : Type} (m : M W A) : M W (outcome A) := do a <- m; retM (Returned a).

#[export] Instance allow_deny_lightweight (W : Type) : LightweightEvaluator W AllowDeny.AllowDenyEvaluator := {
  lightweight_evaluate := fun ev event => retM (Returned (AllowDeny.evaluate ev event))
}.

#[export] Instance historical_lightweight (W : Type) `{Clock W} `{Historical.RangeQueryStore W}
    : LightweightEvaluator W Historical.WindowedHistoricalEvaluator := {
  lightweight_evaluate := fun h event => returning (Historical.evaluate h event)
}.

(** [ThresholdEvaluator<Store>] over the store of the world; [te_int_cast] is the
    cast of an aggregate out of the range of [int]. *)
Record ThresholdEvaluator : Type := mkThreshold {
  te_config : ThresholdEvaluatorConfig;
  te_int_cast : float64 -> Z
}.

#[export] Instance threshold_lightweight (W : Type) `{StateStore W} : LightweightEvaluator W ThresholdEvaluator := {
  lightweight_evaluate := fun t event => returning (threshold_evaluate (te_int_cast t) (te_config t) event)
}.

#[export] Instance plugin_lightweight (W : Type) : LightweightEvaluator W (EvaluatorHandle W) := {
  lightweight_evaluate := fun h event => returning (handle_evaluate h event)
}.

#[export] Instance plugin_inference (W : Type) : InferenceEvaluator W (EvaluatorHandle W) := {
  inference_evaluate := fun h event => returning (handle_evaluate h event);
  inference_evaluate_batch := None
}.

(** [StdoutEmissionTarget]. *)
Record StdoutEmissionTarget : Type := mkStdoutTarget {}.

#[export] Instance stdout_emission_target (W : Type) `{Stdout W} : EmissionTarget W StdoutEmissionTarget := {
  target_emit := fun _ d => stdout_emission d;
  target_flush := None
}.

(** ** The contracts *)

(** MUST NOT throw. *)
Class LightweightContract (W E : Type) `{LightweightEvaluator W E} : Prop :=
  lightweight_returns : forall e : E, evaluator_returns (lightweight_evaluate e).

Class EmissionContract (W E : Type) `{EmissionTarget W E} : Prop :=
  target_returns : forall t : E, no_throw (target_emit t).

Lemma returning_returns {W : Type} (m : Event -> M W (expected EvaluatorResult EvaluatorError)) :
  evaluator_returns (fun event => returning (m event)).
Proof. intros e w. unfold returning, bindM. by destruct (m e w). Qed.

#[export] Instance allow_deny_contract (W : Type) : LightweightContract W AllowDeny.AllowDenyEvaluator.
Proof. done. Qed.

#[export] Instance historical_contract (W : Type) `{Clock W} `{Historical.RangeQueryStore W} :
  LightweightContract W Historical.WindowedHistoricalEvaluator.
Proof. intros h. apply (returning_returns (Historical.evaluate h)). Qed.

#[export] Instance threshold_contract (W : Type) `{StateStore W} : LightweightContract W ThresholdEvaluator.
Proof. intros t. apply (returning_returns (threshold_evaluate (te_int_cast t) (te_config t))). Qed.

#[export] Instance plugin_contract (W : Type) : LightweightContract W (EvaluatorHandle W).
Proof. intros h. apply (returning_returns (handle_evaluate h)). Qed.

#[export] Instance lightweight_adapter_contract (W E : Type) `{LightweightContract W E} :
  LightweightContract W (CppLightweightAdapter E).
Proof. intros a. apply (lightweight_returns (lightweight_impl_ a)). Qed.

#[export] Instance stdout_target_contract (W : Type) `{Stdout W} : EmissionContract W StdoutEmissionTarget.
Proof. intros t d w. unfold target_emit, stdout_emission_target, stdout_emission, bindM. by destruct (print _ w). Qed.

(** ** Registration keeps a stage within its contract *)

Section Registration.

Context {W : Type}.

Lemma eval_add_returns {E : Type} `{LightweightContract W E} (c : EvalStageConfig W) (e : E) :
  Forall evaluator_returns (ec_evaluators c) -> Forall evaluator_returns (ec_evaluators (eval_add c e)).
Proof. intros Hc. apply Forall_app_2; [done|]. repeat constructor. apply lightweight_returns. Qed.

Lemma emit_add_returns {E : Type} `{EmissionContract W E} (c : EmitStageConfig W) (t : E) :
  Forall no_throw (mc_targets c) -> Forall no_throw (mc_targets (emit_add c t)).
Proof. intros Hc. apply Forall_app_2; [done|]. repeat constructor. apply target_returns. Qed.

End Registration.

#[export] Hint Resolve eval_add_returns emit_add_returns : fre.
