(* ===== verification/Scenario.v ===== *)
(** * What every decision of a pipeline says

    Inversion of [run_event] (which stages a decision went through, and what
    they said of it), invariants of the decisions a pipeline emits under any
    schedule, and the policies whose rules read no clock: the tools with which
    the pipelines of examples/ and of Detection.v are reasoned about. *)

From S2P Require Import Prelude Ieee CoreTypes Errors DecisionTypes RuleEngine ShuffleShard TokenBucket TenantRouter Config Stages PolicyStage EmitStage RunEvent Pipeline.

Open Scope list_scope.
Open Scope Z_scope.

(** ** Decisions, stage by stage *)

Section Inversion.

Context {W : Type} `{Clock W} `{Workers W} `{StdSort}.

(** What an optional stage makes of a decision. *)
Definition staged {C : Type} (conf : option C) (stage : C -> stage_run W) (d d' : Decision) : Prop :=
  match conf with
  | None => d' = d
  | Some x => exists w out, (stage x w).1 = Some (Returned out) /\
      d' = match out with Ok o => push_stage_output d o | Unexpected _ => d end
  end.

(** The stages of a finished decision. *)
Inductive run_trace (c : PipelineConfig W) (s : StageSet W) (i : Z) (event : Event) (r : Decision) : Prop :=
| run_traced w_in at_ io d1 d2 d3 t w_end :
    (run_ingest s (event_set_id event i) w_in).1 = Some (Returned (Ok io)) ->
    staged (ss_eval s) (fun e => run_eval e (event_set_id event i))
      (push_stage_output (new_decision c i at_ event) io) d1 ->
    staged (ss_inference s) (fun n => run_inference n (event_set_id event i)) d1 d2 ->
    staged (ss_policy s) (fun p => run_policy p (mkPolicyContext (event_set_id event i) (d_stage_outputs d2))) d2 d3 ->
    (finish_decision c t d3 w_end).1 = Decided r ->
    run_trace c s i event r.

Lemma with_optional_staged {C : Type} (conf : option C) (stage : C -> stage_run W) (d : Decision)
    (k : Decision -> M W run_result) (w : W) (r : Decision) :
  (with_optional conf stage d k w).1 = Decided r ->
  exists d' w', staged conf stage d d' /\ (k d' w').1 = Decided r.
Proof.
  unfold with_optional. destruct conf as [x|]; [|by exists d, w].
  unfold with_stage, bindM. destruct (stage x w) as [[[out|what]|] w1] eqn:Hst; [|done..].
  intros Hk. destruct out as [o|err]; eexists _, w1; (split; [|exact Hk]); exists w; rewrite Hst; by eexists.
Qed.

Lemma run_ingest_ok (s : StageSet W) (event : Event) (w : W) :
  exists out w', run_ingest s event w = (Some (Returned (Ok out)), w') /\ so_stage_id out = "ingest".
Proof.
  unfold run_ingest, ingest_process, bindM, retM. destruct (steady_now w) as [start w1].
  destruct (event_is_valid event); simpl.
  - destruct (system_now w1) as [now w2]. destruct (steady_now w2) as [stop w3]. by do 2 eexists.
  - destruct (steady_now w1) as [stop w2]. by do 2 eexists.
Qed.

(** The first stage scores nothing. *)
Lemma run_ingest_scores (s : StageSet W) (event : Event) (w : W) (out : StageOutput) :
  (run_ingest s event w).1 = Some (Returned (Ok out)) ->
  so_stage_id out = "ingest" /\ Forall (fun r => er_score r = None) (so_evaluator_results out).
Proof.
  unfold run_ingest, ingest_process, bindM, retM. destruct (steady_now w) as [start w1].
  destruct (event_is_valid event); simpl.
  - destruct (system_now w1) as [now w2]. destruct (steady_now w2) as [stop w3]. intros [= <-]. split; [done|].
    simpl. repeat constructor. by destruct (Z.ltb _ _).
  - destruct (steady_now w1) as [stop w2]. intros [= <-]. by repeat constructor.
Qed.

Lemma run_event_trace (c : PipelineConfig W) (s : StageSet W) (sync : bool) (i : Z) (event : Event) (w : W) (r : Decision) :
  (run_event c s sync i event w).1 = Decided r -> run_trace c s i event r.
Proof.
  unfold run_event, bindM. destruct (steady_now w) as [t w1]. destruct (system_now w1) as [at_ w2].
  destruct (run_ingest_ok s (event_set_id event i) w2) as (io & w3 & Hio & _). rewrite Hio.
  destruct (sync && _)%bool; [done|]. intros Hk.
  apply with_optional_staged in Hk as (d1 & w4 & Hd1 & Hk).
  apply with_optional_staged in Hk as (d2 & w5 & Hd2 & Hk).
  apply with_optional_staged in Hk as (d3 & w6 & Hd3 & Hk).
  eapply run_traced; [by rewrite Hio|done..].
Qed.

Lemma finish_decided (c : PipelineConfig W) (t : Z) (d r : Decision) (w : W) :
  (finish_decision c t d w).1 = Decided r ->
  d_stage_outputs r = d_stage_outputs d /\ d_final_verdict r = max_over so_verdict Pass (d_stage_outputs d).
Proof.
  unfold finish_decision, compute_active_decisions, bindM, retM. destruct (steady_now w) as [now w1].
  destruct (cfg_registry c) as [reg|]; [destruct (stage_output _ "policy")|]; by intros [= <-].
Qed.

End Inversion.

(** ** Every decision emitted *)

Section Emitted.

Context {W : Type} `{Clock W} `{Workers W} `{StdSort} `{StdHash}.

(** A task leaves the configuration and the stages alone, and what it emits is a
    decision of [run_event]. *)
Lemma run_task_cases (i : Z) (e : Event) (w w' : W) (p p' : Impl W) (d : option Decision) :
  run_task i e w p = Some (d, w', p') ->
  config p' = config p /\ stages p' = stages p /\
  forall dec, d = Some dec -> exists ss, stages p = Some ss /\ (run_event (config p) ss false i e w).1 = Decided dec.
Proof.
  unfold run_task. destruct (stages p) as [ss|] eqn:Hs; [|done]. destruct (emit p) as [es|]; [|done].
  destruct (run_event (config p) ss false i e w) as [[r|r|what|] w1] eqn:Hr; [|by intros [= <- _ <-]..|done].
  assert (Hd : forall dec, Some r = Some dec -> exists ss0, Some ss = Some ss0 /\
    (run_event (config p) ss0 false i e w).1 = Decided dec) by (intros dec [= <-]; exists ss; by rewrite Hr).
  by destruct (emit_process _ _ _) as [[[[out es']|what]|] w2]; [intros [= <- _ <-]..|].
Qed.

Definition emitted_inv (c : PipelineConfig W) (P : Event -> Decision -> Prop) (s : System W) : Prop :=
  config (impl s) = c /\ (forall x, stages (impl s) = Some x -> x = make_stages c) /\
  Forall (fun x => P x.1.2 x.2) (emitted s).

Lemma emitted_step (c : PipelineConfig W) (P : Event -> Decision -> Prop) (w w' : W) (s s' : System W) :
  (forall i e v d, (run_event c (make_stages c) false i e v).1 = Decided d -> P e d) ->
  system_step (w, s) (w', s') -> emitted_inv c P s -> emitted_inv c P s'.
Proof.
  intros HP Hstep (Hc & Hst & Hem). inversion Hstep as [? ? ? ? p' Hsb Hs|? ? e err ? p' Hs|? ? e ? p' Hlt Hs
    |? ? i e strand ? p' Hi Hs|? ? i strand e Hi Hn Hp|? ? i strand e id d ? p' Hi Hs|? ? ? p' Hs|? ? ? p' Hd Hs
    |? ? ? p' Hd Hp Hrun Hs]; subst; simpl.
  - unfold start in Hs. destruct (state_ (impl s)); injection Hs as _ _ <-; split_and!; simpl; try done.
    by intros x [= <-].
  - apply submit_check_cases in Hs as [(_ & -> & _)|(r & r' & rr & _ & _ & -> & _)]; done.
  - apply submit_check_cases in Hs as [(_ & -> & _)|(r & r' & rr & _ & _ & -> & _)]; done.
  - apply submit_dispatch_cases in Hs as (r & cells & w1 & r1 & r2 & _ & _ & _ & _ & ->). done.
  - done.
  - apply run_task_cases in Hs as (Hc' & Hst' & Hdec). split_and!; simpl; [congruence|by rewrite Hst'|].
    destruct d as [dec|]; [|done]. apply Forall_app_2; [done|]. repeat constructor. simpl.
    destruct (Hdec dec eq_refl) as (ss & Hss & Hr). rewrite (Hst ss Hss) in Hr. by eapply HP.
  - by injection Hs as _ <-.
  - unfold drain_stop in Hs. destruct (router (impl s)) as [r|]; [|done].
    destruct (router_stop w r) as [[[u w1] r1]|]; [|done]. by injection Hs as _ <-.
  - by injection Hs as _ <-.
Qed.

(** What holds of the decisions of [run_event] holds of all that is emitted. *)
Lemma reachable_emitted (c : PipelineConfig W) (P : Event -> Decision -> Prop) (s : System W) :
  (forall i e v d, (run_event c (make_stages c) false i e v).1 = Decided d -> P e d) ->
  reachable c s -> Forall (fun x => P x.1.2 x.2) (emitted s).
Proof.
  intros HP (w0 & w & Hrun). cut (emitted_inv c P s); [intros Hi; apply Hi|].
  assert (Hinit : emitted_inv c P (system_new c)) by (split_and!; [done|done|constructor]).
  remember (w0, system_new c) as x eqn:Hx. remember (w, s) as y eqn:Hy.
  assert (Hgen : emitted_inv c P x.2 -> emitted_inv c P y.2).
  { clear Hx Hy Hinit. induction Hrun as [|[v a] [v1 b] z Hst _ IH]; [done|]. intros Ha. apply IH. by eapply emitted_step. }
  subst. by apply Hgen.
Qed.

End Emitted.

(** ** Policies that read no clock *)

Fixpoint clockless (r : PolicyRule) : bool :=
  let child c := match c with Some r' => clockless r' | None => true end in
  match r with
  | EventOlderThan _ | EventNewerThan _ => false
  | And lchild rchild | Or lchild rchild => (child lchild && child rchild)%bool
  | Not expr => child expr
  | _ => true
  end.

#[local] Instance no_clock : Clock unit := {
  steady_now := fun w => (0, w);
  system_now := fun w => (0, w);
  sleep_for := fun _ w => (tt, w)
}.

(** What such a rule says of a context. *)
Definition rule_value (ctx : PolicyContext) (r : PolicyRule) : bool := (evaluate ctx r tt).1.

Definition rule_says (ctx : PolicyContext) (r : PolicyRule) : outcome bool := Returned (rule_value ctx r).

Definition clockless_rules (rules : list PolicyStageRule) : Prop :=
  Forall (fun psr => clockless (psr_rule psr) = true) rules.

Lemma evaluate_clockless {W : Type} `{Clock W} (ctx : PolicyContext) (r : PolicyRule) :
  clockless r = true -> forall w : W, evaluate ctx r w = (rule_value ctx r, w).
Proof.
  intros Hc. cut (exists b, (forall w : W, evaluate ctx r w = (b, w)) /\ evaluate ctx r tt = (b, tt)).
  { intros (b & Hb & Hu) w. unfold rule_value. by rewrite Hb, Hu. }
  revert Hc. induction r as [r Hr|l r IHl IHr|l r IHl IHr|e IHe] using PolicyRule_children_ind; intros Hc.
  - destruct r; try done; by eexists.
  - destruct l as [l|], r as [r|]; try by eexists. simpl in Hc. apply andb_true_iff in Hc as [Hl Hr].
    destruct (IHl l eq_refl Hl) as (a & Ha & Hau), (IHr r eq_refl Hr) as (b & Hb & Hbu).
    cbn [evaluate]. unfold bindM, retM. rewrite Hau. setoid_rewrite Ha. destruct a; [by exists b|by exists false].
  - destruct l as [l|], r as [r|]; try by eexists. simpl in Hc. apply andb_true_iff in Hc as [Hl Hr].
    destruct (IHl l eq_refl Hl) as (a & Ha & Hau), (IHr r eq_refl Hr) as (b & Hb & Hbu).
    cbn [evaluate]. unfold bindM, retM. rewrite Hau. setoid_rewrite Ha. destruct a; [by exists true|by exists b].
  - destruct e as [e|]; [|by eexists]. destruct (IHe e eq_refl Hc) as (a & Ha & Hau).
    cbn [evaluate]. unfold bindM, retM. rewrite Hau. setoid_rewrite Ha. by exists (negb a).
Qed.

Section Clockless.

Context {W : Type} `{Clock W}.
Variable ctx : PolicyContext.

Lemma rule_engine_clockless (psr : PolicyStageRule) (w : W) :
  clockless (psr_rule psr) = true -> rule_engine ctx (psr_rule psr) w = (rule_says ctx (psr_rule psr), w).
Proof. intros Hc. unfold rule_engine, bindM, retM. by rewrite (evaluate_clockless ctx). Qed.

(** The loops only look at the rules they are given. *)
Lemma multi_loop_clockless (mode : FailureMode) (registry : DecisionTypeRegistry) (rules : list PolicyStageRule) :
  clockless_rules rules -> forall o ms (w : W),
  multi_loop rule_engine mode registry ctx rules o ms w
    = ((fold_left (step_out mode (rule_says ctx)) rules o, ms ++ omap (match_of (rule_says ctx) registry) rules), w).
Proof.
  intros Hc o ms w.
  transitivity (multi_loop (fun c r => retM (rule_says c r)) mode registry ctx rules o ms w);
    [|by apply multi_loop_steady].
  revert o ms w. induction Hc as [|psr rules Hp _ IH]; intros o ms w; [done|]. cbn [multi_loop]. unfold bindM at 1 2.
  rewrite (rule_engine_clockless psr w Hp). unfold retM at 1. destruct (rule_says ctx (psr_rule psr)) as [[|]|what]; [|apply IH..].
  destruct (psr_decision_type_id psr) as [t|]; [|apply IH]. destruct (registry_find registry t); apply IH.
Qed.

Lemma legacy_loop_clockless (mode : FailureMode) (rules : list PolicyStageRule) :
  clockless_rules rules -> forall o (w : W),
  legacy_loop rule_engine mode ctx rules o w
    = (match find_first (fun psr => rule_value ctx (psr_rule psr)) rules with Some psr => add_fired psr o | None => o end, w).
Proof.
  induction 1 as [|psr rules Hp _ IH]; intros o w; [done|]. cbn [legacy_loop find_first]. unfold bindM.
  rewrite (rule_engine_clockless psr w Hp). unfold rule_says. destruct (rule_value ctx (psr_rule psr)); [done|apply IH].
Qed.

(** What the stage says when several decisions may be made. *)
Definition multi_output (c : PolicyStageConfig) (registry : DecisionTypeRegistry) : policy_out :=
  resolve_matches registry (fold_left (step_out (pcfg_failure_mode c) (rule_says ctx)) (pcfg_rules c) policy_out_new)
    (omap (match_of (rule_says ctx) registry) (pcfg_rules c)).

Definition legacy_output (c : PolicyStageConfig) : policy_out :=
  match find_first (fun psr => rule_value ctx (psr_rule psr)) (pcfg_rules c) with
  | Some psr => add_fired psr policy_out_new
  | None => policy_out_new
  end.

Lemma run_policy_clockless (c : PolicyStageConfig) (registry : option DecisionTypeRegistry) (w : W) :
  clockless_rules (pcfg_rules c) ->
  let o := match registry with
           | Some r => if use_multi c registry then multi_output c r else legacy_output c
           | None => legacy_output c
           end in
  exists us, (run_policy (c, registry) ctx w).1
    = Some (Returned (Ok (mkStageOutput "policy" (po_verdict o) (po_results o) (po_degraded o) us))).
Proof.
  intros Hc o. unfold run_policy, policy_process, bindM, retM. simpl. destruct (steady_now w) as [start w1].
  subst o. destruct registry as [r|]; [destruct (use_multi c (Some r))|].
  - rewrite multi_loop_clockless by done. destruct (steady_now w1) as [stop w2]. by eexists.
  - rewrite legacy_loop_clockless by done. destruct (steady_now w1) as [stop w2]. by eexists.
  - rewrite legacy_loop_clockless by done. destruct (steady_now w1) as [stop w2]. by eexists.
Qed.

End Clockless.

(** ** Policies up to the order of their rules

    [std::sort] may order rules of one priority as it likes. *)

Lemma dedupe_NoDup (ms : list Match) : NoDup (map m_type_id ms) -> dedupe ms = ms.
Proof.
  intros Hnd. cut (forall acc, NoDup (map m_type_id (acc ++ ms)) -> fold_left dedupe_step ms acc = acc ++ ms).
  { intros Hgen. by apply (Hgen []). }
  clear Hnd. induction ms as [|m ms IH]; intros acc Hnd; [by rewrite app_nil_r|]. cbn [fold_left].
  assert (Hf : fired acc (m_type_id m) = false).
  { destruct (fired acc (m_type_id m)) eqn:Hf; [|done]. apply fired_spec in Hf. rewrite map_app in Hnd.
    apply NoDup_app in Hnd as (_ & Hdis & _). destruct (Hdis _ Hf). simpl. set_solver. }
  unfold dedupe_step at 2. fold (fired acc (m_type_id m)). rewrite Hf, IH; rewrite <- app_assoc; done.
Qed.

Lemma losers_perm (registry : DecisionTypeRegistry) (l1 l2 : list Match) :
  l1 ≡ₚ l2 -> losers registry l1 = losers registry l2.
Proof.
  intros Hp. unfold losers. apply list_omap_ext, Forall2_same_length_lookup_2; [done|]. intros i p p' Hp1 Hp2.
  rewrite Hp1 in Hp2. injection Hp2 as <-. unfold pair_loser.
  assert (Hf : forall t, fired l1 t = fired l2 t).
  { intros t. apply eq_bool_prop_intro. rewrite !Is_true_true, !fired_spec. by rewrite Hp. }
  by rewrite !Hf.
Qed.

(** With one rule per decision type that fires, the survivors do not depend on the order. *)
Lemma survivors_perm (registry : DecisionTypeRegistry) (l1 l2 : list Match) :
  l1 ≡ₚ l2 -> NoDup (map m_type_id l2) -> survivors registry l1 ≡ₚ survivors registry l2.
Proof.
  intros Hp Hnd. assert (NoDup (map m_type_id l1)) by by rewrite Hp.
  unfold survivors. rewrite !dedupe_NoDup by done. by rewrite (losers_perm registry l1 l2 Hp), Hp.
Qed.

(** Rules with a decision type add nothing of their own. *)
Lemma typed_rules_silent (mode : FailureMode) (ctx : PolicyContext) (rules : list PolicyStageRule) (o : policy_out) :
  Forall (fun psr => is_Some (psr_decision_type_id psr)) rules ->
  fold_left (step_out mode (rule_says ctx)) rules o = o.
Proof.
  induction 1 as [|psr rules [t Ht] _ IH]; [done|]. cbn [fold_left]. unfold step_out at 2, rule_says at 2. rewrite Ht.
  by destruct (rule_value ctx (psr_rule psr)).
Qed.

#[export] Instance max_over_perm {A : Type} (f : A -> Verdict) (v : Verdict) :
  Proper ((≡ₚ) ==> (=)) (max_over f v).
Proof.
  intros l1 l2 Hp. revert v. induction Hp as [|x l1 l2 _ IH|x y l|l1 l2 l3 _ IH1 _ IH2]; intros v; [done|..].
  - apply IH.
  - unfold max_over. cbn [fold_left]. f_equal. by destruct v, (f x), (f y).
  - by rewrite IH1.
Qed.

Definition active_of (registry : DecisionTypeRegistry) (er : EvaluatorResult) : option ActiveDecision :=
  match er_decision_type_id er with
  | None => None
  | Some t => match registry_find registry t with
              | None => None
              | Some d => Some (mkActiveDecision t (er_evaluator_id er) (dt_priority d))
              end
  end.

Lemma collect_active_omap (registry : DecisionTypeRegistry) (rs : list EvaluatorResult) :
  collect_active registry rs = omap (active_of registry) rs.
Proof.
  induction rs as [|r rs IH]; [done|]. cbn [collect_active omap list_omap]. unfold active_of at 1. rewrite IH.
  destruct (er_decision_type_id r) as [t|]; [|done]. by destruct (registry_find registry t).
Qed.

Definition active_before (a b : ActiveDecision) : Prop := ad_priority a < ad_priority b.

(** Decisions of distinct priorities are sorted in one way only. *)
Lemma std_sort_active `{StdSort} (l1 l2 : list ActiveDecision) :
  l1 ≡ₚ l2 -> StronglySorted active_before l2 -> std_sort active_lt l1 = l2.
Proof.
  intros Hp Hs.
  assert (Hlt : StronglySorted (fun a b => ad_priority a <= ad_priority b) (std_sort active_lt l1)).
  { eapply StronglySorted_weaken, std_sort_sorted, (key_swo ad_priority).
    intros a b. unfold not_after, active_lt. rewrite Z.ltb_ge. lia. }
  assert (Hp' : std_sort active_lt l1 ≡ₚ l2) by (rewrite std_sort_perm; done).
  apply (StronglySorted_unique_strong (fun a b => ad_priority a <= ad_priority b)); [|done| |done].
  - intros a b Ha Hb Hab Hba. rewrite Hp' in Ha. clear -Hs Ha Hb Hab Hba.
    induction Hs as [|x l Hs IH Hx]; [by apply elem_of_nil in Ha|]. rewrite Forall_forall in Hx.
    apply elem_of_cons in Ha as [->|Ha], Hb as [->|Hb]; [done| | |by apply IH].
    + specialize (Hx b Hb). unfold active_before in Hx. lia.
    + specialize (Hx a Ha). unfold active_before in Hx. lia.
  - eapply StronglySorted_weaken; [|exact Hs]. unfold active_before. lia.
Qed.

(** ** Submissions a router has room for *)

(** The router can take [n] more submissions of any tenant, one at a time. *)
Record has_room (fuel : nat) (n : Z) (r : TenantRouter) : Prop := {
  room_limits : exists m, limits_ok r m /\ fuel = assign_fuel (2 ^ m);
  room_cells : 1 <= cells_per_tenant (shard_cfg r);
  room_capacity : n <= bucket_capacity (rate_cfg r);
  room_concurrent : 1 <= rl_max_concurrent (rate_cfg r);
  room_tenants : forall t ts, tenants r !! t = Some ts ->
    rate_fp_per_ns (bucket ts) = 0 /\ TOKEN_SCALE * n <= tokens (bucket ts) /\ in_flight ts = 0 /\
    1 <= max_concurrent ts /\ cell_indices ts <> []
}.

Lemma has_room_new (fuel : nat) (n m : Z) (sc : ShardingConfig) (rc : RateLimitConfig) :
  limits_ok (router_new sc rc) m -> fuel = assign_fuel (2 ^ m) -> 1 <= cells_per_tenant sc ->
  n <= bucket_capacity rc -> 1 <= rl_max_concurrent rc -> has_room fuel n (router_new sc rc).
Proof. intros Hl Hf Hk Hc Hm. split; [by exists m|done..|]. intros t ts. simpl. by rewrite lookup_empty. Qed.

Section Room.

Context {W : Type} `{Clock W} `{StdHash}.
Variable fuel : nat.

Lemma room_get (n : Z) (t : string) (w : W) (r : TenantRouter) :
  has_room fuel n r -> exists ts w1 r1, get_or_create_tenant fuel t w r = Some (ts, w1, r1) /\
    has_room fuel n r1 /\ tenants r1 !! t = Some ts /\ pool_stopped r1 = pool_stopped r.
Proof.
  intros Hroom. destruct (room_limits _ _ _ Hroom) as (m & (Hm & Hn & Hk & Hc & Htps) & Hfuel).
  unfold get_or_create_tenant. destruct (tenants r !! t) as [ts|] eqn:Ht; [by exists ts, w, r|].
  destruct (assign_cells_spec t m (cells_per_tenant (shard_cfg r)) Hm Hk) as (cells & Hcells & _ & Hlen).
  pose proof (room_cells _ _ _ Hroom) as Hk1. rewrite Hn, Hfuel, Hcells. destruct (steady_now w) as [now w1].
  unfold bucket_new, TOKEN_SCALE. rewrite !i64_small by lia. rewrite Z.quot_small by lia.
  do 3 eexists. split; [reflexivity|]. split_and!; [|simpl; by rewrite lookup_insert_eq|done].
  destruct Hroom as [_ _ Hcap Hmax Hts]. split; [|done..|].
  - exists m. split; [done|done].
  - simpl. intros j x. destruct (decide (j = t)) as [->|]; [|rewrite lookup_insert_ne by done; apply Hts].
    rewrite lookup_insert_eq. intros [= <-]. simpl. unfold TOKEN_SCALE. split_and!; [done|lia|done|done|].
    intros ->. simpl in Hlen. lia.
Qed.

Lemma room_set (n k : Z) (t : string) (r : TenantRouter) (ts : TenantState) :
  has_room fuel n r -> k <= n -> rate_fp_per_ns (bucket ts) = 0 -> TOKEN_SCALE * k <= tokens (bucket ts) ->
  in_flight ts = 0 -> 1 <= max_concurrent ts -> cell_indices ts <> [] -> has_room fuel k (set_tenant r t ts).
Proof.
  intros [Hl Hk Hc Hm Hts] Hle Hrate Htok Hin Hmax Hcells. split; [done|done|simpl; lia|done|].
  simpl. intros j x. destruct (decide (j = t)) as [->|]; [rewrite lookup_insert_eq; by intros [= <-]|].
  rewrite lookup_insert_ne by done. intros (Hx1 & Hx2 & Hx3)%Hts. split_and!; [done| |apply Hx3..].
  unfold TOKEN_SCALE in *. lia.
Qed.

(** The slot is taken ... *)
Lemma room_acquire (n : Z) (t : string) (w : W) (r : TenantRouter) :
  has_room fuel n r -> 1 <= n -> exists ts w1 r1,
    pool_stopped r1 = pool_stopped r /\
    try_acquire fuel t w r = Some (Ok tt, w1, set_tenant r1 t ts) /\
    has_room fuel (n - 1) (set_tenant r1 t (set_in_flight ts 0)) /\ in_flight ts = 1 /\ cell_indices ts <> [].
Proof.
  intros Hroom Hn. destruct (room_get n t w r Hroom) as (ts & w1 & r1 & Hg & Hroom1 & Ht & Hp).
  destruct (room_tenants _ _ _ Hroom1 t ts Ht) as (Hrate & Htok & Hin & Hmax & Hcells).
  unfold try_acquire. rewrite Hg. destruct (steady_now w1) as [now w2].
  assert (Hconsume : try_consume now (bucket ts) = Some (true, set_tokens (bucket ts) (tokens (bucket ts) - TOKEN_SCALE))).
  { unfold try_consume, bucket_refill. rewrite Hrate, Z.mul_0_r. cbn [i64 in_i64 Z.leb].
    assert (Hrefill : forall x : bool, (if x then Some (bucket ts) else Some (bucket ts)) = Some (bucket ts)) by (by intros []).
    simpl. rewrite Hrefill. unfold bucket_consume. destruct (Z.leb_spec TOKEN_SCALE (tokens (bucket ts))); [done|].
    unfold TOKEN_SCALE in *. lia. }
  rewrite Hconsume. simpl. rewrite Hin. destruct (Z.leb_spec (max_concurrent ts) 0); [lia|].
  eexists _, w2, r1. split; [done|]. split; [reflexivity|].
  split_and!; [|by rewrite wrap_i32_small by lia|done].
  apply (room_set n); simpl; try done; [lia|]. unfold TOKEN_SCALE in *. lia.
Qed.

End Room.

Section Client.

Context {W : Type} `{Clock W} `{Workers W} `{StdSort} `{StdHash}.

(** ... and given back once the event is on its strand. *)
Lemma submit_room (n : Z) (e : Event) (w : W) (s : System W) (r : TenantRouter) :
  state_ (impl s) = Running -> router (impl s) = Some r -> has_room (router_fuel (impl s)) n r -> 1 <= n ->
  pool_stopped r = false -> exists strand w' r',
    submit e w s = Some (Ok tt, w',
      mkSystem (set_router (add_in_flight (impl s) 1) r') (submitting s) (tasks s ++ [(strand, e)]) (running s)
        (accepted s ++ [(strand, e)]) (emitted s) (abandoned s)) /\
    has_room (router_fuel (impl s)) (n - 1) r' /\ pool_stopped r' = false.
Proof.
  intros Hst Hr Hroom Hn Hp.
  destruct (room_acquire _ n (ev_tenant_id e) w r Hroom Hn) as (ts & w1 & r1 & Hps & Hacq & Hroom' & Hin & Hcells).
  unfold submit, submit_check. rewrite Hst, Hr, Hacq. unfold submit_dispatch. cbn [router set_router].
  change (router_fuel (add_in_flight _ 1)) with (router_fuel (impl s)).
  unfold cells_for, get_or_create_tenant. simpl. rewrite lookup_insert_eq.
  destruct (cell_indices ts) as [|idx cells] eqn:Hidx; [done|]. simpl.
  unfold release. simpl. rewrite lookup_insert_eq. simpl.
  eexists _, w1, _. split.
  - unfold spawned, pool_is_stopped. simpl. rewrite Hps, Hp. unfold checked. simpl.
    rewrite (delete_middle (submitting s) [] e), app_nil_r. reflexivity.
  - unfold set_tenant in *. simpl in *. rewrite Hin, insert_insert_eq. rewrite <- Hps in Hp. split; [exact Hroom'|exact Hp].
Qed.

End Client.

(** ** Tasks of a pool with nothing else to do *)

Section PoolRun.

Context {W : Type} `{TimedWorkers W} `{StdSort} `{StdHash}.

(** The objects a started pipeline of configuration [c] works with. *)
Definition objects_of (c : PipelineConfig W) (p : Impl W) : Prop :=
  config p = c /\ stages p = Some (make_stages c) /\ exists es, emit p = Some es /\ es_config es = cfg_emit c.

(** Nothing throws on this event, whatever its id, and nothing overflows. *)
Definition calls_ok_on (c : PipelineConfig W) (e : Event) : Prop :=
  (forall i, stages_ok_on (make_stages c) (event_set_id e i)) /\
  0 <= mc_retry_limit (cfg_emit c) <= 28 /\ Forall no_throw (mc_targets (cfg_emit c)).

Lemma run_task_decides (c : PipelineConfig W) (i : Z) (e : Event) (w : W) (p : Impl W) :
  calls_ok_on c e -> objects_of c p -> exists d w' es',
    run_task i e w p = Some (Some d, w', on_event_complete (set_emit p es')) /\ es_config es' = cfg_emit c /\
    (run_event c (make_stages c) false i e w).1 = Decided d.
Proof.
  intros (Hss & Hr & Ht) (Hc & Hs & es & He & Hes). unfold run_task. rewrite Hs, He, Hc.
  destruct (run_event_decides_on c (make_stages c) false i e w (Hss i)) as (d & Hd & _); [done|].
  destruct (run_event c _ _ _ _ w) as [r w1]. simpl in Hd. subst r.
  unfold emit_process, bindM, retM. rewrite Hes. destruct (steady_now w1) as [t w2].
  destruct (emit_targets_ends _ _ d Hr Ht w2) as (rs & bits & drops & Heq & _).
  destruct (emit_targets _ _ _ d w2) as [x w3]. simpl in Heq. subst x. destruct (steady_now w3) as [t' w4].
  do 3 eexists. split; [reflexivity|]. done.
Qed.

(** The oldest task is begun and run to its end. *)
Lemma run_oldest (c : PipelineConfig W) (strand : Z) (e : Event) (rest : list (Z * Event)) (w : W) (s : System W) :
  calls_ok_on c e -> objects_of c (impl s) -> pool_is_stopped (impl s) = false ->
  tasks s = (strand, e) :: rest -> running s = [] -> exists d w' p',
    exec_all [DoBegin 0; DoEnd 0] (w, s) =
      Some (w', mkSystem p' (submitting s) rest [] (accepted s) (emitted s ++ [(strand, e, d)]) (abandoned s)) /\
    (exists i, (run_event c (make_stages c) false i e w).1 = Decided d) /\
    objects_of c p' /\ state_ p' = state_ (impl s) /\ router p' = router (impl s) /\
    in_flight_ p' = wrap_i64 (in_flight_ (impl s) - 1).
Proof.
  intros Hok Hobj Hp Ht Hr. cbn [exec_all exec]. rewrite Ht. simpl.
  assert (Hn : next_on_strand_b s 0 strand = true) by (unfold next_on_strand_b; by rewrite Hr).
  rewrite Hn, Hp. unfold begun. rewrite Ht, Hr. simpl.
  assert (Hobj' : objects_of c (take_event_id (impl s)).2) by exact Hobj.
  destruct (run_task_decides c (next_event_id_ (impl s)) e w _ Hok Hobj') as (d & w' & es' & Hrun & Hes' & Hd).
  unfold take_event_id in Hrun. simpl in Hrun. rewrite Hrun. simpl.
  do 3 eexists. split; [reflexivity|]. split; [by eexists|]. simpl. destruct Hobj as (Hc & Hs & _). split_and!; try done.
  split_and!; [done|done|by exists es'].
Qed.

End PoolRun.

Section Schedules.

Context {W : Type} `{Clock W} `{Workers W} `{StdSort} `{StdHash}.

Lemma exec_all_app (l1 l2 : list action) (x : W * System W) :
  exec_all (l1 ++ l2) x = match exec_all l1 x with Some y => exec_all l2 y | None => None end.
Proof.
  revert x. induction l1 as [|a l1 IH]; intros x; [done|]. cbn [app exec_all]. destruct (exec a x); [apply IH|done].
Qed.

Lemma exec_all_steps (l : list action) (x y : W * System W) : exec_all l x = Some y -> rtc system_step x y.
Proof.
  revert x. induction l as [|a l IH]; cbn [exec_all]; intros x Hx; [by simplify_eq|].
  destruct (exec a x) as [z|] eqn:Ha; [|done]. eapply rtc_l; [by apply (exec_step a)|by apply IH].
Qed.

(** A started pipeline of configuration [c] with nothing to do. *)
Record idle (c : PipelineConfig W) (s : System W) : Prop := {
  idle_objects : objects_of c (impl s);
  idle_running : state_ (impl s) = Running;
  idle_submitting : submitting s = [];
  idle_tasks : tasks s = [];
  idle_none : running s = [];
  idle_fresh : router (impl s) = Some (router_new (cfg_sharding c) (cfg_rate_limit c))
}.

(** The end of [drain] once the pool has run dry, and the start after it. *)
Lemma drain_restart (c : PipelineConfig W) (w : W) (s : System W) :
  objects_of c (impl s) -> state_ (impl s) = Draining -> is_Some (router (impl s)) -> submitting s = [] ->
  tasks s = [] -> running s = [] -> exists p',
  exec_all [DoDrainStop; DoDrainEnd; DoStart] (w, s)
    = Some (w, mkSystem p' [] [] [] (accepted s) (emitted s) (abandoned s)) /\
  idle c (mkSystem p' [] [] [] (accepted s) (emitted s) (abandoned s)).
Proof.
  destruct s as [[cf st ni fl ev sts em ro] sub tk ru ac emd ab]. intros (Hc & Hs & es & He & Hes) Hst [r Hr] Hsub Ht Hrun.
  simpl in *. subst. eexists. split; [cbn; unfold with_impl, pool_stop; simpl; rewrite app_nil_r; reflexivity|]. split; try done.
  split_and!; [done|done|]. simpl. by eexists.
Qed.

(** [start] on a new pipeline. *)
Lemma start_idle (c : PipelineConfig W) (w : W) : exists p,
  start w (impl_new c) = Some (Ok tt, w, p) /\ idle c (with_impl (system_new c) p).
Proof. eexists. split; [reflexivity|]. split; try done. split_and!; [done|done|]. simpl. eexists. done. Qed.

Lemma idle_room (c : PipelineConfig W) (s : System W) (m n : Z) :
  idle c s -> limits_ok (router_new (cfg_sharding c) (cfg_rate_limit c)) m -> 1 <= cells_per_tenant (cfg_sharding c) ->
  n <= bucket_capacity (cfg_rate_limit c) -> 1 <= rl_max_concurrent (cfg_rate_limit c) ->
  has_room (router_fuel (impl s)) n (router_new (cfg_sharding c) (cfg_rate_limit c)).
Proof.
  intros Hidle Hl Hk Hc Hm. destruct (idle_objects _ _ Hidle) as (Hconf & _).
  apply (has_room_new _ n m); try done. unfold router_fuel. rewrite Hconf. f_equal. apply Hl.
Qed.

End Schedules.

(** ** One task and whatever schedule of the pool *)

(** What the pool does on its own. *)
Definition pool_action (a : action) : bool := match a with DoBegin _ | DoEnd _ => true | _ => false end.

Definition is_end (a : action) : bool := match a with DoEnd _ => true | _ => false end.

Inductive phase : Type := Waiting | Begun | Finished | Dropped.

Definition finished (ph : phase) : bool := match ph with Finished => true | _ => false end.

Section OneTask.

Context {W : Type} `{TimedWorkers W} `{StdSort} `{StdHash}.
Variable c : PipelineConfig W.
Variable s0 : System W.
Variable strand : Z.
Variable e : Event.
Hypothesis Hcalls : calls_ok_on c e.

(** How far the task has come since [s0]. *)
Definition holding (ph : phase) (s : System W) : Prop :=
  objects_of c (impl s) /\ submitting s = [] /\ tasks s = (match ph with Waiting => [(strand, e)] | _ => [] end) /\
  match ph with
  | Waiting => running s = [] /\ emitted s = emitted s0 /\ abandoned s = abandoned s0
  | Begun => (exists i, running s = [(strand, e, i)]) /\ emitted s = emitted s0 /\ abandoned s = abandoned s0
  | Finished =>
      running s = [] /\ abandoned s = abandoned s0 /\
      exists d i w, emitted s = emitted s0 ++ [(strand, e, d)] /\ (run_event c (make_stages c) false i e w).1 = Decided d
  | Dropped => running s = [] /\ emitted s = emitted s0 /\ abandoned s = abandoned s0 ++ [(strand, e)]
  end.

Lemma holding_action (a : action) (ph : phase) (w w' : W) (s s' : System W) :
  holding ph s -> pool_action a = true -> exec a (w, s) = Some (w', s') ->
  exists ph', holding ph' s' /\ finished ph' = (finished ph || is_end a)%bool /\ ph' <> Waiting.
Proof.
  intros (Hobj & Hsub & Ht & Hph) Ha Hexec. destruct a as [|?|?|i|i| | |]; try done; cbn [exec] in Hexec.
  - rewrite Ht in Hexec. destruct ph; [|done..]. destruct i as [|i]; [|done]. simpl in Hexec.
    destruct (_ && _)%bool; [|done]. injection Hexec as <- <-. exists Begun. split; [|by split].
    destruct Hph as (Hr & Hem & Hab). unfold begun. cbn [take_event_id]. split_and!; cbn [impl submitting tasks]; try done.
    + by rewrite Ht.
    + cbn [running]. rewrite Hr. by eexists.
  - destruct ph; try (destruct Hph as [Hr _]; by rewrite Hr in Hexec).
    destruct Hph as ([id Hr] & Hem & Hab). rewrite Hr in Hexec. destruct i as [|i]; [|done]. simpl in Hexec.
    destruct (run_task_decides c id e w (impl s) Hcalls Hobj) as (d & w1 & es' & Hrun & Hes & Hd).
    rewrite Hrun in Hexec. injection Hexec as <- <-. exists Finished. split; [|by split].
    destruct Hobj as (Hc & Hs & _). split_and!; cbn [ended impl submitting tasks running emitted abandoned]; try done.
    + split_and!; [done|done|by exists es'].
    + by rewrite Hr.
    + exists d, id, w. by rewrite Hem.
Qed.

Lemma holding_actions (l : list action) : forall (ph : phase) (x y : W * System W),
  holding ph x.2 -> forallb pool_action l = true -> exec_all l x = Some y ->
  exists ph', holding ph' y.2 /\ finished ph' = (finished ph || existsb is_end l)%bool /\ (ph <> Waiting -> ph' <> Waiting).
Proof.
  induction l as [|a l IH]; intros ph [w s] y Hh Hl Hexec; cbn [exec_all forallb existsb] in *.
  - injection Hexec as <-. exists ph. by rewrite orb_false_r.
  - apply andb_true_iff in Hl as [Ha Hl]. destruct (exec a (w, s)) as [[w1 s1]|] eqn:Hx; [|done].
    destruct (holding_action a ph w w1 s s1 Hh Ha Hx) as (ph1 & Hh1 & Hf1 & Hw1).
    destruct (IH ph1 (w1, s1) y Hh1 Hl Hexec) as (ph2 & Hh2 & Hf2 & Hw2). exists ph2. rewrite Hf2, Hf1, orb_assoc. auto.
Qed.

(** Stopping the pool drops the task that has not begun. *)
Lemma holding_stop (ph : phase) (w w' : W) (s s' : System W) :
  holding ph s -> exec DoDrainStop (w, s) = Some (w', s') ->
  holding (match ph with Waiting => Dropped | _ => ph end) s'.
Proof.
  intros (Hobj & Hsub & Ht & Hph) Hexec. cbn [exec] in Hexec. destruct (is_draining (impl s)); [|done].
  unfold drain_stop in Hexec. destruct (router (impl s)) as [r|]; [|done].
  destruct (router_stop w r) as [[[u w1] r1]|]; [|done]. injection Hexec as <- <-.
  assert (Hobj' : objects_of c (set_router (impl s) r1)) by exact Hobj.
  split; [exact Hobj|]. split; [exact Hsub|]. split; [by destruct ph|]. cbn [pool_stop running emitted abandoned]. rewrite Ht.
  destruct ph; rewrite ?app_nil_r; try exact Hph. destruct Hph as (Hr & Hem & Hab). by rewrite Hab.
Qed.

(** The drain ends once no coroutine runs, and [start] finds a stopped pipeline. *)
Lemma holding_restart (ph : phase) (w w' : W) (s s' : System W) :
  holding ph s -> ph <> Waiting -> exec_all [DoDrainEnd; DoStart] (w, s) = Some (w', s') ->
  idle c s' /\ emitted s' = emitted s /\ abandoned s' = abandoned s /\ ph <> Begun.
Proof.
  intros (Hobj & Hsub & Ht & Hph) Hw Hexec. cbn [exec_all exec] in Hexec.
  destruct (_ && _)%bool; [|done]. destruct (running s) as [|x l] eqn:Hr; [|done]. cbn in Hexec.
  rewrite Hsub in Hexec. injection Hexec as <- <-.
  assert (Ht' : tasks s = []) by by destruct ph. destruct Hobj as (Hc & Hs & es & He & Hes).
  split; [|split; [done|split; [done|]]].
  - split; cbn; try done; [|by rewrite Hc]. split_and!; [done|by rewrite Hc|]. rewrite Hc. by eexists.
  - intros ->. by destruct Hph as ([i Hi] & _).
Qed.

(** The actions of the pool around those of a call of [drain] and the next [start]. *)
Record Schedule : Type := mkSchedule {
  before_drain : list action;  (** until [drain] has set its state *)
  before_stop : list action;   (** until it stops the pool: no event in flight, or the deadline *)
  before_end : list action     (** until the pool's threads are joined *)
}.

Definition pool_only (sc : Schedule) : bool :=
  forallb pool_action (before_drain sc ++ before_stop sc ++ before_end sc).

(** A coroutine has ended. *)
Definition ran (sc : Schedule) : bool := existsb is_end (before_drain sc ++ before_stop sc ++ before_end sc).

Definition drained_by (sc : Schedule) : list action :=
  before_drain sc ++ [DoDrainBegin] ++ before_stop sc ++ [DoDrainStop] ++ before_end sc ++ [DoDrainEnd; DoStart].

(** Whatever the pool does, the task has either run to its end or been dropped
    by the time the pipeline is started again. *)
Lemma one_task_drained (sc : Schedule) (w w' : W) (s s' : System W) :
  holding Waiting s -> pool_only sc = true -> exec_all (drained_by sc) (w, s) = Some (w', s') ->
  idle c s' /\ holding (if ran sc then Finished else Dropped) s'.
Proof.
  destruct sc as [l0 l1 l2]. unfold pool_only, ran, drained_by. cbn [before_drain before_stop before_end].
  rewrite !forallb_app, !existsb_app. intros Hh (Hl0 & [Hl1 Hl2]%andb_true_iff)%andb_true_iff Hexec.
  rewrite exec_all_app in Hexec. destruct (exec_all l0 (w, s)) as [[w1 s1]|] eqn:H0e; [|done].
  destruct (holding_actions l0 Waiting (w, s) _ Hh Hl0 H0e) as (ph1 & Hh1 & Hf1 & _). simpl in Hh1, Hf1.
  cbn [app exec_all] in Hexec. destruct (exec DoDrainBegin (w1, s1)) as [[w2 s2]|] eqn:Hb; [|done].
  injection Hb as <- <-. change (holding ph1 (with_impl s1 (set_state (impl s1) Draining))) in Hh1.
  rewrite exec_all_app in Hexec. destruct (exec_all l1 _) as [[w3 s3]|] eqn:H1e; [|done].
  destruct (holding_actions l1 ph1 (w1, with_impl s1 (set_state (impl s1) Draining)) _ Hh1 Hl1 H1e) as (ph2 & Hh2 & Hf2 & _). simpl in Hh2.
  cbn [app exec_all] in Hexec. destruct (exec DoDrainStop (w3, s3)) as [[w4 s4]|] eqn:Hs; [|done].
  apply holding_stop with (ph := ph2) in Hs; [|done].
  rewrite exec_all_app in Hexec. destruct (exec_all l2 _) as [[w5 s5]|] eqn:H2e; [|done].
  destruct (holding_actions l2 _ (w4, s4) _ Hs Hl2 H2e) as (ph3 & Hh3 & Hf3 & Hw3). simpl in Hh3.
  assert (Hw : ph3 <> Waiting) by (apply Hw3; by destruct ph2).
  destruct (holding_restart ph3 w5 w' s5 s' Hh3 Hw Hexec) as (Hidle & Hem & Hab & Hb).
  assert (Hfin : finished ph3 = (existsb is_end l0 || (existsb is_end l1 || existsb is_end l2))%bool).
  { rewrite Hf3, orb_assoc, <- Hf1, <- Hf2. by destruct ph2. }
  split; [done|]. rewrite <- Hfin. destruct Hh3 as (_ & _ & _ & Hph), Hidle as [Hobj _ Hsub Ht Hr _].
  destruct ph3; try done; (split_and!; [done|done|done|]); cbn [finished]; rewrite Hem, Hab; (split; [done|]); apply Hph.
Qed.

End OneTask.

Section Queue.

Context {W : Type} `{TimedWorkers W} `{StdSort} `{StdHash}.

(** The pool runs every task, the oldest first. *)
Definition run_queue (n : nat) : list action := concat (repeat [DoBegin 0; DoEnd 0] n).

(** What a task came to. *)
Definition decided_from (c : PipelineConfig W) (t : Z * Event) (x : Z * Event * Decision) : Prop :=
  x.1 = t /\ exists i w, (run_event c (make_stages c) false i t.2 w).1 = Decided x.2.

Lemma run_queue_empties (c : PipelineConfig W) (ts : list (Z * Event)) :
  Forall (fun t => calls_ok_on c t.2) ts -> forall (w : W) (s : System W),
  objects_of c (impl s) -> pool_is_stopped (impl s) = false -> tasks s = ts -> running s = [] -> exists w' p' xs,
    exec_all (run_queue (length ts)) (w, s) =
      Some (w', mkSystem p' (submitting s) [] [] (accepted s) (emitted s ++ xs) (abandoned s)) /\
    Forall2 (decided_from c) ts xs /\ objects_of c p' /\ state_ p' = state_ (impl s) /\ router p' = router (impl s).
Proof.
  induction 1 as [|[strand e] ts Hok _ IH]; intros w s Hobj Hp Ht Hr.
  - exists w, (impl s), []. rewrite app_nil_r. destruct s as [im sub tk ru ac emd ab]. simpl in *. subst. by split_and!.
  - destruct (run_oldest c strand e ts w s Hok Hobj Hp Ht Hr) as (d & w1 & p1 & Hexec & [i Hd] & Hobj1 & Hst1 & Hr1 & _).
    destruct (IH w1 (mkSystem p1 (submitting s) ts [] (accepted s) (emitted s ++ [(strand, e, d)]) (abandoned s)))
      as (w2 & p2 & xs & Hexec2 & Hxs & Hobj2 & Hst2 & Hr2); [exact Hobj1| |done|done|].
    { unfold pool_is_stopped in *. simpl. by rewrite Hr1. }
    exists w2, p2, ((strand, e, d) :: xs). unfold run_queue. cbn [length repeat concat]. rewrite exec_all_app, Hexec.
    fold (run_queue (length ts)). rewrite Hexec2. cbn [submitting accepted emitted abandoned impl] in *. rewrite <- app_assoc.
    split_and!; [done| |done|congruence|congruence]. constructor; [|done]. split; [done|]. by exists i, w.
Qed.

(** The end of [drain] once the pool has run dry. *)
Lemma drain_finish (w : W) (s : System W) :
  state_ (impl s) = Draining -> is_Some (router (impl s)) -> tasks s = [] -> running s = [] -> exists p',
  exec_all [DoDrainStop; DoDrainEnd] (w, s)
    = Some (w, mkSystem p' (submitting s) [] [] (accepted s) (emitted s) (abandoned s)) /\ state_ p' = Stopped.
Proof.
  destruct s as [[cf st ni fl ev sts em ro] sub tk ru ac emd ab]. simpl. intros -> [r ->] -> ->.
  eexists. split; [cbn; unfold with_impl, pool_stop; simpl; rewrite app_nil_r; reflexivity|done].
Qed.

End Queue.
