(* ===== verification/MultiDecision.v ===== *)
(** * The payment pipeline of examples/multi_decision_pipeline

    examples/multi_decision_pipeline/main.cpp, whole: its evaluators, its
    emission target, its registry and policy, the scenarios and [main].  What is
    written to the standard error is left out.  The scenarios' comments say which
    decisions are expected; the theorems say which are made, for every tag, every
    order [std::sort] may choose and every schedule of the pipeline. *)

From S2P Require Import Prelude Ieee CoreTypes Errors DecisionTypes RuleEngine TenantRouter Config Stages PolicyStage EmitStage RunEvent Pipeline Http Concepts Scenario.

Open Scope list_scope.
Open Scope Z_scope.

(** ** The evaluators *)

Inductive VelocityEvaluator : Type := mkVelocity.

Definition velocity_evaluate (event : Event) : outcome (expected EvaluatorResult EvaluatorError) :=
  let count_str := sv_str (event_tag event "tx_count_1h") in
  let passed := Returned (Ok (plain_result "velocity" Pass None)) in
  if str_empty count_str then passed
  else match stoi count_str with
       | Threw what => Threw what
       | Returned count =>
           if Z.ltb 20 count then Returned (Ok (plain_result "velocity" Flag (Some "velocity_exceeded"))) else passed
       end.

#[export] Instance velocity_evaluator (W : Type) : LightweightEvaluator W VelocityEvaluator := {
  lightweight_evaluate := fun _ event => retM (velocity_evaluate event)
}.

Inductive CountryRiskEvaluator : Type := mkCountryRisk.

Definition country_risk_evaluate (event : Event) : expected EvaluatorResult EvaluatorError :=
  if str_eqb (sv_str (event_tag event "country")) "XX"
  then Ok (plain_result "country_risk" Block (Some "high_risk_country"))
  else Ok (plain_result "country_risk" Pass None).

#[export] Instance country_risk_evaluator (W : Type) : LightweightEvaluator W CountryRiskEvaluator := {
  lightweight_evaluate := fun _ event => retM (Returned (country_risk_evaluate event))
}.

(** ** The emission target *)

Inductive PrintingTarget : Type := mkPrintingTarget.

Definition endl : string := String newline EmptyString.

Definition active_line (active : ActiveDecision) : string :=
  "  active:  [p=" +:+ pretty (ad_priority active) +:+ "] " +:+ ad_decision_type_id active
  +:+ "  ← " +:+ ad_rule_id active +:+ endl.

Section Printing.

Context {W : Type} `{Stdout W}.

Fixpoint print_active (l : list ActiveDecision) : M W unit :=
  match l with
  | [] => retM tt
  | active :: l' => do _ <- print (active_line active); print_active l'
  end.

Definition printing_emit (d : Decision) : M W (outcome (expected unit EmissionError)) :=
  let verdict_str := match d_final_verdict d with Pass => "Pass" | Flag => "Flag" | Block => "Block" end in
  do _ <- print (endl +:+ "── Decision ──────────────────────────────────────" +:+ endl);
  do _ <- print ("  entity:  " +:+ d_entity_id d +:+ endl);
  do _ <- print ("  verdict: " +:+ verdict_str +:+ endl);
  do _ <- match d_active_decisions d with
          | [] => print ("  active:  (none — no policy rule fired)" +:+ endl)
          | l => print_active l
          end;
  do _ <- print ("─────────────────────────────────────────────────" +:+ endl);
  retM (Returned (Ok tt)).

End Printing.

#[export] Instance printing_target (W : Type) `{Stdout W} : EmissionTarget W PrintingTarget := {
  target_emit := fun _ d => printing_emit d;
  target_flush := None
}.

(** ** The registry and the policy *)

(** The lambda [require]: the line it prints before [std::exit(1)], or the
    registry to go on with. *)
Definition require (result : expected DecisionTypeRegistry ConfigError) (ctx : string)
    (k : DecisionTypeRegistry -> expected DecisionTypeRegistry string) : expected DecisionTypeRegistry string :=
  match result with
  | Ok reg => k reg
  | Unexpected e => Unexpected (ctx +:+ ": " +:+ ce_detail e +:+ endl)
  end.

Definition build_registry : expected DecisionTypeRegistry string :=
  require (add_type registry_empty (mkDescriptor "block" "Block Transaction" 0)) "add block" (fun reg =>
  require (add_type reg (mkDescriptor "review" "Queue for Review" 10)) "add review" (fun reg =>
  require (add_type reg (mkDescriptor "notify" "Alert Security" 20)) "add notify" (fun reg =>
  require (add_type reg (mkDescriptor "pass" "Explicit Approval" 100)) "add pass" (fun reg =>
  require (add_incompatible reg "pass" "block") "incompatible pass/block" (fun reg =>
  require (add_incompatible reg "pass" "review") "incompatible pass/review" (fun reg =>
  Ok reg)))))).

(** The overload of [add_rule] with a decision type. *)
Definition add_rule `{StdSort} (rule : PolicyRule) (priority : Z) (verdict : Verdict) (rule_id type_id : string)
    (cfg : PolicyStageConfig) : PolicyStageConfig :=
  policy_add_rule cfg (mkPolicyStageRule rule priority verdict rule_id (Some type_id)).

(** [PolicyStageConfig cfg;]. *)
Definition default_policy : PolicyStageConfig := mkPolicyConfig 20 FailClosed [].

Definition build_policy `{StdSort} : PolicyStageConfig :=
  let cfg := default_policy in
  let cfg := add_rule (StageVerdictIs "eval" Block) 1 Block "block_country_risk" "block" cfg in
  let cfg := add_rule (StageVerdictIs "eval" Block) 1 Flag "review_country_risk" "review" cfg in
  let cfg := add_rule (StageVerdictIs "eval" Block) 1 Flag "notify_country_risk" "notify" cfg in
  let cfg := add_rule (StageVerdictIs "eval" Flag) 2 Flag "review_velocity" "review" cfg in
  let cfg := add_rule (StageVerdictIs "eval" Flag) 2 Flag "notify_velocity" "notify" cfg in
  add_rule (TagEquals "entity_class" "known_good") 3 Pass "pass_known_good" "pass" cfg.

(** ** The scenarios and main *)

Section Main.

Context {W : Type} `{Clock W} `{Workers W} `{StdSort} `{StdHash} `{Stdout W}.

Definition payment_eval : EvalStageConfig W :=
  eval_add (eval_add (mkEvalConfig 10 FailOpen AnyBlock []) mkVelocity) mkCountryRisk.

Definition payment_config (registry : DecisionTypeRegistry) (policy : PolicyStageConfig)
    : expected (PipelineConfig W) Error :=
  let emit_cfg := emit_add default_emit mkPrintingTarget in
  build (builder_emit (builder_decision_types (builder_policy_eval (builder_lightweight_eval
    (builder_latency_budget (builder_pipeline_id builder_new "payment-fraud-pipeline") 300)
    payment_eval) policy) registry) emit_cfg).

Definition scenario_event (tags : list Tag) (entity_id : string) (now : Z) : Event :=
  mkEvent 0 "acme-payments" entity_id "payment" now [] tags.

(** [run_scenario]: the schedule is what the pipeline's threads do from the
    submission to the end of [drain]. *)
Definition run_scenario (sc : Schedule) (label : string) (tags : list Tag) (entity_id : string)
    (x : W * System W) : option (W * System W) :=
  let '(_, w) := print (endl +:+ "=== " +:+ label +:+ " ===") x.1 in
  let '(now, w) := system_now w in
  match submit (scenario_event tags entity_id now) w x.2 with
  | None => None
  | Some (_, w, s) => exec_all (drained_by sc) (w, s)
  end.

Definition tag (key value : string) : Tag := mkTag (sv key) (sv value).

Definition scenarios : list (string * list Tag * string) :=
  [("A: clean — expect no active decisions", [tag "tx_count_1h" "5"; tag "country" "US"], "clean-user");
   ("B: high velocity + safe country — expect [review, notify]",
     [tag "tx_count_1h" "25"; tag "country" "US"], "busy-user");
   ("C: velocity + high-risk country — expect [block, review, notify]",
     [tag "tx_count_1h" "30"; tag "country" "XX"], "risky-user");
   ("D: known-good + high velocity — expect pass eliminated → [review, notify]",
     [tag "tx_count_1h" "25"; tag "country" "US"; tag "entity_class" "known_good"], "trusted-but-busy");
   ("E: known-good + low velocity — expect [pass]",
     [tag "tx_count_1h" "3"; tag "country" "US"; tag "entity_class" "known_good"], "vip-user")].

(** The calls of [main], with a schedule for each. *)
Fixpoint run_scenarios (scs : list Schedule) (l : list (string * list Tag * string)) (x : W * System W)
    : option (W * System W) :=
  match l, scs with
  | [], _ => Some x
  | (label, tags, entity_id) :: l', sc :: scs' =>
      match run_scenario sc label tags entity_id x with
      | None => None
      | Some y => run_scenarios scs' l' y
      end
  | _ :: _, [] => None
  end.

(** [main]: the exit code, and the pipeline if there was one. *)
Definition payment_main (scs : list Schedule) (w : W) : option (Z * W * option (System W)) :=
  match build_registry with
  | Unexpected _ => Some (1, w, None)
  | Ok registry =>
      match payment_config registry build_policy with
      | Unexpected _ => Some (1, w, None)
      | Ok c =>
          match start w (impl_new c) with
          | None => None
          | Some (Unexpected _, w, p) => Some (1, w, Some (with_impl (system_new c) p))
          | Some (Ok _, w, p) =>
              match run_scenarios scs scenarios (w, with_impl (system_new c) p) with
              | None => None
              | Some (w, s) =>
                  match drain w s with
                  | None => None
                  | Some (_, w, s) => Some (0, w, Some s)
                  end
              end
          end
      end
  end.

End Main.

(** ** Specification: the decisions expected *)

Definition active_block : ActiveDecision := mkActiveDecision "block" "block_country_risk" 0.
Definition active_review (rule : string) : ActiveDecision := mkActiveDecision "review" rule 10.
Definition active_notify (rule : string) : ActiveDecision := mkActiveDecision "notify" rule 20.
Definition active_pass : ActiveDecision := mkActiveDecision "pass" "pass_known_good" 100.

(** The number of transactions of the last hour: the integer in the first tag of
    that name, if there is one. *)
Definition transactions (event : Event) : option Z :=
  match find_first (fun t => str_eqb (sv_str (tag_key t)) "tx_count_1h") (ev_tags event) with
  | None => None
  | Some t => match stoi (sv_str (tag_value t)) with Returned n => Some n | Threw _ => None end
  end.

(** "Flags if tx_count_1h tag exceeds 20." *)
Definition velocity_exceeded (event : Event) : bool :=
  match transactions event with Some n => Z.ltb 20 n | None => false end.

Definition high_risk (event : Event) : bool := str_eqb (sv_str (event_tag event "country")) "XX".

(** Some tag, not only the first of its name. *)
Definition known_good (event : Event) : bool :=
  existsb (fun t => str_eqb (sv_str (tag_key t)) "entity_class" && str_eqb (sv_str (tag_value t)) "known_good")%bool
    (ev_tags event).

Definition expected_decisions (event : Event) : list ActiveDecision :=
  if high_risk event then [active_block; active_review "review_country_risk"; active_notify "notify_country_risk"]
  else if velocity_exceeded event then [active_review "review_velocity"; active_notify "notify_velocity"]
  else if known_good event then [active_pass] else [].

(** The rules of the policy, in the order they are written. *)
Definition payment_rules : list PolicyStageRule :=
  [mkPolicyStageRule (StageVerdictIs "eval" Block) 1 Block "block_country_risk" (Some "block");
   mkPolicyStageRule (StageVerdictIs "eval" Block) 1 Flag "review_country_risk" (Some "review");
   mkPolicyStageRule (StageVerdictIs "eval" Block) 1 Flag "notify_country_risk" (Some "notify");
   mkPolicyStageRule (StageVerdictIs "eval" Flag) 2 Flag "review_velocity" (Some "review");
   mkPolicyStageRule (StageVerdictIs "eval" Flag) 2 Flag "notify_velocity" (Some "notify");
   mkPolicyStageRule (TagEquals "entity_class" "known_good") 3 Pass "pass_known_good" (Some "pass")].

Definition payment_registry : DecisionTypeRegistry :=
  mkRegistry [mkDescriptor "block" "Block Transaction" 0; mkDescriptor "review" "Queue for Review" 10;
    mkDescriptor "notify" "Alert Security" 20; mkDescriptor "pass" "Explicit Approval" 100]
    [mkPair "pass" "block"; mkPair "pass" "review"].

(** ** Lemmas *)

Lemma build_registry_eq : build_registry = Ok payment_registry.
Proof. reflexivity. Qed.

Lemma build_policy_rules `{StdSort} : pcfg_rules build_policy ≡ₚ payment_rules.
Proof. unfold build_policy, add_rule, policy_add_rule. simpl. by rewrite !std_sort_perm. Qed.

Lemma payment_clockless `{StdSort} : clockless_rules (pcfg_rules build_policy).
Proof. unfold clockless_rules. rewrite build_policy_rules. by repeat constructor. Qed.

Section PaymentLemmas.

Context {W : Type} `{Clock W} `{Workers W} `{StdSort} `{StdHash} `{Stdout W}.

(** The configuration that [main] runs. *)
Definition payment_pipeline : PipelineConfig W :=
  mkPipelineConfig "payment-fraud-pipeline" "1.0.0" 300 (mkShardingConfig 16 4 0) (mkRateLimitConfig 1000 500 100)
    (mkIngestConfig 30000 5) (Some payment_eval) None (Some build_policy) (emit_add default_emit mkPrintingTarget)
    (Some payment_registry).

Lemma payment_config_eq : payment_config payment_registry build_policy = Ok payment_pipeline.
Proof.
  unfold payment_config, build. match goal with |- context [validate ?b] => assert (Hv : validate b = None) end.
  { apply validate_None. split; [done|]. split_and!; simpl; try done.
    intros p psr [= <-]. rewrite build_policy_rules. intros Hpsr. split.
    - intros id Hid. assert (id = "eval") as ->; [|right; right; left; by split].
      repeat (apply elem_of_cons in Hpsr as [->|Hpsr]; [by inversion Hid|]). by apply elem_of_nil in Hpsr.
    - intros t Ht. exists payment_registry.
      repeat (apply elem_of_cons in Hpsr as [->|Hpsr];
        [simpl in Ht; injection Ht as <-; eexists; split; [reflexivity|reflexivity]|]). by apply elem_of_nil in Hpsr. }
  by rewrite Hv.
Qed.

(** The evaluation stage: the country beats the velocity. *)
Definition payment_verdict (event : Event) : Verdict :=
  if high_risk event then Block else if velocity_exceeded event then Flag else Pass.

Lemma velocity_cases (event : Event) :
  (exists what, velocity_evaluate event = Threw what) \/
  (exists r, velocity_evaluate event = Returned (Ok r) /\
     er_verdict r = if velocity_exceeded event then Flag else Pass).
Proof.
  unfold velocity_exceeded, transactions, velocity_evaluate, event_tag.
  destruct (find_first _ _) as [t|]; [|right; by eexists].
  destruct (str_empty _) eqn:Hempty.
  - right. eexists. split; [reflexivity|]. by destruct (sv_str (tag_value t)).
  - destruct (stoi _) as [n|what]; [|left; by eexists]. right. destruct (Z.ltb 20 n); by eexists.
Qed.

Lemma payment_eval_gives (event : Event) (w : W) (out : expected StageOutput Error) :
  (run_eval payment_eval event w).1 = Some (Returned out) ->
  exists o, out = Ok o /\ so_stage_id o = "eval" /\ so_verdict o = payment_verdict event.
Proof.
  unfold run_eval, eval_process, payment_eval, payment_verdict, bindM, bindX, retM. simpl.
  destruct (steady_now w) as [start w1]. unfold bindX, retM.
  destruct (velocity_cases event) as [[what ->]|(r & -> & Hr)]; [done|].
  unfold country_risk_evaluate. fold (high_risk event).
  destruct (high_risk event); destruct (steady_now w1) as [stop w2]; intros [= <-]; eexists; (split; [reflexivity|]);
    (split; [done|]); unfold compose, has_verdict; cbn [length Nat.eqb existsb so_verdict]; rewrite Hr;
    by destruct (velocity_exceeded event).
Qed.

(** The policy's matches, in the order the rules are written. *)
Definition payment_matches (ctx : PolicyContext) : list Match :=
  omap (match_of (rule_says ctx) payment_registry) payment_rules.

(** A context in which the evaluation stage has spoken. *)
Definition evaluated (event : Event) (ctx : PolicyContext) : Prop :=
  pc_event ctx = event /\ exists so, stage_of ctx "eval" = Some so /\ so_verdict so = payment_verdict event.

Lemma payment_survivors (event : Event) (ctx : PolicyContext) : evaluated event ctx ->
  NoDup (map m_type_id (payment_matches ctx)) /\
  omap (active_of payment_registry) (map m_result (survivors payment_registry (payment_matches ctx)))
    = expected_decisions event /\
  max_over (fun m => er_verdict (m_result m)) Pass (survivors payment_registry (payment_matches ctx))
    = payment_verdict event.
Proof.
  intros (He & so & Hso & Hv).
  assert (Hs : forall v, rule_says ctx (StageVerdictIs "eval" v) = Returned (verdict_eqb (payment_verdict event) v))
    by (intros v; unfold rule_says, rule_value; simpl; unfold eval_stage_verdict_is; by rewrite Hso, Hv).
  assert (Hk : rule_says ctx (TagEquals "entity_class" "known_good") = Returned (known_good event))
    by (unfold rule_says, rule_value; simpl; unfold eval_tag_equals; by rewrite He).
  unfold payment_matches, payment_rules, expected_decisions, payment_verdict in *. cbn [omap list_omap]. unfold match_of, matches_rule.
  cbn [psr_rule psr_decision_type_id]. rewrite !Hs, Hk.
  destruct (high_risk event), (velocity_exceeded event), (known_good event); (split; [|by vm_compute]);
    vm_compute; repeat constructor; set_solver.
Qed.

Lemma payment_policy_output (event : Event) (ctx : PolicyContext) : evaluated event ctx ->
  let o := multi_output ctx build_policy payment_registry in
  std_sort active_lt (collect_active payment_registry (po_results o)) = expected_decisions event /\
  po_verdict o = payment_verdict event.
Proof.
  intros Hev o. destruct (payment_survivors event ctx Hev) as (Hnd & Hact & Hver).
  set (ms := omap (match_of (rule_says ctx) payment_registry) (pcfg_rules build_policy)).
  assert (Hms : ms ≡ₚ payment_matches ctx) by (unfold ms, payment_matches; by rewrite build_policy_rules).
  assert (Hsv : survivors payment_registry ms ≡ₚ survivors payment_registry (payment_matches ctx))
    by by apply survivors_perm.
  assert (Ho : o = fold_left (emit_survivor (losers payment_registry (dedupe ms))) (dedupe ms) policy_out_new).
  { unfold o, multi_output, resolve_matches. rewrite typed_rules_silent; [done|].
    rewrite build_policy_rules. by repeat constructor. }
  rewrite Ho, survivors_fold. fold (survivors payment_registry ms). cbn [po_results po_verdict policy_out_new app].
  split; [|by rewrite Hsv].
  apply std_sort_active.
  - by rewrite collect_active_omap, Hsv, Hact.
  - unfold expected_decisions. destruct (high_risk event), (velocity_exceeded event), (known_good event);
      repeat constructor.
Qed.

Lemma stage_output_third (d : Decision) (a b p : StageOutput) :
  d_stage_outputs d = [a; b; p] -> so_stage_id a = "ingest" -> so_stage_id b = "eval" -> so_stage_id p = "policy" ->
  stage_output d "policy" = Some p.
Proof. intros Hd Ha Hb Hp. unfold stage_output. rewrite Hd. cbn [find_first]. by rewrite Ha, Hb, Hp. Qed.

(** Every decision of the pipeline is the one expected of its event. *)
Lemma payment_decides (i : Z) (event : Event) (w : W) (d : Decision) :
  (run_event payment_pipeline (make_stages payment_pipeline) false i event w).1 = Decided d ->
  d_active_decisions d = expected_decisions event /\
  exists o, stage_output d "policy" = Some o /\ so_verdict o = payment_verdict event.
Proof.
  intros Hrun. apply run_event_trace in Hrun as [w_in at_ io d1 d2 d3 t w_end Hio He Hn Hp Hf].
  destruct (run_ingest_ok (make_stages payment_pipeline) (event_set_id event i) w_in) as (io' & w1 & Hio' & Hid).
  rewrite Hio' in Hio. injection Hio as ->.
  destruct He as (w2 & out & He & ->). apply payment_eval_gives in He as (eo & -> & Heid & Hev).
  simpl in Hn. subst d2. destruct Hp as (w3 & out & Hp & ->).
  set (ctx := mkPolicyContext _ _) in Hp.
  destruct (run_policy_clockless ctx build_policy (Some payment_registry) w3 payment_clockless) as [us Hus].
  assert (Hmulti : use_multi build_policy (Some payment_registry) = true).
  { unfold use_multi. simpl. apply existsb_elem_of. setoid_rewrite build_policy_rules. eexists. split; [left|done]. }
  rewrite Hmulti in Hus. cbn [cfg_registry payment_pipeline] in Hp. rewrite Hus in Hp. injection Hp as <-.
  assert (Hctx : evaluated (event_set_id event i) ctx).
  { split; [done|]. exists eo. split; [|done]. unfold stage_of. simpl. by rewrite Hid, Heid. }
  destruct (payment_policy_output _ ctx Hctx) as [Hact Hver].
  unfold finish_decision, compute_active_decisions, bindM, retM in Hf. destruct (steady_now w_end) as [now w4].
  cbn [cfg_registry payment_pipeline] in Hf. erewrite stage_output_third in Hf by done. injection Hf as <-.
  split; [exact Hact|]. eexists. split; [by eapply stage_output_third|exact Hver].
Qed.

End PaymentLemmas.

Section Scenarios.

Context {W : Type} `{TimedWorkers W} `{StdSort} `{StdHash} `{Stdout W}.

Lemma printing_no_throw : no_throw (fun d => target_emit (W := W) mkPrintingTarget d).
Proof.
  intros d w. unfold target_emit, printing_target, printing_emit, bindM. destruct (print _ w) as [u1 w1].
  destruct (print _ w1) as [u2 w2]. destruct (print _ w2) as [u3 w3].
  match goal with |- context [let '(_, _) := ?m w3 in _] => destruct (m w3) as [u4 w4] end.
  by destruct (print _ w4).
Qed.

Lemma payment_calls_ok (event : Event) :
  (exists r, velocity_evaluate event = Returned r) -> calls_ok_on (payment_pipeline (W := W)) event.
Proof.
  intros [r Hr]. split_and!; [|simpl; lia..|repeat constructor; apply printing_no_throw].
  intros i. split; [|done]. intros e [= <-].
  assert (Hvel : returns_on (W := W) (fun e => lightweight_evaluate mkVelocity e) (event_set_id event i)).
  { intros w. simpl. change (velocity_evaluate (event_set_id event i)) with (velocity_evaluate event). by rewrite Hr. }
  apply Forall_cons. split; [exact Hvel|]. apply Forall_cons. split; [by intros w|constructor].
Qed.

(** The scenario's task runs before the drain gives up, or never begins. *)
Definition in_time : Schedule := mkSchedule [] [DoBegin 0; DoEnd 0] [].

Definition too_late : Schedule := mkSchedule [] [] [].

Definition schedule_of (in_time_b : bool) : Schedule := if in_time_b then in_time else too_late.

Definition report (x : Z * Event * Decision) : string * list string :=
  (ev_entity_id x.1.2, map ad_decision_type_id (d_active_decisions x.2)).

Definition expected_report (scenario : string * list Tag * string) : string * list string :=
  let '(_, tags, entity_id) := scenario in
  (entity_id, map ad_decision_type_id (expected_decisions (scenario_event tags entity_id 0))).

Lemma payment_limits : limits_ok (router_new (cfg_sharding (payment_pipeline (W := W))) (cfg_rate_limit (payment_pipeline (W := W)))) 4.
Proof. unfold limits_ok. simpl. lia. Qed.

Definition abandoned_entity (x : Z * Event) : string := ev_entity_id x.2.

(** The elements whose flag is set. *)
Definition kept {A : Type} (flags : list bool) (l : list A) : list A :=
  map snd (filter (fun x => x.1 = true) (zip flags l)).

Lemma kept_cons {A : Type} (b : bool) (flags : list bool) (a : A) (l : list A) :
  kept (b :: flags) (a :: l) = (if b then [a] else []) ++ kept flags l.
Proof. unfold kept. cbn [zip zip_with]. rewrite filter_cons. by destruct b. Qed.

Lemma kept_map {A B : Type} (f : A -> B) (flags : list bool) (l : list A) : map f (kept flags l) = kept flags (map f l).
Proof.
  revert l. induction flags as [|b flags IH]; intros [|a l]; try done. cbn [map]. rewrite !kept_cons, map_app, IH.
  by destruct b.
Qed.

Definition velocity_returns (tags : list Tag) (entity_id : string) : Prop :=
  exists r, velocity_evaluate (scenario_event tags entity_id 0) = Returned r.

(** The submission of a scenario succeeds, and leaves its task to the pool. *)
Lemma scenario_submitted (label : string) (tags : list Tag) (entity_id : string) (w : W) (s : System W) :
  idle payment_pipeline s -> exists now w' s' strand,
    (forall sc, run_scenario sc label tags entity_id (w, s) = exec_all (drained_by sc) (w', s')) /\
    holding payment_pipeline s strand (scenario_event tags entity_id now) Waiting s' /\
    pool_is_stopped (impl s') = false /\ is_Some (router (impl s')).
Proof.
  intros Hidle. unfold run_scenario. cbn [fst snd]. destruct (print _ w) as [[] w1]. destruct (system_now w1) as [now w2].
  set (e := scenario_event tags entity_id now).
  destruct (submit_room 1 e w2 s _ (idle_running _ _ Hidle) (idle_fresh _ _ Hidle)) as (strand & w3 & r' & Hsub & _ & Hps);
    [by apply (idle_room _ s 4 1 Hidle payment_limits)|lia|done|].
  rewrite Hsub. do 4 eexists. split; [intros sc; reflexivity|]. destruct Hidle as [Hobj Hst Hs Ht Hr Hfresh].
  rewrite Hs, Ht, Hr. split; [|by split]. by split_and!.
Qed.

(** What a scenario comes to under a schedule. *)
Lemma scenario_outcome (sc : Schedule) (label : string) (tags : list Tag) (entity_id : string) (w w' : W) (s s' : System W) :
  idle payment_pipeline s -> velocity_returns tags entity_id -> pool_only sc = true ->
  run_scenario sc label tags entity_id (w, s) = Some (w', s') ->
  idle payment_pipeline s' /\
  map report (emitted s') = map report (emitted s) ++ (if ran sc then [expected_report (label, tags, entity_id)] else []) /\
  map abandoned_entity (abandoned s') = map abandoned_entity (abandoned s) ++ (if ran sc then [] else [entity_id]).
Proof.
  intros Hidle Hv Hsc Hrun. destruct (scenario_submitted label tags entity_id w s Hidle) as (now & w1 & s1 & strand & Heq & Hh & _).
  rewrite Heq in Hrun. assert (Hcalls : calls_ok_on (payment_pipeline (W := W)) (scenario_event tags entity_id now)) by by apply payment_calls_ok.
  destruct (one_task_drained payment_pipeline s strand (scenario_event tags entity_id now) Hcalls
    sc w1 w' s1 s' Hh Hsc Hrun) as [Hidle' Hend].
  split; [done|]. destruct Hend as (_ & _ & _ & Hend). destruct (ran sc).
  - destruct Hend as (_ & -> & d & i & v & -> & Hd). rewrite map_app, app_nil_r. split; [|done]. f_equal.
    simpl. unfold report. simpl. by apply payment_decides in Hd as [-> _].
  - destruct Hend as (_ & -> & ->). by rewrite map_app, app_nil_r.
Qed.

(** Both ends are possible. *)
Lemma scenario_possible (b : bool) (label : string) (tags : list Tag) (entity_id : string) (w : W) (s : System W) :
  idle payment_pipeline s -> velocity_returns tags entity_id ->
  is_Some (run_scenario (schedule_of b) label tags entity_id (w, s)).
Proof.
  intros Hidle Hv. destruct (scenario_submitted label tags entity_id w s Hidle) as (now & w1 & s1 & strand & Heq & Hh & Hps & Hro).
  rewrite Heq. destruct Hh as (Hobj & Hsub & Ht & Hr & _). destruct b; unfold schedule_of, drained_by; cbn [before_drain before_stop before_end in_time too_late].
  - change ([] ++ [DoDrainBegin] ++ ?l) with (DoDrainBegin :: l). cbn [exec_all exec drain_begin].
    rewrite (exec_all_app [DoBegin 0; DoEnd 0]).
    destruct (run_oldest payment_pipeline strand (scenario_event tags entity_id now) [] w1
      (with_impl s1 (set_state (impl s1) Draining))) as (d & w4 & p2 & Hexec & _ & Hobj2 & Hst2 & Hr2 & _);
      [by apply payment_calls_ok|exact Hobj|exact Hps|exact Ht|exact Hr|].
    rewrite Hexec. cbn [app].
    match goal with |- is_Some (exec_all _ (w4, ?x)) => destruct (drain_restart payment_pipeline w4 x) as (p3 & -> & _) end;
      [exact Hobj2|exact Hst2|simpl; by rewrite Hr2|exact Hsub|done..].
  - destruct s1 as [[cf st ni fl ev sts em ro] sub tk ru ac emd ab]. simpl in *. subst. destruct Hro as [r ->]. by eexists.
Qed.

(** The scenarios one after the other. *)
Lemma scenarios_outcome (l : list (string * list Tag * string)) :
  Forall (fun x => velocity_returns x.1.2 x.2) l -> forall (scs : list Schedule) (w w' : W) (s s' : System W),
  idle payment_pipeline s -> forallb pool_only scs = true -> run_scenarios scs l (w, s) = Some (w', s') ->
  idle payment_pipeline s' /\
  map report (emitted s') = map report (emitted s) ++ kept (map ran scs) (map expected_report l) /\
  map abandoned_entity (abandoned s') = map abandoned_entity (abandoned s) ++ kept (map (fun sc => negb (ran sc)) scs) (map snd l).
Proof.
  induction 1 as [|[[label tags] entity_id] l Hv _ IH]; intros scs w w' s s' Hidle Hscs Hrun; cbn [run_scenarios] in Hrun.
  - destruct scs; injection Hrun as <- <-; by rewrite !app_nil_r.
  - destruct scs as [|sc scs]; [done|]. cbn [forallb run_scenarios] in Hscs, Hrun. apply andb_true_iff in Hscs as [Hsc Hscs].
    destruct (run_scenario sc label tags entity_id (w, s)) as [[w1 s1]|] eqn:H1e; [|done].
    destruct (scenario_outcome sc label tags entity_id w w1 s s1 Hidle Hv Hsc H1e) as (Hidle1 & Hem & Hab).
    destruct (IH scs w1 w' s1 s' Hidle1 Hscs Hrun) as (Hidle2 & Hem2 & Hab2). split; [done|].
    cbn [map]. rewrite !kept_cons, Hem2, Hem, Hab2, Hab, <- !app_assoc. split; [done|]. by destruct (ran sc).
Qed.

Lemma scenarios_possible (l : list (string * list Tag * string)) :
  Forall (fun x => velocity_returns x.1.2 x.2) l -> forall (flags : list bool) (w : W) (s : System W),
  length flags = length l -> idle payment_pipeline s -> is_Some (run_scenarios (map schedule_of flags) l (w, s)).
Proof.
  induction 1 as [|[[label tags] entity_id] l Hv _ IH]; intros flags w s Hlen Hidle.
  { by destruct flags; eexists. }
  destruct flags as [|b flags]; [done|]. cbn [map run_scenarios].
  destruct (scenario_possible b label tags entity_id w s Hidle Hv) as [[w1 s1] Hrun]. rewrite Hrun.
  apply IH; [by injection Hlen|]. eapply scenario_outcome; [exact Hidle|exact Hv| |exact Hrun]. by destruct b.
Qed.

Lemma scenarios_return :
  Forall (fun x => velocity_returns x.1.2 x.2) scenarios.
Proof. repeat constructor; eexists; by vm_compute. Qed.

Lemma drain_idle (c : PipelineConfig W) (w : W) (s : System W) : idle c s -> exists s',
  drain w s = Some (tt, w, s') /\ emitted s' = emitted s /\ abandoned s' = abandoned s /\ state_ (impl s') = Stopped.
Proof.
  intros Hidle. unfold drain, drain_begin, drain_stop, set_state. simpl. rewrite (idle_fresh _ _ Hidle). simpl.
  eexists. split; [reflexivity|]. simpl. rewrite (idle_tasks _ _ Hidle), app_nil_r. done.
Qed.

End Scenarios.

(** ** Properties *)

(** C6: whatever order [std::sort] leaves equal priorities in and however the
    threads of the payment pipeline interleave, every decision it ever emits
    carries exactly the active decisions its event calls for: block, review and
    notify for a sanctioned country; else review and notify above twenty
    transactions, an explicit approval being eliminated; else the approval of a
    known good entity; else none. *)
Theorem payment_emits_expected {W : Type} `{Clock W} `{Workers W} `{StdSort} `{StdHash} `{Stdout W}
    (s : System W) (Hreach : reachable payment_pipeline s) :
  payment_config payment_registry build_policy = Ok (payment_pipeline (W := W)) /\
  build_registry = Ok payment_registry /\
  forall x, x ∈ emitted s -> d_active_decisions x.2 = expected_decisions x.1.2.
Proof.
  split; [apply payment_config_eq|]. split; [apply build_registry_eq|]. apply Forall_forall.
  eapply (reachable_emitted payment_pipeline (fun e d => d_active_decisions d = expected_decisions e)); [|done].
  intros i e v d Hd. by apply payment_decides in Hd as [-> _].
Qed.

#[local] Instance sample_stdout : Stdout Z := { print := fun _ w => (tt, w) }.

Definition sample_payment : Event := scenario_event [tag "tx_count_1h" "25"; tag "country" "US"] "busy-user" 0.

Definition run_payment (l : list action) : option (Z * System Z) :=
  exec_all (H := Stages.sample_clock) (H0 := Stages.sample_workers) l
    (0, system_new (payment_pipeline (W := Z))).

Definition one_payment : list action := [DoStart; DoCheck sample_payment; DoDispatch 0; DoBegin 0; DoEnd 0].

Lemma payment_emits_expected_witness :
  match run_payment one_payment with
  | Some (_, s) => length (emitted s) = 1%nat /\
      Forall (fun x => d_active_decisions x.2 = expected_decisions x.1.2) (emitted s)
  | None => False
  end.
Proof.
  assert (Hlen : option_map (fun x => length (emitted x.2)) (run_payment one_payment) = Some 1%nat)
    by (vm_compute; reflexivity).
  destruct (run_payment one_payment) as [[w s]|] eqn:Hrun; [|discriminate Hlen].
  injection Hlen as Hlen. split; [exact Hlen|]. apply Forall_forall.
  apply (payment_emits_expected (H := Stages.sample_clock) (H0 := Stages.sample_workers) s
    (exec_all_reachable _ one_payment 0 w s Hrun)).
Defined.

(** C9: [main] of the example, whatever its pipeline's pool does in its calls of
    [drain]: it exits with 0 and leaves the pipeline stopped; each of the
    scenarios A to E whose coroutine ran before the pool's threads were joined
    has emitted the decisions its comment announces (none; review and notify;
    block, review and notify; review and notify; pass), and each of the others
    has been abandoned.  Every combination of the two is possible. *)
Theorem payment_main_as_announced {W : Type} `{TimedWorkers W} `{StdSort} `{StdHash} `{Stdout W} (w : W)
    (scs : list Schedule) (Hpool : forallb pool_only scs = true) :
  let announced :=
    [("clean-user", []); ("busy-user", ["review"; "notify"]); ("risky-user", ["block"; "review"; "notify"]);
     ("trusted-but-busy", ["review"; "notify"]); ("vip-user", ["pass"])] in
  (forall code w' o, payment_main scs w = Some (code, w', o) -> code = 0 /\ exists s', o = Some s' /\
     map report (emitted s') = kept (map ran scs) announced /\
     map abandoned_entity (abandoned s') = kept (map (fun sc => negb (ran sc)) scs) (map fst announced) /\
     state_ (impl s') = Stopped) /\
  (forall flags, length flags = 5%nat ->
     map ran (map schedule_of flags) = flags /\ is_Some (payment_main (map schedule_of flags) w)).
Proof.
  intros announced. unfold payment_main. rewrite build_registry_eq, payment_config_eq.
  destruct (start_idle payment_pipeline w) as (p & Hstart & Hidle). rewrite Hstart. split.
  - intros code w' o Hmain. destruct (run_scenarios scs scenarios _) as [[w1 s1]|] eqn:Hrun; [|done].
    destruct (scenarios_outcome scenarios scenarios_return scs w w1 _ s1 Hidle Hpool Hrun) as (Hidle1 & Hem & Hab).
    destruct (drain_idle _ w1 s1 Hidle1) as (s2 & Hd & Hem2 & Hab2 & Hst). rewrite Hd in Hmain. injection Hmain as <- <- <-.
    split; [done|]. exists s2. split; [done|]. rewrite Hem2, Hab2, Hem, Hab, Hst. cbn [with_impl emitted abandoned system_new map app].
    split_and!; [by vm_compute|done|done].
  - intros flags Hlen. split; [rewrite map_map; clear; induction flags as [|[|] flags IH]; cbn; by rewrite ?IH|].
    destruct (scenarios_possible scenarios scenarios_return flags w _ Hlen Hidle) as [[w1 s1] Hrun]. rewrite Hrun.
    assert (Hidle1 : idle payment_pipeline s1).
    { eapply scenarios_outcome; [exact scenarios_return|exact Hidle| |exact Hrun]. clear. by induction flags as [|[|] flags IH]. }
    destruct (drain_idle _ w1 s1 Hidle1) as (s2 & Hd & _). rewrite Hd. by eexists.
Qed.

(** The third scenario comes too late. *)
Definition sample_schedules : list Schedule := map schedule_of [true; true; false; true; true].

Lemma payment_main_as_announced_witness :
  match payment_main (H := Stages.sample_clock) (H0 := Stages.sample_workers) sample_schedules 0 with
  | Some (code, _, Some s) => code = 0 /\ map report (emitted s) =
      [("clean-user", []); ("busy-user", ["review"; "notify"]); ("trusted-but-busy", ["review"; "notify"]); ("vip-user", ["pass"])] /\
      map abandoned_entity (abandoned s) = ["risky-user"]
  | _ => False
  end.
Proof.
  destruct (payment_main_as_announced (H1 := Stages.sample_timed) 0 sample_schedules eq_refl) as [Hall _].
  assert (Hsome : (match payment_main (H := Stages.sample_clock) (H0 := Stages.sample_workers) sample_schedules 0 with
    | Some _ => true | None => false end) = true) by (vm_compute; reflexivity).
  destruct (payment_main sample_schedules 0) as [[[code w'] o]|] eqn:Hmain; [|discriminate Hsome].
  destruct (Hall code w' o eq_refl) as (-> & s & -> & Hem & Hab & _). split; [reflexivity|]. split; [exact Hem|exact Hab].
Defined.

(** A count that is no number leaves the velocity evaluator by an exception,
    against the contract of its concept: no decision is emitted, and the event
    stays in flight, so the next drain waits for its whole deadline. *)
Theorem payment_bad_count_leaks {W : Type} `{Clock W} `{Workers W} `{StdSort} `{StdHash} `{Stdout W}
    (i : Z) (event : Event) (w : W) (p : Impl W) (what : string)
    (Hobj : objects_of payment_pipeline p) (Hv : velocity_evaluate event = Threw what) :
  exists w', run_task i event w p = Some (None, w', p).
Proof.
  destruct Hobj as (Hc & Hs & es & He & _). unfold run_task. rewrite Hs, He, Hc.
  unfold run_event, bindM. destruct (steady_now w) as [t w1]. destruct (system_now w1) as [at_ w2].
  destruct (run_ingest_ok (make_stages payment_pipeline) (event_set_id event i) w2) as (io & w3 & -> & _).
  cbn [andb]. unfold with_optional at 1. cbn [ss_eval make_stages payment_pipeline cfg_eval].
  unfold with_stage at 1, run_eval at 1, eval_process, bindM at 1 2 3, bindX, retM. simpl. destruct (steady_now w3) as [start w4].
  unfold bindX, retM. change (velocity_evaluate (event_set_id event i)) with (velocity_evaluate event). rewrite Hv. by eexists.
Qed.

Lemma payment_bad_count_leaks_witness : exists w',
  run_task (H := Stages.sample_clock) (H0 := Stages.sample_workers) 1
    (scenario_event [tag "tx_count_1h" "many"] "busy-user" 0) 0
    (mkImpl payment_pipeline Running 1 1 true (Some (make_stages payment_pipeline))
       (Some (mkEmitStage (cfg_emit payment_pipeline) 0)) None)
  = Some (None, w', mkImpl payment_pipeline Running 1 1 true (Some (make_stages payment_pipeline))
       (Some (mkEmitStage (cfg_emit payment_pipeline) 0)) None).
Proof.
  eapply (payment_bad_count_leaks (H := Stages.sample_clock) (H0 := Stages.sample_workers)).
  - split_and!; [done|done|]. by eexists.
  - reflexivity.
Defined.
