(* ===== verification/Examples.v ===== *)
(** * The minimal and the ML pipelines of examples/

    examples/minimal_pipeline/main.cpp, and of examples/ml_pipeline/main.cpp the
    evaluators, the configuration and [main] over the test harness it includes
    (fre/testing/pipeline_harness.hpp, which the repository does not hold: an
    interface here).  What is written to the standard error is left out. *)

From S2P Require Import Prelude Ieee CoreTypes Errors DecisionTypes RuleEngine TenantRouter Config Stages PolicyStage EmitStage RunEvent Pipeline Concepts Scenario MultiDecision.
From Stdlib Require Import SpecFloat.

Open Scope list_scope.
Open Scope Z_scope.

(** ** The minimal pipeline *)

Module Minimal.

Inductive TrustedEntityAllowList : Type := mkTrustedList.

Definition evaluate (event : Event) : expected EvaluatorResult EvaluatorError :=
  if str_eqb (ev_entity_id event) "trusted-user" then Ok (plain_result "allow_list" Pass (Some "trusted_entity"))
  else Ok (plain_result "allow_list" Flag (Some "unknown_entity")).

#[export] Instance trusted_list (W : Type) : LightweightEvaluator W TrustedEntityAllowList := {
  lightweight_evaluate := fun _ event => retM (Returned (evaluate event))
}.

Section Main.

Context {W : Type} `{Clock W} `{Workers W} `{StdSort} `{StdHash} `{Stdout W}.

Definition config : expected (PipelineConfig W) Error :=
  build (builder_emit (builder_lightweight_eval (builder_ingest (builder_latency_budget
    (builder_pipeline_id builder_new "minimal-example") 300) (mkIngestConfig 30000 5))
    (eval_add (mkEvalConfig 10 FailOpen AnyBlock []) mkTrustedList))
    (emit_add_stdout_target (mkEmitConfig 10 EmitDegraded 3 []))).

Definition events : list (string * string) := [("acme", "trusted-user"); ("acme", "unknown-user"); ("acme", "trusted-user")].

(** The loop over the events; a refusal is only reported. *)
Fixpoint submit_all (l : list (string * string)) (x : W * System W) : option (W * System W) :=
  match l with
  | [] => Some x
  | (tenant, entity) :: l' =>
      let '(now, w) := system_now x.1 in
      match submit (mkEvent 0 tenant entity "api_call" now [] []) w x.2 with
      | None => None
      | Some (_, w, s) => submit_all l' (w, s)
      end
  end.

(** [main]; [pool] is what the pipeline's threads do before [drain] has seen no
    event in flight, or its deadline. *)
Definition main (pool : list action) (w : W) : option (Z * W * option (System W)) :=
  match config with
  | Unexpected _ => Some (1, w, None)
  | Ok c =>
      match start w (impl_new c) with
      | None => None
      | Some (Unexpected _, w, p) => Some (1, w, Some (with_impl (system_new c) p))
      | Some (Ok _, w, p) =>
          match submit_all events (w, with_impl (system_new c) p) with
          | None => None
          | Some x =>
              match exec_all ([DoDrainBegin] ++ pool ++ [DoDrainStop; DoDrainEnd]) x with
              | None => None
              | Some (w, s) => Some (0, w, Some s)
              end
          end
      end
  end.

End Main.

End Minimal.

(** ** The ML pipeline *)

(** [fre::testing::PipelineTestHarness]. *)
Class PipelineTestHarness (W : Type) : Type := {
  TestHarness : Type;
  harness_make : PipelineConfig W -> M W TestHarness;
  harness_start : TestHarness -> M W (expected unit Error);
  harness_submit_events : TestHarness -> list Event -> M W (expected unit Error);
  harness_wait_for_decisions : TestHarness -> nat -> Z -> M W (expected (list Decision) Error);
  harness_drain : TestHarness -> Z -> M W unit
}.

Module Ml.

(** A [float] literal [num / den]. *)
Definition float_literal (num den : Z) : float32 := f32_div (f32_of_Z num) (f32_of_Z den).

Record AnomalyScoreStub : Type := mkStub { fixed_score : float32 }.

Definition evaluate (stub : AnomalyScoreStub) (event : Event) : expected EvaluatorResult EvaluatorError :=
  Ok (mkEvaluatorResult "anomaly_stub" Pass None (Some (fixed_score stub)) false None None).

#[export] Instance anomaly_stub (W : Type) : InferenceEvaluator W AnomalyScoreStub := {
  inference_evaluate := fun stub event => retM (Returned (evaluate stub event));
  inference_evaluate_batch := None
}.

(** The test of the first lambda: [find] looks anywhere in the id. *)
Definition suspicious (event : Event) : bool := str_contains "suspicious" (ev_entity_id event).

Definition suspicious_prefix (event : Event) : expected EvaluatorResult EvaluatorError :=
  let verdict := if suspicious event then Flag else Pass in
  Ok (plain_result "suspicious_prefix" verdict
    (Some (if verdict_eqb verdict Flag then "suspicious_entity" else "clean"))).

Section Main.

Context {W : Type} `{StdSort} `{Stdout W}.

Definition eval_cfg : EvalStageConfig W :=
  eval_add_evaluator (mkEvalConfig 10 FailOpen AnyBlock []) (fun event => retM (Returned (suspicious_prefix event))).

Definition inf_cfg : InferenceStageConfig W :=
  let c := inference_add (mkInferenceConfig 200 FailOpen WeightedScore (float_literal 1 2) []) (mkStub (float_literal 92 100)) in
  mkInferenceConfig 100 (nc_failure_mode c) (nc_composition c) (float_literal 75 100) (nc_evaluators c).

Definition policy_cfg : PolicyStageConfig :=
  policy_add_rule (mkPolicyConfig 20 FailClosed [])
    (mkPolicyStageRule (And (Some (StageVerdictIs "eval" Flag)) (Some (EvaluatorScoreAbove "anomaly_stub" (float_literal 8 10))))
       1 Block "block_suspicious_high_anomaly" None).

Definition config : expected (PipelineConfig W) Error :=
  build (builder_emit (builder_policy_eval (builder_ml_inference (builder_lightweight_eval
    (builder_pipeline_id builder_new "ml-example") eval_cfg) inf_cfg) policy_cfg)
    (emit_add_stdout_target default_emit)).

Definition endl : string := String newline EmptyString.

Definition decision_line (d : Decision) : string :=
  "  entity=" +:+ d_entity_id d
  +:+ " verdict=" +:+ match d_final_verdict d with Block => "BLOCK" | Flag => "FLAG" | Pass => "PASS" end
  +:+ " elapsed=" +:+ to_string_Z (d_elapsed_us d) +:+ "µs"
  +:+ " degraded=" +:+ (if decision_is_degraded d then "yes" else "no") +:+ endl.

Fixpoint print_decisions (l : list Decision) : M W unit :=
  match l with
  | [] => retM tt
  | d :: l' => do _ <- print (decision_line d); print_decisions l'
  end.

Definition events : list (string * string) :=
  [("acme", "clean-user"); ("acme", "suspicious-bot-42"); ("acme", "suspicious-crawler")].

Context `{Clock W} `{PipelineTestHarness W}.

Fixpoint submit_all (h : TestHarness) (l : list (string * string)) : M W unit :=
  match l with
  | [] => retM tt
  | (tenant, entity) :: l' =>
      do now <- system_now;
      do _ <- harness_submit_events h [mkEvent 0 tenant entity "api_call" now [] []];
      submit_all h l'
  end.

Definition main : M W Z :=
  match config with
  | Unexpected _ => retM 1
  | Ok c =>
      do h <- harness_make c;
      do started <- harness_start h;
      match started with
      | Unexpected _ => retM 1
      | Ok _ =>
          do _ <- submit_all h events;
          do decisions_result <- harness_wait_for_decisions h (length events) 5000;
          match decisions_result with
          | Unexpected _ => retM 1
          | Ok decisions =>
              do _ <- print (endl +:+ "─── Collected Decisions ───" +:+ endl);
              do _ <- print_decisions decisions;
              do _ <- harness_drain h 3000;
              retM 0
          end
      end
  end.

End Main.

End Ml.

(** ** Workers that run what they are given *)

(** The thread of a worker stores what its evaluator returned before it sets the
    flag that [poll] reads. *)
Class FaithfulWorkers (W : Type) `{Clock W} `{Workers W} : Type := {
  runs : W -> Z -> EvaluatorFn W -> Event -> Prop;
  law_runs_spawn : forall fn e w, runs (spawn fn e w).2 (spawn fn e w).1 fn e;
  law_runs_now : forall h fn e w, runs w h fn e -> runs (steady_now w).2 h fn e;
  law_runs_sleep : forall ns h fn e w, runs w h fn e -> runs (sleep_for ns w).2 h fn e;
  law_runs_poll : forall h fn e w, runs w h fn e -> runs (poll h w).2 h fn e;
  law_runs_result : forall h fn e w r, runs w h fn e -> (poll h w).1 = Some r ->
    exists w0, (fn e w0).1 = Returned r
}.

(** ** Lemmas: the minimal pipeline *)

Section MinimalLemmas.

Import Minimal.

Definition minimal_eval {W : Type} : EvalStageConfig W := eval_add (mkEvalConfig 10 FailOpen AnyBlock []) mkTrustedList.

Definition minimal_pipeline {W : Type} `{Stdout W} : PipelineConfig W :=
  mkPipelineConfig "minimal-example" "1.0.0" 300 (mkShardingConfig 16 4 0) (mkRateLimitConfig 1000 500 100)
    (mkIngestConfig 30000 5) (Some minimal_eval) None None (emit_add_stdout_target (mkEmitConfig 10 EmitDegraded 3 [])) None.

Lemma minimal_config_eq {W : Type} `{Stdout W} : config = Ok (minimal_pipeline (W := W)).
Proof. reflexivity. Qed.

(** What the first stage and the allow list say together. *)
Definition minimal_says (event : Event) (d : Decision) : Prop :=
  exists io, head (d_stage_outputs d) = Some io /\ so_stage_id io = "ingest" /\
    d_final_verdict d = max_verdict (so_verdict io) (if decide (ev_entity_id event = "trusted-user") then Pass else Flag).

Section Any.

Context {W : Type} `{Clock W} `{Workers W} `{StdSort} `{StdHash} `{Stdout W}.

Lemma minimal_decides (i : Z) (event : Event) (w : W) (d : Decision) :
  (run_event minimal_pipeline (make_stages minimal_pipeline) false i event w).1 = Decided d -> minimal_says event d.
Proof.
  intros Hrun. apply run_event_trace in Hrun as [w_in at_ io d1 d2 d3 t w_end Hio He Hn Hp Hf].
  destruct (run_ingest_ok (make_stages minimal_pipeline) (event_set_id event i) w_in) as (io' & w1 & Hio' & Hid).
  rewrite Hio' in Hio. injection Hio as ->. simpl in Hn, Hp. subst d3 d2.
  destruct He as (w2 & out & He & ->). apply finish_decided in Hf as [Hout Hver].
  assert (Hev : exists eo, out = Ok eo /\ so_verdict eo = if decide (ev_entity_id event = "trusted-user") then Pass else Flag).
  { revert He. unfold run_eval, eval_process, evaluate, bindM, bindX, retM. simpl. destruct (steady_now w2) as [start w3].
    unfold bindX, retM, evaluate. change (ev_entity_id (event_set_id event i)) with (ev_entity_id event).
    unfold str_eqb. destruct (String.eqb_spec (ev_entity_id event) "trusted-user"); case_decide; try done;
      destruct (steady_now w3) as [stop w4]; intros [= <-]; by eexists. }
  destruct Hev as (eo & -> & Hev). exists io. rewrite Hout, Hver. simpl. split_and!; [done|done|].
  unfold max_over. simpl. by rewrite Hev, max_verdict_pass_l.
Qed.

End Any.

End MinimalLemmas.

(** ** Lemmas: the ML pipeline *)

Section Faithful.

Context {W : Type} `{FaithfulWorkers W}.

Lemma await_faithful (fn : EvaluatorFn W) (e : Event) (deadline worker : Z) (rounds : nat) :
  forall w r, runs w worker fn e -> (await rounds deadline worker w).1 = Completed r ->
  exists w0, (fn e w0).1 = Returned r.
Proof.
  induction rounds as [|rounds IH]; intros w r Hw; [done|]. cbn [await]. unfold bindM.
  pose proof (law_runs_result worker fn e w) as Hres. pose proof (law_runs_poll worker fn e w Hw) as Hw1.
  destruct (poll worker w) as [done_ w1]. simpl in *. destruct done_ as [r'|].
  { unfold retM. intros [= <-]. by apply (Hres r'). }
  pose proof (law_runs_now worker fn e w1 Hw1) as Hw2. destruct (steady_now w1) as [now w2]. simpl in *.
  destruct (Z.leb deadline now); [done|].
  pose proof (law_runs_sleep poll_interval_ns worker fn e w2 Hw2) as Hw3. destruct (sleep_for _ w2) as [[] w3]. by apply IH.
Qed.

(** The result of a worker: its evaluator's, or the failure mode's on time-out. *)
Lemma run_worker_faithful (fuel : nat) (c : InferenceStageConfig W) (i : nat) (fn : EvaluatorFn W) (e : Event)
    (w : W) (r : EvaluatorResult) (bit : DegradedReason) :
  (run_worker fuel c i fn e w).1 = Some (r, bit) ->
  (exists w0, (fn e w0).1 = Returned (Ok r) /\ bit = Degraded.None) \/
  (r = inference_apply_failure_mode (nc_failure_mode c) (inference_evaluator_id i) /\
   (bit = Degraded.EvaluatorTimeout \/ (bit = Degraded.EvaluatorError /\ exists w0 err, (fn e w0).1 = Returned (Unexpected err)))).
Proof.
  unfold run_worker, bindM. pose proof (law_runs_spawn fn e w) as Hw. destruct (spawn fn e w) as [worker w1]. simpl in Hw.
  pose proof (law_runs_now worker fn e w1 Hw) as Hw2. destruct (steady_now w1) as [now w2]. simpl in Hw2.
  pose proof (await_faithful fn e (now + nc_timeout c * ns_per_ms) worker fuel w2) as Ha.
  destruct (await fuel _ worker w2) as [[r'| |] w3]; simpl in Ha; [| |done].
  - destruct (Ha r' Hw2 eq_refl) as [w0 Hw0]. destruct (join worker w3) as [[] w4].
    destruct r' as [res|err]; intros [= <- <-]; [left; by exists w0|right]. split; [done|]. right. split; [done|]. by exists w0, err.
  - destruct (detach worker w3) as [[] w4]. intros [= <- <-]. right. split; [done|]. by left.
Qed.

End Faithful.

Section MlLemmas.

Import Ml.

Context {W : Type} `{FaithfulWorkers W} `{StdSort} `{StdHash} `{Stdout W}.

Definition ml_pipeline : PipelineConfig W :=
  mkPipelineConfig "ml-example" "1.0.0" 300 (mkShardingConfig 16 4 0) (mkRateLimitConfig 1000 500 100)
    (mkIngestConfig 30000 5) (Some eval_cfg) (Some inf_cfg) (Some policy_cfg) (emit_add_stdout_target default_emit) None.

Definition ml_rule : PolicyStageRule :=
  mkPolicyStageRule (And (Some (StageVerdictIs "eval" Flag)) (Some (EvaluatorScoreAbove "anomaly_stub" (float_literal 8 10))))
    1 Block "block_suspicious_high_anomaly" None.

Lemma ml_rules : pcfg_rules policy_cfg = [ml_rule].
Proof. unfold policy_cfg, policy_add_rule. cbn [pcfg_rules app]. apply Permutation_singleton_r, std_sort_perm. Qed.

Lemma ml_config_eq : config = Ok ml_pipeline.
Proof.
  unfold config, build. match goal with |- context [validate ?b] => assert (Hv : validate b = None) end.
  { apply validate_None. split; [done|]. split_and!; simpl; try done.
    intros p psr [= <-]. rewrite ml_rules. intros ->%list_elem_of_singleton. split; [|done].
    intros id Hid. inversion Hid as [| ? ? ? Hl | ? ? ? Hr | | |]; subst; [inversion Hl; subst; right; right; left; by split|inversion Hr]. }
  by rewrite Hv.
Qed.

(** The score of the model, if it answered in time. *)
Definition ml_score (answered : bool) : list EvaluatorResult :=
  if answered then [mkEvaluatorResult "anomaly_stub" Pass None (Some (float_literal 92 100)) false None None]
  else [inference_apply_failure_mode FailOpen (inference_evaluator_id 0)].

(** Whether the model answered in time is in the degradation of its stage. *)
Lemma ml_inference_gives (event : Event) (w : W) (out : expected StageOutput Error) :
  (run_inference inf_cfg event w).1 = Some (Returned out) -> exists o answered, out = Ok o /\
    so_stage_id o = "inference" /\ so_evaluator_results o = ml_score answered /\
    so_verdict o = (if answered then Flag else Pass) /\
    so_degraded_reason o = (if answered then Degraded.None else Degraded.EvaluatorTimeout).
Proof.
  unfold run_inference, inference_process, bindM, retM. destruct (steady_now w) as [start w1].
  cbn [nc_evaluators inf_cfg inference_add inference_add_evaluator app inference_loop]. unfold bindM, retM.
  match goal with |- context [run_worker ?f ?c ?i ?fn ?e w1] => pose proof (run_worker_faithful f c i fn e w1) as Hrw;
    destruct (run_worker f c i fn e w1) as [[[r bit]|] w2] end; [|done].
  destruct (Hrw r bit eq_refl) as [(w0 & Hr & ->)|(-> & [->|(-> & w0 & err & Hr)])]; [| |discriminate Hr].
  - unfold evaluate in Hr. simpl in Hr. injection Hr as <-. simpl. destruct (steady_now w2) as [stop w3]. intros [= <-].
    eexists _, true. by split_and!.
  - simpl. destruct (steady_now w2) as [stop w3]. intros [= <-]. eexists _, false. by split_and!.
Qed.

Lemma ml_eval_gives (event : Event) (w : W) (out : expected StageOutput Error) :
  (run_eval eval_cfg event w).1 = Some (Returned out) -> exists o, out = Ok o /\
    so_stage_id o = "eval" /\ so_verdict o = (if suspicious event then Flag else Pass) /\
    exists r, so_evaluator_results o = [r] /\ er_score r = None.
Proof.
  unfold run_eval, eval_process, suspicious_prefix, bindM, bindX, retM. simpl. destruct (steady_now w) as [start w1].
  unfold bindX, retM. destruct (suspicious event); destruct (steady_now w1) as [stop w2]; intros [= <-];
    eexists; split_and!; try done; by eexists.
Qed.

(** What the three stages and the policy say together. *)
(** The word is in the id. *)
Definition names_suspicious (event : Event) : Prop := exists before after, ev_entity_id event = before +:+ "suspicious" +:+ after.

Definition ml_verdict (is_suspicious answered : bool) : Verdict :=
  if (is_suspicious && answered)%bool then Block else if (is_suspicious || answered)%bool then Flag else Pass.

Definition ml_says (event : Event) (d : Decision) : Prop :=
  exists io eo no po (named answered : bool), d_stage_outputs d = [io; eo; no; po] /\
    (named = true <-> names_suspicious event) /\ map so_stage_id [io; eo; no] = ["ingest"; "eval"; "inference"] /\
    so_degraded_reason no = (if answered then Degraded.None else Degraded.EvaluatorTimeout) /\
    d_final_verdict d = max_verdict (so_verdict io) (ml_verdict named answered).

Lemma ml_rule_value (event : Event) (io eo no : StageOutput) (r : EvaluatorResult) (answered : bool) :
  so_stage_id io = "ingest" -> Forall (fun x => er_score x = None) (so_evaluator_results io) ->
  so_stage_id eo = "eval" -> so_verdict eo = (if suspicious event then Flag else Pass) ->
  so_evaluator_results eo = [r] -> er_score r = None -> so_evaluator_results no = ml_score answered ->
  rule_value (mkPolicyContext event [io; eo; no]) (psr_rule ml_rule) = (suspicious event && answered)%bool.
Proof.
  intros Hio Hscores Heo Hv Hr Hnone Hno.
  assert (Ha : eval_score_above (mkPolicyContext event [io; eo; no]) "anomaly_stub" (float_literal 8 10) = answered).
  { unfold eval_score_above, all_results. cbn [pc_stage_outputs fmap list_fmap concat]. rewrite Hr, Hno, !existsb_app.
    assert (Hi : existsb (fun er => str_eqb (er_evaluator_id er) "anomaly_stub" &&
      match er_score er with Some score => f_ge score (float_literal 8 10) | None => false end)%bool (so_evaluator_results io) = false).
    { apply existsb_not_elem_of. intros x Hx. rewrite Forall_forall in Hscores. rewrite (Hscores x Hx). apply andb_false_r. }
    rewrite Hi. cbn [existsb]. rewrite Hnone, andb_false_r. by destruct answered; vm_compute. }
  unfold rule_value, ml_rule. cbn [psr_rule RuleEngine.evaluate]. unfold bindM, retM. rewrite Ha.
  unfold eval_stage_verdict_is, stage_of. cbn [pc_stage_outputs find_first]. rewrite Hio, Heo. cbn. rewrite Hv.
  by destruct (suspicious event).
Qed.

Lemma ml_decides (i : Z) (event : Event) (w : W) (d : Decision) :
  (run_event ml_pipeline (make_stages ml_pipeline) false i event w).1 = Decided d -> ml_says event d.
Proof.
  intros Hrun. apply run_event_trace in Hrun as [w_in at_ io d1 d2 d3 t w_end Hio He Hn Hp Hf].
  apply run_ingest_scores in Hio as [Hid Hscores].
  destruct He as (w2 & out & He & ->). apply ml_eval_gives in He as (eo & -> & Heid & Hev & r & Hr & Hnone).
  destruct Hn as (w3 & out & Hn & ->). apply ml_inference_gives in Hn as (no & answered & -> & Hnid & Hno & Hnv & Hdeg).
  destruct Hp as (w4 & out & Hp & ->). set (ctx := mkPolicyContext _ _) in Hp. apply finish_decided in Hf as [Hout Hver].
  assert (Hclock : clockless_rules (pcfg_rules policy_cfg)) by (rewrite ml_rules; by repeat constructor).
  destruct (run_policy_clockless ctx policy_cfg None w4 Hclock) as [us Hus].
  cbv beta in Hp. cbn [cfg_registry ml_pipeline] in Hp. rewrite Hus in Hp. injection Hp as <-.
  pose proof (ml_rule_value (event_set_id event i) io eo no r answered Hid Hscores Heid Hev Hr Hnone Hno) as Hval.
  assert (Hpol : po_verdict (legacy_output ctx policy_cfg) = if (suspicious event && answered)%bool then Block else Pass).
  { unfold legacy_output. rewrite ml_rules. cbn [find_first].
    change (rule_value ctx (psr_rule ml_rule) = (suspicious event && answered)%bool) in Hval. rewrite Hval.
    by destruct (suspicious event), answered. }
  exists io, eo, no. eexists _, (suspicious event), answered. rewrite Hout, Hver. split; [reflexivity|].
  split; [apply str_contains_spec|]. split; [by rewrite <- Hid, <- Heid, <- Hnid|].
  split; [done|]. unfold max_over. cbn [d_stage_outputs push_stage_output set_stage_outputs new_decision app fold_left so_verdict].
  rewrite Hpol, Hev, Hnv, max_verdict_pass_l. change (suspicious (event_set_id event i)) with (suspicious event).
  unfold ml_verdict. by destruct (so_verdict io), (suspicious event), answered.
Qed.

End MlLemmas.

Section MinimalMain.

Import Minimal.

Context {W : Type} `{TimedWorkers W} `{StdSort} `{StdHash} `{Stdout W}.

Lemma minimal_calls_ok (event : Event) : calls_ok_on (minimal_pipeline (W := W)) event.
Proof.
  split_and!; [|simpl; lia..|repeat constructor; apply stdout_no_throw].
  intros i. split; [|done]. intros e [= <-]. apply Forall_cons. split; [by intros w|constructor].
Qed.

Definition task_key (t : Z * Event) : string * string := (ev_tenant_id t.2, ev_entity_id t.2).

Lemma submit_all_room (l : list (string * string)) :
  forall (w : W) (s : System W) r, state_ (impl s) = Running -> router (impl s) = Some r ->
  has_room (router_fuel (impl s)) (Z.of_nat (length l)) r -> pool_stopped r = false ->
  objects_of minimal_pipeline (impl s) -> exists w' p' ts r',
    submit_all l (w, s) = Some (w', mkSystem p' (submitting s) (tasks s ++ ts) (running s) (accepted s ++ ts) (emitted s) (abandoned s)) /\
    map task_key ts = l /\ objects_of minimal_pipeline p' /\ router p' = Some r' /\ pool_stopped r' = false.
Proof.
  induction l as [|[tenant entity] l IH]; intros w s r Hst Hr Hroom Hps Hobj.
  - exists w, (impl s), [], r. rewrite !app_nil_r. cbn [submit_all]. split_and!; [by destruct s|done..].
  - cbn [submit_all fst snd]. destruct (system_now w) as [now w1]. set (e := mkEvent 0 tenant entity "api_call" now [] []).
    destruct (submit_room _ e w1 s r Hst Hr Hroom ltac:(simpl length; lia) Hps) as (strand & w2 & r1 & Hsub & Hroom1 & Hps1).
    rewrite Hsub. match goal with |- context [submit_all l (w2, ?x)] => set (s1 := x) end.
    destruct (IH w2 s1 r1 Hst eq_refl) as (w3 & p3 & ts & r3 & Hall & Hts & Hobj3 & Hr3 & Hps3); [|exact Hps1|exact Hobj|].
    { simpl length in Hroom1. replace (Z.of_nat (S (length l)) - 1) with (Z.of_nat (length l)) in Hroom1 by lia. exact Hroom1. }
    exists w3, p3, ((strand, e) :: ts), r3. rewrite Hall. unfold s1. cbn [submitting tasks running accepted emitted abandoned].
    rewrite <- !app_assoc. split; [done|]. split; [|done]. cbn [map]. by rewrite Hts.
Qed.

End MinimalMain.

(** ** Properties *)

(** Under every schedule the minimal pipeline flags each event of an
    unknown entity and passes each of the trusted one, unless the event came
    late; and its [main], when the pool gets to its three tasks before the
    drain gives up, exits with 0 after exactly these three decisions, in the
    order of submission. *)
Theorem minimal_flags_unknown {W : Type} `{TimedWorkers W} `{StdSort} `{StdHash} `{Stdout W} :
  (forall s, reachable (minimal_pipeline (W := W)) s -> Forall (fun x => minimal_says x.1.2 x.2) (emitted s)) /\
  forall w, exists w' s', Minimal.main (run_queue 3) w = Some (0, w', Some s') /\
    map (fun x => task_key x.1) (emitted s') = Minimal.events /\ accepted s' = map fst (emitted s') /\
    Forall (fun x => minimal_says x.1.2 x.2) (emitted s') /\ state_ (impl s') = Stopped.
Proof.
  split.
  - intros s. apply (reachable_emitted minimal_pipeline minimal_says). intros i e v d. apply minimal_decides.
  - intros w. unfold Minimal.main. rewrite minimal_config_eq.
    destruct (start_idle minimal_pipeline w) as (p & Hstart & Hidle). rewrite Hstart.
    destruct (submit_all_room Minimal.events w (with_impl (system_new minimal_pipeline) p) _ (idle_running _ _ Hidle)
      (idle_fresh _ _ Hidle)) as (w1 & p1 & ts & r1 & -> & Hts & Hobj & Hr1 & Hps1);
      [apply (idle_room _ _ 4); [exact Hidle|unfold limits_ok; simpl; lia|simpl; lia..]|done|apply Hidle|].
    rewrite (exec_all_app [DoDrainBegin]). cbn [exec_all exec drain_begin]. rewrite (exec_all_app (run_queue 3)).
    match goal with |- context [exec_all (run_queue 3) (w1, ?x)] => set (s1 := x) end.
    assert (Hlen : length ts = 3%nat) by (by rewrite <- (length_map task_key), Hts).
    destruct (run_queue_empties minimal_pipeline ts) with (w := w1) (s := s1)
      as (w2 & p2 & xs & Hexec & Hxs & Hobj2 & Hst2 & Hr2).
    + apply Forall_true. intros t. apply minimal_calls_ok.
    + exact Hobj.
    + unfold pool_is_stopped. simpl. by rewrite Hr1.
    + done.
    + done.
    + rewrite Hlen in Hexec. rewrite Hexec. unfold s1. cbn [submitting accepted emitted abandoned with_impl system_new].
      destruct (drain_finish w2 (mkSystem p2 [] [] [] ([] ++ ts) ([] ++ xs) [])) as (p3 & Hd & Hst3); [exact Hst2|simpl; rewrite Hr2; simpl; rewrite Hr1; by eexists|done..|].
      change ([] ++ ts) with ts in *. change ([] ++ xs) with xs in *. rewrite Hd. exists w2. eexists. split; [reflexivity|].
      cbn [emitted accepted impl]. rewrite <- Hts.
      assert (Hfst : map fst xs = ts /\ Forall (fun x => minimal_says x.1.2 x.2) xs).
      { clear -Hxs. induction Hxs as [|t x ts xs (Hx & i & w & Hd) _ [IH1 IH2]]; [done|]. split.
        - cbn [map]. by rewrite Hx, IH1.
        - constructor; [|done]. rewrite Hx. by eapply minimal_decides. }
      destruct Hfst as [Hfst Hsays]. split_and!; [|by rewrite Hfst|done|done].
      by rewrite <- Hfst, map_map.
Qed.

Lemma minimal_flags_unknown_witness : exists w' s',
  Minimal.main (H := Stages.sample_clock) (H0 := Stages.sample_workers) (H3 := MultiDecision.sample_stdout)
    (run_queue 3) 0 = Some (0, w', Some s') /\ length (emitted s') = 3%nat.
Proof.
  destruct (minimal_flags_unknown (H := Stages.sample_clock) (H0 := Stages.sample_workers) (H1 := Stages.sample_timed)
    (H4 := MultiDecision.sample_stdout)) as [_ Hm].
  destruct (Hm 0) as (w' & s' & Hrun & Hkeys & _). exists w', s'. split; [exact Hrun|].
  apply (f_equal (length (A := _))) in Hkeys. rewrite length_map in Hkeys. exact Hkeys.
Defined.

(** C10: under every schedule each decision of the ML pipeline carries the four
    stages' outputs, and it blocks exactly the suspicious events whose model
    answered in time, flags those where only one of the two holds (a clean user
    too, as the stub's score is above the threshold) and passes the rest, unless
    the event came late; "suspicious" counts anywhere in the id. *)
Theorem ml_blocks_suspicious {W : Type} `{FaithfulWorkers W} `{StdSort} `{StdHash} `{Stdout W}
    (s : System W) (Hreach : reachable ml_pipeline s) :
  Ml.config = Ok (ml_pipeline (W := W)) /\ Forall (fun x => ml_says x.1.2 x.2) (emitted s).
Proof.
  split; [apply ml_config_eq|]. apply (reachable_emitted ml_pipeline ml_says); [|done].
  intros i e v d. apply ml_decides.
Qed.

(** A world whose workers finish at once: the time, and their results. *)
Definition eager : Type := Z * list (option (expected EvaluatorResult EvaluatorError)).

#[local] Instance eager_clock : Clock eager := {
  steady_now := fun w => (w.1, w);
  system_now := fun w => (w.1, w);
  sleep_for := fun ns w => (tt, (w.1 + ns, w.2))
}.

#[local] Instance eager_workers : Workers eager := {
  spawn := fun fn e w =>
    let '(r, w1) := fn e w in
    (Z.of_nat (length w1.2), (w1.1, w1.2 ++ [match r with Returned r => Some r | Threw _ => None end]));
  poll := fun h w => (mjoin (w.2 !! Z.to_nat h), w);
  detach := fun _ w => (tt, w);
  join := fun _ w => (tt, w)
}.

#[local] Instance eager_stdout : Stdout eager := { print := fun _ w => (tt, w) }.

#[local] Instance eager_faithful : FaithfulWorkers eager.
Proof.
  refine {| runs := fun w h fn e => forall r, mjoin (w.2 !! Z.to_nat h) = Some r -> exists w0, (fn e w0).1 = Returned r |};
    try done.
  - intros fn e w r. simpl. destruct (fn e w) as [o w1] eqn:Hfn. simpl. rewrite Nat2Z.id, lookup_app_r, Nat.sub_diag by lia.
    simpl. destruct o as [r'|what]; [|done]. intros [= <-]. exists w. by rewrite Hfn.
  - intros h fn e w r Hr Hp. by apply Hr.
Defined.

Definition suspicious_event : Event := mkEvent 0 "acme" "suspicious-bot-42" "api_call" 0 [] [].

Definition run_ml (l : list action) : option (eager * System eager) := exec_all l ((0, []), system_new ml_pipeline).

Definition one_suspicious : list action :=
  [DoStart; DoCheck suspicious_event; DoDispatch 0; DoBegin 0; DoEnd 0].

Lemma ml_blocks_suspicious_witness :
  match run_ml one_suspicious with
  | Some (_, s) => map (fun x => d_final_verdict x.2) (emitted s) = [Block] /\
      Forall (fun x => ml_says x.1.2 x.2) (emitted s)
  | None => False
  end.
Proof.
  assert (Hv : option_map (fun x => map (fun y => d_final_verdict y.2) (emitted x.2)) (run_ml one_suspicious) = Some [Block])
    by (vm_compute; reflexivity).
  destruct (run_ml one_suspicious) as [[w s]|] eqn:Hrun; [|discriminate Hv]. injection Hv as Hv. split; [exact Hv|].
  apply (ml_blocks_suspicious s (exec_all_reachable ml_pipeline one_suspicious (0, []) w s Hrun)).
Defined.
