(* ===== verification/Detection.v ===== *)
(** * A threshold evaluator inside a pipeline

    The composition the system is made for: a ThresholdEvaluator
    (include/fre/evaluator/threshold_evaluator.hpp) registered in the evaluation
    stage of a pipeline (src/pipeline/pipeline.cpp) whose world holds the window
    store.  Only the contracts are used: the laws of the store, of the clocks
    and of the targets. *)

From S2P Require Import Prelude Ieee CoreTypes Errors DecisionTypes RuleEngine StateStore Threshold ShuffleShard TokenBucket TenantRouter Config Stages PolicyStage EmitStage RunEvent Pipeline Concepts Scenario.

Open Scope list_scope.
Open Scope Z_scope.

(** ** Calls that leave the store alone *)

Section Quiet.

Context {W : Type} `{StateStoreLaws W}.

Definition same_store (w w' : W) : Prop :=
  store_ok w -> store_ok w' /\ forall k, store_key k -> store_view w' k = store_view w k.

Definition quiet {A : Type} (m : M W A) : Prop := forall w, same_store w (m w).2.

#[export] Instance same_store_preorder : PreOrder same_store.
Proof.
  split; [by intros w|]. intros w1 w2 w3 H12 H23 Hok. destruct (H12 Hok) as [Hok2 Hv2], (H23 Hok2) as [Hok3 Hv3].
  split; [done|]. intros k Hk. by rewrite Hv3, Hv2.
Qed.

Lemma quiet_ret {A : Type} (a : A) : quiet (retM a).
Proof. by intros w. Qed.

Lemma quiet_bind {A B : Type} (m : M W A) (k : A -> M W B) : quiet m -> (forall a, quiet (k a)) -> quiet (bindM m k).
Proof.
  intros Hm Hk w. unfold bindM. specialize (Hm w). destruct (m w) as [a w1]. simpl in Hm. specialize (Hk a w1).
  by transitivity w1.
Qed.

End Quiet.

(** Reading the clocks and sleeping leave the store alone. *)
Class QuietClock (W : Type) `{Clock W} `{StateStoreLaws W} : Prop := {
  quiet_steady : quiet (W := W) steady_now;
  quiet_system : quiet (W := W) system_now;
  quiet_sleep : forall ns, quiet (W := W) (sleep_for ns)
}.

(** Follow a computation to its calls, which [tac] knows to be quiet. *)
Ltac quiet_calls tac :=
  repeat first
    [ apply quiet_ret | apply quiet_steady | apply quiet_system | apply quiet_sleep | solve [tac]
    | apply quiet_bind; [|intros ?] | case_match ].

(** ** The pipelines considered *)

(** The evaluation stage holds the threshold evaluator alone and composes by the
    worst verdict; there is no inference stage, whose threads could touch the
    store; policy, registry, shards and limits are as they like; the targets
    have nothing to do with the store. *)
Definition detector {W : Type} `{StateStoreLaws W} (t : ThresholdEvaluator) (c : PipelineConfig W) : Prop :=
  (exists timeout mode rule, (rule = AnyBlock \/ rule = AnyFlag) /\
     cfg_eval c = Some (eval_add (mkEvalConfig timeout mode rule []) t)) /\
  cfg_inference c = None /\ Forall (fun target => forall d, quiet (target d)) (mc_targets (cfg_emit c)).

(** The decisions on one window, in the order of their emission. *)
Definition on_window (t : ThresholdEvaluator) (k : WindowKey) (l : list (Z * Event * Decision)) : list (Z * Event * Decision) :=
  filter (fun x => threshold_key (te_config t) x.1.2 = k) l.

(** What the evaluation stage says of the [n]th event of a window. *)
Definition counted (threshold n : Z) (d : Decision) : Prop :=
  exists eo, stage_output d "eval" = Some eo /\ so_verdict eo = (if Z.ltb threshold n then Flag else Pass) /\
    verdict_le (so_verdict eo) (d_final_verdict d).

Section Stages.

Context {W : Type} `{QuietClock W} `{StdSort}.

Lemma quiet_ingest (c : IngestStageConfig) (e : Event) : quiet (ingest_process c e).
Proof. unfold ingest_process. quiet_calls idtac. Qed.

Lemma quiet_evaluate (ctx : PolicyContext) (r : PolicyRule) : quiet (evaluate ctx r).
Proof.
  induction r as [r Hr|l r IHl IHr|l r IHl IHr|x IHx] using PolicyRule_children_ind.
  - destruct r; try done; cbn [evaluate]; quiet_calls idtac.
  - cbn [evaluate]. destruct l as [l|], r as [r|]; quiet_calls auto.
  - cbn [evaluate]. destruct l as [l|], r as [r|]; quiet_calls auto.
  - cbn [evaluate]. destruct x as [x|]; quiet_calls auto.
Qed.

Lemma quiet_rule_engine (ctx : PolicyContext) (r : PolicyRule) : quiet (rule_engine ctx r).
Proof. unfold rule_engine. quiet_calls ltac:(apply quiet_evaluate). Qed.

Lemma quiet_legacy_loop (mode : FailureMode) (ctx : PolicyContext) (rules : list PolicyStageRule) :
  forall o, quiet (legacy_loop rule_engine mode ctx rules o).
Proof.
  induction rules as [|psr rules IH]; intros o; cbn [legacy_loop]; quiet_calls ltac:(apply quiet_rule_engine || apply IH).
Qed.

Lemma quiet_multi_loop (mode : FailureMode) (registry : DecisionTypeRegistry) (ctx : PolicyContext) (rules : list PolicyStageRule) :
  forall o ms, quiet (multi_loop rule_engine mode registry ctx rules o ms).
Proof.
  induction rules as [|psr rules IH]; intros o ms; cbn [multi_loop]; quiet_calls ltac:(apply quiet_rule_engine || apply IH).
Qed.

Lemma quiet_policy (p : PolicyStageConfig * option DecisionTypeRegistry) (ctx : PolicyContext) : quiet (run_policy p ctx).
Proof.
  unfold run_policy, policy_process. quiet_calls ltac:(apply quiet_legacy_loop || apply quiet_multi_loop).
Qed.

Lemma quiet_finish (c : PipelineConfig W) (t : Z) (d : Decision) : quiet (finish_decision c t d).
Proof. unfold finish_decision. quiet_calls idtac. Qed.

Lemma quiet_emit_loop (retry_limit : Z) (target : EmissionFn W) (d : Decision) (fuel : nat) :
  quiet (target d) -> forall attempts, quiet (emit_loop fuel retry_limit attempts target d).
Proof.
  intros Ht. induction fuel as [|fuel IH]; intros attempts; cbn [emit_loop]; quiet_calls ltac:(apply Ht || apply IH).
Qed.

Lemma quiet_emit_targets (retry_limit : Z) (fuel : nat) (targets : list (EmissionFn W)) (d : Decision) :
  Forall (fun target => forall d, quiet (target d)) targets -> quiet (emit_targets fuel retry_limit targets d).
Proof.
  induction 1 as [|target targets Ht _ IH]; cbn [emit_targets]; quiet_calls ltac:(apply quiet_emit_loop, Ht || apply IH).
Qed.

Lemma quiet_emit (st : EmitStage W) (d : Decision) :
  Forall (fun target => forall d, quiet (target d)) (mc_targets (es_config st)) -> quiet (emit_process st d).
Proof. intros Ht. unfold emit_process. quiet_calls ltac:(by apply quiet_emit_targets). Qed.

End Stages.

(** ** One event *)

Section Event.

Context {W : Type} `{QuietClock W} `{Workers W} `{StdSort}.
Variable t : ThresholdEvaluator.
Variable threshold : Z.
Hypothesis Hthreshold : tc_threshold (te_config t) = f64_of_Z threshold.
Hypothesis Hrange : 0 <= threshold < 2 ^ prec64.

(** The store after one more event of a window. *)
Definition counts_event (e : Event) (n : Z) (w w' : W) : Prop :=
  store_ok w' /\ forall j, store_key j -> store_view w' j =
    if bool_decide (j = threshold_key (te_config t) e) then count_value (n + 1) else store_view w j.

Lemma counts_event_quiet (e : Event) (n : Z) (w1 w2 w3 w4 : W) :
  store_ok w1 -> same_store w1 w2 -> counts_event e n w2 w3 -> same_store w3 w4 -> counts_event e n w1 w4.
Proof.
  intros Hok H12 [Hok3 Hv3] H34. destruct (H12 Hok) as [Hok2 Hv2], (H34 Hok3) as [Hok4 Hv4]. split; [done|].
  intros j Hj. rewrite Hv4, Hv3 by done. case_bool_decide; [done|by apply Hv2].
Qed.

Lemma compose_single (rule : CompositionRule) (r : EvaluatorResult) :
  rule = AnyBlock \/ rule = AnyFlag -> er_verdict r <> Block -> compose rule [r] = er_verdict r.
Proof.
  intros Hrule Hr. unfold compose, has_verdict. cbn [length Nat.eqb existsb fold_left].
  destruct Hrule as [-> | ->]; by destruct (er_verdict r).
Qed.

Lemma detector_eval (timeout : Z) (mode : FailureMode) (rule : CompositionRule) (e : Event) (n : Z) (w : W) :
  rule = AnyBlock \/ rule = AnyFlag -> store_ok w -> store_key (threshold_key (te_config t) e) ->
  store_view w (threshold_key (te_config t) e) = count_value n -> 0 <= n -> n + 1 < 2 ^ prec64 ->
  exists eo w', run_eval (eval_add (mkEvalConfig timeout mode rule []) t) e w = (Some (Returned (Ok eo)), w') /\
    so_stage_id eo = "eval" /\ so_verdict eo = (if Z.ltb threshold (n + 1) then Flag else Pass) /\ counts_event e n w w'.
Proof.
  intros Hrule Hok Hk Hv Hn Hlt. unfold run_eval, eval_process, bindM, bindX, retM.
  pose proof (quiet_steady w) as Hq. destruct (steady_now w) as [start w1]. simpl in Hq.
  destruct (Hq Hok) as [Hok1 Hv1].
  destruct (threshold_evaluate_count (te_int_cast t) (te_config t) e n w1 Hok1 Hk ltac:(by rewrite Hv1) Hn Hlt)
    as (w2 & Heval & Hok2 & Hv2).
  assert (Hver := threshold_verdict (te_int_cast t) (te_config t) threshold (n + 1) Hthreshold Hrange ltac:(lia)).
  set (res := threshold_result _ _ _) in *. clearbody res.
  simpl. unfold bindX, returning, bindM, retM. rewrite Heval. simpl.
  pose proof (quiet_steady w2) as Hq2. destruct (steady_now w2) as [stop w3]. simpl in Hq2.
  eexists _, w3. split; [reflexivity|]. split; [done|]. simpl.
  split.
  - rewrite compose_single; [exact Hver|done|]. rewrite Hver. by destruct (Z.ltb _ _).
  - by apply (counts_event_quiet e n w w1 w2 w3).
Qed.

Lemma run_event_detects (c : PipelineConfig W) (i : Z) (e : Event) (n : Z) (w : W) :
  detector t c -> store_ok w -> store_key (threshold_key (te_config t) e) ->
  store_view w (threshold_key (te_config t) e) = count_value n -> 0 <= n -> n + 1 < 2 ^ prec64 ->
  exists d w', run_event c (make_stages c) false i e w = (Decided d, w') /\ counted threshold (n + 1) d /\ counts_event e n w w'.
Proof.
  intros ((timeout & mode & rule & Hrule & Heval) & Hinf & _) Hok Hk Hv Hn Hlt. unfold run_event, bindM.
  pose proof (quiet_steady w) as Hq1. destruct (steady_now w) as [t0 w1].
  pose proof (quiet_system w1) as Hq2. destruct (system_now w1) as [at_ w2].
  pose proof (run_ingest_ok (make_stages c) (event_set_id e i) w2) as (io & w3 & Hio & Hid).
  assert (Hq3 : quiet (run_ingest (make_stages c) (event_set_id e i)))
    by (unfold run_ingest; quiet_calls ltac:(apply quiet_ingest)).
  specialize (Hq3 w2). rewrite Hio in *. simpl in Hq1, Hq2, Hq3 |- *.
  assert (H03 : same_store w w3) by (etransitivity; [done|]; by etransitivity).
  destruct (H03 Hok) as [Hok3 Hv3].
  unfold with_optional at 1. cbn [ss_eval make_stages]. rewrite Heval. unfold with_stage at 1, bindM.
  destruct (detector_eval timeout mode rule (event_set_id e i) n w3 Hrule Hok3 Hk ltac:(by rewrite Hv3) Hn Hlt)
    as (eo & w4 & -> & Heid & Hev & Hcount).
  unfold with_optional at 1. cbn [ss_inference make_stages]. rewrite Hinf.
  set (d2 := push_stage_output (push_stage_output (new_decision c i at_ e) io) eo).
  match goal with |- context [with_optional ?conf ?st d2 ?k w4] =>
    assert (Hrest : exists d w', with_optional conf st d2 k w4 = (Decided d, w') /\ same_store w4 w' /\
      exists rest, d_stage_outputs d = io :: eo :: rest /\ d_final_verdict d = max_over so_verdict Pass (d_stage_outputs d)) end.
  { unfold with_optional. cbn [ss_policy make_stages].
    assert (Hfin : forall d w5, exists d' w', finish_decision c t0 d w5 = (Decided d', w') /\ same_store w5 w' /\
      d_stage_outputs d' = d_stage_outputs d /\ d_final_verdict d' = max_over so_verdict Pass (d_stage_outputs d)).
    { intros d w5. pose proof (quiet_finish c t0 d w5) as Hq. pose proof (finish_decided c t0 d) as Hf.
      specialize (Hf) with (w := w5). unfold finish_decision, bindM, retM in *. destruct (steady_now w5) as [now w6].
      eexists _, w6. split; [reflexivity|]. split; [exact Hq|]. by apply Hf. }
    destruct (option_map _ (cfg_policy c)) as [p|].
    - unfold with_stage, bindM.
      match goal with |- context [run_policy p ?ctx w4] => pose proof (quiet_policy p ctx w4) as Hqp;
        destruct (run_policy_gives p ctx w4) as (po & Hpo & _); destruct (run_policy p ctx w4) as [r w5] end.
      simpl in Hpo, Hqp. subst r. destruct (Hfin (push_stage_output d2 po) w5) as (d' & w' & -> & Hq & Hout & Hfinal).
      exists d', w'. split; [done|]. split; [by transitivity w5|]. rewrite Hout. exists [po]. by split.
    - destruct (Hfin d2 w4) as (d' & w' & -> & Hq & Hout & Hfinal). exists d', w'. split; [done|]. split; [done|].
      rewrite Hout. by exists []. }
  destruct Hrest as (d & w' & -> & Hq & rest & Hout & Hfinal). exists d, w'. split; [done|]. split.
  - exists eo. unfold stage_output. rewrite Hout. cbn [find_first]. rewrite Hid, Heid. split; [done|]. split; [done|].
    rewrite Hfinal, Hout. apply max_over_upper. right. left.
  - by apply (counts_event_quiet e n w w3 w4 w').
Qed.

End Event.

(** ** Every schedule *)

Section System.

Context {W : Type} `{QuietClock W} `{Workers W} `{StdSort} `{StdHash}.

Lemma get_or_create_quiet (fuel : nat) (tenant : string) (w w' : W) r ts r' :
  get_or_create_tenant fuel tenant w r = Some (ts, w', r') -> same_store w w'.
Proof.
  unfold get_or_create_tenant. destruct (tenants r !! tenant); [by intros [= _ <- _]|].
  destruct (assign_cells _ _ _ _); [|done]. pose proof (quiet_steady w) as Hq. destruct (steady_now w) as [now w1].
  destruct (bucket_new _ _ _); [|done]. by intros [= _ <- _].
Qed.

Lemma submit_check_quiet (e : Event) (w w' : W) (p p' : Impl W) res :
  submit_check e w p = Some (res, w', p') -> same_store w w'.
Proof.
  unfold submit_check. destruct (state_ p); try by intros [= _ <- _]. destruct (router p) as [r|]; [|done].
  unfold try_acquire. destruct (get_or_create_tenant _ _ w r) as [[[ts w1] r1]|] eqn:Hg; [|done].
  apply get_or_create_quiet in Hg. pose proof (quiet_steady w1) as Hq. destruct (steady_now w1) as [now w2]. simpl in Hq.
  destruct (try_consume _ _) as [[[] b]|]; [|..|done]; simpl; [destruct (Z.leb _ _)|]; intros [= _ <- _]; by transitivity w1.
Qed.

Lemma submit_dispatch_quiet (e : Event) (w w' : W) (p p' : Impl W) strand :
  submit_dispatch e w p = Some (strand, w', p') -> same_store w w'.
Proof.
  intros Hd. apply submit_dispatch_cases in Hd as (r & cells & w1 & r1 & r2 & _ & Hc & _ & Hr & _).
  unfold cells_for in Hc. destruct (get_or_create_tenant _ _ w r) as [[[ts w2] r3]|] eqn:Hg; [|done].
  apply get_or_create_quiet in Hg. injection Hc as _ -> _. unfold release in Hr.
  destruct (tenants r1 !! _); by injection Hr as <- _.
Qed.

Lemma emit_process_config (st st' : EmitStage W) (d : Decision) (w w' : W) out :
  emit_process st d w = (Some (Returned (out, st')), w') -> es_config st' = es_config st.
Proof.
  unfold emit_process, bindM, retM. destruct (steady_now w) as [start w1]. destruct (emit_targets _ _ _ d w1) as [[] w2]; try done.
  destruct (steady_now w2) as [stop w3]. by intros [= _ <- _].
Qed.

(** The objects of a pipeline of configuration [c], if it has any. *)
Definition made_of (c : PipelineConfig W) (p : Impl W) : Prop :=
  config p = c /\ (forall x, stages p = Some x -> x = make_stages c) /\ (forall x, emit p = Some x -> es_config x = cfg_emit c).

Variable t : ThresholdEvaluator.
Variable threshold : Z.
Variable c : PipelineConfig W.
Hypothesis Hthreshold : tc_threshold (te_config t) = f64_of_Z threshold.
Hypothesis Hrange : 0 <= threshold < 2 ^ prec64.
Hypothesis Hc : detector t c.

Lemma run_task_detects (i : Z) (e : Event) (n : Z) (w w' : W) (p p' : Impl W) (d : option Decision) :
  made_of c p -> store_ok w -> store_key (threshold_key (te_config t) e) ->
  store_view w (threshold_key (te_config t) e) = count_value n -> 0 <= n -> n + 1 < 2 ^ prec64 ->
  run_task i e w p = Some (d, w', p') -> exists dec,
    d = Some dec /\ counted threshold (n + 1) dec /\ counts_event t e n w w' /\ made_of c p'.
Proof.
  intros (Hconf & Hss & Hes) Hok Hk Hv Hn Hlt. unfold run_task.
  destruct (stages p) as [ss|] eqn:Hs; [|done]. rewrite (Hss ss eq_refl), Hconf.
  destruct (emit p) as [es|] eqn:He; [|done].
  destruct (run_event_detects t threshold Hthreshold Hrange c i e n w Hc Hok Hk Hv Hn Hlt) as (dec & w1 & -> & Hcounted & Hcount).
  pose proof (quiet_emit es dec) as Hq. rewrite (Hes es eq_refl) in Hq. specialize (Hq (proj2 (proj2 Hc)) w1).
  pose proof (emit_process_config es) as Hcfg.
  destruct (emit_process es dec w1) as [[[[out es']|what]|] w2] eqn:Hemit; [..|done]; intros [= <- <- <-]; exists dec.
  - split; [done|]. split; [done|]. split; [by apply (counts_event_quiet t e n w w w1 w2)|]. split; [done|].
    split; [simpl; rewrite Hs; exact Hss|]. simpl. intros x [= <-]. rewrite (Hcfg es' dec w1 w2 out Hemit). by apply Hes.
  - split; [done|]. split; [done|]. split; [by apply (counts_event_quiet t e n w w w1 w2)|]. split; [done|].
    split; [rewrite Hs; exact Hss|rewrite He; exact Hes].
Qed.

(** The store counts the decisions, and each decision knows its number. *)
Definition detection_inv (x : W * System W) : Prop :=
  let '(w, s) := x in
  store_ok w /\ made_of c (impl s) /\ (forall a, a ∈ tasks s -> a ∈ accepted s) /\ (forall a, a ∈ running s -> a.1 ∈ accepted s) /\
  forall k, store_key k ->
    store_view w k = count_value (Z.of_nat (length (on_window t k (emitted s)))) /\
    forall i a, on_window t k (emitted s) !! i = Some a -> counted threshold (Z.of_nat i + 1) a.2.

(** Steps that only read the clocks. *)
Lemma detection_frame (w w' : W) (s s' : System W) :
  detection_inv (w, s) -> same_store w w' -> made_of c (impl s') -> emitted s' = emitted s ->
  (forall a, a ∈ tasks s' -> a ∈ accepted s') -> (forall a, a ∈ running s' -> a.1 ∈ accepted s') -> detection_inv (w', s').
Proof.
  intros (Hok & _ & _ & _ & Hall) Hq Hm He Ht Hr. destruct (Hq Hok) as [Hok' Hv]. split_and!; [done..|].
  intros k Hk. rewrite He, Hv by done. by apply Hall.
Qed.

(** A task of a detector always comes to a decision. *)
Lemma run_task_emits (i : Z) (e : Event) (w w' : W) (p p' : Impl W) (d : option Decision) :
  made_of c p -> run_task i e w p = Some (d, w', p') -> exists dec, d = Some dec.
Proof.
  intros (Hconf & Hss & Hes). unfold run_task. destruct (stages p) as [ss|] eqn:Hs; [|done].
  rewrite (Hss ss eq_refl), Hconf. destruct (emit p) as [es|]; [|done].
  assert (Hdec : exists dec w1, run_event c (make_stages c) false i e w = (Decided dec, w1)).
  { destruct Hc as ((timeout & mode & rule & _ & Heval) & Hinf & _). unfold run_event, bindM.
    destruct (steady_now w) as [t0 w1]. destruct (system_now w1) as [at_ w2].
    destruct (run_ingest_ok (make_stages c) (event_set_id e i) w2) as (io & w3 & -> & _). cbn [andb].
    unfold with_optional. cbn [ss_eval ss_inference ss_policy make_stages]. rewrite Heval, Hinf. unfold with_stage, bindM.
    match goal with |- context [run_eval ?ec ?ev w3] => destruct (run_eval_gives ec ev) with (w := w3) as (eo & Heo & _);
      [|destruct (run_eval ec ev w3) as [r w4]] end.
    { apply Forall_cons. split; [|constructor]. apply (lightweight_returns t). }
    simpl in Heo. subst r. destruct (option_map _ (cfg_policy c)) as [q|]; [|unfold finish_decision, bindM, retM; by destruct (steady_now w4); do 2 eexists].
    match goal with |- context [run_policy q ?ctx w4] => destruct (run_policy_gives q ctx w4) as (po & Hpo & _); destruct (run_policy q ctx w4) as [r w5] end.
    simpl in Hpo. subst r. unfold finish_decision, bindM, retM. destruct (steady_now w5). by do 2 eexists. }
  destruct Hdec as (dec & w1 & ->). destruct (emit_process es dec w1) as [[[[out es']|what]|] w2]; [..|done]; intros [= <- _ _]; by exists dec.
Qed.

Lemma run_task_made (i : Z) (e : Event) (w w' : W) (p p' : Impl W) (d : option Decision) :
  run_task i e w p = Some (d, w', p') -> made_of c p -> made_of c p'.
Proof.
  intros Hrun (Hconf & Hss & Hes). pose proof (run_task_cases _ _ _ _ _ _ _ Hrun) as (Hconf' & Hss' & _).
  split; [congruence|]. split; [by rewrite Hss'|]. revert Hrun. unfold run_task.
  destruct (stages p) as [ss|]; [|done]. destruct (emit p) as [es|] eqn:He; [|done].
  destruct (run_event _ _ _ _ _ _) as [[r|r|what|] w1]; [|intros [= _ _ <-]; simpl; by rewrite He..|done].
  destruct (emit_process es r w1) as [[[[out es']|what]|] w2] eqn:Hemit; [..|done]; intros [= _ _ <-]; simpl.
  - intros x [= <-]. rewrite (emit_process_config _ _ _ _ _ _ Hemit). by apply Hes.
  - by rewrite He.
Qed.

Lemma made_of_step (w w' : W) (s s' : System W) :
  system_step (w, s) (w', s') -> made_of c (impl s) -> made_of c (impl s').
Proof.
  intros Hstep Hm. inversion Hstep as [? ? ? ? p' Hsb Hs|? ? e err ? p' Hs|? ? e ? p' Hlt Hs
    |? ? i e strand ? p' Hi Hs|? ? i strand e Hi Hn Hp|? ? i strand e id d ? p' Hi Hs|? ? ? p' Hs|? ? ? p' Hd Hs
    |? ? ? p' Hd Hp Hrun Hs]; subst; simpl.
  - unfold start in Hs. destruct (state_ (impl s)); injection Hs as _ _ <-; try done. destruct Hm as (Hconf & _).
    split_and!; [done|by intros x [= <-]; rewrite Hconf|by intros x [= <-]; rewrite Hconf].
  - apply submit_check_cases in Hs as [(_ & -> & _)|(r & r' & rr & _ & _ & -> & _)]; done.
  - apply submit_check_cases in Hs as [(_ & -> & _)|(r & r' & rr & _ & _ & -> & _)]; done.
  - apply submit_dispatch_cases in Hs as (r & cells & w1 & r1 & r2 & _ & _ & _ & _ & ->). done.
  - done.
  - by eapply run_task_made.
  - by injection Hs as _ <-.
  - unfold drain_stop in Hs. destruct (router (impl s)) as [r|]; [|done].
    destruct (router_stop w r) as [[[u w1] r1]|]; [|done]. by injection Hs as _ <-.
  - by injection Hs as _ <-.
Qed.

(** One more decision on a window. *)
Lemma on_window_app (k : WindowKey) (l : list (Z * Event * Decision)) (x : Z * Event * Decision) :
  on_window t k (l ++ [x]) = on_window t k l ++ (if bool_decide (threshold_key (te_config t) x.1.2 = k) then [x] else []).
Proof. unfold on_window. rewrite filter_app, filter_cons. by repeat case_decide || case_bool_decide. Qed.

Lemma detection_ended (w w' : W) (s : System W) p' i strand e id d :
  detection_inv (w, s) -> running s !! i = Some (strand, e, id) -> run_task id e w (impl s) = Some (d, w', p') ->
  (forall a, a ∈ accepted s -> store_key (threshold_key (te_config t) a.2)) ->
  Z.of_nat (length (emitted s)) + 1 < 2 ^ prec64 -> detection_inv (w', ended s p' i strand e d).
Proof.
  intros (Hok & Hm & Ht & Hr & Hall) Hi Hrun Hkeys Hlen.
  assert (Hk : store_key (threshold_key (te_config t) e)).
  { apply (Hkeys (strand, e)), (Hr (strand, e, id)). by eapply list_elem_of_lookup_2. }
  destruct (Hall _ Hk) as [Hv _].
  pose proof (length_filter (fun x => threshold_key (te_config t) x.1.2 = threshold_key (te_config t) e) (emitted s)) as Hle.
  fold (on_window t (threshold_key (te_config t) e) (emitted s)) in Hle.
  destruct (run_task_detects id e _ w w' (impl s) p' d Hm Hok Hk Hv ltac:(lia) ltac:(lia) Hrun)
    as (dec & -> & Hcounted & [Hok' Hv'] & Hm').
  split_and!; [done|done|done| |].
  - simpl. intros a Ha. apply Hr. rewrite (delete_Permutation _ _ _ Hi). by right.
  - intros k Hkk. destruct (Hall k Hkk) as [Hvk Hdk]. simpl. rewrite on_window_app, Hv' by done. simpl.
    case_bool_decide as Hcase.
    + subst k. rewrite bool_decide_eq_true_2 by done. rewrite length_app. simpl. split.
      { f_equal. lia. }
      intros j a Hj. apply lookup_app_Some in Hj as [Hj|[Hge Hj]]; [by apply Hdk|].
      apply list_lookup_singleton_Some in Hj as [Hz <-]. simpl.
      by replace (Z.of_nat j) with (Z.of_nat (length (on_window t (threshold_key (te_config t) e) (emitted s)))) by lia.
    + rewrite bool_decide_eq_false_2 by done. by rewrite app_nil_r.
Qed.

Lemma history_monotone (w w' : W) (s s' : System W) :
  system_step (w, s) (w', s') ->
  (forall a, a ∈ accepted s -> a ∈ accepted s') /\ (length (emitted s) <= length (emitted s'))%nat.
Proof.
  intros Hstep. inversion Hstep as [|? ? e err ? p' Hs|? ? e ? p' Hlt Hs|? ? i e strand ? p' Hi Hs|
    |? ? i strand e id d ? p' Hi Hs|? ? ? p' Hs|? ? ? p' Hd Hs|? ? ? p' Hd Hp Hrun Hs]; subst; simpl; try done.
  - split; [|done]. intros a Ha. apply elem_of_app. by left.
  - split; [done|]. destruct d; rewrite ?length_app; lia.
Qed.

Lemma detection_step (w w' : W) (s s' : System W) :
  system_step (w, s) (w', s') -> detection_inv (w, s) ->
  (forall a, a ∈ accepted s' -> store_key (threshold_key (te_config t) a.2)) ->
  Z.of_nat (length (emitted s')) < 2 ^ prec64 -> detection_inv (w', s').
Proof.
  intros Hstep Hinv Hkeys Hlen. pose proof Hinv as (_ & Hm & Ht & Hr & _).
  destruct (history_monotone _ _ _ _ Hstep) as [Hacc Hle].
  pose proof (made_of_step _ _ _ _ Hstep Hm) as Hm'.
  inversion Hstep as [? ? ? ? p' Hsb Hs|? ? e err ? p' Hs|? ? e ? p' Hlt Hs
    |? ? i e strand ? p' Hi Hs|? ? i strand e Hi Hn Hp|? ? i strand e id d ? p' Hi Hs|? ? ? p' Hs|? ? ? p' Hd Hs
    |? ? ? p' Hd Hp Hrun Hs]; subst.
  - apply (detection_frame w w' s); try done. unfold start in Hs. by destruct (state_ (impl s)); injection Hs as _ <- _.
  - apply (detection_frame w w' s); try done. by eapply submit_check_quiet.
  - apply (detection_frame w w' s); try done. by eapply submit_check_quiet.
  - apply (detection_frame w w' s); try done; [by eapply submit_dispatch_quiet|..]; simpl.
    + intros a Ha. apply elem_of_app. destruct (pool_is_stopped p'); [left; by apply Ht|].
      apply elem_of_app in Ha as [Ha|Ha]; [left; by apply Ht|by right].
    + intros a Ha. apply elem_of_app. left. by apply Hr.
  - apply (detection_frame w' w' s); try done; simpl.
    + intros a Ha. apply Ht. rewrite (delete_Permutation _ _ _ Hi). by right.
    + intros a Ha. apply elem_of_app in Ha as [Ha|Ha]; [by apply Hr|].
      apply list_elem_of_singleton in Ha as ->. simpl. apply Ht. by eapply list_elem_of_lookup_2.
  - destruct (run_task_emits id e w w' (impl s) p' d Hm Hs) as [dec ->].
    apply (detection_ended w w' s p' i strand e id (Some dec)); try done. simpl in Hlen. rewrite length_app in Hlen. simpl in Hlen. lia.
  - apply (detection_frame w w' s); try done. by injection Hs as <- _.
  - apply (detection_frame w w' s); try done; [|simpl; set_solver]. unfold drain_stop, router_stop in Hs.
    destruct (router (impl s)) as [r|]; [|done]. by injection Hs as <- _.
  - apply (detection_frame w w' s); try done. by injection Hs as <- _.
Qed.

End System.

(** ** A clock beside a store *)

Section Beside.

Context {S : Type} `{StateStoreLaws S}.

Definition beside {A : Type} (m : M S A) : M (Z * S) A := fun w => let '(a, s) := m w.2 in (a, (w.1, s)).

#[local] Instance beside_store : StateStore (Z * S) := {
  store_get := fun k => beside (store_get k);
  store_cas := fun k e n => beside (store_cas k e n);
  store_expire := fun k => beside (store_expire k);
  store_available := fun w => store_available w.2
}.

#[local] Instance beside_clock : Clock (Z * S) := {
  steady_now := fun w => (w.1, w);
  system_now := fun w => (w.1, w);
  sleep_for := fun ns w => (tt, (w.1 + ns, w.2))
}.

#[local] Instance beside_laws : StateStoreLaws (Z * S).
Proof.
  refine {| store_ok := fun w => store_ok w.2; store_key := store_key; store_view := fun w => store_view w.2 |}.
  - intros k [z s] Hok Hk. destruct (law_get k s Hok Hk) as (s' & Heq & Hok' & Hv).
    exists (z, s'). unfold store_get, beside_store, beside. cbn [snd]. by rewrite Heq.
  - intros k e n [z s] Hok Hk. destruct (law_cas k e n s Hok Hk) as (s' & Heq & Hok' & Hv).
    exists (z, s'). unfold store_cas at 1, beside_store, beside. cbn [snd]. by rewrite Heq.
  - intros k [z s] Hok Hk. destruct (law_expire k s Hok Hk) as (s' & Heq & Hok' & Hv).
    exists (z, s'). unfold store_expire, beside_store, beside. cbn [snd]. by rewrite Heq.
Defined.

#[local] Instance beside_quiet : QuietClock (Z * S).
Proof. split; by intros. Qed.

End Beside.

(** ** Properties *)


#[local] Existing Instance beside_store.
#[local] Existing Instance beside_clock.
#[local] Existing Instance beside_laws.
#[local] Existing Instance beside_quiet.

(** Three requests of one entity over a store of 64 shards, two a minute allowed. *)
Definition sample_threshold : ThresholdEvaluator :=
  mkThreshold (mkThresholdConfig 60000 AggCount ByEntityId (f64_of_Z 2) "" "w") (fun _ => 0).

Definition sample_detector : PipelineConfig (Z * InProcessWindowStore) :=
  mkPipelineConfig "p" "1.0.0" 300 (mkShardingConfig 16 4 2) (mkRateLimitConfig 1000 500 100) (mkIngestConfig 30000 5)
    (Some (eval_add (mkEvalConfig 10 FailOpen AnyBlock []) sample_threshold)) None None
    (mkEmitConfig 10 EmitDegraded 3 [noop_target]) None.

#[local] Instance beside_workers : Workers (Z * InProcessWindowStore) := {
  spawn := fun _ _ w => (0, w);
  poll := fun _ w => (None, w);
  detach := fun _ w => (tt, w);
  join := fun _ w => (tt, w)
}.

Definition one_request : list action := [DoCheck Threshold.sample_event; DoDispatch 0; DoBegin 0; DoEnd 0].

Definition run_detector : option ((Z * InProcessWindowStore) * System (Z * InProcessWindowStore)) :=
  exec_all (H := beside_clock) ([DoStart] ++ one_request ++ one_request ++ one_request)
    ((0, inprocess_new 64), system_new sample_detector).

Lemma sample_key_plain : plain_key (threshold_key (te_config sample_threshold) Threshold.sample_event).
Proof. repeat split; vm_compute; congruence. Qed.

