(* ===== verification/AuditLog.v ===== *)
(** * The audit trail of a pipeline

    The call [log_audit(decision)] of [run_event] (src/pipeline/pipeline.cpp),
    between the stages and the emission, for asynchronous and synchronous
    submissions: the systems of Pipeline.v and SyncSubmit.v at a finer grain, in
    which a coroutine decides and logs in one step and emits in another, so that
    coroutines of different strands interleave between the two. *)

From S2P Require Import Prelude Ieee CoreTypes Errors DecisionTypes RuleEngine ShuffleShard TokenBucket TenantRouter.
From S2P Require Import Config Stages EmitStage PolicyStage RunEvent Pipeline SyncSubmit Logging Scenario.

Open Scope list_scope.
Open Scope Z_scope.

(** ** Asynchronous submissions *)

(** The pipeline, the coroutines that have logged their decision and not yet
    emitted it, and what was logged. *)
Record Trail (W : Type) : Type := mkTrail {
  tr_system : System W;
  tr_decided : list (Z * Event * Z * Decision);
  tr_log : list (Z * Event * Decision)
}.

Arguments mkTrail {W}. Arguments tr_system {W}. Arguments tr_decided {W}. Arguments tr_log {W}.

(** The records posted to the queue of the loggers set up. *)
Definition audit_records {W : Type} (ls : LogState) (t : Trail W) : list (Logger * string) :=
  omap (fun x => log_audit ls x.2) (tr_log t).

Section Trails.

Context {W : Type} `{Clock W} `{Workers W} `{StdSort} `{StdHash}.

(** [emit->process(std::move(decision))] and [on_event_complete()]. *)
Definition after_emit {A : Type} (p : Impl W) (r : outcome (A * EmitStage W)) : Impl W :=
  match r with Threw _ => p | Returned (_, es) => on_event_complete (set_emit p es) end.

Inductive trail_step : W * Trail W -> W * Trail W -> Prop :=
| trail_other w t w' s' :
    system_step (w, tr_system t) (w', s') -> (length (running (tr_system t)) <= length (running s'))%nat ->
    trail_step (w, t) (w', mkTrail s' (tr_decided t) (tr_log t))
| trail_decides w t w' i strand e id ss d :
    running (tr_system t) !! i = Some (strand, e, id) -> (strand, e, id) ∉ map fst (tr_decided t) ->
    stages (impl (tr_system t)) = Some ss ->
    run_event (config (impl (tr_system t))) ss false id e w = (Decided d, w') ->
    trail_step (w, t) (w', mkTrail (tr_system t) (tr_decided t ++ [(strand, e, id, d)]) (tr_log t ++ [(strand, e, d)]))
| trail_throws w t w' i strand e id ss what :
    running (tr_system t) !! i = Some (strand, e, id) -> (strand, e, id) ∉ map fst (tr_decided t) ->
    stages (impl (tr_system t)) = Some ss ->
    run_event (config (impl (tr_system t))) ss false id e w = (RunThrew what, w') ->
    trail_step (w, t) (w', mkTrail (ended (tr_system t) (impl (tr_system t)) i strand e None) (tr_decided t) (tr_log t))
| trail_emits w t w' i j strand e id es d r :
    running (tr_system t) !! i = Some (strand, e, id) -> tr_decided t !! j = Some (strand, e, id, d) ->
    emit (impl (tr_system t)) = Some es -> emit_process es d w = (Some r, w') ->
    trail_step (w, t) (w', mkTrail (ended (tr_system t) (after_emit (impl (tr_system t)) r) i strand e (Some d))
      (delete j (tr_decided t)) (tr_log t)).

Definition trail_reachable (c : PipelineConfig W) (t : Trail W) : Prop :=
  exists w0 w, rtc trail_step (w0, mkTrail (system_new c) [] []) (w, t).

End Trails.

(** ** Specification *)

Definition entries_on {A : Type} (k : Z) (l : list (Z * Event * A)) : list (Z * Event * A) := filter (fun x => x.1.1 = k) l.

(** A decision logged and not yet emitted. *)
Definition pending_entry (x : Z * Event * Z * Decision) : Z * Event * Decision := (x.1.1.1, x.1.1.2, x.2).

(** ** Lemmas *)

Section TrailLemmas.

Context {W : Type} `{Clock W} `{Workers W} `{StdSort} `{StdHash}.

Record trail_inv (t : Trail W) : Prop := {
  trail_one : forall k, (length (entries_on k (running (tr_system t))) <= 1)%nat;
  trail_decided : forall x, x ∈ tr_decided t -> x.1 ∈ running (tr_system t);
  trail_nodup : NoDup (map fst (tr_decided t));
  trail_perm : tr_log t ≡ₚ emitted (tr_system t) ++ map pending_entry (tr_decided t);
  trail_order : forall k, entries_on k (tr_log t) = entries_on k (emitted (tr_system t)) ++ entries_on k (map pending_entry (tr_decided t))
}.

Lemma entries_app {A : Type} (k : Z) (l1 l2 : list (Z * Event * A)) : entries_on k (l1 ++ l2) = entries_on k l1 ++ entries_on k l2.
Proof. apply filter_app. Qed.

(** On a strand the running coroutine is alone. *)
Lemma running_alone (s : System W) (i : nat) (x y : Z * Event * Z) :
  (forall k, (length (entries_on k (running s)) <= 1)%nat) -> running s !! i = Some x -> y ∈ running s -> y.1.1 = x.1.1 -> y = x.
Proof.
  intros Hone Hi Hy Hk. specialize (Hone x.1.1).
  assert (Hx : x ∈ entries_on x.1.1 (running s)) by (apply list_elem_of_filter; split; [done|by eapply list_elem_of_lookup_2]).
  assert (Hy' : y ∈ entries_on x.1.1 (running s)) by (apply list_elem_of_filter; by split).
  destruct (entries_on x.1.1 (running s)) as [|a [|b l]]; simpl in Hone; [by apply elem_of_nil in Hx| |lia].
  apply list_elem_of_singleton in Hx, Hy'. congruence.
Qed.

Lemma entries_delete (s : System W) (i : nat) (x : Z * Event * Z) :
  (forall k, (length (entries_on k (running s)) <= 1)%nat) -> running s !! i = Some x ->
  forall k, (length (entries_on k (delete i (running s))) <= 1)%nat.
Proof.
  intros Hone Hi k. specialize (Hone k). unfold entries_on in *. rewrite (delete_Permutation _ _ _ Hi) in Hone.
  rewrite filter_cons in Hone. case_decide; simpl in Hone; lia.
Qed.

(** Other steps begin coroutines or leave them alone. *)
Lemma running_grows (w w' : W) (s s' : System W) :
  system_step (w, s) (w', s') -> (length (running s) <= length (running s'))%nat ->
  emitted s' = emitted s /\ (forall x, x ∈ running s -> x ∈ running s') /\
  ((forall k, (length (entries_on k (running s)) <= 1)%nat) -> forall k, (length (entries_on k (running s')) <= 1)%nat).
Proof.
  intros Hstep Hlen. inversion Hstep as [? ? ? ? p' Hsb Hs|? ? e err ? p' Hs|? ? e ? p' Hlt Hs
    |? ? i e strand ? p' Hi Hs|? ? i strand e Hi Hn Hp|? ? i strand e id d ? p' Hi Hs|? ? ? p' Hs|? ? ? p' Hd Hs
    |? ? ? p' Hd Hp Hrun Hs]; subst; try done.
  - split; [done|]. split; [intros x Hx; apply elem_of_app; by left|]. intros Hone k. simpl. rewrite entries_app, length_app.
    unfold entries_on at 2. rewrite filter_cons. case_decide as Hk; [|specialize (Hone k); simpl; lia]. simpl in Hk. subst k.
    destruct Hn as [_ Hfree]. unfold entries_on. rewrite filter_none; [done|]. intros x Hx. by apply Hfree.
  - simpl in Hlen. apply lookup_lt_Some in Hi as Hlt. rewrite length_delete in Hlen by by eexists. lia.
Qed.

Lemma trail_inv_step (w w' : W) (t t' : Trail W) : trail_step (w, t) (w', t') -> trail_inv t -> trail_inv t'.
Proof.
  intros Hstep [Hone Hdec Hnd Hperm Horder].
  inversion Hstep as [? ? ? s' Hs Hlen|? ? ? i strand e id ss d Hi Hn Hss Hrun|? ? ? i strand e id ss what Hi Hn Hss Hrun
    |? ? ? i j strand e id es d r Hi Hj He Hrun]; subst; cbn [tr_system tr_decided tr_log].
  - destruct (running_grows _ _ _ _ Hs Hlen) as (Hem & Hin & Hone'). split; cbn [tr_system tr_decided tr_log]; rewrite ?Hem; auto.
  - split; cbn [tr_system tr_decided tr_log].
    + done.
    + intros x Hx. apply elem_of_app in Hx as [Hx|Hx]; [by apply Hdec|]. apply list_elem_of_singleton in Hx as ->.
      by eapply list_elem_of_lookup_2.
    + rewrite map_app. apply NoDup_app. split; [done|]. split; [|apply NoDup_singleton].
      intros x Hx ->%list_elem_of_singleton. done.
    + rewrite map_app, Hperm, <- app_assoc. done.
    + intros k. rewrite map_app, !entries_app, Horder, <- app_assoc. done.
  - assert (Hother : forall x, x ∈ tr_decided t -> x.1 ∈ delete i (running (tr_system t))).
    { intros x Hx. pose proof (Hdec x Hx) as Hr. rewrite (delete_Permutation _ _ _ Hi) in Hr.
      apply elem_of_cons in Hr as [Hr|Hr]; [|done]. destruct Hn. rewrite <- Hr. by apply list_elem_of_fmap_2. }
    split; cbn [tr_system tr_decided tr_log ended running emitted]; [|done..]. by eapply entries_delete.
  - assert (Hmem : (strand, e, id, d) ∈ tr_decided t) by by eapply list_elem_of_lookup_2.
    pose proof (delete_Permutation _ _ _ Hj) as Hdp. pose proof Hnd as Hnd'. rewrite Hdp in Hnd'. cbn [map fst] in Hnd'.
    apply NoDup_cons in Hnd' as [Hfresh Hnd'].
    split; cbn [tr_system tr_decided tr_log ended running emitted].
    + by eapply entries_delete.
    + intros x Hx. assert (Hr : x.1 ∈ running (tr_system t)) by (apply Hdec; rewrite Hdp; by right).
      rewrite (delete_Permutation _ _ _ Hi) in Hr. apply elem_of_cons in Hr as [Hr|Hr]; [|done].
      destruct Hfresh. rewrite <- Hr. by apply list_elem_of_fmap_2.
    + done.
    + rewrite Hperm, (Permutation_map pending_entry Hdp). cbn [map]. rewrite <- app_assoc. done.
    + intros k. rewrite Horder, entries_app, <- app_assoc. f_equal.
      destruct (decide (strand = k)) as [<-|Hk].
      * assert (Hnil : entries_on strand (map pending_entry (delete j (tr_decided t))) = []).
        { apply filter_none. intros x (y & -> & Hy)%list_elem_of_fmap Hk. destruct Hfresh.
          assert (Hr : y.1 ∈ running (tr_system t)) by (apply Hdec; rewrite Hdp; by right).
          rewrite <- (running_alone _ i (strand, e, id) y.1 Hone Hi Hr Hk). by apply list_elem_of_fmap_2. }
        rewrite Hnil, app_nil_r. unfold entries_on in *. transitivity [(strand, e, d)]; [|by rewrite filter_cons_True].
        apply Permutation_singleton_r. rewrite (Permutation_map pending_entry Hdp). cbn [map].
        rewrite filter_cons_True by done. by rewrite Hnil.
      * unfold entries_on. rewrite !filter_map_comm, filter_cons_False by done.
        by rewrite (filter_delete_other _ _ _ _ Hj) by done.
Qed.

Lemma trail_reachable_inv (c : PipelineConfig W) (t : Trail W) : trail_reachable c t -> trail_inv t.
Proof.
  intros (w0 & w & Hrun). assert (Hinit : trail_inv (mkTrail (system_new c) [] [])).
  { split; cbn; [intros k; simpl; lia|set_solver|constructor|done|done]. }
  revert Hinit. change (trail_inv (w0, mkTrail (system_new c) [] []).2 -> trail_inv (w, t).2).
  induction Hrun as [|[w1 t1] [w2 t2] z Hstep _ IH]; [done|]. intros Hinv. apply IH. by eapply trail_inv_step.
Qed.

(** Each decision given to [log_audit] has its record posted, if the logger takes it. *)
Lemma record_posted (ls : LogState) (logger : Logger) (t : Trail W) (x : Z * Event * Decision) :
  ls_audit ls = Some logger -> logs_info logger = true -> x ∈ tr_log t -> (logger, audit_line x.2) ∈ audit_records ls t.
Proof.
  intros Hls Hinfo Hx. apply list_elem_of_omap. exists x. split; [done|]. unfold log_audit. by rewrite Hls, Hinfo.
Qed.

Lemma records_filtered (ls : LogState) (logger : Logger) (t : Trail W) :
  ls_audit ls = Some logger -> logs_info logger = false -> audit_records ls t = [].
Proof.
  intros Hls Hinfo. unfold audit_records. induction (tr_log t) as [|x l IH]; [done|].
  simpl. unfold log_audit at 1. by rewrite Hls, Hinfo.
Qed.

(** At most one decision of a strand is between its record and its emission. *)
Lemma pending_one (t : Trail W) (k : Z) :
  trail_inv t -> (length (entries_on k (map pending_entry (tr_decided t))) <= 1)%nat.
Proof.
  intros [Hone Hdec Hnd _ _]. unfold entries_on. rewrite filter_map_comm, length_map.
  transitivity (length (filter (fun x : Z * Event * Z => x.1.1 = k) (map fst (tr_decided t)))).
  { rewrite filter_map_comm, length_map. done. }
  etransitivity; [|apply (Hone k)]. apply submseteq_length, NoDup_submseteq; [by apply NoDup_filter|].
  intros x [Hk Hx]%list_elem_of_filter. apply list_elem_of_filter. split; [done|].
  apply list_elem_of_fmap in Hx as (y & -> & Hy). by apply Hdec.
Qed.

(** ** Runs of the coarser system *)

Lemma with_optional_keeps {C : Type} (conf : option C) (stage : C -> stage_run W) (d : Decision)
    (k : Decision -> M W run_result) (w : W) (r : Decision) :
  (forall d w, (k d w).1 <> ValidationRejected r) -> (with_optional conf stage d k w).1 <> ValidationRejected r.
Proof.
  intros Hk. unfold with_optional. destruct conf as [x|]; [|apply Hk]. unfold with_stage, bindM.
  destruct (stage x w) as [[[[o|e]|what]|] w1]; [apply Hk|apply Hk|done..].
Qed.

Lemma run_event_keeps (c : PipelineConfig W) (s : StageSet W) (i : Z) (e : Event) (w : W) (r : Decision) :
  (run_event c s false i e w).1 <> ValidationRejected r.
Proof.
  unfold run_event, bindM. destruct (steady_now w) as [t w1]. destruct (system_now w1) as [at_ w2].
  destruct (run_ingest_ok s (event_set_id e i) w2) as (io & w3 & -> & _). cbn [andb].
  do 3 (apply with_optional_keeps; intros ? ?). unfold finish_decision, bindM, retM. by destruct (steady_now _).
Qed.

Lemma atomic_step_trail (w w' : W) (s s' : System W) (log : list (Z * Event * Decision)) :
  system_step (w, s) (w', s') -> exists log', rtc trail_step (w, mkTrail s [] log) (w', mkTrail s' [] log').
Proof.
  intros Hstep. destruct (decide (length (running s) <= length (running s'))%nat) as [Hle|Hgt].
  { exists log. apply rtc_once. by apply (trail_other w (mkTrail s [] log)). }
  inversion Hstep as [| | | | |? ? i strand e id d ? p' Hi Hs| | |]; subst; try (by exfalso; apply Hgt).
  - exfalso. apply Hgt. simpl. rewrite length_app. lia.
  - unfold run_task in Hs. destruct (stages (impl s)) as [ss|] eqn:Hss; [|done]. destruct (emit (impl s)) as [es|] eqn:Hes; [|done].
    pose proof (run_event_keeps (config (impl s)) ss id e w) as Hkeep.
    destruct (run_event (config (impl s)) ss false id e w) as [[r|r|what|] w1] eqn:Hr; simpl in Hkeep; [|by destruct (Hkeep r)| |done].
    + exists (log ++ [(strand, e, r)]).
      assert (H1' : trail_step (w, mkTrail s [] log) (w1, mkTrail s [(strand, e, id, r)] (log ++ [(strand, e, r)]))).
      { apply (trail_decides w (mkTrail s [] log) w1 i strand e id ss r); [done|simpl; set_solver|done|done]. }
      assert (H2' : d = Some r /\ exists o, emit_process es r w1 = (Some o, w') /\ p' = after_emit (impl s) o).
      { destruct (emit_process es r w1) as [[[[out es']|what]|] w2]; [..|done]; injection Hs as <- <- <-; (split; [done|]); by eexists. }
      destruct H2' as (-> & o & Ho & ->). eapply rtc_l; [exact H1'|]. apply rtc_once.
      by apply (trail_emits w1 (mkTrail s [(strand, e, id, r)] (log ++ [(strand, e, r)])) w' i 0 strand e id es r o).
    + injection Hs as <- <- <-. exists log. apply rtc_once.
      apply (trail_throws w (mkTrail s [] log) w1 i strand e id ss what); [done|simpl; set_solver|done|done].
Qed.

(** Every run of the system in which a task is one step is a run of the finer one. *)
Lemma system_run_trail (c : PipelineConfig W) (s : System W) :
  reachable c s -> exists log, trail_reachable c (mkTrail s [] log).
Proof.
  intros (w0 & w & Hrun). cut (exists log, rtc trail_step (w0, mkTrail (system_new c) [] []) (w, mkTrail s [] log)).
  { intros [log Hlog]. exists log. by exists w0, w. }
  change ((fun y => exists log, rtc trail_step (w0, mkTrail (system_new c) [] []) (y.1, mkTrail y.2 [] log)) (w, s)).
  apply (rtc_ind_r (R := system_step) _ (w0, system_new c)); [by exists []| |exact Hrun].
  intros [w1 s1] [w2 s2] _ Hstep [log Hlog]. destruct (atomic_step_trail _ _ _ _ log Hstep) as [log' Hlog'].
  exists log'. by transitivity (w1, mkTrail s1 [] log).
Qed.

End TrailLemmas.

(** ** Synchronous submissions *)

Section AuditedCalls.

Context {W : Type} `{Clock W} `{Workers W} `{StdSort}.
Variable c : PipelineConfig W.
Variable event_id : Z.
Variable event : Event.

(** The step that ends with the record of its decision. *)
Definition logs (s s' : SyncCall) : option Decision :=
  match coroutine s, coroutine s' with CoSpawned, CoDecides d => Some d | _, _ => None end.

(** A call, with the decisions it logged: the coroutine calls [log_audit] once
    its stages are through, before it looks at its context. *)
Inductive audited_step : W * (SyncCall * list Decision) -> W * (SyncCall * list Decision) -> Prop :=
| audited w w' s s' log :
    call_step c event_id event (w, s) (w', s') ->
    audited_step (w, (s, log)) (w', (s', log ++ option_list (logs s s'))).

Definition audited_reachable (t : StopToken) (s : SyncCall) (log : list Decision) : Prop :=
  exists w0 w, rtc audited_step (w0, (call_new t, [])) (w, (s, log)).

(** What the coroutine's position says of the log. *)
Definition audit_inv (s : SyncCall) (log : list Decision) : Prop :=
  match coroutine s with
  | CoSpawned => log = [] /\ emissions s = [] /\ sc_decision (ctx s) = None
  | CoRejects => log = [] /\ emissions s = [] /\ sc_decision (ctx s) = None
  | CoDecides d => log = [d] /\ emissions s = [] /\ sc_decision (ctx s) = None
  | CoEmits d => log = [d] /\ emissions s = [] /\ sc_decision (ctx s) = Some d
  | CoEmitted d => log = [d] /\ emissions s = [d] /\ sc_decision (ctx s) = Some d
  | CoEnded =>
      (length log <= 1)%nat /\
      ((emissions s = [] /\ sc_decision (ctx s) = None) \/
       exists d, log = [d] /\ emissions s = [d] /\ sc_decision (ctx s) = Some d)
  end.

Lemma audited_to (w w' : W) (s s' : SyncCall) (log log' : list Decision) :
  call_step c event_id event (w, s) (w', s') -> log' = log ++ option_list (logs s s') ->
  audited_step (w, (s, log)) (w', (s', log')).
Proof. intros Hcall ->. by constructor. Qed.

Lemma audit_inv_step (w w' : W) (s s' : SyncCall) (log log' : list Decision) :
  audit_inv s log -> audited_step (w, (s, log)) (w', (s', log')) -> audit_inv s' log'.
Proof.
  intros Hinv Hstep. inversion Hstep as [? ? ? ? ? Hcall]; subst. clear Hstep.
  destruct s as [who co [dec err can don] tok em].
  inversion Hcall as [? ? ? r next Hco Hr Hn|? ? Hco|? ? Hco|? ? d x go Hco Hcap|? ? ? d es r Hco He|? ? d Hco
    |? ? Hwho Hdone|? ? flag who' x Hwho Hdone Hflag Hfin|? ? flag Hwho|? ?|? ? ?]; subst; simpl in *; subst;
    unfold audit_inv, logs in *; simpl in *; rewrite ?app_nil_r.
  - destruct Hinv as (-> & -> & ->). destruct r; simpl in Hn; simplify_eq; simpl; try done.
    split; [lia|by left].
  - destruct Hinv as (-> & -> & ->). simpl. split; [lia|by left].
  - destruct Hinv as (-> & -> & ->). simpl. split; [lia|by left].
  - destruct Hinv as (-> & -> & ->). unfold capture_decision in Hcap. simpl in Hcap. destruct can; simplify_eq; simpl; [|done].
    split; [lia|by left].
  - destruct Hinv as (-> & -> & ->). destruct r; simpl; [done|]. split; [lia|right; by eexists].
  - destruct Hinv as (-> & -> & ->). simpl. split; [lia|right; by eexists].
  - destruct co; simpl; rewrite ?app_nil_r; done.
  - unfold finish_timed_out in Hfin. simpl in Hfin. simplify_eq. destruct co; simpl; rewrite ?app_nil_r; done.
  - destruct co; simpl; rewrite ?app_nil_r; done.
  - destruct co; simpl; rewrite ?app_nil_r; done.
  - destruct co; simpl; rewrite ?app_nil_r; done.
Qed.

Lemma audited_reachable_inv (t : StopToken) (s : SyncCall) (log : list Decision) :
  audited_reachable t s log -> audit_inv s log.
Proof.
  intros (w0 & w & Hrun).
  assert (Hgen : forall x y, rtc audited_step x y -> audit_inv x.2.1 x.2.2 -> audit_inv y.2.1 y.2.2).
  { induction 1 as [x|[w1 [s1 l1]] [w2 [s2 l2]] z Hstep _ IH]; [done|]. intros Hx. apply IH. by eapply audit_inv_step. }
  by apply (Hgen _ _ Hrun).
Qed.

(** The log is a history beside the call. *)
Lemma audited_reachable_call (t : StopToken) (s : SyncCall) (log : list Decision) :
  audited_reachable t s log -> call_reachable c event_id event t s.
Proof.
  intros (w0 & w & Hrun). exists w0, w.
  assert (Hgen : forall x y, rtc audited_step x y -> rtc (call_step c event_id event) (x.1, x.2.1) (y.1, y.2.1)).
  { induction 1 as [x|x y z Hstep _ IH]; [done|]. eapply rtc_l; [|exact IH]. by inversion Hstep; subst. }
  apply (Hgen _ _ Hrun).
Qed.

End AuditedCalls.

(** What is logged is what the stages made of the event. *)
Lemma audited_log_ok {W : Type} `{TimedWorkers W} `{StdSort} (c : PipelineConfig W) (event_id : Z) (event : Event)
    (t : StopToken) (s : SyncCall) (log : list Decision) :
  stages_ok (make_stages c) -> audited_reachable c event_id event t s log ->
  Forall (decision_ok c (make_stages c) event_id event) log.
Proof.
  intros Hok (w0 & w & Hrun).
  assert (Hgen : forall x y, rtc (audited_step c event_id event) x y ->
    Forall (decision_ok c (make_stages c) event_id event) x.2.2 -> Forall (decision_ok c (make_stages c) event_id event) y.2.2).
  { induction 1 as [x|x y z Hstep _ IH]; [done|]. intros Hx. apply IH.
    inversion Hstep as [? ? s1 s2 log' Hcall]; subst. simpl in *. apply Forall_app. split; [done|].
    unfold logs. destruct (coroutine s1) eqn:H1c; try apply Forall_nil_2. destruct (coroutine s2) as [| |d| | |] eqn:H2c; try apply Forall_nil_2.
    apply Forall_singleton. inversion Hcall as [? ? ? r next Hco Hr Hn| | | | | | | | | |]; subst; simpl in *; try congruence.
    destruct r; simpl in Hn; simplify_eq. by eapply sync_run_decides. }
  by apply (Hgen _ _ Hrun).
Qed.

(** A call that times out before its coroutine runs, and whose coroutine then
    decides, logs, and finds the context cancelled. *)
Section SampleAudit.

#[local] Existing Instance Stages.sample_clock.
#[local] Existing Instance Stages.sample_workers.

Definition late_decision : option (Decision * Z) :=
  match run_event example_config (make_stages example_config) true 7 example_event 0 with
  | (Decided d, w) => Some (d, w)
  | _ => None
  end.

(** A decision of the coroutine of [timed_out_call], after the call has returned. *)
Definition late_call : SyncCall :=
  mkSyncCall (CallerReturned (Unexpected SyncTimeout)) CoEnded (mkSyncContext None None true false) None [].

Lemma late_call_logged :
  exists d, option_map fst late_decision = Some d /\ audited_reachable example_config 7 example_event None late_call [d].
Proof.
  assert (Hsome : is_Some late_decision) by (vm_compute; by eexists).
  destruct Hsome as [[d w] Hd]. exists d. split; [by rewrite Hd|]. exists 0, w.
  unfold late_decision in Hd.
  destruct (run_event example_config (make_stages example_config) true 7 example_event 0) as [[r|r|what|] w'] eqn:Hrun; try done.
  injection Hd as -> ->.
  eapply rtc_l; [eapply audited_to; [by eapply (call_times_out _ _ _ 0 (call_new None) false)|reflexivity]|].
  eapply rtc_l; [eapply audited_to; [by eapply (call_fails _ _ _ 0 (mkSyncCall (CallerGaveUp false) CoSpawned _ None []) false)|reflexivity]|].
  eapply rtc_l; [eapply audited_to; [by eapply (call_run _ _ _ 0 w timed_out_call _ _ eq_refl Hrun eq_refl)|reflexivity]|].
  apply rtc_once. apply (audited_to _ _ _ _ _ _ _ _ _ (call_captures _ _ _ w (mkSyncCall (CallerReturned (Unexpected SyncTimeout))
    (CoDecides d) (mkSyncContext None None true false) None []) d _ false eq_refl eq_refl)). done.
Qed.

End SampleAudit.

(** The loggers of a configuration with an audit file. *)
Definition file_loggers : LogState :=
  mkLogState true None (Some (mkLogger "fre.audit" [AppendFile "audit.log"] None)).

(** ** Properties *)



(** C8: a synchronous call logs at most one decision, the one the stages made of
    its event, whatever its caller does; only what was logged is emitted, and a
    decision its caller was given was logged.  A call that failed may have logged
    one all the same ([late_call_logged]): its event then has an audit record and
    no emission. *)
Theorem sync_decision_logged {W : Type} `{TimedWorkers W} `{StdSort} (c : PipelineConfig W) (event_id : Z)
    (event : Event) (t : StopToken) (s : SyncCall) (log : list Decision)
    (Hok : stages_ok (make_stages c)) (Hs : audited_reachable c event_id event t s log) :
  (length log <= 1)%nat /\ Forall (decision_ok c (make_stages c) event_id event) log /\
  emissions s `prefix_of` log /\
  (forall d, caller s = CallerReturned (Ok d) -> log = [d]).
Proof.
  pose proof (audited_reachable_inv c event_id event t s log Hs) as Hinv.
  destruct (sync_inv_reachable c event_id event t s Hok (audited_reachable_call _ _ _ _ _ _ Hs)) as (_ & Hwho & _).
  split; [|split; [by apply (audited_log_ok c event_id event t s log Hok)|split]]; unfold audit_inv, caller_inv in *.
  - destruct (coroutine s); destruct Hinv as [Hlog _]; [subst; simpl; lia..|done].
  - destruct (coroutine s); try (by destruct Hinv as (_ & -> & _); apply prefix_nil).
    + by destruct Hinv as (-> & -> & _).
    + destruct Hinv as [_ [[-> _]|(d & -> & -> & _)]]; [apply prefix_nil|done].
  - intros d Hd. rewrite Hd in Hwho. destruct Hwho as [Hwho _].
    destruct (coroutine s); try (by destruct Hinv as (_ & _ & Hn); rewrite Hwho in Hn).
    + destruct Hinv as (-> & _ & Hn). congruence.
    + destruct Hinv as (-> & _ & Hn). congruence.
    + destruct Hinv as [_ [[_ Hn]|(d' & -> & _ & Hn)]]; congruence.
Qed.

Lemma sync_decision_logged_witness :
  exists d, option_map fst late_decision = Some d /\ emissions late_call = [] /\ emissions late_call `prefix_of` [d] /\
    decision_ok example_config (make_stages example_config) 7 example_event d.
Proof.
  destruct late_call_logged as (d & Hd & Hs). exists d. split; [exact Hd|]. split; [reflexivity|].
  destruct (sync_decision_logged (H1 := Stages.sample_timed) example_config 7 example_event None late_call [d]
    example_stages_ok Hs) as (_ & Hall & Hpre & _). split; [exact Hpre|]. exact (Forall_inv Hall).
Defined.
